(* ===== verification/_CoqProject ===== *)
-Q . S2P
Prelude.v
Enums.v
RunResult.v
Counters.v
Outcomes.v
AuditDerive.v
Parity.v
Triggers.v
TriggersTheory.v
CoalescePolicy.v
CoalesceExecutor.v
CoalesceTheory.v
Landscape.v
Coordination.v
CoordinationTheory.v
Scheduler.v
Emissions.v
Barrier.v
Lifecycle.v
SchedulerFacts.v
SchedulerRecovery.v
SchedulerReplay.v
BarrierReplay.v
QueueHistory.v
SchedulerTheory.v
BarrierTheory.v
ReadModel.v
Expressions.v
ExpressionTheory.v
Contracts.v
ContractFlow.v
SchemaCompat.v
UnionMerge.v
CoalesceMerge.v
ContractTheory.v
UnionTheory.v
CompatTheory.v
CoalesceMergeTheory.v
CoalesceSchema.v
Lineage.v
RowUnion.v
RowUnionTheory.v
RowUnionHistory.v
Graph.v
GroupBindings.v
BoundRegions.v
RegionTheory.v
Guarantees.v
GuaranteeTheory.v
Tokens.v
TokenTheory.v
TokenHistory.v
