(* ===== verification/Prelude.v ===== *)
(** * ELSPETH: a verification library for its run core

    ELSPETH runs a pipeline of plugins over rows and records, in an audit
    database called the Landscape, what became of every token (a row or a part
    of one).  This library models the parts of [src/src/elspeth/] that decide
    whether that record is right, and proves what they promise.  The plugins
    themselves, their I/O and the web application around them are outside.

    ** The program's parts

    - The _row loop_ takes each row's result, counts it and hands sink-bound
      tokens to the sink flush, which writes them in groups and reconciles the
      counters when a sink diverts rows ([engine/orchestrator/outcomes.py],
      [sink_flush.py], [types.py], [counter_classification.py]).  The run result
      validates the final counters ([contracts/run_result.py]), and the audit
      side derives the same status again from the recorded outcomes alone
      ([engine/orchestrator/run_status.py]).
    - _Aggregations_ collect rows until a trigger fires ([engine/triggers.py]);
      _coalesce barriers_ hold the branches of a fork until a policy says what
      to do ([engine/coalesce_policy.py], [coalesce_executor.py]); _row unions_
      hold them until all have arrived and release them unmerged
      ([row_union_executor.py]).  Which groups a token belongs to is written in
      its _lineage_, a path of frames ([contracts/identity.py]).
    - Forks, expansions, merges and collectors make new tokens.  The _token mint_
      ([core/landscape/data_flow/tokens.py]) writes each with its parents, its
      path and the record of the group it opens in one transaction, and
      recognises a call that is driven again after a crash.
    - Gates, triggers and value transforms evaluate _expressions_ that an
      operator wrote ([core/expression_parser.py]): Python's AST, a validator
      that bounds its depth and refuses what is not in the grammar, an evaluator,
      and static questions asked at configuration time.
    - Every row travels with a _contract_ that names and types its fields
      ([contracts/schema_contract.py] and its neighbours): inferred from the
      first row or configured, propagated through transforms, checked against
      the consumer's schema at build time, merged where branches or producers
      meet ([contracts/union_merge.py], [core/dag/coalesce_merge.py]), and
      restored from checkpoints and audit records under a hash.
    - The pipeline is an _execution graph_ ([core/dag/graph.py]).  At build time
      each fork that meets a barrier again and each declared scope becomes a
      _bound group_ with an opener and a closer ([group_bindings.py]); the
      region between the two is validated ([bound_regions.py]), so that at run
      time a token's lineage can be trusted; and walks over the graph compute
      which fields a node's rows are sure to have ([guarantees.py]).
    - Several processes may work on one run.  _Run coordination_
      ([core/landscape/run_coordination_repository.py]) gives each run one
      leader seat with a growing epoch, and each worker a membership that a
      leader may revoke; every write runs under a fence that checks one of the
      two in the transaction of the write.
    - The _token scheduler_ ([core/landscape/scheduler/]) is the durable work
      queue: rows are enqueued or ingested, claimed under a lease, renewed,
      disposed of by the holder, recovered from dead holders, and handed to the
      sinks by the leader; each change is recorded as an event.  The _barrier
      journal_ ([scheduler/barrier.py]) holds BLOCKED rows, lets a leader adopt
      them, and completes a barrier in one transaction.  Readers decide on
      draining, quiescence and resume ([scheduler/read_model.py],
      [verify_resume_coverage]).

    ** The files

    - [Prelude]: exceptions, the result monad, Python dicts and sorting, the
      hint database and the tactics that walk back through monadic code.
    - [Enums], [RunResult], [Counters], [Outcomes], [AuditDerive]: the
      vocabulary, the result record, the counters, the accumulator with routing
      and sink flush, and the audit derive; [Parity] relates them.
    - [Triggers] and [TriggersTheory]: the trigger evaluator over Python's
      floats, given by the laws of comparison and addition it relies on.
    - [CoalescePolicy], [CoalesceExecutor], [CoalesceTheory]: the decision
      matrix, the executor as a state with one function per operation, and the
      step relation over them.
    - [Lineage]: frames, tokens and the path operations.  [RowUnion]: the
      executor as a state monad over its maps and the part of the database it
      uses, whose writes may be refused; [RowUnionTheory] has the invariant and the steps, [RowUnionHistory]
      the theorems over whole runs and over a restore.
    - [Tokens]: the tables of tokens, parents, frames, groups and outcomes with
      their constraints, and the verbs as a state and error monad over them;
      [TokenTheory] has the invariant and what each verb mints, [TokenHistory]
      the theorems over all histories of mints.
    - [Graph]: nodes, edges and readers over the class [MultiDiGraph], which
      stands for networkx with its documented laws.  [GroupBindings]: the
      registry and how it is built; [BoundRegions]: the walks, the regions and
      the validators, with their theorems in [RegionTheory]; [Guarantees]: the
      walks with memory as a monad over the caller's dicts, and the schema that
      the builder gives a coalesce node ([core/dag/builder.py]), with their
      theorems in [GuaranteeTheory].
    - [Expressions] and [ExpressionTheory]: the syntax as an inductive type with
      the node classes of [ast], the validator and the evaluator as recursive
      functions, what Python does with values as the class [PyOps].
    - [Contracts], [ContractFlow], [SchemaCompat]: contracts with their fields
      and the rows that carry them, with Python's values as an inductive type;
      the builder, the factory, propagation and audit records; the check of a
      producer's schema against a consumer's.  [UnionMerge] and [CoalesceMerge]:
      the union and the join of contracts, the schema of a coalesce node, and
      [build_coalesce_merge], which merges the rows.  [ContractTheory],
      [UnionTheory], [CompatTheory], [CoalesceMergeTheory] and [CoalesceSchema]
      (what the schema of a coalesce node says of its rows) hold their
      theorems; the digest of a contract is the class [Digest].
    - [Landscape]: the tables as finite maps and logs, transactions as a state
      and error monad over a connection, [begin_write] with rollback and the
      commit guard on issued deadlines.  The environment (clocks, digests, ids,
      database faults) is the class [Env].
    - [Coordination] and [CoordinationTheory]: the verbs of the seat and of the
      memberships, and the preorder in which every verb moves the database.
    - [Scheduler], [Emissions], [Barrier], [ReadModel]: one definition per verb
      of the queue, of the verbs that emit work with another write, of the
      barrier journal, and of the readers; the body of a verb is the body of
      its [with] block, under the fence of [Coordination] that it names.
    - [Lifecycle]: the abstract machine of a work item, that is, the legal edges
      of one row and the moves of the table, with the rows named whose adoption
      marker may be cleared.  [SchedulerFacts] and
      [SchedulerRecovery] hold the lemmas on statements, [SchedulerReplay] and
      [BarrierReplay] those on verbs, [QueueHistory] the relation of all
      histories of verbs, [SchedulerTheory] and [BarrierTheory] the guarantees.

    ** What the theorems show

    - _Bookkeeping_ ([Parity], [RunResult], [Counters]): the live counters after
      the loop and the flush, and those derived from the audit records, both
      make a result; the parity assertion accepts them exactly when the source
      rows agree and no more failed barriers were announced than recorded, and
      the terminal statuses are the same if all were announced; a refused reconciliation changes nothing;
      the result record accepts exactly the statuses its counters imply.
    - _Triggers_: the latches depend on the set of arrival times and not on
      their order, the first to fire wins, a checkpoint restores them.
    - _Coalesce_: a group closed in the database, or in memory while its key is
      retained, stays closed; the final flush resolves every group or ends with
      the exception of a merge; a loss fails a group exactly when nothing could save it.
    - _Lineage_: a path round-trips through the journal, and a merging closer
      truncates exactly at its own frame.
    - _Token mint_: every path on record can be read and names groups on record,
      whose counts are exact; a coalesce and a collector give back the path on
      which the fork or the expansion was built, from supplied and from recorded
      paths; a fork that is driven again returns what it committed while its
      parent has no other children, except that a fork on the popped path of a
      token that a row union released is refused ever after.
    - _Row unions_: while no operation raises, accepted tokens are held, released
      or failed, each once, and in every run what was held is held or finished
      on record; a closed group is released again by the reconciliation of a
      resume only; a release is whole, ordered and
      changes only the union's own frame; the flush leaves nothing; a restart
      from the journal rebuilds what was held.
    - _Graph_: frames resolve to one binding, as the routing maps say, and a
      registration binds its own group and no other; accepted
      regions form a forest, have one entry and one exit, and what opens inside
      one closes inside it; the memory of the guarantee walk does not change an
      answer, rows carry the guaranteed fields, merged rows too, if plugins keep
      what they declare, and the fields said to arrive are exactly those that some path
      carries on.
    - _Expressions_: what the constructor accepts never reaches the evaluator's
      security errors and, on a row, fails only with evaluation errors; the
      depth guard is exact; the classifications (boolean, free of sets, complete
      list of fields, spelled-out keys) mean what they say, the third except for
      a bare row in the key of a receiver, which the validator lets through.
    - _Contracts_: access to a row by either name, its index and the test for
      presence agree; rows, checkpoints and audit records round-trip, and a
      tampered checkpoint needs a collision of the hash; a first row
      violates the contract it locks only where it violated the declared part;
      what the build finds compatible, the rows pass.
    - _Merging_: the join of a batch describes every member's rows and does not
      depend on order (the pairwise fold of the sink describes them too, but
      does depend on it); each field of a merged row has the origin that is
      recorded; a union of sound rows is sound if not all branches must arrive
      or collisions fail, and need not be otherwise; guarantees of the node hold
      of its rows; conflicts and collisions refused as certain are.
    - _Coordination_: a deposed leader can write nothing more, epochs only
      grow, a seat is taken only from the dead and can be taken from them unless
      the run is a finished success.
    - _Queue_: the event log replays to exactly the queue; every history is a
      sequence of legal moves, so finished work is final, no work is lost and
      lease columns fit the status; claims take the first row, only the holder
      disposes of it, recovery takes exactly the abandoned rows.
    - _Barriers and resume_: a completed barrier accounts for every held row, a
      row is adopted once until a restore resets it, a quiescent run is still, and resume is refused
      exactly when some token would never be processed.

    ** Choices

    Integers are Python's unbounded ones ([Z], or [nat] for counts); instants
    and intervals are microseconds, except in [Triggers].  An exception is a
    value of [exc]: its class and, where it helps, the site.  Fuel occurs in five
    places: the bisection of [Triggers] runs on the length of its list plus one,
    the slices of [ReadModel] on the length of the list of ids, the depth guard
    of [Expressions] on the number of nodes, the passes of [UnionMerge] over
    original names on the number of fields, the walks of [BoundRegions] and
    [Guarantees] on the number of nodes plus one; all are proved enough, the
    walks of [Guarantees] on acyclic graphs, which the build demands.  Recursion is
    structural elsewhere.

    Histories are sequences of whole transactions.  SQLite serialises writers
    and PostgreSQL is brought to the same effect by row locks; the locks, and
    retries on contention, are not modelled.  A refused verb still records its
    refusal event, and a failed best-effort write loses it.  Code outside these
    files enters as a parameter: the merge in the coalesce executor (whose
    pure part [CoalesceMerge] defines), the trigger condition, the sinks'
    verdicts, the insertion of rows and tokens during an ingest, and for the
    token mint its fences, payload references and digests.  The writes of a row
    union run under fences too: a list of refusals says of each whether it is
    refused and with what exception, for any list.  Row payloads are
    opaque to the queue.  Python's dicts are association lists in insertion order, sets in contracts are lists without
    regard to order, and the classes of numpy and pandas that contracts know are
    constructors of values.

    ** Not modelled

    The row processor and the orchestrator around the modelled parts, the
    executors of aggregations and collectors, the restore of their barriers and
    of coalesce barriers after a crash, the finalisation of a merge and the
    creation of source tokens, the completion of runs, the texts of evaluation
    errors and the row objects with contracts that an expression may be given,
    the parsing of field specifications, the graph builder (but for the
    schema of a coalesce node) and the other rules of its validation, persistence and export of the
    Landscape, plugins, the command line, the TUI, the MCP server, the web
    application, telemetry. *)

From stdpp Require Export base option list gmap strings sorting.
From Stdlib Require Export ZArith Lia.

#[export] Set Default Goal Selector "!".

Open Scope Z_scope.

(** ** Exceptions

    The Python code signals failure by raising.  Each constructor is one
    exception class; its string is the fixed prefix of the message that the
    raise site builds, so that two raise sites of one function stay apart. *)
Inductive exc :=
  | ValueError (site : string)
  | TypeError (site : string)
  | RuntimeError (site : string)
  | KeyError (site : string)
  | AuditIntegrityError (site : string)
  | OrchestrationInvariantError (site : string)
  | LandscapeRecordError (site : string)
  | NonResumableRunError (site : string)
  | JoinRefusedError (site : string)
  | RunLeadershipLostError
  | RunMembershipLostError
  | RunWorkerEvictedError
  | SchedulerLeaseLostError
  | LeaseDeadlineExpiredError
  | GracefulShutdownError
  | IntegrityError (constraint : string)
  | ContractMergeError (field type_a type_b : string)
  | GraphValidationError (site : string)
  | CoalesceCollisionError (fields : list string)
  | FrameworkBugError (site : string).

#[export] Instance exc_eq_dec : EqDecision exc.
Proof. solve_decision. Defined.

(** ** Fallible computations *)
Inductive res (A : Type) :=
  | Ok (a : A)
  | Err (e : exc).
Arguments Ok {A} a.
Arguments Err {A} e.

#[export] Instance res_ret : MRet res := fun A a => Ok a.
#[export] Instance res_bind : MBind res := fun A B f m =>
  match m with Ok a => f a | Err e => Err e end.
#[export] Instance res_fmap : FMap res := fun A B f m =>
  match m with Ok a => Ok (f a) | Err e => Err e end.

#[export] Instance res_eq_dec {A} `{EqDecision A} : EqDecision (res A).
Proof. solve_decision. Defined.

Definition is_ok {A} (m : res A) : bool :=
  match m with Ok _ => true | Err _ => false end.

Declare Scope elspeth_scope.
Delimit Scope elspeth_scope with elspeth.
Open Scope elspeth_scope.

(** [reject b with e ;; k] is the statement [if b: raise e] followed by [k]. *)
Notation "'reject' b 'with' e ;; k" :=
  (if (b : bool) then Err e else k)
  (at level 10, b at level 99, e at level 99, k at level 200) : elspeth_scope.

Section res_lemmas.
Context {A B : Type}.

Lemma bind_ok (m : res A) (f : A -> res B) b :
  m ≫= f = Ok b <-> exists a, m = Ok a /\ f a = Ok b.
Proof. destruct m; cbn; split; naive_solver. Qed.

Lemma bind_err (m : res A) (f : A -> res B) e :
  m ≫= f = Err e <-> m = Err e \/ exists a, m = Ok a /\ f a = Err e.
Proof. destruct m; cbn; split; naive_solver. Qed.

(** Sequencing a check: [check(); k]. *)
Lemma seq_ok (m : res unit) (k : res A) a :
  (m ≫= fun _ => k) = Ok a <-> m = Ok tt /\ k = Ok a.
Proof. destruct m as [[]|]; cbn; split; naive_solver. Qed.

Lemma is_ok_true (m : res A) : is_ok m = true <-> exists a, m = Ok a.
Proof. destruct m; cbn; split; naive_solver. Qed.
End res_lemmas.

(** ** Decidable tests as booleans *)
Notation "x == y" := (bool_decide (x = y)) (at level 70, no associativity) : elspeth_scope.

Definition is_some {A} (o : option A) : bool :=
  match o with Some _ => true | None => false end.

Definition is_none {A} (o : option A) : bool := negb (is_some o).

(** ** Tactics *)

(** Split every conjunction and boolean test in the context into facts. *)
Ltac bool_facts :=
  repeat match goal with
  | H : andb _ _ = true |- _ => apply andb_true_iff in H as [? ?]
  | H : orb _ _ = false |- _ => apply orb_false_iff in H as [? ?]
  | H : negb _ = true |- _ => apply negb_true_iff in H
  | H : negb _ = false |- _ => apply negb_false_iff in H
  | H : bool_decide _ = true |- _ => apply bool_decide_eq_true_1 in H
  | H : bool_decide _ = false |- _ => apply bool_decide_eq_false_1 in H
  end.

(** Walk back through a successful monadic computation. *)
Ltac inv_ok :=
  repeat match goal with
  | H : Ok _ = Ok _ |- _ => injection H as H; subst
  | H : Err _ = Ok _ |- _ => discriminate H
  | H : Ok _ = Err _ |- _ => discriminate H
  | H : mbind _ _ = Ok _ |- _ => apply bind_ok in H as (? & ? & H)
  | H : (let '(_, _) := ?p in _) = Ok _ |- _ => destruct p eqn:?
  | H : (if ?b then Err _ else _) = Ok _ |- _ => destruct b eqn:?; [discriminate H|]
  end.

(** ** Lists *)

Lemma existsb_none {A} (f : A -> bool) l x : existsb f l = false -> x ∈ l -> f x = false.
Proof.
  intros Hn Hx. apply not_true_iff_false. intros Hf. apply not_true_iff_false in Hn. apply Hn, existsb_exists.
  exists x. by rewrite <- list_elem_of_In.
Qed.

Lemma filter_all {A} (P : A -> Prop) `{forall x, Decision (P x)} (l : list A) : Forall P l -> filter P l = l.
Proof. induction 1 as [|x l Hx _ IH]; [done|]. rewrite filter_cons, decide_True by done. by rewrite IH. Qed.

Lemma filter_none {A} (P : A -> Prop) `{forall x, Decision (P x)} (l : list A) : (forall x, x ∈ l -> ~ P x) -> filter P l = [].
Proof.
  intros Hl. destruct (filter P l) as [|x k] eqn:E; [done|]. assert (Hx : x ∈ filter P l) by (rewrite E; by left).
  apply list_elem_of_filter in Hx as [Hp Hx]. by destruct (Hl x Hx).
Qed.

Lemma remove_dups_id {A} `{EqDecision A} (l : list A) : NoDup l -> remove_dups l = l.
Proof. induction 1 as [|x l Hx _ IH]; cbn; [done|]. destruct (decide_rel _ x l); [done|]. by rewrite IH. Qed.

(** Python's [sorted] for the order [leb]: an insertion sort that keeps the
    input order of equal elements. *)
Section sorted.
Context {A : Type} (leb : A -> A -> bool).

Fixpoint insert_sorted (x : A) (l : list A) : list A :=
  match l with
  | [] => [x]
  | y :: l' => if leb x y then x :: l else y :: insert_sorted x l'
  end.

Fixpoint sort_by (l : list A) : list A :=
  match l with [] => [] | x :: l' => insert_sorted x (sort_by l') end.

Lemma insert_sorted_perm x l : insert_sorted x l ≡ₚ x :: l.
Proof.
  induction l as [|y l IH]; cbn; [done|]. destruct (leb x y); [done|].
  rewrite IH. apply Permutation_swap.
Qed.

Lemma sort_by_perm l : sort_by l ≡ₚ l.
Proof. induction l as [|x l IH]; cbn; [done|]. by rewrite insert_sorted_perm, IH. Qed.

Lemma sort_by_length l : length (sort_by l) = length l.
Proof. by rewrite sort_by_perm. Qed.

Context (Htotal : forall x y, leb x y = true \/ leb y x = true).
Context (Htrans : forall x y z, leb x y = true -> leb y z = true -> leb x z = true).

Lemma insert_sorted_sorted x l :
  StronglySorted (fun a b => leb a b = true) l ->
  StronglySorted (fun a b => leb a b = true) (insert_sorted x l).
Proof.
  induction l as [|y l IH]; cbn; intros Hs; [by repeat constructor|].
  apply StronglySorted_inv in Hs as [Hs Hy].
  destruct (leb x y) eqn:Hxy.
  - constructor; [by constructor|]. constructor; [done|].
    eapply Forall_impl; [exact Hy|]. eauto.
  - constructor; [auto|]. rewrite insert_sorted_perm. constructor; [|done].
    destruct (Htotal x y); congruence.
Qed.

Lemma sort_by_sorted l : StronglySorted (fun a b => leb a b = true) (sort_by l).
Proof. induction l; cbn; [constructor|]. by apply insert_sorted_sorted. Qed.

(** The head of the result is the first of the least elements. *)
Lemma sort_by_head l x :
  head (sort_by l) = Some x ->
  exists l1 l2, l = l1 ++ x :: l2 /\
    Forall (fun y => leb y x = false) l1 /\ Forall (fun y => leb x y = true) l2.
Proof.
  revert x. induction l as [|y l IH]; intros x Hx; cbn in Hx; [done|].
  destruct (sort_by l) as [|z l'] eqn:Es; cbn in Hx.
  { injection Hx as <-. exists [], l. split; [done|]. split; [constructor|].
    assert (l = []) as -> by (apply Permutation_nil_r; by rewrite <- (sort_by_perm l), Es). constructor. }
  destruct (IH z eq_refl) as (l1 & l2 & -> & H1 & H2).
  destruct (leb y z) eqn:Eyz; injection Hx as <-.
  - exists [], (l1 ++ z :: l2). split; [done|]. split; [constructor|].
    apply Forall_app. split; [|constructor; [done|eapply Forall_impl; [exact H2|]; eauto]].
    eapply Forall_impl; [exact H1|]. intros w Hw. destruct (Htotal w z) as [?|Hzw]; [congruence|]. eauto.
  - exists (y :: l1), l2. split; [done|]. split; [by constructor|done].
Qed.

Context (Hanti : forall x y, leb x y = true -> leb y x = true -> x = y).

Lemma sorted_perm_eq l1 l2 :
  StronglySorted (fun a b => leb a b = true) l1 ->
  StronglySorted (fun a b => leb a b = true) l2 -> l1 ≡ₚ l2 -> l1 = l2.
Proof.
  revert l2. induction l1 as [|x l1 IH]; intros l2 H1 H2 Hp.
  { by apply Permutation_nil_l in Hp. }
  destruct l2 as [|y l2]; [by apply Permutation_nil_r in Hp|].
  apply StronglySorted_inv in H1 as [S1 F1]. apply StronglySorted_inv in H2 as [S2 F2].
  rewrite Forall_forall in F1, F2.
  assert (x = y) as ->.
  { assert (x ∈ y :: l2) as Hx by (rewrite <- Hp; set_solver).
    assert (y ∈ x :: l1) as Hy by (rewrite Hp; set_solver).
    apply elem_of_cons in Hx as [->|Hx]; [done|]. apply elem_of_cons in Hy as [->|Hy]; [done|].
    auto. }
  f_equal. apply IH; [done..|]. by eapply Permutation_cons_inv.
Qed.

(** Sorting by a total order forgets the input order. *)
Lemma sort_by_perm_eq l1 l2 : l1 ≡ₚ l2 -> sort_by l1 = sort_by l2.
Proof.
  intros Hp. apply sorted_perm_eq; [apply sort_by_sorted..|]. by rewrite !sort_by_perm.
Qed.
End sorted.

(** Python's order on strings. *)
Lemma ascii_leb_trans a b c :
  Ascii.compare a b <> Gt -> Ascii.compare b c <> Gt -> Ascii.compare a c <> Gt /\
  (Ascii.compare a c = Eq -> Ascii.compare a b = Eq /\ Ascii.compare b c = Eq).
Proof.
  unfold Ascii.compare. rewrite !N.compare_le_iff, !N.compare_eq_iff. lia.
Qed.

Lemma string_leb_trans s1 s2 s3 : String.leb s1 s2 = true -> String.leb s2 s3 = true -> String.leb s1 s3 = true.
Proof.
  assert (forall a b, String.leb a b = true <-> String.compare a b <> Gt) as Hle.
  { intros a b. unfold String.leb. destruct (String.compare a b); naive_solver. }
  rewrite !Hle. clear Hle. revert s2 s3. induction s1 as [|a s1 IH]; intros [|b s2] [|c s3]; cbn; try done.
  intros H1 H2. assert (Ascii.compare a b <> Gt) as Hab by (by destruct (Ascii.compare a b)).
  assert (Ascii.compare b c <> Gt) as Hbc by (by destruct (Ascii.compare b c)).
  destruct (ascii_leb_trans _ _ _ Hab Hbc) as [Hac Heq].
  destruct (Ascii.compare a c); try done. destruct Heq as [E1 E2]; [done|]. rewrite E1 in H1. rewrite E2 in H2. eauto.
Qed.

(** [sorted] on strings depends on the elements only. *)
Lemma sort_strings_perm l1 l2 : l1 ≡ₚ l2 -> sort_by String.leb l1 = sort_by String.leb l2.
Proof. apply sort_by_perm_eq; [apply String.leb_total|apply string_leb_trans|apply String.leb_antisym]. Qed.

(** [itertools.groupby]: maximal runs of consecutive elements with one key. *)
Section groupby.
Context {A K : Type} `{EqDecision K} (key : A -> K).

Fixpoint groupby (l : list A) : list (list A) :=
  match l with
  | [] => []
  | x :: l' =>
      match groupby l' with
      | (y :: g) :: gs => if key x == key y then (x :: y :: g) :: gs else [x] :: (y :: g) :: gs
      | gs => [x] :: gs
      end
  end.

Lemma groupby_concat l : concat (groupby l) = l.
Proof.
  induction l as [|x l IH]; cbn; [done|].
  destruct (groupby l) as [|[|y g] gs]; cbn in *; [by subst| by rewrite IH|].
  destruct (key x == key y); cbn; by rewrite <- IH.
Qed.

(** Every group is non-empty and has one key. *)
Lemma groupby_uniform l :
  Forall (fun g => exists x g', g = x :: g' /\ Forall (fun y => key y = key x) g') (groupby l).
Proof.
  induction l as [|x l IH]; cbn; [constructor|].
  destruct (groupby l) as [|[|y g] gs]; cbn in *.
  - by repeat econstructor.
  - apply Forall_cons in IH as [(? & ? & ? & _) _]. done.
  - destruct (bool_decide_reflect (key x = key y)) as [He|He].
    + apply Forall_cons in IH as [(? & ? & [= <- <-] & Hg) IH].
      constructor; [|done]. eexists _, _; split; [done|].
      constructor; [done|]. eapply Forall_impl; [done|]. intros z ->. done.
    + constructor; [|done]. by repeat econstructor.
Qed.
End groupby.

Lemma lookup_app_last {A} (l : list A) x : (l ++ [x]) !! length l = Some x.
Proof. rewrite lookup_app_r by lia. by rewrite Nat.sub_diag. Qed.

(** Sum of a [Z]-valued measure over a list. *)
Definition sum_over {A} (f : A -> Z) (l : list A) : Z := foldr (fun x s => f x + s) 0 l.

Arguments sum_over : simpl never.

Section sum_over.
Context {A : Type}.
  Implicit Types (f g : A -> Z) (l : list A).

Lemma sum_over_cons f x l : sum_over f (x :: l) = f x + sum_over f l.
Proof. done. Qed.

Lemma sum_over_app f l1 l2 : sum_over f (l1 ++ l2) = sum_over f l1 + sum_over f l2.
Proof. induction l1 as [|x l1 IH]; cbn in *; [done|]. rewrite !sum_over_cons. lia. Qed.

Lemma sum_over_perm f l1 l2 : l1 ≡ₚ l2 -> sum_over f l1 = sum_over f l2.
Proof. induction 1; rewrite ?sum_over_cons; cbn; lia. Qed.

Lemma sum_over_plus f g l : sum_over (fun x => f x + g x) l = sum_over f l + sum_over g l.
Proof. induction l as [|x l IH]; [done|]. rewrite !sum_over_cons. lia. Qed.

Lemma sum_over_ext f g l : Forall (fun x => f x = g x) l -> sum_over f l = sum_over g l.
Proof. induction 1 as [|x l He _ IH]; [done|]. rewrite !sum_over_cons. lia. Qed.

Lemma sum_over_nonneg f l : Forall (fun x => 0 <= f x) l -> 0 <= sum_over f l.
Proof. induction 1; [done|]. rewrite sum_over_cons. lia. Qed.
End sum_over.

Lemma sum_over_concat {A} (f : A -> Z) (ls : list (list A)) :
  sum_over f (concat ls) = sum_over (sum_over f) ls.
Proof. induction ls as [|l ls IH]; cbn in *; [done|]. by rewrite sum_over_app, IH, sum_over_cons. Qed.

Lemma sum_over_map {A B} (h : A -> B) (f : B -> Z) l : sum_over f (map h l) = sum_over (fun x => f (h x)) l.
Proof. induction l as [|x l IH]; cbn in *; [done|]. by rewrite !sum_over_cons, IH. Qed.

(** ** Dictionaries

    A Python dict as the list of its items in insertion order: setting an
    existing key keeps its place, a new key goes to the end. *)
Section dict.
Context {K V : Type} `{EqDecision K}.
  Implicit Types (d : list (K * V)) (k : K) (v : V).

Fixpoint dict_get d k : option V :=
  match d with [] => None | (k', v) :: d' => if k' == k then Some v else dict_get d' k end.

Definition dict_mem d k : bool := is_some (dict_get d k).

Fixpoint dict_set d k v : list (K * V) :=
  match d with
  | [] => [(k, v)]
  | (k', v') :: d' => if k' == k then (k', v) :: d' else (k', v') :: dict_set d' k v
  end.

Fixpoint dict_del d k : list (K * V) :=
  match d with
  | [] => []
  | (k', v') :: d' => if k' == k then d' else (k', v') :: dict_del d' k
  end.

Lemma dict_get_set d k v k' : dict_get (dict_set d k v) k' = if k == k' then Some v else dict_get d k'.
Proof.
  induction d as [|[k0 v0] d IH]; cbn; [done|].
  destruct (bool_decide_reflect (k0 = k)) as [->|Hne]; cbn; [by destruct (k == k')|].
  destruct (bool_decide_reflect (k0 = k')) as [->|Hne']; [|done].
  by rewrite bool_decide_eq_false_2 by congruence.
Qed.

Lemma dict_mem_set d k v k' : dict_mem (dict_set d k v) k' = (k == k') || dict_mem d k'.
Proof. unfold dict_mem. rewrite dict_get_set. by destruct (k == k'). Qed.

Lemma dict_get_None d k : dict_get d k = None <-> k ∉ d.*1.
Proof.
  induction d as [|[k0 v0] d IH]; cbn; [split; [intros _; apply not_elem_of_nil|done]|].
  rewrite not_elem_of_cons. destruct (bool_decide_reflect (k0 = k)) as [->|Hne]; naive_solver.
Qed.

Lemma dict_mem_keys d k : dict_mem d k = true <-> k ∈ d.*1.
Proof.
  unfold dict_mem. destruct (dict_get d k) eqn:E; cbn.
  - split; [|done]. intros _. destruct (decide (k ∈ d.*1)) as [|Hn]; [done|].
    apply dict_get_None in Hn. congruence.
  - apply dict_get_None in E. done.
Qed.

Lemma dict_get_elem d k v : dict_get d k = Some v -> (k, v) ∈ d.
Proof.
  induction d as [|[k0 v0] d IH]; cbn; [done|].
  destruct (bool_decide_reflect (k0 = k)) as [->|Hne]; [intros [= ->]; set_solver|].
  intros Hd. apply IH in Hd. set_solver.
Qed.

Lemma dict_get_unique d k v : NoDup d.*1 -> (k, v) ∈ d -> dict_get d k = Some v.
Proof.
  induction d as [|[k0 v0] d IH]; cbn; [intros _ Hx; by apply elem_of_nil in Hx|].
  intros [Hn Hd]%NoDup_cons [[= -> ->]|Hx]%elem_of_cons; [by rewrite bool_decide_eq_true_2|].
  rewrite bool_decide_eq_false_2; [auto|]. intros ->. apply Hn.
  change k with ((k, v).1). by apply list_elem_of_fmap_2.
Qed.

Lemma dict_get_del d k k' :
  NoDup d.*1 -> dict_get (dict_del d k) k' = if k == k' then None else dict_get d k'.
Proof.
  induction d as [|[k0 v0] d IH]; cbn; [by destruct (k == k')|]. intros [Hn Hd]%NoDup_cons.
  destruct (bool_decide_reflect (k0 = k)) as [->|Hne]; cbn.
  - destruct (bool_decide_reflect (k = k')) as [Hk|]; [rewrite <- Hk; by apply dict_get_None|done].
  - rewrite IH by done. destruct (bool_decide_reflect (k0 = k')) as [->|Hne']; [|done].
    by rewrite bool_decide_eq_false_2 by congruence.
Qed.

Lemma dict_set_keys d k v k' : k' ∈ (dict_set d k v).*1 <-> k' = k \/ k' ∈ d.*1.
Proof.
  rewrite <- !dict_mem_keys, dict_mem_set. destruct (bool_decide_reflect (k = k')); cbn; naive_solver.
Qed.

Lemma dict_set_nodup d k v : NoDup d.*1 -> NoDup (dict_set d k v).*1.
Proof.
  induction d as [|[k0 v0] d IH]; cbn; [intros; apply NoDup_singleton|]. intros [Hn Hd]%NoDup_cons.
  destruct (bool_decide_reflect (k0 = k)) as [->|Hne]; cbn; apply NoDup_cons; [done|].
  split; [|auto]. rewrite dict_set_keys. naive_solver.
Qed.

Lemma dict_set_new d k v : dict_get d k = None -> dict_set d k v = d ++ [(k, v)].
Proof.
  induction d as [|[k0 v0] d IH]; cbn; [done|].
  destruct (k0 == k); [done|]. intros Hd. by rewrite IH.
Qed.

Lemma dict_del_sub d k x : x ∈ dict_del d k -> x ∈ d.
Proof.
  induction d as [|[k0 v0] d IH]; cbn; [done|].
  destruct (k0 == k); [set_solver|]. intros [->|Hx]%elem_of_cons; [set_solver|]. apply IH in Hx. set_solver.
Qed.

Lemma dict_del_nodup d k : NoDup d.*1 -> NoDup (dict_del d k).*1.
Proof.
  induction d as [|[k0 v0] d IH]; cbn; [done|]. intros [Hn Hd]%NoDup_cons.
  destruct (k0 == k); [done|]. cbn. apply NoDup_cons. split; [|auto].
  intros (x & Hx & Hin)%list_elem_of_fmap. apply dict_del_sub in Hin. apply Hn. rewrite Hx.
  by apply list_elem_of_fmap_2.
Qed.
End dict.

Create HintDb elspeth.
#[export] Hint Resolve lookup_app_last sort_by_perm dict_set_nodup dict_del_nodup : elspeth.
