(* ===== verification/Enums.v ===== *)
(** * Status vocabularies (src/elspeth/contracts/enums.py)

    The closed enumerations the engine stores in the audit database, the set
    of legal (outcome, path) pairs, and the import-time exhaustiveness guards
    that the module runs over them. *)

From S2P Require Import Prelude.

Inductive RunStatus :=
  | RUNNING | COMPLETED | COMPLETED_WITH_FAILURES | FAILED | EMPTY | INTERRUPTED.
#[export] Instance RunStatus_eq_dec : EqDecision RunStatus.
Proof. solve_decision. Defined.

Inductive TriggerType := COUNT | TIMEOUT | CONDITION | END_OF_SOURCE.
#[export] Instance TriggerType_eq_dec : EqDecision TriggerType.
Proof. solve_decision. Defined.

Inductive TerminalOutcome := SUCCESS | FAILURE | TRANSIENT.
#[export] Instance TerminalOutcome_eq_dec : EqDecision TerminalOutcome.
Proof. solve_decision. Defined.

Inductive TerminalPath :=
  | DEFAULT_FLOW | GATE_ROUTED | GATE_DISCARDED | GATE_ERROR_DISCARDED
  | ON_ERROR_ROUTED | FILTER_DROPPED | COALESCED | UNROUTED
  | QUARANTINED_AT_SOURCE | SINK_FALLBACK_TO_FAILSINK | SINK_DISCARDED
  | FORK_PARENT | EXPAND_PARENT | BATCH_CONSUMED | BUFFERED | ABANDONED.
#[export] Instance TerminalPath_eq_dec : EqDecision TerminalPath.
Proof. solve_decision. Defined.

Definition all_outcomes : list TerminalOutcome := [SUCCESS; FAILURE; TRANSIENT].

Definition all_paths : list TerminalPath :=
  [DEFAULT_FLOW; GATE_ROUTED; GATE_DISCARDED; GATE_ERROR_DISCARDED;
   ON_ERROR_ROUTED; FILTER_DROPPED; COALESCED; UNROUTED;
   QUARANTINED_AT_SOURCE; SINK_FALLBACK_TO_FAILSINK; SINK_DISCARDED;
   FORK_PARENT; EXPAND_PARENT; BATCH_CONSUMED; BUFFERED; ABANDONED].

Lemma all_outcomes_complete o : o ∈ all_outcomes.
Proof. destruct o; vm_compute; repeat constructor. Qed.

Lemma all_paths_complete p : p ∈ all_paths.
Proof. destruct p; vm_compute; repeat constructor. Qed.

(** [_LEGAL_TERMINAL_PAIRS]. *)
Definition LEGAL_TERMINAL_PAIRS : list (TerminalOutcome * TerminalPath) :=
  [(SUCCESS, DEFAULT_FLOW); (SUCCESS, GATE_ROUTED); (SUCCESS, GATE_DISCARDED);
   (FAILURE, GATE_ERROR_DISCARDED); (FAILURE, ON_ERROR_ROUTED);
   (SUCCESS, FILTER_DROPPED); (SUCCESS, COALESCED); (FAILURE, UNROUTED);
   (FAILURE, QUARANTINED_AT_SOURCE); (TRANSIENT, SINK_FALLBACK_TO_FAILSINK);
   (FAILURE, SINK_DISCARDED); (TRANSIENT, FORK_PARENT);
   (TRANSIENT, EXPAND_PARENT); (TRANSIENT, BATCH_CONSUMED)].

Definition NON_TERMINAL_PATHS : list TerminalPath := [BUFFERED; ABANDONED].

Definition is_legal_pair (o : TerminalOutcome) (p : TerminalPath) : bool :=
  bool_decide ((o, p) ∈ LEGAL_TERMINAL_PAIRS).

Definition is_non_terminal (p : TerminalPath) : bool :=
  bool_decide (p ∈ NON_TERMINAL_PATHS).

(** The kinds of lineage frames. *)
Inductive FrameKind := FORK | EXPAND.

#[export] Instance FrameKind_eq_dec : EqDecision FrameKind.
Proof. solve_decision. Defined.

(** The module-level [AssertionError] guards: every path is paired or
    non-terminal, never both, and every outcome answers for some pair. *)
Definition enum_guards : bool :=
  forallb (fun p => bool_decide (p ∈ LEGAL_TERMINAL_PAIRS.*2) || is_non_terminal p) all_paths
  && forallb (fun p => negb (bool_decide (p ∈ LEGAL_TERMINAL_PAIRS.*2) && is_non_terminal p)) all_paths
  && forallb (fun o => bool_decide (o ∈ LEGAL_TERMINAL_PAIRS.*1)) all_outcomes.

Lemma enum_guards_hold : enum_guards = true.
Proof. vm_compute. reflexivity. Qed.

(** A terminal path determines its outcome: the two axes never disagree. *)
Lemma legal_pair_functional o1 o2 p :
  is_legal_pair o1 p = true -> is_legal_pair o2 p = true -> o1 = o2.
Proof. destruct o1, o2, p; vm_compute; congruence. Qed.
