(* ===== verification/RunResult.v ===== *)
(** * Run results (src/elspeth/contracts/run_result.py)

    The immutable result record of a pipeline run with the validation its
    constructor performs, and the decision that picks a terminal status from
    the lifecycle counters.  Python integers are unbounded, hence [Z]. *)

From S2P Require Import Prelude Enums.

Record RunResult := mkRunResult {
  run_id : string;
  status : RunStatus;
  rows_processed : Z;
  rows_succeeded : Z;
  rows_failed : Z;
  rows_routed_success : Z;
  rows_routed_failure : Z;
  rows_quarantined : Z;
  rows_forked : Z;
  rows_coalesced : Z;
  rows_coalesce_failed : Z;
  collector_groups_failed : Z;
  rows_expanded : Z;
  rows_buffered : Z;
  rows_diverted : Z;
  routed_destinations : gmap string Z
}.

(** [require_int(value, name, min_value=0)] on a value already known to be an
    [int]: the only remaining failure is the lower bound. *)
Definition require_non_negative (v : Z) (name : string) : res unit :=
  reject (v <? 0) with ValueError (name ++ " must be >= 0");;
  Ok tt.

Definition check_subset_counter_invariants (r : RunResult) : res unit :=
  reject (rows_succeeded r <? rows_routed_success r)
    with ValueError "RunResult: rows_routed_success must be a subset of rows_succeeded";;
  reject (rows_failed r <? rows_routed_failure r)
    with ValueError "RunResult: rows_routed_failure must be a subset of rows_failed";;
  reject (rows_failed r <? rows_quarantined r)
    with ValueError "RunResult: rows_quarantined must be a subset of rows_failed";;
  Ok tt.

(** [terminal_clean_indicator] and [failure_indicator], computed the same way
    by [_check_status_invariant] and [derive_terminal_run_status]. *)
Definition terminal_clean_indicator (succeeded quarantined : Z) : bool :=
  (0 <? succeeded) || (0 <? quarantined).

Definition failure_indicator (failed quarantined coalesce_failed collector_failed : Z) : bool :=
  (0 <? failed - quarantined) || (0 <? coalesce_failed) || (0 <? collector_failed).

(** [_check_status_invariant]: the arms of the [match] statement in order. *)
Definition check_status_invariant (r : RunResult) : res unit :=
  let clean := terminal_clean_indicator (rows_succeeded r) (rows_quarantined r) in
  let fail := failure_indicator (rows_failed r) (rows_quarantined r)
                (rows_coalesce_failed r) (collector_groups_failed r) in
  let has_quarantine := 0 <? rows_quarantined r in
  match status r, clean, fail, has_quarantine with
  | RUNNING, _, _, _ => Ok tt
  | INTERRUPTED, _, _, _ => Ok tt
  | COMPLETED, true, false, false => Ok tt
  | COMPLETED, false, _, _ => Err (ValueError "RunResult: status=COMPLETED requires a clean terminal indicator")
  | COMPLETED, _, true, _ => Err (ValueError "RunResult: status=COMPLETED requires no uncaught failures")
  | COMPLETED, _, _, true => Err (ValueError "RunResult: status=COMPLETED requires no quarantined rows")
  | COMPLETED_WITH_FAILURES, true, true, _ => Ok tt
  | COMPLETED_WITH_FAILURES, true, false, true => Ok tt
  | COMPLETED_WITH_FAILURES, false, _, _ =>
      Err (ValueError "RunResult: status=COMPLETED_WITH_FAILURES requires a clean terminal indicator")
  | COMPLETED_WITH_FAILURES, _, false, false =>
      Err (ValueError "RunResult: status=COMPLETED_WITH_FAILURES requires at least one failure-like indicator")
  | FAILED, _, _, _ => Ok tt
  | EMPTY, c, f, q =>
      if (rows_processed r == 0) && negb c && negb f && negb q then Ok tt
      else if 0 <? rows_processed r then Err (ValueError "RunResult: status=EMPTY requires rows_processed == 0")
      else if c then Err (ValueError "RunResult: status=EMPTY requires no clean terminal indicator")
      else if f then Err (ValueError "RunResult: status=EMPTY requires no failures")
      else Err (ValueError "RunResult: unhandled status/row-count shape")
  end.

(** [RunResult.__post_init__]. *)
Definition post_init (r : RunResult) : res unit :=
  reject (run_id r == "") with ValueError "run_id must not be empty";;
  _ ← require_non_negative (rows_processed r) "rows_processed";
  _ ← require_non_negative (rows_succeeded r) "rows_succeeded";
  _ ← require_non_negative (rows_failed r) "rows_failed";
  _ ← require_non_negative (rows_routed_success r) "rows_routed_success";
  _ ← require_non_negative (rows_routed_failure r) "rows_routed_failure";
  _ ← require_non_negative (rows_quarantined r) "rows_quarantined";
  _ ← require_non_negative (rows_forked r) "rows_forked";
  _ ← require_non_negative (rows_coalesced r) "rows_coalesced";
  _ ← require_non_negative (rows_coalesce_failed r) "rows_coalesce_failed";
  _ ← require_non_negative (collector_groups_failed r) "collector_groups_failed";
  _ ← require_non_negative (rows_expanded r) "rows_expanded";
  _ ← require_non_negative (rows_buffered r) "rows_buffered";
  _ ← require_non_negative (rows_diverted r) "rows_diverted";
  _ ← check_subset_counter_invariants r;
  check_status_invariant r.

(** [RunResult(...)]: construct, then validate. *)
Definition make_run_result (r : RunResult) : res RunResult :=
  _ ← post_init r; Ok r.

Definition derive_terminal_run_status
    (rows_processed rows_succeeded rows_failed rows_routed_success rows_routed_failure
     rows_quarantined rows_coalesce_failed collector_groups_failed : Z) : res RunStatus :=
  reject (rows_succeeded <? rows_routed_success)
    with ValueError "derive_terminal_run_status: rows_routed_success must be a subset of rows_succeeded";;
  reject (rows_failed <? rows_routed_failure)
    with ValueError "derive_terminal_run_status: rows_routed_failure must be a subset of rows_failed";;
  reject (rows_failed <? rows_quarantined)
    with ValueError "derive_terminal_run_status: rows_quarantined must be a subset of rows_failed";;
  let clean := terminal_clean_indicator rows_succeeded rows_quarantined in
  let fail := failure_indicator rows_failed rows_quarantined rows_coalesce_failed collector_groups_failed in
  if (rows_processed == 0) && negb clean then Ok (if fail then FAILED else EMPTY)
  else if negb clean then Ok FAILED
  else if fail then Ok COMPLETED_WITH_FAILURES
  else if 0 <? rows_quarantined then Ok COMPLETED_WITH_FAILURES
  else Ok COMPLETED.

(** [derive_terminal_run_status] applied to the counters of a result. *)
Definition derived_status (r : RunResult) : res RunStatus :=
  derive_terminal_run_status (rows_processed r) (rows_succeeded r) (rows_failed r)
    (rows_routed_success r) (rows_routed_failure r) (rows_quarantined r)
    (rows_coalesce_failed r) (collector_groups_failed r).

Definition with_status (s : RunStatus) (r : RunResult) : RunResult :=
  mkRunResult (run_id r) s (rows_processed r) (rows_succeeded r) (rows_failed r)
    (rows_routed_success r) (rows_routed_failure r) (rows_quarantined r) (rows_forked r)
    (rows_coalesced r) (rows_coalesce_failed r) (collector_groups_failed r) (rows_expanded r)
    (rows_buffered r) (rows_diverted r) (routed_destinations r).

(** ** Specification of acceptance *)

(** Every counter is a count, and the reporting counters are subsets. *)
Definition counters_wf (r : RunResult) : Prop :=
  0 <= rows_processed r /\ 0 <= rows_succeeded r /\ 0 <= rows_failed r /\
  0 <= rows_forked r /\ 0 <= rows_coalesced r /\ 0 <= rows_coalesce_failed r /\
  0 <= collector_groups_failed r /\ 0 <= rows_expanded r /\ 0 <= rows_buffered r /\
  0 <= rows_diverted r /\
  0 <= rows_routed_success r <= rows_succeeded r /\
  0 <= rows_routed_failure r <= rows_failed r /\
  0 <= rows_quarantined r <= rows_failed r.

Lemma require_non_negative_ok v n : require_non_negative v n = Ok tt <-> 0 <= v.
Proof. unfold require_non_negative. destruct (Z.ltb_spec v 0); naive_solver lia. Qed.

Lemma subset_ok r :
  check_subset_counter_invariants r = Ok tt <->
  rows_routed_success r <= rows_succeeded r /\ rows_routed_failure r <= rows_failed r /\
  rows_quarantined r <= rows_failed r.
Proof.
  unfold check_subset_counter_invariants.
  repeat match goal with |- context [Z.ltb ?a ?b] => destruct (Z.ltb_spec a b) end;
    split; intros; first [discriminate | reflexivity | lia].
Qed.

Lemma post_init_ok r :
  post_init r = Ok tt <->
  run_id r <> "" /\ counters_wf r /\ check_status_invariant r = Ok tt.
Proof.
  unfold post_init, counters_wf.
  destruct (bool_decide_reflect (run_id r = "")) as [->|Hne]; [naive_solver|].
  rewrite !seq_ok, !require_non_negative_ok, subset_ok.
  intuition lia.
Qed.

(** Case analysis over the row-count shape both functions branch on. *)
Ltac status_cases :=
  unfold derived_status, derive_terminal_run_status, check_status_invariant,
    terminal_clean_indicator, failure_indicator in *; cbn in *;
  repeat match goal with
    | |- context [Z.ltb ?a ?b] => destruct (Z.ltb_spec a b)
    | H : context [Z.ltb ?a ?b] |- _ => destruct (Z.ltb_spec a b)
    | |- context [bool_decide (?a = ?b)] => destruct (bool_decide_reflect (a = b))
    | H : context [bool_decide (?a = ?b)] |- _ => destruct (bool_decide_reflect (a = b))
    end; cbn in *.

(** Deriving a status and then constructing the result never crashes. *)
Lemma derived_accepted (r : RunResult) :
  run_id r <> "" -> counters_wf r ->
  exists s, derived_status r = Ok s /\
    s ∈ [COMPLETED; COMPLETED_WITH_FAILURES; FAILED; EMPTY] /\
    make_run_result (with_status s r) = Ok (with_status s r).
Proof.
  intros Hid Hwf.
  assert (exists s, derived_status r = Ok s /\
            s ∈ [COMPLETED; COMPLETED_WITH_FAILURES; FAILED; EMPTY] /\
            check_status_invariant (with_status s r) = Ok tt) as (s & Hs & Hin & Hc).
  { unfold counters_wf in Hwf.
    status_cases; try lia; (eexists; split; [reflexivity|]; split; [set_solver|]; cbn);
      status_cases; try lia; reflexivity. }
  exists s. repeat split; try done.
  unfold make_run_result.
  assert (post_init (with_status s r) = Ok tt) as -> by (apply post_init_ok; done).
  done.
Qed.

(** ** Properties *)

(** The status picked by [derive_terminal_run_status] from well-formed
    counters always exists, is one of the four terminal values, and is
    accepted by the [RunResult] constructor for those same counters: deriving
    a status and then building the result record never crashes. *)
Theorem derived_status_accepted (r : RunResult) :
  run_id r <> "" -> counters_wf r ->
  exists s, derived_status r = Ok s /\
    s ∈ [COMPLETED; COMPLETED_WITH_FAILURES; FAILED; EMPTY] /\
    make_run_result (with_status s r) = Ok (with_status s r).
Proof. apply derived_accepted. Qed.

(** The biconditional that the constructor documents: for a status other
    than FAILED, RUNNING and INTERRUPTED, the constructor accepts exactly the
    status that [derive_terminal_run_status] derives from the counters. *)
Theorem accepted_iff_derived (r : RunResult) :
  run_id r <> "" -> counters_wf r ->
  status r ∈ [COMPLETED; COMPLETED_WITH_FAILURES; EMPTY] ->
  make_run_result r = Ok r <-> derived_status r = Ok (status r).
Proof.
  intros Hid Hwf Hst.
  assert (make_run_result r = Ok r <-> check_status_invariant r = Ok tt) as ->.
  { unfold make_run_result. rewrite seq_ok, post_init_ok. tauto. }
  destruct r as [id st]; cbn in *. unfold counters_wf in Hwf. cbn in Hwf.
  destruct st; try set_solver;
    status_cases; try lia; split; congruence.
Qed.

(** ** Witnesses *)
Definition example_result (s : RunStatus) : RunResult :=
  mkRunResult "run" s 3 2 1 0 1 0 0 0 0 0 0 0 0 ∅.

Lemma derived_status_accepted_witness :
  exists s, derived_status (example_result EMPTY) = Ok s /\
    s ∈ [COMPLETED; COMPLETED_WITH_FAILURES; FAILED; EMPTY] /\
    make_run_result (with_status s (example_result EMPTY)) = Ok (with_status s (example_result EMPTY)).
Proof.
  apply derived_status_accepted; [discriminate|]. unfold counters_wf; cbn; lia.
Defined.

Lemma accepted_iff_derived_witness :
  make_run_result (example_result COMPLETED_WITH_FAILURES) = Ok (example_result COMPLETED_WITH_FAILURES) <->
  derived_status (example_result COMPLETED_WITH_FAILURES) = Ok COMPLETED_WITH_FAILURES.
Proof.
  apply (accepted_iff_derived (example_result COMPLETED_WITH_FAILURES)).
  - discriminate.
  - unfold counters_wf; cbn; lia.
  - cbn. set_solver.
Defined.
