(* ===== verification/Counters.v ===== *)
(** * Execution counters and the terminal-pair effect table
    (src/elspeth/engine/orchestrator/types.py and counter_classification.py)

    The mutable counters of the processing loop, the flush results merged into
    them, and the table that says which counters one (outcome, path) pair moves.
    [getattr]/[setattr] by field name are total functions on the closed type of
    counter names, which is what the module's last import-time guard checks. *)

From S2P Require Import Prelude Enums RunResult.

Inductive counter_field :=
  | f_rows_processed | f_rows_succeeded | f_rows_failed | f_rows_routed_success
  | f_rows_routed_failure | f_rows_quarantined | f_rows_forked | f_rows_coalesced
  | f_rows_coalesce_failed | f_collector_groups_failed | f_rows_expanded
  | f_rows_buffered | f_rows_diverted.
#[export] Instance counter_field_eq_dec : EqDecision counter_field.
Proof. solve_decision. Defined.

Record ExecutionCounters := mkCounters {
  ec_rows_processed : Z;
  ec_rows_succeeded : Z;
  ec_rows_failed : Z;
  ec_rows_routed_success : Z;
  ec_rows_routed_failure : Z;
  ec_rows_quarantined : Z;
  ec_rows_forked : Z;
  ec_rows_coalesced : Z;
  ec_rows_coalesce_failed : Z;
  ec_collector_groups_failed : Z;
  ec_rows_expanded : Z;
  ec_rows_buffered : Z;
  ec_rows_diverted : Z;
  ec_routed_destinations : gmap string Z
}.

Definition ExecutionCounters0 : ExecutionCounters :=
  mkCounters 0 0 0 0 0 0 0 0 0 0 0 0 0 ∅.

Definition getattr (c : ExecutionCounters) (f : counter_field) : Z :=
  match f with
  | f_rows_processed => ec_rows_processed c
  | f_rows_succeeded => ec_rows_succeeded c
  | f_rows_failed => ec_rows_failed c
  | f_rows_routed_success => ec_rows_routed_success c
  | f_rows_routed_failure => ec_rows_routed_failure c
  | f_rows_quarantined => ec_rows_quarantined c
  | f_rows_forked => ec_rows_forked c
  | f_rows_coalesced => ec_rows_coalesced c
  | f_rows_coalesce_failed => ec_rows_coalesce_failed c
  | f_collector_groups_failed => ec_collector_groups_failed c
  | f_rows_expanded => ec_rows_expanded c
  | f_rows_buffered => ec_rows_buffered c
  | f_rows_diverted => ec_rows_diverted c
  end.

(** A counters object rebuilt from its attribute function. *)
Definition of_attrs (g : counter_field -> Z) (m : gmap string Z) : ExecutionCounters :=
  mkCounters (g f_rows_processed) (g f_rows_succeeded) (g f_rows_failed)
    (g f_rows_routed_success) (g f_rows_routed_failure) (g f_rows_quarantined)
    (g f_rows_forked) (g f_rows_coalesced) (g f_rows_coalesce_failed)
    (g f_collector_groups_failed) (g f_rows_expanded) (g f_rows_buffered)
    (g f_rows_diverted) m.

Definition setattr (c : ExecutionCounters) (f : counter_field) (v : Z) : ExecutionCounters :=
  of_attrs (fun f' => if f' == f then v else getattr c f') (ec_routed_destinations c).

Definition set_destinations (c : ExecutionCounters) (m : gmap string Z) : ExecutionCounters :=
  of_attrs (getattr c) m.

(** [Counter.__getitem__]: a missing key reads as zero. *)
Definition counter_get (m : gmap string Z) (k : string) : Z := default 0 (m !! k).

(** [m[k] += n] on a [Counter]. *)
Definition counter_add (m : gmap string Z) (k : string) (n : Z) : gmap string Z :=
  <[k := counter_get m k + n]> m.

(** [for dest, count in other.items(): m[dest] += count]. *)
Definition counter_update (m other : gmap string Z) : gmap string Z :=
  foldl (fun acc kv => counter_add acc kv.1 kv.2) m (map_to_list other).

Record AggregationFlushResult := mkFlush {
  fr_rows_succeeded : Z;
  fr_rows_failed : Z;
  fr_rows_routed_success : Z;
  fr_rows_routed_failure : Z;
  fr_rows_quarantined : Z;
  fr_rows_coalesced : Z;
  fr_rows_forked : Z;
  fr_rows_expanded : Z;
  fr_rows_buffered : Z;
  fr_rows_diverted : Z;
  fr_routed_destinations : gmap string Z
}.

(** [AggregationFlushResult.__add__]. *)
Definition flush_add (a b : AggregationFlushResult) : AggregationFlushResult :=
  mkFlush (fr_rows_succeeded a + fr_rows_succeeded b) (fr_rows_failed a + fr_rows_failed b)
    (fr_rows_routed_success a + fr_rows_routed_success b)
    (fr_rows_routed_failure a + fr_rows_routed_failure b)
    (fr_rows_quarantined a + fr_rows_quarantined b)
    (fr_rows_coalesced a + fr_rows_coalesced b) (fr_rows_forked a + fr_rows_forked b)
    (fr_rows_expanded a + fr_rows_expanded b) (fr_rows_buffered a + fr_rows_buffered b)
    (fr_rows_diverted a + fr_rows_diverted b)
    (counter_update (fr_routed_destinations a) (fr_routed_destinations b)).

Definition accumulate_flush_result (c : ExecutionCounters) (r : AggregationFlushResult)
  : ExecutionCounters :=
  mkCounters (ec_rows_processed c)
    (ec_rows_succeeded c + fr_rows_succeeded r)
    (ec_rows_failed c + fr_rows_failed r)
    (ec_rows_routed_success c + fr_rows_routed_success r)
    (ec_rows_routed_failure c + fr_rows_routed_failure r)
    (ec_rows_quarantined c + fr_rows_quarantined r)
    (ec_rows_forked c + fr_rows_forked r)
    (ec_rows_coalesced c + fr_rows_coalesced r)
    (ec_rows_coalesce_failed c)
    (ec_collector_groups_failed c)
    (ec_rows_expanded c + fr_rows_expanded r)
    (ec_rows_buffered c + fr_rows_buffered r)
    (ec_rows_diverted c + fr_rows_diverted r)
    (counter_update (ec_routed_destinations c) (fr_routed_destinations r)).

Definition to_flush_result (c : ExecutionCounters) : AggregationFlushResult :=
  mkFlush (ec_rows_succeeded c) (ec_rows_failed c) (ec_rows_routed_success c)
    (ec_rows_routed_failure c) (ec_rows_quarantined c) (ec_rows_coalesced c)
    (ec_rows_forked c) (ec_rows_expanded c) (ec_rows_buffered c) (ec_rows_diverted c)
    (ec_routed_destinations c).

(** The record [to_run_result] passes to the [RunResult] constructor. *)
Definition run_result_args (c : ExecutionCounters) (run_id : string) (status : RunStatus) : RunResult :=
  mkRunResult run_id status (ec_rows_processed c) (ec_rows_succeeded c) (ec_rows_failed c)
    (ec_rows_routed_success c) (ec_rows_routed_failure c) (ec_rows_quarantined c)
    (ec_rows_forked c) (ec_rows_coalesced c) (ec_rows_coalesce_failed c)
    (ec_collector_groups_failed c) (ec_rows_expanded c) (ec_rows_buffered c)
    (ec_rows_diverted c) (ec_routed_destinations c).

Definition to_run_result (c : ExecutionCounters) (run_id : string) (status : RunStatus) : res RunResult :=
  make_run_result (run_result_args c run_id status).

(** ** The effect table *)
Record TerminalPairCounterEffect := mkEffect {
  increments : list counter_field;
  counts_routed_destination : bool;
  routes_to_sink : bool;
  sink_reconcilable : bool;
  forbidden_in_processing_results : bool
}.

(** An effect with every flag at its default. *)
Definition plain (l : list counter_field) : TerminalPairCounterEffect := mkEffect l false false false false.

Definition pair_key : Type := option TerminalOutcome * TerminalPath.

Definition TERMINAL_PAIR_COUNTER_EFFECTS : list (pair_key * TerminalPairCounterEffect) :=
  [ ((Some SUCCESS, DEFAULT_FLOW), mkEffect [f_rows_succeeded] false true true false);
    ((Some SUCCESS, GATE_ROUTED),
      mkEffect [f_rows_succeeded; f_rows_routed_success] true true true false);
    ((Some SUCCESS, GATE_DISCARDED), plain [f_rows_succeeded]);
    ((Some FAILURE, GATE_ERROR_DISCARDED), plain [f_rows_failed]);
    ((Some SUCCESS, FILTER_DROPPED), plain [f_rows_succeeded]);
    ((Some SUCCESS, COALESCED), mkEffect [f_rows_succeeded; f_rows_coalesced] false true true false);
    ((Some FAILURE, ON_ERROR_ROUTED),
      mkEffect [f_rows_failed; f_rows_routed_failure] true true true false);
    ((Some FAILURE, UNROUTED), plain [f_rows_failed]);
    ((Some FAILURE, QUARANTINED_AT_SOURCE),
      mkEffect [f_rows_failed; f_rows_quarantined] false false true false);
    ((Some FAILURE, SINK_DISCARDED), mkEffect [f_rows_failed; f_rows_diverted] false false false true);
    ((Some TRANSIENT, SINK_FALLBACK_TO_FAILSINK), mkEffect [f_rows_diverted] false false false true);
    ((Some TRANSIENT, FORK_PARENT), plain [f_rows_forked]);
    ((Some TRANSIENT, EXPAND_PARENT), plain [f_rows_expanded]);
    ((Some TRANSIENT, BATCH_CONSUMED), plain []);
    ((None, BUFFERED), plain [f_rows_buffered]);
    ((None, ABANDONED), mkEffect [] false false false true) ].

(** [TERMINAL_PAIR_COUNTER_EFFECTS.get(pair)]. *)
Definition effect_of (k : pair_key) : option TerminalPairCounterEffect :=
  '(_, (_, e)) ← list_find (fun e => e.1 = k) TERMINAL_PAIR_COUNTER_EFFECTS; Some e.

(** [setattr(counters, name, getattr(counters, name) + n)] per field name. *)
Definition bump (n : Z) (c : ExecutionCounters) (f : counter_field) : ExecutionCounters :=
  setattr c f (getattr c f + n).

Definition apply_counter_increments (c : ExecutionCounters) (e : TerminalPairCounterEffect)
  : ExecutionCounters := foldl (bump 1) c (increments e).

(** The import-time lockstep guards of the table. *)
Definition lockstep_guards : bool :=
  forallb (fun e => match e.1 with
                    | (Some o, p) => is_legal_pair o p
                    | (None, p) => is_non_terminal p
                    end) TERMINAL_PAIR_COUNTER_EFFECTS
  && forallb (fun k => is_some (effect_of (Some k.1, k.2))) LEGAL_TERMINAL_PAIRS
  && forallb (fun p => is_some (effect_of (None, p))) NON_TERMINAL_PATHS.

(** ** Attribute calculus *)

Lemma getattr_of_attrs g m f : getattr (of_attrs g m) f = g f.
Proof. by destruct f. Qed.

Lemma of_attrs_getattr c : of_attrs (getattr c) (ec_routed_destinations c) = c.
Proof. by destruct c. Qed.

(** Counters are equal when they agree on every attribute. *)
Lemma counters_ext c1 c2 :
  (forall f, getattr c1 f = getattr c2 f) ->
  ec_routed_destinations c1 = ec_routed_destinations c2 -> c1 = c2.
Proof.
  intros Hf Hm.
  rewrite <- (of_attrs_getattr c1), <- (of_attrs_getattr c2), Hm.
  unfold of_attrs. by rewrite !Hf.
Qed.

Lemma getattr_setattr c f v f' :
  getattr (setattr c f v) f' = if f' == f then v else getattr c f'.
Proof. unfold setattr. by rewrite getattr_of_attrs. Qed.

Lemma destinations_setattr c f v : ec_routed_destinations (setattr c f v) = ec_routed_destinations c.
Proof. done. Qed.

Lemma getattr_set_destinations c m f : getattr (set_destinations c m) f = getattr c f.
Proof. unfold set_destinations. by rewrite getattr_of_attrs. Qed.

(** How often a field occurs in a list of increments. *)
Definition occurrences (f : counter_field) (l : list counter_field) : Z :=
  Z.of_nat (length (filter (fun f' => f' = f) l)).

Lemma getattr_bumps n l c f :
  getattr (foldl (bump n) c l) f = getattr c f + n * occurrences f l.
Proof.
  revert c. induction l as [|a l IH]; intros c; cbn; [unfold occurrences; cbn; lia|].
  rewrite IH. unfold bump at 1. rewrite getattr_setattr. unfold occurrences.
  rewrite filter_cons.
  destruct (bool_decide_reflect (f = a)) as [->|Hne].
  - rewrite decide_True by done. cbn [length]. lia.
  - rewrite decide_False by congruence. lia.
Qed.

Lemma destinations_bumps n l c :
  ec_routed_destinations (foldl (bump n) c l) = ec_routed_destinations c.
Proof. revert c. induction l as [|a l IH]; intros c; cbn; [done|]. by rewrite IH. Qed.

Lemma getattr_apply_increments c e f :
  getattr (apply_counter_increments c e) f = getattr c f + occurrences f (increments e).
Proof. unfold apply_counter_increments. rewrite getattr_bumps. lia. Qed.

Lemma destinations_apply_increments c e :
  ec_routed_destinations (apply_counter_increments c e) = ec_routed_destinations c.
Proof. apply destinations_bumps. Qed.

#[export] Hint Rewrite getattr_of_attrs getattr_setattr getattr_set_destinations
  getattr_bumps destinations_bumps getattr_apply_increments destinations_apply_increments
  : elspeth.

(** ** Multiset update *)

Arguments counter_add : simpl never.

Lemma counter_add_lookup m k n k' :
  counter_add m k n !! k' =
    if k == k' then Some (counter_get m k + n) else m !! k'.
Proof.
  unfold counter_add. destruct (bool_decide_reflect (k = k')) as [->|Hne].
  - by rewrite lookup_insert_eq.
  - by rewrite lookup_insert_ne.
Qed.

Lemma counter_update_list_lookup (l : list (string * Z)) m k :
  NoDup l.*1 ->
  foldl (fun acc kv => counter_add acc kv.1 kv.2) m l !! k =
    union_with (fun a b => Some (a + b)) (m !! k) ((list_to_map l : gmap string Z) !! k).
Proof.
  revert m. induction l as [|[k' v] l IH]; intros m Hnd; cbn.
  { by rewrite lookup_empty, right_id by apply _. }
  cbn in Hnd. apply NoDup_cons in Hnd as [Hnin Hnd].
  rewrite IH by done. rewrite counter_add_lookup.
  destruct (bool_decide_reflect (k' = k)) as [->|Hne].
  - rewrite lookup_insert_eq, (not_elem_of_list_to_map_1 l k) by done.
    unfold counter_get. destruct (m !! k) as [a|]; cbn; done.
  - by rewrite lookup_insert_ne.
Qed.

Lemma counter_update_lookup m o k :
  counter_update m o !! k = union_with (fun a b => Some (a + b)) (m !! k) (o !! k).
Proof.
  unfold counter_update. rewrite counter_update_list_lookup by apply NoDup_fst_map_to_list.
  by rewrite list_to_map_to_list.
Qed.

Lemma counter_update_assoc a b c :
  counter_update (counter_update a b) c = counter_update a (counter_update b c).
Proof.
  apply map_eq; intros k. rewrite !counter_update_lookup.
  destruct (a !! k), (b !! k), (c !! k); cbn; try done. by rewrite Z.add_assoc.
Qed.

Lemma counter_update_empty_l m : counter_update ∅ m = m.
Proof. apply map_eq; intros k. rewrite counter_update_lookup, lookup_empty. by destruct (m !! k). Qed.

(** ** The table *)

Lemma lockstep_guards_hold : lockstep_guards = true.
Proof. vm_compute. reflexivity. Qed.

Lemma effect_of_legal o p : is_legal_pair o p = is_some (effect_of (Some o, p)).
Proof. destruct o, p; vm_compute; reflexivity. Qed.

Lemma effect_of_non_terminal p : is_non_terminal p = is_some (effect_of (None, p)).
Proof. destruct p; vm_compute; reflexivity. Qed.

(** The subset relations that [RunResult] demands, on raw counters. *)
Definition subset_invariant (c : ExecutionCounters) : Prop :=
  (forall f, 0 <= getattr c f) /\
  ec_rows_routed_success c <= ec_rows_succeeded c /\
  ec_rows_routed_failure c <= ec_rows_failed c /\
  ec_rows_quarantined c <= ec_rows_failed c.

Lemma subset_invariant_wf c id st : subset_invariant c -> counters_wf (run_result_args c id st).
Proof.
  intros (Hnn & H1 & H2 & H3). unfold counters_wf; cbn.
  repeat split; try lia;
    match goal with |- 0 <= ?g _ =>
      first [apply (Hnn f_rows_processed) | apply (Hnn f_rows_succeeded) | apply (Hnn f_rows_failed)
            | apply (Hnn f_rows_forked) | apply (Hnn f_rows_coalesced) | apply (Hnn f_rows_coalesce_failed)
            | apply (Hnn f_collector_groups_failed) | apply (Hnn f_rows_expanded) | apply (Hnn f_rows_buffered)
            | apply (Hnn f_rows_diverted) | apply (Hnn f_rows_routed_success)
            | apply (Hnn f_rows_routed_failure) | apply (Hnn f_rows_quarantined)] end.
Qed.

Lemma subset_invariant_0 : subset_invariant ExecutionCounters0.
Proof. split; [intros []; cbn; lia | cbn; lia]. Qed.

Lemma occurrences_nonneg f l : 0 <= occurrences f l.
Proof. unfold occurrences. lia. Qed.

(** In every entry a reporting counter moves only together with the
    predicate counter it is a subset of. *)
Lemma effect_subset k e :
  effect_of k = Some e ->
  occurrences f_rows_routed_success (increments e) <= occurrences f_rows_succeeded (increments e) /\
  occurrences f_rows_routed_failure (increments e) + occurrences f_rows_quarantined (increments e)
    <= occurrences f_rows_failed (increments e).
Proof. destruct k as [[[]|] []]; vm_compute; intros [= <-]; split; discriminate. Qed.

Lemma subset_invariant_apply c k e :
  effect_of k = Some e -> subset_invariant c -> subset_invariant (apply_counter_increments c e).
Proof.
  intros He (Hnn & H1 & H2 & H3). apply effect_subset in He as [E1 E2].
  pose proof (getattr_apply_increments c e) as G.
  pose proof (occurrences_nonneg f_rows_routed_failure (increments e)).
  pose proof (occurrences_nonneg f_rows_quarantined (increments e)).
  split; [intros f; rewrite G; pose proof (occurrences_nonneg f (increments e)); specialize (Hnn f); lia|].
  pose proof (G f_rows_succeeded) as G1. pose proof (G f_rows_routed_success) as G2.
  pose proof (G f_rows_failed) as G3. pose proof (G f_rows_routed_failure) as G4.
  pose proof (G f_rows_quarantined) as G5. cbn in *. lia.
Qed.

(** ** Properties *)

(** Merging two flush results with [+] and accumulating the sum is the
    same as accumulating one after the other, destination by destination. *)
Theorem accumulate_flush_add c a b :
  accumulate_flush_result c (flush_add a b) =
  accumulate_flush_result (accumulate_flush_result c a) b.
Proof.
  unfold accumulate_flush_result, flush_add; cbn. rewrite <- counter_update_assoc.
  f_equal; lia.
Qed.

(** A flush result carries every counter of the flush's own counters
    except the three it has no field for: accumulating it adds all the others
    and leaves [rows_processed], [rows_coalesce_failed] and
    [collector_groups_failed] of the receiver as they were. *)
Theorem accumulate_to_flush c d f :
  getattr (accumulate_flush_result c (to_flush_result d)) f =
    if bool_decide (f ∈ [f_rows_processed; f_rows_coalesce_failed; f_collector_groups_failed])
    then getattr c f else getattr c f + getattr d f.
Proof. destruct f; reflexivity. Qed.
