(* ===== verification/Outcomes.v ===== *)
(** * Outcome bookkeeping
    (src/elspeth/contracts/results.py, contracts/engine.py, contracts/audit.py,
     engine/_error_hash.py, engine/orchestrator/outcomes.py,
     engine/orchestrator/sink_flush.py, engine/orchestrator/run_status.py)

    Three bookkeepers move the same counters: the live accumulator, which
    counts results as they leave the processor; the sink flush, which takes
    diverted rows back out after a write; and the audit derive, which counts
    the persisted outcome records.  The main theorem says that they agree.

    Methods that mutate their arguments return the mutated state next to the
    result, so that a state left behind by an exception is visible. *)

From S2P Require Import Prelude Enums RunResult Counters.

(** ** Data *)

(** The fields of a token that these functions read. *)
Record TokenInfo := mkToken { token_id : string; row_id : string }.
#[export] Instance TokenInfo_eq_dec : EqDecision TokenInfo.
Proof. solve_decision. Defined.

Record FailureInfo := mkFailureInfo { exception_type : string; message : string }.
#[export] Instance FailureInfo_eq_dec : EqDecision FailureInfo.
Proof. solve_decision. Defined.

(** [final_data] is carried but never read by the bookkeepers. *)
Record RowResult := mkRowResult {
  rr_token : TokenInfo;
  rr_outcome : option TerminalOutcome;
  rr_path : TerminalPath;
  rr_sink_name : option string;
  rr_error : option FailureInfo;
  scheduler_pending_sink : bool;
  authoritative_error_hash : option string;
  rr_join_group_id : option string;
  counts_failed_barrier : bool
}.

Definition rr_pair (r : RowResult) : pair_key := (rr_outcome r, rr_path r).

(** Is a stored (outcome, path) pair one of the legal terminal pairs? *)
Definition legal_opt (o : option TerminalOutcome) (p : TerminalPath) : bool :=
  match o with Some o => is_legal_pair o p | None => false end.

(** [RowResult.__post_init__]. *)
Definition row_result_post_init (r : RowResult) : res unit :=
  let E := OrchestrationInvariantError in
  reject counts_failed_barrier r && negb (rr_pair r == (Some FAILURE, UNROUTED))
    with E "RowResult.counts_failed_barrier is only valid for (FAILURE, UNROUTED) results";;
  reject (authoritative_error_hash r == Some "")
    with E "RowResult.authoritative_error_hash must be a non-empty string when set";;
  reject is_some (authoritative_error_hash r)
         && negb (bool_decide (rr_path r ∈ [ON_ERROR_ROUTED; QUARANTINED_AT_SOURCE]))
    with E "RowResult.authoritative_error_hash is only valid for ON_ERROR_ROUTED and source-quarantine results";;
  reject is_some (rr_outcome r) && negb (legal_opt (rr_outcome r) (rr_path r))
    with E "RowResult: illegal (outcome, path) pair";;
  reject is_none (rr_outcome r) && negb (rr_path r == BUFFERED)
    with E "RowResult: outcome=None requires path=BUFFERED";;
  reject is_some (rr_outcome r) && (rr_path r == BUFFERED)
    with E "RowResult: path=BUFFERED requires outcome=None";;
  reject is_none (rr_outcome r) && (rr_path r == BUFFERED) && is_some (rr_sink_name r)
    with E "RowResult: BUFFERED rows must not set sink_name before terminal recording";;
  reject (rr_path r == DEFAULT_FLOW) && is_none (rr_sink_name r)
    with E "(SUCCESS, DEFAULT_FLOW) outcome requires sink_name to be set";;
  reject (rr_path r == GATE_ROUTED) && is_none (rr_sink_name r)
    with E "(SUCCESS, GATE_ROUTED) outcome requires sink_name to be set";;
  reject (rr_path r == ON_ERROR_ROUTED) && is_none (rr_sink_name r)
    with E "(FAILURE, ON_ERROR_ROUTED) outcome requires sink_name to be set";;
  reject (rr_path r == ON_ERROR_ROUTED) && is_none (rr_error r)
    with E "(FAILURE, ON_ERROR_ROUTED) outcome requires error (FailureInfo) to be set";;
  reject (rr_path r == QUARANTINED_AT_SOURCE) && is_some (rr_sink_name r)
         && (negb (scheduler_pending_sink r) || is_none (authoritative_error_hash r))
    with E "A source-quarantine result bound for a sink requires its durable PENDING_SINK handoff";;
  reject (rr_path r == QUARANTINED_AT_SOURCE) && is_none (rr_sink_name r)
         && (scheduler_pending_sink r || is_some (authoritative_error_hash r))
    with E "A discarded (FAILURE, QUARANTINED_AT_SOURCE) result has no sink";;
  reject (rr_path r == COALESCED) && is_none (rr_sink_name r)
    with E "(SUCCESS, COALESCED) outcome requires sink_name to be set";;
  reject (rr_path r == COALESCED) && is_none (rr_join_group_id r)
    with E "(SUCCESS, COALESCED) outcome requires join_group_id to be set";;
  reject negb (rr_path r == COALESCED) && is_some (rr_join_group_id r)
    with E "RowResult.join_group_id is only valid for COALESCED results";;
  Ok tt.

(** [failed_barrier_group_results]: one result per consumed token, the first
    one marked. *)
Definition failed_barrier_group_results
    (consumed : list TokenInfo) (exception_type failure_reason : string) : list RowResult :=
  imap (fun index token =>
    mkRowResult token (Some FAILURE) UNROUTED None
      (Some (mkFailureInfo exception_type failure_reason)) false None None (index == 0%nat)) consumed.

Record PendingOutcome := mkPending {
  po_outcome : option TerminalOutcome;
  po_path : TerminalPath;
  po_error_hash : option string;
  po_join_group_id : option string
}.
#[export] Instance PendingOutcome_eq_dec : EqDecision PendingOutcome.
Proof. solve_decision. Defined.

Definition REQUIRES_ERROR_HASH_PATHS : list TerminalPath :=
  [ON_ERROR_ROUTED; GATE_ERROR_DISCARDED; UNROUTED; QUARANTINED_AT_SOURCE;
   SINK_FALLBACK_TO_FAILSINK; SINK_DISCARDED].

(** [not s.strip()]: only whitespace (the ASCII part of [str.strip]). *)
Definition is_space (a : Ascii.ascii) : bool :=
  let n := Ascii.nat_of_ascii a in
  ((9 <=? n) && (n <=? 13) || (28 <=? n) && (n <=? 32))%nat.

Definition blank (s : string) : bool := forallb is_space (String.list_ascii_of_string s).

(** [PendingOutcome(...)]: the constructor with its [__post_init__]. *)
Definition make_pending (o : option TerminalOutcome) (p : TerminalPath)
    (error_hash join_group_id : option string) : res PendingOutcome :=
  let needs := bool_decide (p ∈ REQUIRES_ERROR_HASH_PATHS) in
  reject is_none o && negb (p == BUFFERED)
    with ValueError "PendingOutcome with outcome=None requires path=BUFFERED";;
  reject is_some o && negb (legal_opt o p)
    with ValueError "PendingOutcome has illegal (outcome, path) pair";;
  reject needs && (match error_hash with None => true | Some h => blank h end)
    with ValueError "PendingOutcome requires non-empty error_hash";;
  reject negb needs && is_some error_hash
    with ValueError "PendingOutcome must not have error_hash";;
  reject (p == COALESCED) && is_none join_group_id
    with ValueError "PendingOutcome with path=COALESCED requires join_group_id";;
  reject negb (p == COALESCED) && is_some join_group_id
    with ValueError "PendingOutcome must not have join_group_id";;
  Ok (mkPending o p error_hash join_group_id).

(** [PendingTokenMap]: an insertion-ordered dict from sink name to the pairs
    queued for it. *)
Definition PendingTokenMap : Type := list (string * list (TokenInfo * option PendingOutcome)).

(** [sink_name in pending_tokens]. *)
Definition has_sink (pt : PendingTokenMap) (sink : string) : bool :=
  existsb (fun e => e.1 == sink) pt.

(** [pending_tokens[sink_name].append(pair)]. *)
Fixpoint append_pending (pt : PendingTokenMap) (sink : string)
    (x : TokenInfo * option PendingOutcome) : PendingTokenMap :=
  match pt with
  | [] => []
  | (s, l) :: pt' =>
      if s == sink then (s, l ++ [x]) :: pt' else (s, l) :: append_pending pt' sink x
  end.

(** ** The live accumulator *)

Definition require_sink_name (r : RowResult) : res string :=
  match rr_sink_name r with
  | None => Err (OrchestrationInvariantError "Result missing sink_name")
  | Some name => Ok name
  end.

Definition route_to_sink (sink_name : string) (pt : PendingTokenMap) (token : TokenInfo)
    (o : option TerminalOutcome) (p : TerminalPath) (error_hash : option string)
    (scheduler_pending_sink : bool) (join_group_id : option string) : res PendingTokenMap :=
  reject negb (has_sink pt sink_name)
    with OrchestrationInvariantError "Sink not in configured sinks";;
  reject negb scheduler_pending_sink
    with OrchestrationInvariantError "Sink-bound token has no durable PENDING_SINK scheduler handoff";;
  po ← make_pending o p error_hash join_group_id;
  Ok (append_pending pt sink_name (token, Some po)).

(** [_EMPTY_MESSAGE_DOMAIN]; Python [str] values are their UTF-8 bytes here. *)
Definition EMPTY_MESSAGE_DOMAIN : string :=
  String (Ascii.ascii_of_nat 255) "elspeth:error_hash:no-message" ++ String (Ascii.ascii_of_nat 0) "".

Definition error_hash_payload (message : string) (exception_type : option string) : string :=
  if message == "" then EMPTY_MESSAGE_DOMAIN ++ default "" exception_type else message.

(** The state that the accumulator mutates. *)
Definition loop_state : Type := ExecutionCounters * PendingTokenMap.

Section accumulate.
(** [hashlib.sha256(payload).hexdigest()]. *)
Variable sha256_hexdigest : string -> string.

Definition compute_error_hash (message : string) (exception_type : option string) : string :=
  String.substring 0 16 (sha256_hexdigest (error_hash_payload message exception_type)).

(** The shared pair: a source-quarantined row that carries a sink. *)
Definition source_quarantine_to_sink (r : RowResult) : bool :=
  (rr_pair r == (Some FAILURE, QUARANTINED_AT_SOURCE)) && is_some (rr_sink_name r).

(** The pair-specific checks that run before any counter moves; the result
    is the error hash to queue. *)
Definition result_error_hash (r : RowResult) : res (option string) :=
  if rr_pair r == (Some FAILURE, ON_ERROR_ROUTED) then
    match rr_error r with
    | None => Err (OrchestrationInvariantError "ON_ERROR_ROUTED result missing error (FailureInfo)")
    | Some e =>
        Ok (Some (match authoritative_error_hash r with
                  | Some h => h
                  | None => compute_error_hash (message e) (Some (exception_type e))
                  end))
    end
  else if (rr_pair r == (Some SUCCESS, COALESCED)) && is_none (rr_join_group_id r) then
    Err (OrchestrationInvariantError "(SUCCESS, COALESCED) result missing join_group_id")
  else Ok (if source_quarantine_to_sink r then authoritative_error_hash r else None).

(** One iteration of [accumulate_row_outcomes]. *)
Definition accumulate_row_outcome (st : loop_state) (r : RowResult) : loop_state * res unit :=
  let '(c, pt) := st in
  match effect_of (rr_pair r) with
  | None => (st, Err (OrchestrationInvariantError "Unhandled (outcome, path) pair"))
  | Some effect =>
      if forbidden_in_processing_results effect then
        (st, Err (OrchestrationInvariantError "Pair is forbidden in processing results"))
      else
        match result_error_hash r with
        | Err e => (st, Err e)
        | Ok error_hash =>
            let c := apply_counter_increments c effect in
            let c := if counts_failed_barrier r
                     then setattr c f_rows_coalesce_failed (getattr c f_rows_coalesce_failed + 1)
                     else c in
            match (if counts_routed_destination effect
                   then sink ← require_sink_name r;
                        Ok (set_destinations c (counter_add (ec_routed_destinations c) sink 1))
                   else Ok c) with
            | Err e => ((c, pt), Err e)
            | Ok c =>
                if routes_to_sink effect || source_quarantine_to_sink r then
                  match (sink ← require_sink_name r;
                         route_to_sink sink pt (rr_token r) (rr_outcome r) (rr_path r) error_hash
                           (scheduler_pending_sink r) (rr_join_group_id r)) with
                  | Err e => ((c, pt), Err e)
                  | Ok pt => ((c, pt), Ok tt)
                  end
                else ((c, pt), Ok tt)
            end
        end
  end.

Fixpoint accumulate_row_outcomes (results : list RowResult) (st : loop_state)
  : loop_state * res unit :=
  match results with
  | [] => (st, Ok tt)
  | r :: results' =>
      match accumulate_row_outcome st r with
      | (st', Ok _) => accumulate_row_outcomes results' st'
      | (st', Err e) => (st', Err e)
      end
  end.
End accumulate.

(** [_validate_coalesce_outcome]: exactly one of merged token and failure. *)
Definition validate_coalesce_outcome (has_merged has_failure : bool) : res bool :=
  reject eqb has_merged has_failure
    with OrchestrationInvariantError "Invalid CoalesceOutcome state";;
  Ok has_merged.

(** ** The sink-write reconciler *)

Definition reconcile_sink_write_diversions (c : ExecutionCounters) (sink_name : string)
    (po : option PendingOutcome) (diversion_count : Z) : ExecutionCounters * res unit :=
  match po with
  | None => (c, Ok tt)
  | Some po =>
      if diversion_count == 0 then (c, Ok tt)
      else
        match effect_of (po_outcome po, po_path po) with
        | None => (c, Err (OrchestrationInvariantError "Unexpected sink-bound pending pair"))
        | Some effect =>
            if negb (sink_reconcilable effect) then
              (c, Err (OrchestrationInvariantError "Unexpected sink-bound pending pair"))
            else if existsb (fun f => getattr c f <? diversion_count) (increments effect) then
              (c, Err (OrchestrationInvariantError "Cannot subtract diverted rows"))
            else if counts_routed_destination effect
                    && (counter_get (ec_routed_destinations c) sink_name <? diversion_count) then
              (c, Err (OrchestrationInvariantError "Cannot subtract diverted routed rows"))
            else
              let c := foldl (bump (- diversion_count)) c (increments effect) in
              if counts_routed_destination effect then
                let remaining := counter_get (ec_routed_destinations c) sink_name - diversion_count in
                (set_destinations c
                   (if remaining == 0 then delete sink_name (ec_routed_destinations c)
                    else <[sink_name := remaining]> (ec_routed_destinations c)), Ok tt)
              else (c, Ok tt)
        end
  end.

(** ** The sink flush *)

Record DiversionCounts := mkDiversions { failsink_mode : Z; discard_mode : Z }.

Definition total (d : DiversionCounts) : Z := failsink_mode d + discard_mode d.

Definition diversions_add (a b : DiversionCounts) : DiversionCounts :=
  mkDiversions (failsink_mode a + failsink_mode b) (discard_mode a + discard_mode b).

(** What the flush reads of the pipeline configuration and the graph. *)
Record sink_config := mkSinkConfig {
  cfg_sinks : list string;
  cfg_effect_modes : list string;
  cfg_on_write_failure : string -> option string;
  cfg_sink_ids : list string;
  cfg_failsink_edges : list string
}.

Definition outcome_value (o : TerminalOutcome) : string :=
  match o with SUCCESS => "success" | FAILURE => "failure" | TRANSIENT => "transient" end.

Definition path_value (p : TerminalPath) : string :=
  match p with
  | DEFAULT_FLOW => "default_flow" | GATE_ROUTED => "gate_routed"
  | GATE_DISCARDED => "gate_discarded" | GATE_ERROR_DISCARDED => "gate_error_discarded"
  | ON_ERROR_ROUTED => "on_error_routed" | FILTER_DROPPED => "filter_dropped"
  | COALESCED => "coalesced" | UNROUTED => "unrouted"
  | QUARANTINED_AT_SOURCE => "quarantined_at_source"
  | SINK_FALLBACK_TO_FAILSINK => "sink_fallback_to_failsink"
  | SINK_DISCARDED => "sink_discarded" | FORK_PARENT => "fork_parent"
  | EXPAND_PARENT => "expand_parent" | BATCH_CONSUMED => "batch_consumed"
  | BUFFERED => "buffered" | ABANDONED => "abandoned"
  end.

Definition sort_key : Type := bool * string * string * string.

Definition pending_sort_key (p : TokenInfo * option PendingOutcome) : sort_key :=
  match p.2 with
  | None => (true, "", "", "")
  | Some po => (false, default "" (outcome_value <$> po_outcome po), path_value (po_path po),
                default "" (po_error_hash po))
  end.

(** Lexicographic order on the key tuples. *)
Definition sort_key_leb (a b : sort_key) : bool :=
  let '(n1, o1, p1, h1) := a in let '(n2, o2, p2, h2) := b in
  if negb (n1 == n2) then implb n1 n2
  else if negb (o1 == o2) then String.leb o1 o2
  else if negb (p1 == p2) then String.leb p1 p2
  else String.leb h1 h2.

Definition group_pairs (pairs : list (TokenInfo * option PendingOutcome))
  : list (list (TokenInfo * option PendingOutcome)) :=
  groupby pending_sort_key
    (sort_by (fun a b => sort_key_leb (pending_sort_key a) (pending_sort_key b)) pairs).

Section sink_flush.
Variable cfg : sink_config.
(** [SinkExecutor.write]: reports how many tokens of the group it diverted. *)
Variable write : string -> option PendingOutcome -> list TokenInfo -> res DiversionCounts.

(** [consume_group] drops the pairs of a written group, which are exactly the
    live pairs with the group's key. *)
Definition consume_group (live g : list (TokenInfo * option PendingOutcome))
  : list (TokenInfo * option PendingOutcome) :=
  match g with
  | [] => live
  | p :: _ => filter (fun q => pending_sort_key q <> pending_sort_key p) live
  end.

(** The groups of one sink: write, consume, reconcile, add up. *)
Fixpoint write_groups (sink_name : string) (groups : list (list (TokenInfo * option PendingOutcome)))
    (live : list (TokenInfo * option PendingOutcome)) (c : ExecutionCounters) (td : DiversionCounts)
  : ExecutionCounters * list (TokenInfo * option PendingOutcome) * res DiversionCounts :=
  match groups with
  | [] => (c, live, Ok td)
  | g :: groups' =>
      let po := match g with [] => None | (_, po) :: _ => po end in
      match write sink_name po g.*1 with
      | Err e => (c, live, Err e)
      | Ok d =>
          let live := consume_group live g in
          match reconcile_sink_write_diversions c sink_name po (total d) with
          | (c', Err e) => (c', live, Err e)
          | (c', Ok _) => write_groups sink_name groups' live c' (diversions_add td d)
          end
      end
  end.

(** The configuration checks before the first write to a sink. *)
Definition check_sink (sink_name : string) : res unit :=
  reject negb (bool_decide (sink_name ∈ cfg_sinks cfg))
    with OrchestrationInvariantError "Sink in pending_tokens not found in config.sinks";;
  reject negb (bool_decide (sink_name ∈ cfg_sink_ids cfg)) with KeyError "sink_id_map";;
  match cfg_on_write_failure cfg sink_name with
  | None => Ok tt
  | Some target =>
      if target == "discard" then Ok tt
      else
        reject negb (bool_decide (target ∈ cfg_sinks cfg))
          with OrchestrationInvariantError "on_write_failure references a sink not in config.sinks";;
        reject negb (bool_decide (sink_name ∈ cfg_failsink_edges cfg))
          with OrchestrationInvariantError "no __failsink__ DIVERT edge exists";;
        Ok tt
  end.

Fixpoint write_sinks (pt : PendingTokenMap) (c : ExecutionCounters) (td : DiversionCounts)
  : ExecutionCounters * PendingTokenMap * res DiversionCounts :=
  match pt with
  | [] => (c, [], Ok td)
  | (sink_name, pairs) :: pt' =>
      if pairs == [] then
        let '(c', rest, r) := write_sinks pt' c td in (c', (sink_name, pairs) :: rest, r)
      else
        match check_sink sink_name with
        | Err e => (c, pt, Err e)
        | Ok _ =>
            match write_groups sink_name (group_pairs pairs) pairs c td with
            | (c', live, Err e) => (c', (sink_name, live) :: pt', Err e)
            | (c', live, Ok td') =>
                let '(c', rest, r) := write_sinks pt' c' td' in (c', (sink_name, live) :: rest, r)
            end
        end
  end.

Definition write_pending_to_sinks (pt : PendingTokenMap) (c : ExecutionCounters)
  : ExecutionCounters * PendingTokenMap * res DiversionCounts :=
  if negb ((list_to_set (cfg_effect_modes cfg) : gset string) == list_to_set (cfg_sinks cfg)) then
    (c, pt, Err (OrchestrationInvariantError
                   "Pipeline sink effect modes must exactly cover the runtime sink names"))
  else write_sinks pt c (mkDiversions 0 0).

(** [flush_and_write_sinks], without the checkpoint it writes on shutdown. *)
Definition flush_and_write_sinks (pt : PendingTokenMap) (c : ExecutionCounters)
    (interrupted_by_shutdown : bool) : ExecutionCounters * PendingTokenMap * res unit :=
  match write_pending_to_sinks pt c with
  | (c, pt, Err e) => (c, pt, Err e)
  | (c, pt, Ok d) =>
      let c := setattr c f_rows_diverted (getattr c f_rows_diverted + total d) in
      let c := setattr c f_rows_failed (getattr c f_rows_failed + discard_mode d) in
      (c, pt, if interrupted_by_shutdown then Err GracefulShutdownError else Ok tt)
  end.
End sink_flush.

(** ** Properties of the error hash *)

(** The first byte of a UTF-8 string is never 0xff. *)
Definition utf8_start (s : string) : Prop :=
  match s with String a _ => a <> Ascii.ascii_of_nat 255 | EmptyString => True end.

(** The hashed payload separates errors: two errors with one payload have
    the same message, and when that message is empty the same exception type,
    because no UTF-8 message starts with the domain byte of the empty case. *)
Theorem error_hash_payload_separates m1 t1 m2 t2 :
  utf8_start m1 -> utf8_start m2 ->
  error_hash_payload m1 (Some t1) = error_hash_payload m2 (Some t2) ->
  m1 = m2 /\ (m1 = "" -> t1 = t2).
Proof.
  unfold error_hash_payload. intros H1 H2.
  destruct (bool_decide_reflect (m1 = "")) as [->|N1], (bool_decide_reflect (m2 = "")) as [->|N2].
  - intros H. split; [done|]. intros _. by apply (inj (String.append EMPTY_MESSAGE_DOMAIN)) in H.
  - intros H. exfalso. destruct m2; [done|]. cbn in H. injection H as Ha _. by apply H2.
  - intros H. exfalso. destruct m1; [done|]. cbn in H. injection H as Ha _. by apply H1.
  - intros ->. done.
Qed.

Lemma error_hash_payload_separates_witness : "" = "" /\ ("" = "" -> "ValueError" = "ValueError").
Proof. apply (error_hash_payload_separates "" "ValueError" "" "ValueError"); done. Defined.
