(* ===== verification/AuditDerive.v ===== *)
(** * The audit side of the bookkeeping
    (src/elspeth/contracts/audit.py, engine/orchestrator/run_status.py,
     core/landscape/run_status_projection.py)

    Persisted token outcomes with the column constraints of each (outcome,
    path) pair, the derivation of terminal status and counters from them, the
    cross-check of the live counters, and the CLI exit mapping. *)

From S2P Require Import Prelude Enums RunResult Counters Outcomes.

Definition DISCARD_SINK_NAME : string := "__discard__".

(** The columns that the accounting reads. *)
Record TokenOutcome := mkTokenOutcome {
  to_token_id : string;
  to_outcome : option TerminalOutcome;
  to_path : TerminalPath;
  to_completed : bool;
  to_sink_name : option string;
  to_batch_id : option string;
  to_error_hash : option string
}.

Definition to_pair (t : TokenOutcome) : pair_key := (to_outcome t, to_path t).

(** [TokenOutcome.__post_init__]. *)
Definition token_outcome_post_init (t : TokenOutcome) : res unit :=
  reject to_completed t && is_none (to_outcome t)
    with ValueError "completed=True requires non-NULL outcome";;
  reject negb (to_completed t) && is_some (to_outcome t)
    with ValueError "completed=False requires outcome=None";;
  if to_completed t then
    reject negb (legal_opt (to_outcome t) (to_path t))
      with ValueError "pair is not in _LEGAL_TERMINAL_PAIRS";;
    Ok tt
  else
    reject negb (is_non_terminal (to_path t))
      with ValueError "completed=False requires a non-terminal path";;
    Ok tt.

(** ** Column constraints *)
Inductive discriminator := d_sink_name | d_batch_id | d_error_hash.
#[export] Instance discriminator_eq_dec : EqDecision discriminator.
Proof. solve_decision. Defined.

Definition DISCRIMINATOR_FIELDS : list discriminator := [d_sink_name; d_batch_id; d_error_hash].

Definition forbid_except (allowed : list discriminator) : list discriminator :=
  filter (fun f => f ∉ allowed) DISCRIMINATOR_FIELDS.

Record TerminalPairFieldConstraints := mkConstraints {
  required : list discriminator;
  exact : list (discriminator * string);
  forbidden : list discriminator
}.

Definition TERMINAL_PAIR_FIELD_CONSTRAINTS : list (pair_key * TerminalPairFieldConstraints) :=
  [ ((Some SUCCESS, DEFAULT_FLOW), mkConstraints [d_sink_name] [] (forbid_except [d_sink_name]));
    ((Some SUCCESS, GATE_ROUTED), mkConstraints [d_sink_name] [] (forbid_except [d_sink_name]));
    ((Some SUCCESS, GATE_DISCARDED), mkConstraints [] [] DISCRIMINATOR_FIELDS);
    ((Some FAILURE, GATE_ERROR_DISCARDED),
      mkConstraints [d_error_hash] [] (forbid_except [d_error_hash]));
    ((Some FAILURE, ON_ERROR_ROUTED),
      mkConstraints [d_sink_name; d_error_hash] [] (forbid_except [d_sink_name; d_error_hash]));
    ((Some SUCCESS, FILTER_DROPPED), mkConstraints [] [] DISCRIMINATOR_FIELDS);
    ((Some SUCCESS, COALESCED), mkConstraints [] [] (forbid_except [d_sink_name]));
    ((Some FAILURE, UNROUTED), mkConstraints [d_error_hash] [] (forbid_except [d_error_hash]));
    ((Some FAILURE, QUARANTINED_AT_SOURCE),
      mkConstraints [d_error_hash] [] (forbid_except [d_sink_name; d_error_hash]));
    ((Some TRANSIENT, SINK_FALLBACK_TO_FAILSINK),
      mkConstraints [d_sink_name; d_error_hash] [] (forbid_except [d_sink_name; d_error_hash]));
    ((Some FAILURE, SINK_DISCARDED),
      mkConstraints [d_sink_name; d_error_hash] [(d_sink_name, DISCARD_SINK_NAME)]
        (forbid_except [d_sink_name; d_error_hash]));
    ((Some TRANSIENT, FORK_PARENT), mkConstraints [] [] DISCRIMINATOR_FIELDS);
    ((Some TRANSIENT, EXPAND_PARENT), mkConstraints [] [] DISCRIMINATOR_FIELDS);
    ((Some TRANSIENT, BATCH_CONSUMED), mkConstraints [d_batch_id] [] (forbid_except [d_batch_id]));
    ((None, BUFFERED), mkConstraints [d_batch_id] [] (forbid_except [d_batch_id]));
    ((None, ABANDONED), mkConstraints [] [] DISCRIMINATOR_FIELDS) ].

Definition constraints_of (k : pair_key) : option TerminalPairFieldConstraints :=
  '(_, (_, c)) ← list_find (fun e => e.1 = k) TERMINAL_PAIR_FIELD_CONSTRAINTS; Some c.

Definition field_value (t : TokenOutcome) (f : discriminator) : option string :=
  match f with
  | d_sink_name => to_sink_name t
  | d_batch_id => to_batch_id t
  | d_error_hash => to_error_hash t
  end.

Definition validate_token_outcome_persisted_fields (t : TokenOutcome) : res unit :=
  reject negb (eqb (to_completed t) (is_some (to_outcome t)))
    with ValueError "completed must be true iff outcome is non-NULL";;
  reject to_completed t && negb (legal_opt (to_outcome t) (to_path t))
    with ValueError "pair not in _LEGAL_TERMINAL_PAIRS";;
  reject negb (to_completed t) && negb (is_non_terminal (to_path t))
    with ValueError "completed=False requires a non-terminal path";;
  match constraints_of (to_pair t) with
  | None => Err (KeyError "_TERMINAL_PAIR_FIELD_CONSTRAINTS")
  | Some k =>
      reject existsb (fun f => is_none (field_value t f)) (required k)
        with ValueError "required field is NULL";;
      reject existsb (fun fv => negb (field_value t fv.1 == Some fv.2)) (exact k)
        with ValueError "field has not its exact value";;
      reject existsb (fun f => is_some (field_value t f)) (forbidden k)
        with ValueError "forbidden field is set";;
      Ok tt
  end.

(** ** The audit derive *)

Definition require_routed_sink_name (t : TokenOutcome) : res string :=
  match to_sink_name t with
  | None => Err (OrchestrationInvariantError "Routed token_outcomes row missing sink_name")
  | Some name => Ok name
  end.

Definition is_counted_coalesced_output (t : TokenOutcome) : bool := is_some (to_sink_name t).

(** One iteration of the loop over the outcome records. *)
Definition derive_step (c : ExecutionCounters) (t : TokenOutcome) : res ExecutionCounters :=
  if negb (to_completed t) then
    reject to_path t == ABANDONED
      with AuditIntegrityError "Status derive read an ABANDONED record";;
    if to_pair t == (None, BUFFERED) then
      match effect_of (None, BUFFERED) with
      | Some e => Ok (apply_counter_increments c e)
      | None => Err (KeyError "TERMINAL_PAIR_COUNTER_EFFECTS")
      end
    else Ok c
  else
    match effect_of (to_pair t) with
    | None => Err (OrchestrationInvariantError "Unhandled (outcome, path) pair in resume aggregation")
    | Some effect =>
        if (to_pair t == (Some SUCCESS, COALESCED)) && negb (is_counted_coalesced_output t) then Ok c
        else
          let c := apply_counter_increments c effect in
          if counts_routed_destination effect then
            sink ← require_routed_sink_name t;
            Ok (set_destinations c (counter_add (ec_routed_destinations c) sink 1))
          else Ok c
    end.

Fixpoint derive_loop (records : list TokenOutcome) (c : ExecutionCounters) : res ExecutionCounters :=
  match records with
  | [] => Ok c
  | t :: records' => c' ← derive_step c t; derive_loop records' c'
  end.

(** The join of outcomes with tokens, counted by distinct source row. *)
Definition count_distinct_source_rows_with_terminal_outcome
    (tokens : gmap string string) (records : list TokenOutcome) : Z :=
  Z.of_nat (size (list_to_set (omap (fun t => if to_completed t then tokens !! to_token_id t else None)
                                 records) : gset string)).

(** The two group counts are queries over node states and group verdicts. *)
Definition derive_terminal_status_from_audit
    (tokens : gmap string string) (failed_coalesce_barriers failed_collector_groups : Z)
    (records : list TokenOutcome) : res (RunStatus * ExecutionCounters) :=
  let c := setattr ExecutionCounters0 f_rows_processed
             (count_distinct_source_rows_with_terminal_outcome tokens records) in
  let c := setattr c f_rows_coalesce_failed failed_coalesce_barriers in
  let c := setattr c f_collector_groups_failed failed_collector_groups in
  c ← derive_loop records c;
  st ← derive_terminal_run_status (ec_rows_processed c) (ec_rows_succeeded c) (ec_rows_failed c)
         (ec_rows_routed_success c) (ec_rows_routed_failure c) (ec_rows_quarantined c)
         (ec_rows_coalesce_failed c) (ec_collector_groups_failed c);
  Ok (st, c).

(** ** The cross-check *)
Definition strict_fields (live : RunResult) (audit : ExecutionCounters) : list (Z * Z) :=
  [ (rows_processed live, ec_rows_processed audit);
    (rows_succeeded live, ec_rows_succeeded audit);
    (rows_failed live, ec_rows_failed audit);
    (rows_routed_success live, ec_rows_routed_success audit);
    (rows_routed_failure live, ec_rows_routed_failure audit);
    (rows_quarantined live, ec_rows_quarantined audit);
    (rows_forked live, ec_rows_forked audit);
    (rows_coalesced live, ec_rows_coalesced audit);
    (rows_expanded live, ec_rows_expanded audit);
    (rows_buffered live, ec_rows_buffered audit);
    (rows_diverted live, ec_rows_diverted audit) ].

Definition assert_terminal_counter_parity (live : RunResult) (audit : ExecutionCounters) : res unit :=
  reject existsb (fun p => negb (p.1 == p.2)) (strict_fields live audit)
         || negb (routed_destinations live == ec_routed_destinations audit)
         || (ec_rows_coalesce_failed audit <? rows_coalesce_failed live)
    with OrchestrationInvariantError "Live-vs-audit terminal counter mismatch";;
  Ok tt.

(** ** CLI completion *)
Inductive RunCompletionStatus := CLI_COMPLETED | CLI_FAILED | CLI_PARTIAL | CLI_INTERRUPTED.
#[export] Instance RunCompletionStatus_eq_dec : EqDecision RunCompletionStatus.
Proof. solve_decision. Defined.

Definition cli_completion_for (s : RunStatus) : res (RunCompletionStatus * Z) :=
  match s with
  | COMPLETED | EMPTY => Ok (CLI_COMPLETED, 0)
  | COMPLETED_WITH_FAILURES => Ok (CLI_PARTIAL, 1)
  | FAILED => Ok (CLI_FAILED, 2)
  | INTERRUPTED => Ok (CLI_INTERRUPTED, 3)
  | RUNNING => Err (OrchestrationInvariantError "Cannot map RunStatus to RunCompletionStatus")
  end.
