(* ===== verification/Parity.v ===== *)
(** * Agreement of the three bookkeepers
    (src/elspeth/engine/orchestrator/outcomes.py, sink_flush.py, run_status.py)

    Every bookkeeper is characterised by the amount it adds to each counter
    per result, per queued token and per audit record; the agreement theorem
    then is an equation between sums. *)

From S2P Require Import Prelude Enums RunResult Counters Outcomes AuditDerive.

(** ** Amounts *)

(** What one record of a pair adds to a field. *)
Definition pair_delta (k : pair_key) (f : counter_field) : Z :=
  match effect_of k with Some e => occurrences f (increments e) | None => 0 end.

(** Does a record of the pair count a routed destination? *)
Definition pair_dest (k : pair_key) : bool :=
  match effect_of k with Some e => counts_routed_destination e | None => false end.

Definition b2z (b : bool) : Z := if b then 1 else 0.

Lemma pair_delta_nonneg k f : 0 <= pair_delta k f.
Proof. unfold pair_delta. destruct (effect_of k); [apply occurrences_nonneg|lia]. Qed.


(** ** Destination counters without zero entries *)
Definition positive_map (m : gmap string Z) : Prop := map_Forall (fun _ v => 0 < v) m.

Lemma positive_map_get m s : positive_map m -> 0 <= counter_get m s.
Proof.
  intros Hm. unfold counter_get. destruct (m !! s) as [v|] eqn:E; cbn; [|lia].
  apply Hm in E. lia.
Qed.

Lemma positive_map_ext m1 m2 :
  positive_map m1 -> positive_map m2 ->
  (forall s, counter_get m1 s = counter_get m2 s) -> m1 = m2.
Proof.
  intros H1 H2 Heq. apply map_eq; intros s. specialize (Heq s). unfold counter_get in Heq.
  destruct (m1 !! s) as [a|] eqn:E1, (m2 !! s) as [b|] eqn:E2; cbn in Heq;
    try apply H1 in E1; try apply H2 in E2; try done; try (exfalso; lia). by subst.
Qed.

Lemma positive_map_empty : positive_map ∅.
Proof. apply map_Forall_empty. Qed.

Lemma positive_map_add m s n : 0 < n -> positive_map m -> positive_map (counter_add m s n).
Proof.
  intros Hn Hm. pose proof (positive_map_get m s Hm).
  apply map_Forall_insert_2; [lia|done].
Qed.

Lemma counter_get_add m s n s' :
  counter_get (counter_add m s n) s' = counter_get m s' + b2z (s == s') * n.
Proof.
  unfold counter_get at 1. rewrite counter_add_lookup.
  destruct (bool_decide_reflect (s = s')) as [->|]; cbn; [|fold (counter_get m s')]; lia.
Qed.

#[export] Hint Resolve positive_map_empty positive_map_add : elspeth.

(** The destination counter after a reconciliation. *)
Lemma destination_subtract m s n :
  positive_map m -> n <= counter_get m s ->
  let m' := if counter_get m s - n == 0 then delete s m else <[s := counter_get m s - n]> m in
  positive_map m' /\ forall s', counter_get m' s' = counter_get m s' - b2z (s == s') * n.
Proof.
  intros Hm Hn. cbn zeta.
  destruct (bool_decide_reflect (counter_get m s - n = 0)) as [H0|H0]; split.
  - by apply map_Forall_delete.
  - intros s'. destruct (bool_decide_reflect (s = s')) as [->|Hne]; unfold counter_get in *; cbn.
    + rewrite lookup_delete_eq. cbn. lia.
    + rewrite lookup_delete_ne by done. lia.
  - apply map_Forall_insert_2; [lia|done].
  - intros s'. destruct (bool_decide_reflect (s = s')) as [->|Hne]; unfold counter_get in *; cbn.
    + rewrite lookup_insert_eq. cbn. lia.
    + rewrite lookup_insert_ne by done. lia.
Qed.

(** ** The audit derive as a sum *)

(** A consumed coalesce input delegates its tally to the merged token. *)
Definition consumed_input (t : TokenOutcome) : bool :=
  (to_pair t == (Some SUCCESS, COALESCED)) && negb (is_counted_coalesced_output t).

Definition record_delta (f : counter_field) (t : TokenOutcome) : Z :=
  if consumed_input t then 0 else pair_delta (to_pair t) f.

Definition record_dest (s : string) (t : TokenOutcome) : Z :=
  b2z (pair_dest (to_pair t) && (to_sink_name t == Some s)).

(** A record that the recorder accepts, of a run that was not abandoned. *)
Definition record_ok (t : TokenOutcome) : Prop :=
  validate_token_outcome_persisted_fields t = Ok tt /\ to_path t <> ABANDONED.

(** Counters moved by [d] per field and [ds] per destination. *)
Definition moved (c c' : ExecutionCounters) (d : counter_field -> Z) (ds : string -> Z) : Prop :=
  (forall f, getattr c' f = getattr c f + d f) /\
  (forall s, counter_get (ec_routed_destinations c') s = counter_get (ec_routed_destinations c) s + ds s) /\
  (positive_map (ec_routed_destinations c) -> positive_map (ec_routed_destinations c')).

Lemma moved_refl c d ds : (forall f, d f = 0) -> (forall s, ds s = 0) -> moved c c d ds.
Proof. intros H1 H2. split_and!; [intros f; rewrite H1; lia|intros s; rewrite H2; lia|done]. Qed.

Lemma moved_trans c1 c2 c3 d1 d2 ds1 ds2 :
  moved c1 c2 d1 ds1 -> moved c2 c3 d2 ds2 ->
  moved c1 c3 (fun f => d1 f + d2 f) (fun s => ds1 s + ds2 s).
Proof.
  intros (A1 & A2 & A3) (B1 & B2 & B3). split_and!; [| |tauto].
  - intros f. rewrite B1, A1. lia.
  - intros s. rewrite B2, A2. lia.
Qed.

Lemma moved_ext c c' d d' ds ds' :
  moved c c' d ds -> (forall f, d f = d' f) -> (forall s, ds s = ds' s) -> moved c c' d' ds'.
Proof.
  intros (A1 & A2 & A3) H1 H2. split_and!; [| |done].
  - intros f. by rewrite A1, H1.
  - intros s. by rewrite A2, H2.
Qed.

Lemma moved_apply c k e :
  effect_of k = Some e ->
  moved c (apply_counter_increments c e) (pair_delta k) (fun _ => 0).
Proof.
  intros He. split_and!.
  - intros f. rewrite getattr_apply_increments. unfold pair_delta. by rewrite He.
  - intros s. rewrite destinations_apply_increments. lia.
  - by rewrite destinations_apply_increments.
Qed.

Lemma moved_destination c sink :
  moved c (set_destinations c (counter_add (ec_routed_destinations c) sink 1))
    (fun _ => 0) (fun s => b2z (sink == s)).
Proof.
  split_and!.
  - intros f. rewrite getattr_set_destinations. lia.
  - intros s. cbn. rewrite counter_get_add. lia.
  - cbn. apply positive_map_add. lia.
Qed.

(** Which records reach the derive, as a finite case analysis. *)
Lemma record_ok_cases t :
  record_ok t ->
  (exists e, effect_of (to_pair t) = Some e /\
     (to_completed t = false -> to_pair t = (None, BUFFERED)) /\
     (counts_routed_destination e = true -> to_completed t = true /\ exists s, to_sink_name t = Some s)) /\
  (to_completed t = false -> consumed_input t = false).
Proof.
  destruct t as [id o p [] s b h]; unfold record_ok, to_pair; cbn;
    destruct o as [[]|], p; intros [H Ha]; try (exfalso; by vm_compute in H); try done;
    (split; [eexists; split; [vm_compute; reflexivity|]; split; [try done|cbn; try done] | try done]).
  all: intros _; split; [done|]; destruct s as [s|]; [eauto|]; vm_compute in H; discriminate.
Qed.

Lemma derive_step_moved c t :
  record_ok t ->
  exists c', derive_step c t = Ok c' /\ moved c c' (fun f => record_delta f t) (fun s => record_dest s t).
Proof.
  intros Hok. pose proof (record_ok_cases t Hok) as [(e & He & Hinc & Hd) Hc].
  unfold derive_step, record_delta, record_dest, pair_dest. rewrite He.
  destruct (to_completed t) eqn:Hcomp; cbn [negb].
  - fold (consumed_input t). destruct (consumed_input t) eqn:Hci.
    { eexists; split; [done|]. apply moved_refl; [done|]. intros s.
      apply andb_true_iff in Hci as [Hp _]. apply bool_decide_eq_true in Hp.
      rewrite Hp in He. vm_compute in He. by simplify_eq. }
    destruct (counts_routed_destination e) eqn:Hcr.
    + destruct (Hd eq_refl) as [_ [s0 Hs0]]. unfold require_routed_sink_name. rewrite Hs0. cbn.
      eexists; split; [done|].
      eapply moved_ext; [eapply moved_trans; [by eapply moved_apply|apply moved_destination]| |].
      { intros f; cbn; lia. }
      intros s; cbn. rewrite (bool_decide_ext (Some s0 = Some s) (s0 = s)) by naive_solver. lia.
    + eexists; split; [done|]. eapply moved_ext; [by eapply moved_apply|done..].
  - rewrite bool_decide_eq_false_2 by apply Hok.
    specialize (Hinc eq_refl). rewrite Hinc, (Hc eq_refl). rewrite bool_decide_eq_true_2 by done.
    rewrite Hinc in He. rewrite He. eexists; split; [done|].
    vm_compute in He. injection He as <-.
    eapply moved_ext; [by apply (moved_apply c (None, BUFFERED))|done..].
Qed.

Lemma derive_loop_moved records : forall c,
  Forall record_ok records ->
  exists c', derive_loop records c = Ok c' /\
    moved c c' (fun f => sum_over (record_delta f) records) (fun s => sum_over (record_dest s) records).
Proof.
  induction records as [|t records IH]; intros c Hok.
  { eexists; split; [done|]. by apply moved_refl. }
  apply Forall_cons in Hok as [Ht Hok].
  destruct (derive_step_moved c t Ht) as (c1 & E1 & M1).
  destruct (IH c1 Hok) as (c2 & E2 & M2).
  exists c2. split; [cbn; rewrite E1; exact E2|].
  eapply moved_ext; [eapply moved_trans; eassumption|done..].
Qed.

(** The subset relations hold for any counters assembled from table entries. *)
Lemma pair_delta_subset k :
  pair_delta k f_rows_routed_success <= pair_delta k f_rows_succeeded /\
  pair_delta k f_rows_routed_failure <= pair_delta k f_rows_failed /\
  pair_delta k f_rows_quarantined <= pair_delta k f_rows_failed.
Proof. destruct k as [[[]|] []]; vm_compute; repeat split; discriminate. Qed.

Lemma sum_over_le {A} (f g : A -> Z) l : (forall x, f x <= g x) -> sum_over f l <= sum_over g l.
Proof. intros H. induction l as [|x l IH]; [done|]. rewrite !sum_over_cons. specialize (H x). lia. Qed.

Lemma record_delta_subset t :
  record_delta f_rows_routed_success t <= record_delta f_rows_succeeded t /\
  record_delta f_rows_routed_failure t <= record_delta f_rows_failed t /\
  record_delta f_rows_quarantined t <= record_delta f_rows_failed t.
Proof. unfold record_delta. destruct (consumed_input t); [lia|apply pair_delta_subset]. Qed.

Lemma record_delta_nonneg f t : 0 <= record_delta f t.
Proof. unfold record_delta. destruct (consumed_input t); [lia|apply pair_delta_nonneg]. Qed.

(** The counters before the loop over the records. *)
Definition derive_init (processed coalesce_failed collector_failed : Z) : ExecutionCounters :=
  setattr (setattr (setattr ExecutionCounters0 f_rows_processed processed)
             f_rows_coalesce_failed coalesce_failed) f_collector_groups_failed collector_failed.

Lemma getattr_derive_init p cf cg f :
  getattr (derive_init p cf cg) f =
    match f with
    | f_rows_processed => p | f_rows_coalesce_failed => cf | f_collector_groups_failed => cg
    | _ => 0
    end.
Proof. by destruct f. Qed.

Lemma derive_counters_wf c' records p cf cg :
  0 <= p -> 0 <= cf -> 0 <= cg ->
  moved (derive_init p cf cg) c' (fun f => sum_over (record_delta f) records)
    (fun s => sum_over (record_dest s) records) ->
  subset_invariant c'.
Proof.
  intros Hp Hcf Hcg (M & _).
  assert (forall f, 0 <= sum_over (record_delta f) records) as Hs.
  { intros f. apply sum_over_nonneg, Forall_true. intros; apply record_delta_nonneg. }
  split.
  { intros f. rewrite M, getattr_derive_init. specialize (Hs f). destruct f; lia. }
  setoid_rewrite getattr_derive_init in M.
  pose proof (M f_rows_succeeded) as G1. pose proof (M f_rows_routed_success) as G2.
  pose proof (M f_rows_failed) as G3. pose proof (M f_rows_routed_failure) as G4.
  pose proof (M f_rows_quarantined) as G5. cbn in *. rewrite G1, G2, G3, G4, G5.
  split_and!; apply sum_over_le; intros t; pose proof (record_delta_subset t); lia.
Qed.

Lemma audit_derive_total tokens cf cg records id :
  Forall record_ok records -> 0 <= cf -> 0 <= cg -> id <> "" ->
  exists st c, derive_terminal_status_from_audit tokens cf cg records = Ok (st, c) /\
    moved (derive_init (count_distinct_source_rows_with_terminal_outcome tokens records) cf cg) c
      (fun f => sum_over (record_delta f) records) (fun s => sum_over (record_dest s) records) /\
    to_run_result c id st = Ok (run_result_args c id st).
Proof.
  intros Hok Hcf Hcg Hid. unfold derive_terminal_status_from_audit.
  set (p := count_distinct_source_rows_with_terminal_outcome tokens records).
  fold (derive_init p cf cg).
  destruct (derive_loop_moved records (derive_init p cf cg) Hok) as (c & E & M).
  assert (0 <= p) by (subst p; unfold count_distinct_source_rows_with_terminal_outcome; lia).
  pose proof (derive_counters_wf c records p cf cg ltac:(done) Hcf Hcg M) as Hwf.
  destruct (derived_accepted (run_result_args c id EMPTY)) as (st & Hd & _ & Hacc);
    [done|by apply subset_invariant_wf|].
  exists st, c. rewrite E. cbn. unfold derived_status in Hd. cbn in Hd. rewrite Hd. done.
Qed.

(** ** The live accumulator as a sum *)











Section live.
Variable sha256_hexdigest : string -> string.


End live.

(** ** The sink flush as a sum *)
Inductive divert_mode := to_failsink | discarded.
#[export] Instance divert_mode_eq_dec : EqDecision divert_mode.
Proof. solve_decision. Defined.


Definition reconcilable (k : pair_key) : bool :=
  match effect_of k with Some e => sink_reconcilable e | None => false end.





Lemma increments_guard c n l :
  (forall f, n * occurrences f l <= getattr c f) -> 0 <= n ->
  existsb (fun f => getattr c f <? n) l = false.
Proof.
  intros H Hn. apply not_true_iff_false. rewrite existsb_exists. intros (f & Hin & Hlt).
  apply Z.ltb_lt in Hlt. specialize (H f).
  assert (1 <= occurrences f l); [|nia].
  unfold occurrences. apply list_elem_of_In in Hin.
  assert (f ∈ filter (fun f' => f' = f) l) as Hf by (by apply list_elem_of_filter).
  destruct (filter (fun f' => f' = f) l); cbn; [by apply elem_of_nil in Hf|lia].
Qed.

(** A reconciliation that the counters can bear succeeds and moves them back. *)
Lemma reconcile_moved c s po n :
  reconcilable (po_outcome po, po_path po) = true -> 0 <= n ->
  (forall f, n * pair_delta (po_outcome po, po_path po) f <= getattr c f) ->
  n * b2z (pair_dest (po_outcome po, po_path po)) <= counter_get (ec_routed_destinations c) s ->
  positive_map (ec_routed_destinations c) ->
  exists c', reconcile_sink_write_diversions c s (Some po) n = (c', Ok tt) /\
    moved c c' (fun f => - (n * pair_delta (po_outcome po, po_path po) f))
      (fun s' => - (n * b2z (pair_dest (po_outcome po, po_path po) && (s == s')))).
Proof.
  unfold reconcilable, pair_delta, pair_dest, reconcile_sink_write_diversions.
  destruct (effect_of (po_outcome po, po_path po)) as [e|]; [|done]. intros Hr Hn Hf Hd Hpos.
  destruct (bool_decide_reflect (n = 0)) as [->|Hn0].
  { eexists; split; [done|]. apply moved_refl; intros; lia. }
  rewrite Hr. cbn [negb]. rewrite increments_guard by done.
  set (c1 := foldl _ _ _).
  assert (moved c c1 (fun f => - (n * occurrences f (increments e))) (fun _ => 0)) as M1.
  { subst c1. split_and!.
    - intros f. rewrite getattr_bumps. lia.
    - intros s'. rewrite destinations_bumps. lia.
    - by rewrite destinations_bumps. }
  destruct (counts_routed_destination e); cbn [andb b2z] in *.
  - destruct (Z.ltb_spec (counter_get (ec_routed_destinations c) s) n) as [Hlt|_]; [lia|].
    eexists; split; [done|].
    assert (ec_routed_destinations c1 = ec_routed_destinations c) as Hc1 by apply destinations_bumps.
    destruct (destination_subtract (ec_routed_destinations c) s n Hpos) as [P1 P2]; [lia|].
    split_and!.
    + intros f. rewrite getattr_set_destinations. apply M1.
    + intros s'. cbn [ec_routed_destinations set_destinations of_attrs]. rewrite Hc1, P2.
      destruct (s == s'); cbn; lia.
    + intros _. cbn [ec_routed_destinations set_destinations of_attrs]. by rewrite Hc1.
  - eexists; split; [done|]. eapply moved_ext; [exact M1|done|]. intros; cbn; lia.
Qed.


Section flush.
Variable cfg : sink_config.
(** Which tokens the sink write diverts, and how. *)
Variable divert : string -> TokenInfo -> option divert_mode.


























(** ** All sinks *)

#[local] Notation entry := (string * (TokenInfo * option PendingOutcome))%type.













End flush.

(** ** The agreement *)
Section agreement.
Variable sha256_hexdigest : string -> string.
Variable cfg : sink_config.
Variable divert : string -> TokenInfo -> option divert_mode.


















End agreement.



(** ** Properties *)






(** The audit derive cannot crash on records that the recorder accepts:
    for every set of persisted records without an ABANDONED one it returns a
    status and counters, and the [RunResult] constructor accepts that status
    with those counters. *)
Theorem audit_derive_accepted tokens cf cg records id :
  Forall record_ok records -> 0 <= cf -> 0 <= cg -> id <> "" ->
  exists st c, derive_terminal_status_from_audit tokens cf cg records = Ok (st, c) /\
    (forall f, getattr c f = getattr (derive_init (count_distinct_source_rows_with_terminal_outcome tokens records) cf cg) f
                 + sum_over (record_delta f) records) /\
    to_run_result c id st = Ok (run_result_args c id st).
Proof.
  intros Hok Hcf Hcg Hid. destruct (audit_derive_total tokens cf cg records id) as (st & c & E & M & R); [done..|].
  exists st, c. split_and!; [done|apply M|done].
Qed.

(** [n] rows of one pair, counted the way the accumulator counts them. *)
Fixpoint count_rows (e : TerminalPairCounterEffect) (sink : string) (n : nat) (c : ExecutionCounters)
  : ExecutionCounters :=
  match n with
  | O => c
  | S n =>
      let c := apply_counter_increments (count_rows e sink n c) e in
      if counts_routed_destination e
      then set_destinations c (counter_add (ec_routed_destinations c) sink 1) else c
  end.

Lemma count_rows_moved k e sink n c :
  effect_of k = Some e ->
  moved c (count_rows e sink n c) (fun f => Z.of_nat n * pair_delta k f)
    (fun s => Z.of_nat n * b2z (pair_dest k && (sink == s))).
Proof.
  intros He. induction n as [|n IH]; cbn [count_rows]; [apply moved_refl; intros; lia|].
  set (c1 := count_rows e sink n c) in *.
  assert (pair_dest k = counts_routed_destination e) as Hd by (unfold pair_dest; by rewrite He).
  rewrite Hd in *. destruct (counts_routed_destination e); cbn [andb] in *.
  - eapply moved_ext; [eapply moved_trans; [exact IH|eapply moved_trans; [by eapply moved_apply|apply moved_destination]]|..];
      intros; cbn; lia.
  - eapply moved_ext; [eapply moved_trans; [exact IH|by eapply moved_apply]|..]; intros; cbn; lia.
Qed.

(** Reconciliation is the exact inverse of counting: when [n] rows of a
    sink-bound pair were counted and the sink write diverts all [n], the
    reconciler restores the counters that were there before, including the
    absence of a destination key. *)
Theorem reconcile_undoes_counting c e po sink n :
  effect_of (po_outcome po, po_path po) = Some e -> sink_reconcilable e = true ->
  (forall f, 0 <= getattr c f) -> positive_map (ec_routed_destinations c) ->
  reconcile_sink_write_diversions (count_rows e sink n c) sink (Some po) (Z.of_nat n) = (c, Ok tt).
Proof.
  intros He Hr Hnn Hpos. destruct (count_rows_moved _ e sink n c He) as (Mf & Md & Mp).
  destruct (reconcile_moved (count_rows e sink n c) sink po (Z.of_nat n)) as (c' & E & Nf & Nd & Np).
  - unfold reconcilable. by rewrite He.
  - lia.
  - intros f. rewrite Mf. specialize (Hnn f). lia.
  - rewrite Md, (bool_decide_eq_true_2 (sink = sink)), andb_true_r by done.
    pose proof (positive_map_get _ sink Hpos). lia.
  - auto.
  - rewrite E. f_equal. apply counters_ext.
    + intros f. rewrite Nf, Mf. lia.
    + apply positive_map_ext; [auto|done|]. intros s. rewrite Nd, Md. lia.
Qed.

(** A refused reconciliation leaves no trace: all underflow guards run
    before the first subtraction, so an error returns the counters unchanged. *)
Theorem reconcile_error_keeps_counters c sink po n c' e :
  reconcile_sink_write_diversions c sink po n = (c', Err e) -> c' = c.
Proof.
  unfold reconcile_sink_write_diversions. intros H.
  repeat case_match; simplify_eq; done.
Qed.

Lemma subset_invariant_marker c :
  subset_invariant c -> subset_invariant (setattr c f_rows_coalesce_failed (getattr c f_rows_coalesce_failed + 1)).
Proof.
  intros (Hnn & H1 & H2 & H3). split; [|done]. intros f. rewrite getattr_setattr.
  destruct (f == f_rows_coalesce_failed); [specialize (Hnn f_rows_coalesce_failed); lia|done].
Qed.

Lemma subset_invariant_destinations c m : subset_invariant c -> subset_invariant (set_destinations c m).
Proof. intros (Hnn & H). split; [|done]. intros f. rewrite getattr_set_destinations. apply Hnn. Qed.

#[export] Hint Resolve subset_invariant_marker subset_invariant_destinations : elspeth.

Lemma accumulate_one_subset sha256_hexdigest c pt r c' pt' o :
  subset_invariant c -> accumulate_row_outcome sha256_hexdigest (c, pt) r = ((c', pt'), o) ->
  subset_invariant c'.
Proof.
  intros Hc. unfold accumulate_row_outcome.
  destruct (effect_of (rr_pair r)) as [e|] eqn:He; [|naive_solver].
  destruct (forbidden_in_processing_results e); [naive_solver|].
  destruct (result_error_hash sha256_hexdigest r); [|naive_solver].
  pose proof (subset_invariant_apply c _ e He Hc) as Ha.
  set (c1 := if counts_failed_barrier r then _ else _).
  assert (subset_invariant c1) as H1 by (subst c1; destruct (counts_failed_barrier r); auto with elspeth).
  intros H. repeat case_match; inv_ok; simplify_eq; auto with elspeth.
Qed.

(** Whatever the accumulator is fed, and also when it raises halfway, the
    counters it leaves behind are non-negative and keep the subset relations:
    the partial result of a failed run can always be built. *)
Theorem accumulate_partial_result sha256_hexdigest results c pt c' pt' o id :
  subset_invariant c -> id <> "" ->
  accumulate_row_outcomes sha256_hexdigest results (c, pt) = ((c', pt'), o) ->
  subset_invariant c' /\ to_run_result c' id FAILED = Ok (run_result_args c' id FAILED).
Proof.
  intros Hc Hid H.
  assert (subset_invariant c') as Hc'.
  { revert c pt Hc H. induction results as [|r results IH]; intros c pt Hc; cbn [accumulate_row_outcomes]; [naive_solver|].
    destruct (accumulate_row_outcome sha256_hexdigest (c, pt) r) as [[c1 pt1] o1] eqn:E.
    pose proof (accumulate_one_subset _ _ _ _ _ _ _ Hc E) as H1.
    destruct o1; [eauto|naive_solver]. }
  split; [done|]. unfold to_run_result, make_run_result.
  assert (post_init (run_result_args c' id FAILED) = Ok tt) as ->; [|done].
  apply post_init_ok. split_and!; [done|by apply subset_invariant_wf|done].
Qed.

(** A failed barrier group counts each consumed token once in
    [rows_failed] and the group once in [rows_coalesce_failed]; a group that
    failed with no arrived member counts nothing. *)
Theorem failed_group_counts sha256_hexdigest consumed etype reason c pt :
  exists c', accumulate_row_outcomes sha256_hexdigest
      (failed_barrier_group_results consumed etype reason) (c, pt) = ((c', pt), Ok tt) /\
    forall f, getattr c' f = getattr c f
      + b2z (f == f_rows_failed) * Z.of_nat (length consumed)
      + b2z (f == f_rows_coalesce_failed) * b2z (bool_decide (consumed <> [])).
Proof.
  set (mk := fun (b : bool) t => mkRowResult t (Some FAILURE) UNROUTED None
               (Some (mkFailureInfo etype reason)) false None None b).
  assert (forall l c, exists c', accumulate_row_outcomes sha256_hexdigest (map (mk false) l) (c, pt) = ((c', pt), Ok tt) /\
            forall f, getattr c' f = getattr c f + b2z (f == f_rows_failed) * Z.of_nat (length l)) as Hrest.
  { intros l. induction l as [|t l IH]; intros c0; [eexists; split; [done|]; intros; cbn; lia|].
    destruct (IH (setattr c0 f_rows_failed (getattr c0 f_rows_failed + 1))) as (c' & E & G).
    exists c'. split; [exact E|]. intros f. rewrite G, getattr_setattr. cbn [length].
    destruct (bool_decide_reflect (f = f_rows_failed)) as [->|]; cbn [b2z]; lia. }
  destruct consumed as [|t l]; [eexists; split; [done|]; intros; cbn; lia|].
  assert (failed_barrier_group_results (t :: l) etype reason = mk true t :: map (mk false) l) as ->.
  { unfold failed_barrier_group_results. cbn. f_equal.
    apply list_eq. intros i. rewrite list_lookup_imap, list_lookup_fmap. by destruct (l !! i). }
  set (c1 := setattr c f_rows_failed (getattr c f_rows_failed + 1)).
  destruct (Hrest l (setattr c1 f_rows_coalesce_failed (getattr c1 f_rows_coalesce_failed + 1))) as (c' & E & G).
  exists c'. split; [exact E|]. intros f. rewrite G, !getattr_setattr.
  rewrite (bool_decide_eq_true_2 (t :: l <> [])) by done. cbn [length b2z]. subst c1. rewrite !getattr_setattr.
  repeat case_bool_decide; simplify_eq; cbn [b2z]; lia.
Qed.

(** ** Witnesses *)
Module ParityExample.
Definition tok (n : string) : TokenInfo := mkToken ("t" ++ n) ("r" ++ n).
Definition results : list RowResult :=
  [ mkRowResult (tok "1") (Some SUCCESS) DEFAULT_FLOW (Some "out") None true None None false;
    mkRowResult (tok "2") (Some SUCCESS) GATE_ROUTED (Some "out") None true None None false;
    mkRowResult (tok "3") (Some FAILURE) UNROUTED None None false None None true ].
Definition main : list TokenOutcome :=
  [ mkTokenOutcome "t1" (Some SUCCESS) DEFAULT_FLOW true (Some "out") None None;
    mkTokenOutcome "t2" (Some FAILURE) SINK_DISCARDED true (Some DISCARD_SINK_NAME) None (Some "h");
    mkTokenOutcome "t3" (Some FAILURE) UNROUTED true None None (Some "h") ].
Definition consumed : list TokenOutcome :=
  [ mkTokenOutcome "t4" (Some SUCCESS) COALESCED true None None None ].
Definition records : list TokenOutcome := consumed ++ main.
Definition tokens : gmap string string :=
  list_to_map [("t1", "r1"); ("t2", "r2"); ("t3", "r3"); ("t4", "r1")].
Definition start : loop_state :=
  (setattr ExecutionCounters0 f_rows_processed
     (count_distinct_source_rows_with_terminal_outcome tokens records), [("out", [])]).
Definition final : loop_state := (accumulate_row_outcomes (fun s => s) results start).1.

Lemma records_ok : Forall record_ok records.
Proof. repeat constructor; done. Qed.

End ParityExample.


Lemma audit_derive_accepted_witness :
  exists st c, derive_terminal_status_from_audit ParityExample.tokens 1 0 ParityExample.records = Ok (st, c) /\
    (forall f, getattr c f = getattr (derive_init (count_distinct_source_rows_with_terminal_outcome
                 ParityExample.tokens ParityExample.records) 1 0) f
                 + sum_over (record_delta f) ParityExample.records) /\
    to_run_result c "run" st = Ok (run_result_args c "run" st).
Proof.
  apply audit_derive_accepted; [apply ParityExample.records_ok|lia|lia|discriminate].
Defined.

Lemma reconcile_undoes_counting_witness :
  reconcile_sink_write_diversions
    (count_rows (mkEffect [f_rows_succeeded; f_rows_routed_success] true true true false) "out" 3 ExecutionCounters0)
    "out" (Some (mkPending (Some SUCCESS) GATE_ROUTED None None)) 3 = (ExecutionCounters0, Ok tt).
Proof.
  apply (reconcile_undoes_counting ExecutionCounters0 _ (mkPending (Some SUCCESS) GATE_ROUTED None None) "out" 3).
  - reflexivity.
  - reflexivity.
  - intros []; cbn; lia.
  - apply positive_map_empty.
Defined.

Lemma reconcile_error_keeps_counters_witness :
  fst (reconcile_sink_write_diversions ExecutionCounters0 "out"
         (Some (mkPending (Some SUCCESS) GATE_ROUTED None None)) 1) = ExecutionCounters0.
Proof.
  apply (reconcile_error_keeps_counters ExecutionCounters0 "out"
    (Some (mkPending (Some SUCCESS) GATE_ROUTED None None)) 1 _
    (OrchestrationInvariantError "Cannot subtract diverted rows")).
  vm_compute. reflexivity.
Defined.

Lemma accumulate_partial_result_witness :
  subset_invariant ParityExample.final.1 /\
  to_run_result ParityExample.final.1 "run" FAILED = Ok (run_result_args ParityExample.final.1 "run" FAILED).
Proof.
  apply (accumulate_partial_result (fun s => s) ParityExample.results ParityExample.start.1 [("out", [])] _
           ParityExample.final.2 (Ok tt) "run").
  - split; [intros []; vm_compute; discriminate|vm_compute; repeat split; discriminate].
  - discriminate.
  - vm_compute. reflexivity.
Defined.
