(* ===== verification/Triggers.v ===== *)
(** * Aggregation triggers (src/elspeth/engine/triggers.py)

    The evaluator that decides when an aggregation batch is flushed.  Python
    floats appear behind the class [TimeScale]: the code only compares, adds
    and subtracts instants.  Laws are a second class, so that each theorem
    says which of them it needs: the order ones hold for finite floats, the
    exact-arithmetic ones only hold for floats when no rounding occurs.  The
    condition expression is a function of the batch context; parsing and
    evaluating it is another component. *)

From S2P Require Import Prelude Enums.

(** ** Instants *)
Class TimeScale (T : Type) := {
  t_ltb : T -> T -> bool;
  t_add : T -> T -> T;
  t_sub : T -> T -> T;
  t_zero : T;
  t_finite : T -> bool
}.

Class TimeOrder (T : Type) `{TimeScale T} := {
  t_irrefl : forall a, t_ltb a a = false;
  t_trans : forall a b c, t_ltb a b = true -> t_ltb b c = true -> t_ltb a c = true;
  t_total : forall a b, t_ltb a b = true \/ a = b \/ t_ltb b a = true
}.

Class TimeExact (T : Type) `{TimeScale T} := {
  t_sub_self : forall a, t_sub a a = t_zero;
  t_add_sub : forall a b, t_add a (t_sub b a) = b;
  t_sub_sub : forall a b, t_sub a (t_sub a b) = b;
  t_sub_mono : forall a b c, t_ltb (t_sub a c) (t_sub b c) = t_ltb a b;
  t_finite_all : forall a, t_finite a = true
}.

#[export] Instance Z_time : TimeScale Z :=
  {| t_ltb := Z.ltb; t_add := Z.add; t_sub := Z.sub; t_zero := 0; t_finite := fun _ => true |}.

#[export] Instance Z_order : TimeOrder Z.
Proof. split; cbn; intros; lia. Qed.

#[export] Instance Z_exact : TimeExact Z.
Proof. split; cbn; intros; first [lia | done]. Qed.

(** [a <= b] as the code writes it: [not b < a]. *)
Definition t_leb {T} `{TimeScale T} (a b : T) : bool := negb (t_ltb b a).

(** ** [bisect.bisect_left]: the library's binary search.  The interval halves
    in each round, so [length l] rounds are more than enough. *)
Section bisect.
Context {T : Type} `{TimeScale T}.

Fixpoint bisect_loop (fuel : nat) (l : list T) (x : T) (lo hi : nat) : nat :=
  match fuel with
  | O => lo
  | S fuel =>
      if (lo <? hi)%nat then
        let mid := ((lo + hi) / 2)%nat in
        match l !! mid with
        | Some v => if t_ltb v x then bisect_loop fuel l x (S mid) hi else bisect_loop fuel l x lo mid
        | None => lo
        end
      else lo
  end.

Definition bisect_left (l : list T) (x : T) : nat := bisect_loop (S (length l)) l x 0 (length l).

(** [l.insert(i, x)]. *)
Definition list_insert (l : list T) (i : nat) (x : T) : list T := take i l ++ x :: drop i l.
End bisect.

Inductive trigger_name := n_count | n_timeout | n_condition.
#[export] Instance trigger_name_eq_dec : EqDecision trigger_name.
Proof. solve_decision. Defined.

Section evaluator.
Context {T : Type} `{TimeScale T}.

(** [condition] maps [batch_count] and [batch_age_seconds] to the value of
    the expression: [Ok None] is a value that is not a bool. *)
Record TriggerConfig := mkTriggerConfig {
  cfg_count : option Z;
  cfg_timeout_seconds : option T;
  cfg_condition : option (Z -> T -> res (option bool))
}.

Record TriggerEvaluator := mkEvaluator {
  batch_count : Z;
  first_accept_time : option T;
  last_triggered : option trigger_name;
  count_fire_time : option T;
  condition_fire_time : option T;
  member_accept_times : list T;
  condition_fire_observed : bool
}.

Definition init : TriggerEvaluator := mkEvaluator 0 None None None None [] false.

Definition reset (s : TriggerEvaluator) : TriggerEvaluator := mkEvaluator 0 None None None None [] false.

Definition batch_age_seconds (s : TriggerEvaluator) (now : T) : T :=
  match first_accept_time s with None => t_zero | Some t => t_sub now t end.

Definition set_last (s : TriggerEvaluator) (l : option trigger_name) : TriggerEvaluator :=
  mkEvaluator (batch_count s) (first_accept_time s) l (count_fire_time s) (condition_fire_time s)
    (member_accept_times s) (condition_fire_observed s).

Definition set_condition (s : TriggerEvaluator) (c : option T) (observed : bool) : TriggerEvaluator :=
  mkEvaluator (batch_count s) (first_accept_time s) (last_triggered s) (count_fire_time s) c
    (member_accept_times s) observed.

(** [parser.evaluate(context)] with the check that follows each call. *)
Definition evaluate (p : Z -> T -> res (option bool)) (count : Z) (age : T) : res bool :=
  match p count age with
  | Err e => Err e
  | Ok None => Err (TypeError "Trigger condition must return bool")
  | Ok (Some b) => Ok b
  end.

(** [_replay_condition_over_members]; [t0] is [times[0]]. *)
Fixpoint replay_from (p : Z -> T -> res (option bool)) (t0 : T) (count : Z) (times : list T)
  : res (option T) :=
  match times with
  | [] => Ok None
  | instant :: times' =>
      b ← evaluate p count (t_sub instant t0);
      if (b : bool) then Ok (Some instant) else replay_from p t0 (count + 1) times'
  end.

Definition replay_condition_over_members (p : Z -> T -> res (option bool)) (times : list T)
  : res (option T) :=
  match times with [] => Ok None | t0 :: _ => replay_from p t0 1 times end.

Variable cfg : TriggerConfig.

(** The state after the count, the member list, the anchor and the count
    latch were updated, with the two flags the condition part reads. *)
Definition record_accept_core (s : TriggerEvaluator) (current_time : T)
  : TriggerEvaluator * bool * bool :=
  let n := batch_count s + 1 in
  let insert_index := bisect_left (member_accept_times s) current_time in
  let members := list_insert (member_accept_times s) insert_index current_time in
  let members_complete := Z.of_nat (length members) == n in
  let appended_in_order := insert_index == (length members - 1)%nat in
  let first :=
    match first_accept_time s with
    | None => current_time
    | Some f => if t_ltb current_time f then current_time else f
    end in
  let count_fire :=
    match cfg_count cfg with
    | Some k =>
        if k <=? n then
          if members_complete then members !! Z.to_nat (k - 1)
          else match count_fire_time s with None => Some current_time | t => t end
        else count_fire_time s
    | None => count_fire_time s
    end in
  (mkEvaluator n (Some first) (last_triggered s) count_fire (condition_fire_time s) members
     (condition_fire_observed s), members_complete, appended_in_order).

(** [record_accept]; [now] is what the clock returns when no explicit
    [accept_time] is given. *)
Definition record_accept (s : TriggerEvaluator) (accept_time : option T) (now : T)
  : TriggerEvaluator * res unit :=
  let current_time := default now accept_time in
  let '(s1, members_complete, appended_in_order) := record_accept_core s current_time in
  match cfg_condition cfg with
  | Some p =>
      if condition_fire_observed s1 then (s1, Ok tt)
      else if members_complete && negb appended_in_order then
        match replay_condition_over_members p (member_accept_times s1) with
        | Err e => (s1, Err e)
        | Ok t => (set_condition s1 t false, Ok tt)
        end
      else
        match condition_fire_time s1 with
        | Some _ => (s1, Ok tt)
        | None =>
            match evaluate p (batch_count s1)
                    (t_sub current_time (default current_time (first_accept_time s1))) with
            | Err e => (s1, Err e)
            | Ok b => (if b : bool then set_condition s1 (Some current_time) false else s1, Ok tt)
            end
        end
  | None => (s1, Ok tt)
  end.

(** The condition part of [should_trigger]: the candidates it adds and the
    latch it sets. *)
Definition condition_candidate (s : TriggerEvaluator) (current_time : T)
  : TriggerEvaluator * res (list (T * trigger_name)) :=
  match cfg_condition cfg, first_accept_time s with
  | Some p, Some first =>
      match condition_fire_time s with
      | Some t => (s, Ok [(t, n_condition)])
      | None =>
          match evaluate p (batch_count s) (t_sub current_time first) with
          | Err e => (s, Err e)
          | Ok true => (set_condition s (Some current_time) true, Ok [(current_time, n_condition)])
          | Ok false => (s, Ok [])
          end
      end
  | _, _ => (s, Ok [])
  end.

Definition timeout_candidate (s : TriggerEvaluator) (current_time : T) : list (T * trigger_name) :=
  match cfg_timeout_seconds cfg, first_accept_time s with
  | Some timeout, Some first =>
      let fire := t_add first timeout in
      if t_leb fire current_time then [(fire, n_timeout)] else []
  | _, _ => []
  end.

Definition count_candidate (s : TriggerEvaluator) : list (T * trigger_name) :=
  match count_fire_time s with Some t => [(t, n_count)] | None => [] end.

Definition should_trigger (s : TriggerEvaluator) (current_time : T) : TriggerEvaluator * res bool :=
  let s := set_last s None in
  match condition_candidate s current_time with
  | (s', Err e) => (s', Err e)
  | (s', Ok conds) =>
      let candidates := timeout_candidate s current_time ++ count_candidate s ++ conds in
      match sort_by (fun a b => t_leb a.1 b.1) candidates with
      | [] => (s', Ok false)
      | (_, name) :: _ => (set_last s' (Some name), Ok true)
      end
  end.

Definition which_triggered (s : TriggerEvaluator) : option trigger_name := last_triggered s.

Definition get_trigger_type (s : TriggerEvaluator) : option TriggerType :=
  match last_triggered s with
  | Some n_count => Some COUNT
  | Some n_timeout => Some TIMEOUT
  | Some n_condition => Some CONDITION
  | None => None
  end.

(** ** Checkpoint and restore *)
Definition fire_offset (s : TriggerEvaluator) (fire : option T) : option T :=
  match fire, first_accept_time s with
  | Some t, Some first => Some (t_sub t first)
  | _, _ => None
  end.

Definition get_count_fire_offset (s : TriggerEvaluator) : option T := fire_offset s (count_fire_time s).
Definition get_condition_fire_offset (s : TriggerEvaluator) : option T :=
  fire_offset s (condition_fire_time s).

Definition bad_offset (o : option T) : bool :=
  match o with Some t => t_ltb t t_zero || negb (t_finite t) | None => false end.

Definition restore_checks (n : Z) (elapsed : T) (count_off cond_off : option T) : res unit :=
  reject (n <? 0) with ValueError "batch_count must be non-negative";;
  reject t_ltb elapsed t_zero || negb (t_finite elapsed)
    with ValueError "elapsed_age_seconds must be non-negative and finite";;
  reject bad_offset count_off with ValueError "count_fire_offset must be non-negative and finite";;
  reject bad_offset cond_off with ValueError "condition_fire_offset must be non-negative and finite";;
  reject (n == 0) && (t_ltb elapsed t_zero || t_ltb t_zero elapsed || is_some count_off || is_some cond_off)
    with ValueError "empty batch checkpoint requires zero elapsed_age_seconds and no fire offsets";;
  _ ← match count_off with
      | None => Ok tt
      | Some o =>
          reject t_ltb elapsed o with ValueError "count_fire_offset cannot exceed elapsed_age_seconds";;
          match cfg_count cfg with
          | None => Err (ValueError "count_fire_offset requires a configured count trigger")
          | Some k =>
              reject (n <? k)
                with ValueError "count_fire_offset requires batch_count to satisfy configured count";;
              Ok tt
          end
      end;
  match cond_off with
  | None => Ok tt
  | Some o =>
      reject t_ltb elapsed o with ValueError "condition_fire_offset cannot exceed elapsed_age_seconds";;
      reject is_none (cfg_condition cfg)
        with ValueError "condition_fire_offset requires a configured condition trigger";;
      Ok tt
  end.

Definition restore_from_checkpoint (s : TriggerEvaluator) (n : Z) (elapsed : T)
    (count_off cond_off : option T) (current_time : T) : res TriggerEvaluator :=
  _ ← restore_checks n elapsed count_off cond_off;
  if n == 0 then Ok (reset s)
  else
    let first := t_sub current_time elapsed in
    let count_fire :=
      match count_off with
      | Some o => Some (t_add first o)
      | None => match cfg_count cfg with
                | Some k => if k <=? n then Some first else None
                | None => None
                end
      end in
    Ok (mkEvaluator n (Some first) (last_triggered s) count_fire
          (match cond_off with Some o => Some (t_add first o) | None => None end)
          [] (is_some cond_off)).
End evaluator.
Arguments TriggerConfig : clear implicits.
Arguments TriggerEvaluator : clear implicits.
