(* ===== verification/TriggersTheory.v ===== *)
(** * Properties of the aggregation triggers (src/elspeth/engine/triggers.py)

    The latches of the evaluator are functions of the set of durable arrival
    instants, whatever the order in which the members are adopted; the trigger
    that fired first wins; a checkpoint taken and restored decides the same. *)

From S2P Require Import Prelude Enums Triggers.

(** ** Order *)
Section order.
Context {T : Type} `{TimeOrder T}.

Definition t_le (a b : T) : Prop := t_leb a b = true.

Lemma t_asym a b : t_ltb a b = true -> t_ltb b a = false.
Proof.
  intros Hab. destruct (t_ltb b a) eqn:Hba; [|done].
  pose proof (t_trans _ _ _ Hab Hba). pose proof (t_irrefl a). congruence.
Qed.

Lemma t_leb_total a b : t_leb a b = true \/ t_leb b a = true.
Proof.
  unfold t_leb. destruct (t_ltb b a) eqn:Hba; [|by left].
  right. by rewrite (t_asym _ _ Hba).
Qed.

Lemma t_leb_refl a : t_leb a a = true.
Proof. unfold t_leb. by rewrite t_irrefl. Qed.

Lemma t_leb_antisym a b : t_leb a b = true -> t_leb b a = true -> a = b.
Proof.
  unfold t_leb. intros Hab Hba. bool_facts. destruct (t_total a b) as [?|[?|?]]; congruence.
Qed.

Lemma t_leb_ltb_trans a b c : t_leb a b = true -> t_ltb b c = true -> t_ltb a c = true.
Proof.
  intros Hab Hbc. unfold t_leb in Hab. bool_facts.
  destruct (t_total a b) as [Hlt|[->|Hgt]]; [|done|congruence]. by eapply t_trans.
Qed.

Lemma t_leb_trans a b c : t_leb a b = true -> t_leb b c = true -> t_leb a c = true.
Proof.
  intros Hab Hbc. unfold t_leb at 1. apply negb_true_iff. destruct (t_ltb c a) eqn:Hca; [|done].
  pose proof (t_leb_ltb_trans _ _ _ Hbc Hca) as Hba. unfold t_leb in Hab. bool_facts. congruence.
Qed.

Lemma t_ltb_leb_trans a b c : t_ltb a b = true -> t_leb b c = true -> t_ltb a c = true.
Proof.
  intros Hab Hbc. destruct (t_ltb a c) eqn:Hac; [done|].
  assert (t_leb c a = true) as Hca by (unfold t_leb; by rewrite Hac).
  pose proof (t_leb_trans _ _ _ Hbc Hca) as Hba. unfold t_leb in Hba. bool_facts. congruence.
Qed.

Definition sorted_times (l : list T) : Prop := StronglySorted (fun a b => t_leb a b = true) l.

Lemma sorted_times_lookup l i j a b :
  sorted_times l -> (i <= j)%nat -> l !! i = Some a -> l !! j = Some b -> t_leb a b = true.
Proof.
  intros Hs. revert i j. induction Hs as [|x l Hs IH Hx]; intros i j Hij Ha Hb; [done|].
  destruct i as [|i]; cbn in Ha.
  - injection Ha as <-. destruct j as [|j]; cbn in Hb.
    + injection Hb as <-. apply t_leb_refl.
    + rewrite Forall_forall in Hx. apply Hx. by eapply list_elem_of_lookup_2.
  - destruct j as [|j]; [lia|]. eapply IH; [|done..]. lia.
Qed.

(** ** Binary search *)
Lemma bisect_loop_spec fuel : forall l x lo hi,
  sorted_times l -> (lo <= hi <= length l)%nat -> (hi - lo < fuel)%nat ->
  (forall i a, (i < lo)%nat -> l !! i = Some a -> t_ltb a x = true) ->
  (forall i a, (hi <= i)%nat -> l !! i = Some a -> t_ltb a x = false) ->
  let r := bisect_loop fuel l x lo hi in
  (lo <= r <= hi)%nat /\
  (forall i a, (i < r)%nat -> l !! i = Some a -> t_ltb a x = true) /\
  (forall i a, (r <= i)%nat -> l !! i = Some a -> t_ltb a x = false).
Proof.
  induction fuel as [|fuel IH]; intros l x lo hi Hs Hb Hf Hlo Hhi; [lia|]. cbn [bisect_loop].
  destruct (Nat.ltb_spec lo hi) as [Hlt|Hge].
  2: { assert (lo = hi) as -> by lia. cbn. auto. }
  set (mid := ((lo + hi) / 2)%nat).
  assert (lo <= mid < hi)%nat as Hmid.
  { subst mid. pose proof (Nat.div_mod_eq (lo + hi) 2). pose proof (Nat.mod_upper_bound (lo + hi) 2). lia. }
  destruct (lookup_lt_is_Some_2 l mid ltac:(lia)) as [v Hv]. rewrite Hv.
  destruct (t_ltb v x) eqn:Hvx.
  - destruct (IH l x (S mid) hi Hs ltac:(lia) ltac:(lia)) as (H1 & H2 & H3); [|done|].
    + intros i a Hi Ha. eapply t_leb_ltb_trans; [|exact Hvx].
      eapply (sorted_times_lookup l i mid); [done|lia|done..].
    + split; [lia|]. auto.
  - destruct (IH l x lo mid Hs ltac:(lia) ltac:(lia)) as (H1 & H2 & H3); [done| |].
    + intros i a Hi Ha. apply not_true_iff_false. intros Hax.
      assert (t_leb v a = true) as Hva by (eapply (sorted_times_lookup l mid i); [done|lia|done..]).
      pose proof (t_leb_ltb_trans _ _ _ Hva Hax). congruence.
    + split; [lia|]. auto.
Qed.

Lemma bisect_left_spec l x :
  sorted_times l ->
  (bisect_left l x <= length l)%nat /\
  Forall (fun a => t_ltb a x = true) (take (bisect_left l x) l) /\
  Forall (fun a => t_ltb a x = false) (drop (bisect_left l x) l).
Proof.
  intros Hs. destruct (bisect_loop_spec (S (length l)) l x 0 (length l)) as (H1 & H2 & H3);
    [done|lia|lia|intros; lia|intros i a Hi Ha; apply lookup_lt_Some in Ha; lia|].
  fold (bisect_left l x) in *. split; [lia|]. split.
  - apply Forall_lookup. intros i a Ha. apply lookup_take_Some in Ha as [Ha Hi]. eauto.
  - apply Forall_lookup. intros i a Ha. rewrite lookup_drop in Ha. eapply H3; [|exact Ha]. lia.
Qed.

(** Inserting at the position found keeps the list sorted. *)
Lemma bisect_insert_sorted l x :
  sorted_times l -> sorted_times (list_insert l (bisect_left l x) x).
Proof.
  intros Hs. destruct (bisect_left_spec l x Hs) as (Hi & Hlt & Hge).
  unfold list_insert. set (i := bisect_left l x) in *.
  unfold sorted_times in *. rewrite <- (take_drop i l) in Hs. apply StronglySorted_app in Hs as (Hcross & Hs1 & Hs2).
  rewrite Forall_forall in Hlt, Hge.
  apply StronglySorted_app_2; [|done|].
  - intros a b Ha Hb. apply elem_of_cons in Hb as [->|Hb]; [|by apply Hcross].
    unfold t_leb. by rewrite (t_asym _ _ (Hlt a Ha)).
  - constructor; [done|]. apply Forall_forall. intros b Hb. unfold t_leb. by rewrite (Hge b Hb).
Qed.

Lemma list_insert_perm (l : list T) i x : list_insert l i x ≡ₚ x :: l.
Proof. unfold list_insert. rewrite <- Permutation_middle, take_drop. done. Qed.

Lemma sorted_times_unique l1 l2 : sorted_times l1 -> sorted_times l2 -> l1 ≡ₚ l2 -> l1 = l2.
Proof. apply sorted_perm_eq; eauto using t_leb_antisym, t_leb_total, t_leb_trans. Qed.
End order.

(** ** Latches as functions of the arrival instants *)
Section latches.
Context {T : Type} `{TimeOrder T}.
Variable cfg : TriggerConfig T.

(** The condition is a total boolean expression of the batch context. *)
Definition total_condition (p : Z -> T -> res (option bool)) : Prop :=
  forall n age, exists b, p n age = Ok (Some b).

Definition cfg_ok : Prop :=
  (forall k, cfg_count cfg = Some k -> 0 < k) /\
  (forall p, cfg_condition cfg = Some p -> total_condition p).

(** Reference definitions over the sorted arrival instants. *)
Definition count_latch (sorted : list T) : option T :=
  match cfg_count cfg with
  | Some k => if k <=? Z.of_nat (length sorted) then sorted !! Z.to_nat (k - 1) else None
  | None => None
  end.

Definition condition_latch (sorted : list T) : res (option T) :=
  match cfg_condition cfg with
  | Some p => replay_condition_over_members p sorted
  | None => Ok None
  end.

(** The state of an evaluator fed with the instants [ts] and nothing else. *)
Definition fed (s : TriggerEvaluator T) (ts : list T) : Prop :=
  batch_count s = Z.of_nat (length ts) /\
  member_accept_times s ≡ₚ ts /\ sorted_times (member_accept_times s) /\
  first_accept_time s = head (member_accept_times s) /\
  last_triggered s = None /\
  count_fire_time s = count_latch (member_accept_times s) /\
  Ok (condition_fire_time s) = condition_latch (member_accept_times s) /\
  condition_fire_observed s = false.

Lemma fed_init : fed init [].
Proof.
  unfold fed, count_latch, condition_latch; cbn. split_and!; try done; [constructor|..].
  - destruct (cfg_count cfg) as [k|]; [|done]. rewrite lookup_nil. by destruct (_ <=? _).
  - by destruct (cfg_condition cfg).
Qed.

(** A fed state is determined by the instants up to order. *)
Lemma fed_unique s1 s2 ts1 ts2 : ts1 ≡ₚ ts2 -> fed s1 ts1 -> fed s2 ts2 -> s1 = s2.
Proof.
  intros Hp (A1 & A2 & A3 & A4 & A5 & A6 & A7 & A8) (B1 & B2 & B3 & B4 & B5 & B6 & B7 & B8).
  assert (member_accept_times s1 = member_accept_times s2) as Hm
    by (apply (sorted_times_unique _ _ A3 B3); rewrite A2, B2; exact Hp).
  rewrite Hm in A4, A6, A7. rewrite <- B7 in A7. injection A7 as A7.
  rewrite Hp in A1. destruct s1, s2; cbn in *. congruence.
Qed.

Lemma replay_from_app p t0 n l x :
  replay_from p t0 n (l ++ [x]) =
    match replay_from p t0 n l with
    | Ok None => b ← evaluate p (n + Z.of_nat (length l)) (t_sub x t0);
                 Ok (if b : bool then Some x else None)
    | r => r
    end.
Proof.
  revert n. induction l as [|y l IH]; intros n; cbn.
  - rewrite Z.add_0_r. destruct (evaluate p n (t_sub x t0)) as [[]|]; done.
  - destruct (evaluate p n (t_sub y t0)) as [[]|]; cbn; [done| |done].
    rewrite IH. by replace (n + 1 + Z.of_nat (length l)) with (n + Z.of_nat (S (length l))) by lia.
Qed.

Lemma total_evaluate p n age : total_condition p -> exists b, evaluate p n age = Ok b.
Proof. intros Hp. unfold evaluate. destruct (Hp n age) as [b ->]. eauto. Qed.

Lemma total_replay_from p t0 n l : total_condition p -> exists r, replay_from p t0 n l = Ok r.
Proof.
  intros Hp. revert n. induction l as [|x l IH]; intros n; cbn; [eauto|].
  destruct (total_evaluate p n (t_sub x t0) Hp) as [[] ->]; cbn; eauto.
Qed.

Lemma total_replay p l : total_condition p -> exists r, replay_condition_over_members p l = Ok r.
Proof. destruct l; cbn; [eauto|]. apply (total_replay_from p t 1 (t :: l)). Qed.

Lemma replay_snoc p l x :
  l <> [] ->
  replay_condition_over_members p (l ++ [x]) =
    match replay_condition_over_members p l with
    | Ok None => b ← evaluate p (1 + Z.of_nat (length l)) (t_sub x (default x (head l)));
                 Ok (if b : bool then Some x else None)
    | r => r
    end.
Proof.
  destruct l as [|t0 l]; [done|]. intros _. exact (replay_from_app p t0 1 (t0 :: l) x).
Qed.

(** Inserting at the end is appending. *)
Lemma insert_at_end (l : list T) i x :
  (i <= length l)%nat -> i = (length (list_insert l i x) - 1)%nat -> list_insert l i x = l ++ [x].
Proof.
  intros Hi Hl. unfold list_insert in *. rewrite length_app in Hl. cbn in Hl.
  rewrite length_take, length_drop in Hl. assert (i = length l) as -> by lia.
  by rewrite take_ge, drop_ge by lia.
Qed.

Lemma head_insert (l : list T) x :
  sorted_times l ->
  head (list_insert l (bisect_left l x) x) =
    Some (match head l with None => x | Some f => if t_ltb x f then x else f end).
Proof.
  intros Hs. destruct (bisect_left_spec l x Hs) as (Hi & Hlt & Hge).
  unfold list_insert. destruct l as [|f l]; [done|]. cbn [head].
  destruct (bisect_left (f :: l) x) as [|i]; cbn in *.
  - apply Forall_cons in Hge as [Hf _]. destruct (t_total x f) as [->|[->|Hc]]; [done| |congruence].
    by rewrite t_irrefl.
  - apply Forall_cons in Hlt as [Hf _]. by rewrite (t_asym _ _ Hf).
Qed.

(** One accept keeps the state a function of the instants. *)
Lemma record_accept_fed s ts t now :
  cfg_ok -> fed s ts -> exists s', record_accept cfg s (Some t) now = (s', Ok tt) /\ fed s' (t :: ts).
Proof.
  intros [Hk Hp] (A1 & A2 & A3 & A4 & A5 & A6 & A7 & A8).
  set (l := member_accept_times s) in *. set (i := bisect_left l t).
  set (l' := list_insert l i t).
  assert (sorted_times l') as Hs' by by apply bisect_insert_sorted.
  assert (l' ≡ₚ t :: ts) as Hp' by (unfold l'; rewrite list_insert_perm; by rewrite A2).
  assert (length l' = S (length ts)) as Hl' by (by rewrite Hp').
  assert (i <= length l)%nat as Hi by by apply bisect_left_spec.
  assert (head l' = Some (match first_accept_time s with None => t | Some f => if t_ltb t f then t else f end))
    as Hhead by (rewrite A4; by apply head_insert).
  unfold record_accept, record_accept_core. cbn [default from_option id]. fold l i l'.
  rewrite (bool_decide_eq_true_2 (Z.of_nat (length l') = batch_count s + 1)) by lia.
  set (first := match first_accept_time s with None => t | Some f => if t_ltb t f then t else f end) in *.
  match goal with |- context [mkEvaluator _ (Some first) _ ?c _ l' _] => set (cf := c) end.
  assert (cf = count_latch l') as Hcf.
  { subst cf. unfold count_latch. destruct (cfg_count cfg) as [k|] eqn:Ek.
    - rewrite A1, Hl'. replace (Z.of_nat (length ts) + 1) with (Z.of_nat (S (length ts))) by lia.
      destruct (Z.leb_spec k (Z.of_nat (S (length ts)))); [done|].
      rewrite A6. unfold count_latch. rewrite Ek. rewrite A2.
      by destruct (Z.leb_spec k (Z.of_nat (length ts))); [lia|].
    - rewrite A6. unfold count_latch. by rewrite Ek. }
  cbn [condition_fire_observed member_accept_times condition_fire_time first_accept_time batch_count].
  rewrite A8.
  assert (forall r, Ok r = condition_latch l' ->
    fed (mkEvaluator (batch_count s + 1) (Some first) (last_triggered s) cf r l' false) (t :: ts)) as Hfed.
  { intros r Hr. unfold fed; cbn [batch_count member_accept_times first_accept_time last_triggered
      count_fire_time condition_fire_time condition_fire_observed]. split_and!; try done; cbn [length]; lia. }
  destruct (cfg_condition cfg) as [p|] eqn:Ep.
  2: { eexists; split; [done|]. apply Hfed. unfold condition_latch in *. by rewrite Ep in *. }
  assert (condition_latch l' = replay_condition_over_members p l') as Hlatch
    by (unfold condition_latch; by rewrite Ep).
  assert (Ok (condition_fire_time s) = replay_condition_over_members p l) as Hold
    by (rewrite A7; unfold condition_latch; by rewrite Ep).
  specialize (Hp p eq_refl).
  destruct (bool_decide_reflect (i = (length l' - 1)%nat)) as [Hend|Hend]; cbn [andb negb].
  - assert (l' = l ++ [t]) as Hsnoc by (by apply insert_at_end).
    destruct (decide (l = [])) as [Hnil|Hnil].
    + (* first member *)
      rewrite Hnil in Hold, Hsnoc. cbn in Hold. injection Hold as ->.
      assert (first = t) as Hft by (rewrite Hsnoc in Hhead; cbn in Hhead; congruence).
      destruct (total_evaluate p (batch_count s + 1) (t_sub t (default t (Some first))) Hp) as [b Hb].
      rewrite Hb. cbn in Hb. rewrite Hft in Hb.
      eexists; split; [done|].
      assert (Ok (if b then Some t else None) = condition_latch l') as HL.
      { rewrite Hlatch, Hsnoc. cbn. assert (batch_count s + 1 = 1) as H1.
        { rewrite A1. rewrite <- A2, Hnil. done. }
        rewrite H1 in Hb. rewrite Hb. by destruct b. }
      destruct b; cbn; by apply Hfed.
    + pose proof (replay_snoc p l t Hnil) as Hr. rewrite <- Hsnoc, <- Hold in Hr.
      destruct (condition_fire_time s) as [t1|].
      { eexists; split; [done|]. apply Hfed. by rewrite Hlatch, Hr. }
      assert (default t (head l) = first) as Hfirst.
      { rewrite Hsnoc in Hhead. destruct l as [|f l0]; [done|]. cbn in Hhead |- *. congruence. }
      assert (batch_count s + 1 = 1 + Z.of_nat (length l)) as Hn by (rewrite A1, A2; lia).
      cbn [default from_option id]. rewrite Hn. rewrite Hfirst in Hr.
      destruct (total_evaluate p (1 + Z.of_nat (length l)) (t_sub t first) Hp) as [b Hb].
      rewrite Hb in *. cbn [mbind res_bind] in Hr. eexists; split; [done|]. rewrite <- Hn.
      destruct b; apply Hfed; by rewrite Hlatch, Hr.
  - destruct (total_replay p l' Hp) as [r Hr]. rewrite Hr. eexists; split; [done|].
    apply Hfed. by rewrite Hlatch.
Qed.
End latches.

(** ** Properties *)

(** Feed a batch: one [record_accept] per arrival instant, in adoption order. *)
Fixpoint accept_all {T} `{TimeScale T} (cfg : TriggerConfig T) (ts : list T) (s : TriggerEvaluator T)
  : TriggerEvaluator T * res unit :=
  match ts with
  | [] => (s, Ok tt)
  | t :: ts' =>
      match record_accept cfg s (Some t) t with
      | (s', Ok _) => accept_all cfg ts' s'
      | (s', Err e) => (s', Err e)
      end
  end.

Section properties.
Context {T : Type} `{TimeOrder T}.
Variable cfg : TriggerConfig T.

Lemma accept_all_fed ts : forall s ts0,
  cfg_ok cfg -> fed cfg s ts0 ->
  exists s', accept_all cfg ts s = (s', Ok tt) /\ fed cfg s' (rev ts ++ ts0).
Proof.
  induction ts as [|t ts IH]; intros s ts0 Hc Hf; cbn [accept_all rev app]; [eauto|].
  destruct (record_accept_fed cfg s ts0 t t Hc Hf) as (s1 & -> & H1).
  destruct (IH s1 (t :: ts0) Hc H1) as (s2 & E2 & H2). exists s2. split; [done|].
  by rewrite <- app_assoc.
Qed.

Lemma accept_all_fed0 ts :
  cfg_ok cfg -> exists s, accept_all cfg ts init = (s, Ok tt) /\ fed cfg s ts.
Proof.
  intros Hc. destruct (accept_all_fed ts init [] Hc (fed_init cfg)) as (s & E & F).
  exists s. split; [done|]. rewrite app_nil_r in F. destruct F as (F1 & F2 & F).
  split; [by rewrite F1, length_rev|]. split; [|done]. rewrite F2. symmetry. apply Permutation_rev.
Qed.

Lemma sort_times_sorted ts : sorted_times (sort_by t_leb ts).
Proof. apply sort_by_sorted; [apply t_leb_total|apply t_leb_trans]. Qed.
End properties.

(** C25. The whole evaluator state, latches included, depends only on the set
    of durable arrival instants: adopting the members of a batch in any other
    order (as a takeover leader does) reaches the same state. *)
Theorem latches_order_independent {T} `{TimeOrder T} (cfg : TriggerConfig T) ts1 ts2 :
  cfg_ok cfg -> ts1 ≡ₚ ts2 -> accept_all cfg ts1 init = accept_all cfg ts2 init.
Proof.
  intros Hc Hp. destruct (accept_all_fed0 cfg ts1 Hc) as (s1 & -> & F1).
  destruct (accept_all_fed0 cfg ts2 Hc) as (s2 & -> & F2).
  by rewrite (fed_unique cfg s1 s2 ts1 ts2 Hp F1 F2).
Qed.

Lemma latches_order_independent_witness :
  accept_all (mkTriggerConfig (Some 2) (Some 10) (Some (fun n age => Ok (Some (5 <=? age))))) [7; 3; 5] init
  = accept_all (mkTriggerConfig (Some 2) (Some 10) (Some (fun n age => Ok (Some (5 <=? age))))) [3; 5; 7] init.
Proof.
  apply (latches_order_independent (T := Z)).
  - split; cbn; [intros k [= <-]; lia|intros p [= <-] n age; eauto].
  - change [7; 3; 5] with ([7] ++ [3; 5]). change [3; 5; 7] with ([3; 5] ++ [7]). apply Permutation_app_comm.
Defined.

(** What the latches are: after a batch is fed, the timeout anchor is the
    earliest arrival, the count latch is the N-th smallest arrival (none while
    fewer than N members arrived), and the condition latch is the first
    arrival, in durable order, at which the condition holds. *)
Theorem latches_are_durable {T} `{TimeOrder T} (cfg : TriggerConfig T) ts :
  cfg_ok cfg ->
  exists s, accept_all cfg ts init = (s, Ok tt) /\
    batch_count s = Z.of_nat (length ts) /\
    first_accept_time s = head (sort_by t_leb ts) /\
    count_fire_time s = count_latch cfg (sort_by t_leb ts) /\
    Ok (condition_fire_time s) = condition_latch cfg (sort_by t_leb ts).
Proof.
  intros Hc. destruct (accept_all_fed0 cfg ts Hc) as (s & E & F1 & F2 & F3 & F4 & _ & F6 & F7 & _).
  assert (member_accept_times s = sort_by t_leb ts) as Hm.
  { apply sorted_times_unique; [done|apply sort_times_sorted|]. by rewrite F2, sort_by_perm. }
  rewrite Hm in *. eauto 10.
Qed.

Lemma latches_are_durable_witness :
  exists s, accept_all (mkTriggerConfig (Some 2) None None) [7; 3; 5] init = (s, Ok tt) /\
    batch_count s = 3 /\ first_accept_time s = Some 3 /\ count_fire_time s = Some 5 /\
    Ok (condition_fire_time s) = Ok None.
Proof.
  assert (cfg_ok (T := Z) (mkTriggerConfig (Some 2) None None)) as Hc
    by (split; cbn; [intros k [= <-]; lia|done]).
  exact (latches_are_durable (T := Z) (mkTriggerConfig (Some 2) None None) [7; 3; 5] Hc).
Defined.

(** When has a trigger fired, by instant [now], and since when? *)
Definition fired {T} `{TimeScale T} (cfg : TriggerConfig T) (s : TriggerEvaluator T) (now : T)
    (name : trigger_name) (t : T) : Prop :=
  match name with
  | n_timeout => exists d f, cfg_timeout_seconds cfg = Some d /\ first_accept_time s = Some f /\
                   t = t_add f d /\ t_leb t now = true
  | n_count => count_fire_time s = Some t
  | n_condition => is_some (cfg_condition cfg) = true /\ is_some (first_accept_time s) = true /\
                   condition_fire_time s = Some t
  end.

Section should_trigger.
Context {T : Type} `{TimeOrder T}.
Variable cfg : TriggerConfig T.

Lemma condition_candidate_fired s now s' conds :
  condition_candidate cfg s now = (s', Ok conds) ->
  first_accept_time s' = first_accept_time s /\ count_fire_time s' = count_fire_time s /\
  (condition_fire_time s' = condition_fire_time s \/
     condition_fire_time s = None /\ condition_fire_time s' = Some now) /\
  forall t name, (t, name) ∈ conds <-> name = n_condition /\ fired cfg s' now n_condition t.
Proof.
  unfold condition_candidate, fired. intros Hc.
  destruct (cfg_condition cfg) as [p|] eqn:Ep; [|simplify_eq; set_solver].
  destruct (first_accept_time s) as [f|] eqn:Ef; [|simplify_eq; rewrite Ef; set_solver].
  destruct (condition_fire_time s) as [t0|] eqn:Et.
  { simplify_eq. rewrite Ef, Et. set_solver. }
  destruct (evaluate p (batch_count s) (t_sub now f)) as [[]|]; simplify_eq; cbn.
  - rewrite Ef. set_solver.
  - rewrite Ef, Et. set_solver.
Qed.

Lemma candidates_fired s now s' conds t name :
  condition_candidate cfg s now = (s', Ok conds) ->
  (t, name) ∈ timeout_candidate cfg s now ++ count_candidate s ++ conds <-> fired cfg s' now name t.
Proof.
  intros Hc. apply condition_candidate_fired in Hc as (Hf & Hk & _ & Hconds).
  rewrite !elem_of_app, Hconds. unfold timeout_candidate, count_candidate.
  assert ((t, name) ∈ (match count_fire_time s with Some t => [(t, n_count)] | None => [] end) <->
          name = n_count /\ count_fire_time s = Some t) as -> by (destruct (count_fire_time s); set_solver).
  assert ((t, name) ∈ (match cfg_timeout_seconds cfg, first_accept_time s with
            | Some timeout, Some first =>
                if t_leb (t_add first timeout) now then [(t_add first timeout, n_timeout)] else []
            | _, _ => [] end) <-> name = n_timeout /\ fired cfg s' now n_timeout t) as ->.
  { cbn. rewrite Hf. destruct (cfg_timeout_seconds cfg) as [d|], (first_accept_time s) as [f|];
      try (rewrite elem_of_nil; split; [done|by intros [_ (? & ? & ? & ? & _)]]).
    destruct (t_leb (t_add f d) now) eqn:El.
    - rewrite list_elem_of_singleton. split; [intros [= -> ->]; eauto 10|].
      intros [-> (d' & f' & [= <-] & [= <-] & -> & Hl)]. done.
    - rewrite elem_of_nil. split; [done|].
      intros [_ (d' & f' & [= <-] & [= <-] & -> & Hl)]. congruence. }
  clear Hconds. rewrite <- Hk. destruct name; cbn; intuition done.
Qed.
End should_trigger.

(** The order in which [should_trigger] lists its candidates. *)
Definition priority (n : trigger_name) : nat :=
  match n with n_timeout => 0%nat | n_count => 1%nat | n_condition => 2%nat end.

Section winner.
Context {T : Type} `{TimeOrder T}.
Variable cfg : TriggerConfig T.

Lemma candidates_ordered s now s' conds l1 x l2 y :
  condition_candidate cfg s now = (s', Ok conds) ->
  timeout_candidate cfg s now ++ count_candidate s ++ conds = l1 ++ x :: l2 ->
  y ∈ l2 -> (priority x.2 <= priority y.2)%nat.
Proof.
  intros Hc Hl Hy.
  assert (StronglySorted (fun a b => priority a.2 <= priority b.2)%nat
            (timeout_candidate cfg s now ++ count_candidate s ++ conds)) as Hs.
  { unfold condition_candidate in Hc. unfold timeout_candidate, count_candidate.
    repeat case_match; simplify_eq; cbn; repeat constructor; cbn; lia. }
  rewrite Hl in Hs. apply StronglySorted_app_1_r in Hs. inversion_clear Hs as [|? ? _ Hx].
  rewrite Forall_forall in Hx. by apply Hx.
Qed.

Lemma fired_set_last s now name t l : fired cfg (set_last s l) now name t <-> fired cfg s now name t.
Proof. by destruct name. Qed.

Lemma winner_spec s now s' b :
  should_trigger cfg s now = (s', Ok b) ->
  (b = true <-> exists name t, fired cfg s' now name t) /\
  match last_triggered s' with
  | None => b = false
  | Some name => exists t, fired cfg s' now name t /\
      forall name' t', fired cfg s' now name' t' ->
        t_leb t t' = true /\ (t_leb t' t = true -> (priority name <= priority name')%nat)
  end.
Proof.
  unfold should_trigger. destruct (condition_candidate cfg (set_last s None) now) as [s1 [conds|]] eqn:Hc; [|done].
  set (cands := timeout_candidate cfg (set_last s None) now ++ count_candidate (set_last s None) ++ conds).
  pose proof (fun t name => candidates_fired cfg _ now s1 conds t name Hc) as Hfired. fold cands in Hfired.
  destruct (sort_by _ cands) as [|[t name] rest] eqn:Es; intros [= <- <-].
  - assert (cands = []) as Hnil by (apply Permutation_nil_r; by rewrite <- (sort_by_perm (fun a b => t_leb a.1 b.1) cands), Es).
    split.
    + split; [done|]. intros (name & t & Hf). apply Hfired in Hf. rewrite Hnil in Hf. by apply elem_of_nil in Hf.
    + assert (last_triggered s1 = None) as ->; [|done].
      clear -Hc. unfold condition_candidate in Hc. repeat case_match; by simplify_eq.
  - destruct (sort_by_head (fun a b : T * trigger_name => t_leb a.1 b.1)
                ltac:(intros; apply t_leb_total) ltac:(intros ? ? ?; apply t_leb_trans) cands (t, name))
      as (l1 & l2 & Hl & H1 & H2); [by rewrite Es|].
    assert (fired cfg s1 now name t) as Hwin by (apply Hfired; rewrite Hl; set_solver).
    split; [split; [intros _; exists name, t; by apply fired_set_last|done]|].
    cbn. exists t. split; [by apply fired_set_last|]. intros name' t' Hf.
    apply fired_set_last, Hfired in Hf. rewrite Hl in Hf.
    rewrite Forall_forall in H1, H2.
    apply elem_of_app in Hf as [Hf|Hf]; [|apply elem_of_cons in Hf as [[= -> ->]|Hf]].
    + specialize (H1 _ Hf). cbn in H1. split; [|congruence]. destruct (t_leb_total t t'); congruence.
    + split; [apply t_leb_refl|lia].
    + split; [exact (H2 _ Hf)|]. intros _.
      exact (candidates_ordered _ _ _ _ _ _ _ _ Hc Hl Hf).
Qed.
End winner.

(** First to fire wins: when the evaluator triggers, the reported trigger
    has fired, no trigger fired earlier, and a tie goes to timeout before count
    before condition; it triggers exactly when some trigger has fired. *)
Theorem first_to_fire_wins {T} `{TimeOrder T} (cfg : TriggerConfig T) s now s' b :
  should_trigger cfg s now = (s', Ok b) ->
  (b = true <-> exists name t, fired cfg s' now name t) /\
  match which_triggered s' with
  | None => b = false
  | Some name => exists t, fired cfg s' now name t /\
      forall name' t', fired cfg s' now name' t' ->
        t_leb t t' = true /\ (t_leb t' t = true -> (priority name <= priority name')%nat)
  end.
Proof. apply winner_spec. Qed.

Module TriggerExample.
Definition cfg : TriggerConfig Z :=
  mkTriggerConfig (Some 2) (Some 10) (Some (fun n age => Ok (Some (5 <=? age)))).
Definition state : TriggerEvaluator Z := (accept_all cfg [3; 7] init).1.
Definition state' : TriggerEvaluator Z := (should_trigger cfg state 9).1.
End TriggerExample.

Lemma first_to_fire_wins_witness :
  (true = true <-> exists name t, fired TriggerExample.cfg TriggerExample.state' 9 name t) /\
  exists t, fired TriggerExample.cfg TriggerExample.state' 9 n_count t /\
    forall name' t', fired TriggerExample.cfg TriggerExample.state' 9 name' t' ->
      t_leb t t' = true /\ (t_leb t' t = true -> (1 <= priority name')%nat).
Proof.
  assert (should_trigger TriggerExample.cfg TriggerExample.state 9 = (TriggerExample.state', Ok true)) as E
    by (vm_compute; reflexivity).
  exact (first_to_fire_wins (T := Z) TriggerExample.cfg TriggerExample.state 9 TriggerExample.state' true E).
Defined.

(** A condition latch set by observation (or restored) is final until the
    next reset: neither a later accept, backdated or not, nor a later
    evaluation moves it, and evaluation never touches the other latches. *)
Theorem observed_latch_is_final {T} `{TimeScale T} (cfg : TriggerConfig T) s t :
  condition_fire_time s = Some t -> condition_fire_observed s = true ->
  (forall at_time now, let s' := (record_accept cfg s at_time now).1 in
     condition_fire_time s' = Some t /\ condition_fire_observed s' = true) /\
  (forall now, let s' := (should_trigger cfg s now).1 in
     condition_fire_time s' = Some t /\ condition_fire_observed s' = true /\
     count_fire_time s' = count_fire_time s /\ first_accept_time s' = first_accept_time s).
Proof.
  intros Ht Ho. split.
  - intros at_time now. unfold record_accept, record_accept_core. cbn.
    rewrite Ho. by destruct (cfg_condition cfg).
  - intros now. unfold should_trigger, condition_candidate. cbn. rewrite Ht.
    repeat case_match; simplify_eq; cbn; auto.
Qed.

Lemma observed_latch_is_final_witness :
  condition_fire_time (record_accept TriggerExample.cfg TriggerExample.state' (Some 1) 0).1 = Some 9.
Proof.
  destruct (observed_latch_is_final TriggerExample.cfg TriggerExample.state' 9) as [Ha _];
    [vm_compute; reflexivity|vm_compute; reflexivity|].
  apply (Ha (Some 1) 0).
Defined.

(** ** Checkpoints *)
Section checkpoint.
Context {T : Type} `{TimeScale T, !TimeOrder T, !TimeExact T}.
Variable cfg : TriggerConfig T.

(** A latch lies between the anchor and the present. *)
Definition latch_in (f now : T) (o : option T) : Prop :=
  forall t, o = Some t -> t_ltb t f = false /\ t_ltb now t = false.

(** What a checkpoint can record of a state. *)
Definition checkpointable (s : TriggerEvaluator T) (now : T) : Prop :=
  0 < batch_count s /\ exists f, first_accept_time s = Some f /\ t_ltb now f = false /\
  latch_in f now (count_fire_time s) /\ latch_in f now (condition_fire_time s) /\
  (is_some (count_fire_time s) = true <-> exists k, cfg_count cfg = Some k /\ k <= batch_count s) /\
  (is_some (condition_fire_time s) = true -> is_some (cfg_condition cfg) = true).

Lemma sub_zero a b : t_ltb (t_sub a b) t_zero = t_ltb a b.
Proof. rewrite <- (t_sub_self b). apply t_sub_mono. Qed.

Lemma offset_ok f now o :
  latch_in f now o -> bad_offset (match o with Some t => Some (t_sub t f) | None => None end) = false.
Proof.
  destruct o as [t|]; [|done]. intros Hl. destruct (Hl t eq_refl) as [H1 _]. cbn.
  by rewrite sub_zero, H1, t_finite_all.
Qed.

(** The restored state has the same count and latches. *)
Lemma restore_same s now :
  checkpointable s now ->
  restore_from_checkpoint cfg init (batch_count s) (batch_age_seconds s now)
    (get_count_fire_offset s) (get_condition_fire_offset s) now
  = Ok (mkEvaluator (batch_count s) (first_accept_time s) None (count_fire_time s) (condition_fire_time s)
          [] (is_some (condition_fire_time s))).
Proof.
  intros (Hn & f & Hf & Hnow & Hc & Hd & Hck & Hdk).
  unfold restore_from_checkpoint, restore_checks, batch_age_seconds, get_count_fire_offset,
    get_condition_fire_offset, fire_offset. rewrite Hf.
  destruct (Z.ltb_spec (batch_count s) 0) as [?|_]; [lia|].
  rewrite sub_zero, Hnow, t_finite_all. cbn [orb negb].
  rewrite !(offset_ok f now) by done.
  rewrite !(bool_decide_eq_false_2 (batch_count s = 0)) by lia. cbn [andb].
  assert (match count_fire_time s with Some t => Some (t_sub t f) | None => None end
          = (fun t => t_sub t f) <$> count_fire_time s) as -> by by destruct (count_fire_time s).
  destruct (count_fire_time s) as [tc|] eqn:Ec; cbn.
  - destruct (Hc tc eq_refl) as [_ Hc2]. rewrite t_sub_mono, Hc2.
    destruct (proj1 Hck eq_refl) as (k & -> & Hk).
    destruct (Z.ltb_spec (batch_count s) k) as [?|_]; [lia|]. cbn.
    destruct (condition_fire_time s) as [td|] eqn:Ed; cbn.
    + destruct (Hd td eq_refl) as [_ Hd2]. rewrite t_sub_mono, Hd2.
      unfold is_none. rewrite (Hdk eq_refl). cbn. by rewrite t_sub_sub, !t_add_sub.
    + by rewrite t_sub_sub, t_add_sub.
  - assert (match cfg_count cfg with
            | Some k => if k <=? batch_count s then Some (t_sub now (t_sub now f)) else None
            | None => None end = None) as Hnone.
    { destruct (cfg_count cfg) as [k|] eqn:Ek; [|done].
      destruct (Z.leb_spec k (batch_count s)); [|done].
      enough (false = true) by done. apply Hck. eauto. }
    destruct (condition_fire_time s) as [td|] eqn:Ed; cbn.
    + destruct (Hd td eq_refl) as [_ Hd2]. rewrite t_sub_mono, Hd2.
      unfold is_none. rewrite (Hdk eq_refl). cbn. by rewrite Hnone, t_sub_sub, t_add_sub.
    + by rewrite Hnone, t_sub_sub.
Qed.

(** States that agree on what [should_trigger] reads give one verdict. *)
Lemma should_trigger_ext s1 s2 now :
  batch_count s1 = batch_count s2 -> first_accept_time s1 = first_accept_time s2 ->
  count_fire_time s1 = count_fire_time s2 -> condition_fire_time s1 = condition_fire_time s2 ->
  (should_trigger cfg s1 now).2 = (should_trigger cfg s2 now).2 /\
  which_triggered (should_trigger cfg s1 now).1 = which_triggered (should_trigger cfg s2 now).1.
Proof.
  intros E1 E2 E3 E4. unfold should_trigger, condition_candidate, timeout_candidate, count_candidate.
  cbn [set_last first_accept_time count_fire_time condition_fire_time batch_count].
  rewrite E1, E2, E3, E4. destruct (cfg_condition cfg) as [p|], (first_accept_time s2) as [f|];
    try (by repeat case_match).
  destruct (condition_fire_time s2); [by repeat case_match|].
  destruct (evaluate p (batch_count s2) (t_sub now f)) as [[]|]; [by repeat case_match..|done].
Qed.

Lemma replay_from_elem p t0 n l t : replay_from p t0 n l = Ok (Some t) -> t ∈ l.
Proof.
  revert n. induction l as [|x l IH]; intros n; cbn; [done|].
  destruct (evaluate p n (t_sub x t0)) as [[]|]; cbn; [intros [= ->]; set_solver| |done].
  intros Ht. apply IH in Ht. set_solver.
Qed.

Lemma fed_checkpointable s ts now :
  cfg_ok cfg -> fed cfg s ts -> ts <> [] -> Forall (fun t => t_ltb now t = false) ts ->
  checkpointable s now.
Proof.
  intros [Hk Hp] (F1 & F2 & F3 & F4 & _ & F6 & F7 & _) Hne Hnow.
  destruct (member_accept_times s) as [|f l] eqn:El; [by apply Permutation_nil_l in F2|].
  assert (forall t, t ∈ f :: l -> t_ltb t f = false /\ t_ltb now t = false) as Hin.
  { intros t Ht. split.
    - apply elem_of_cons in Ht as [->|Ht]; [apply t_irrefl|].
      apply StronglySorted_inv in F3 as [_ F3]. rewrite Forall_forall in F3.
      specialize (F3 t Ht). unfold t_leb in F3. by bool_facts.
    - rewrite F2 in Ht. rewrite Forall_forall in Hnow. auto. }
  assert (length (f :: l) = length ts) as Hlen by (by rewrite F2).
  split; [destruct ts; [done|]; rewrite F1; cbn; lia|].
  exists f. split; [done|]. split; [apply Hin; set_solver|]. split_and!.
  - intros t Ht. apply Hin. rewrite F6 in Ht. unfold count_latch in Ht.
    repeat case_match; try done. by eapply list_elem_of_lookup_2.
  - intros t Ht. apply Hin. rewrite Ht in F7. unfold condition_latch in F7.
    destruct (cfg_condition cfg); [|done]. symmetry in F7. by apply replay_from_elem in F7.
  - rewrite F6, F1. unfold count_latch. destruct (cfg_count cfg) as [k|] eqn:Ek; [|naive_solver].
    specialize (Hk k eq_refl). rewrite Hlen. destruct (Z.leb_spec k (Z.of_nat (length ts))).
    + destruct (lookup_lt_is_Some_2 (f :: l) (Z.to_nat (k - 1))) as [v Hv]; [lia|]. rewrite Hv. naive_solver.
    + split; [done|]. intros (k' & [= <-] & ?). lia.
  - unfold condition_latch in F7. destruct (cfg_condition cfg); [done|]. injection F7 as ->. done.
Qed.
End checkpoint.

(** A checkpoint loses nothing that decides: take a non-empty batch fed in
    any order, save its count, age and fire offsets, and restore them into a
    fresh evaluator.  The restore is accepted, the anchor and both latches are
    back, and at every later instant the restored evaluator gives the verdict
    and the trigger that the original would have given. *)
Theorem checkpoint_round_trip {T} `{TimeScale T, !TimeOrder T, !TimeExact T} (cfg : TriggerConfig T) ts s now :
  cfg_ok cfg -> ts <> [] -> Forall (fun t => t_ltb now t = false) ts ->
  accept_all cfg ts init = (s, Ok tt) ->
  exists s', restore_from_checkpoint cfg init (batch_count s) (batch_age_seconds s now)
      (get_count_fire_offset s) (get_condition_fire_offset s) now = Ok s' /\
    first_accept_time s' = first_accept_time s /\ count_fire_time s' = count_fire_time s /\
    condition_fire_time s' = condition_fire_time s /\
    forall later, (should_trigger cfg s' later).2 = (should_trigger cfg s later).2 /\
      which_triggered (should_trigger cfg s' later).1 = which_triggered (should_trigger cfg s later).1.
Proof.
  intros Hc Hne Hnow Ha. destruct (accept_all_fed0 cfg ts Hc) as (s0 & E & F).
  rewrite E in Ha. injection Ha as <-.
  eexists. split; [apply restore_same; by eapply fed_checkpointable|].
  split_and!; try done. intros later. by apply should_trigger_ext.
Qed.

Lemma checkpoint_round_trip_witness :
  exists s', restore_from_checkpoint TriggerExample.cfg init 2 7 (Some 4) None 10 = Ok s' /\
    first_accept_time s' = Some 3 /\ count_fire_time s' = Some 7 /\ condition_fire_time s' = None /\
    forall later, (should_trigger TriggerExample.cfg s' later).2
                    = (should_trigger TriggerExample.cfg TriggerExample.state later).2 /\
      which_triggered (should_trigger TriggerExample.cfg s' later).1
        = which_triggered (should_trigger TriggerExample.cfg TriggerExample.state later).1.
Proof.
  assert (cfg_ok TriggerExample.cfg) as Hc by (split; cbn; [intros k [= <-]; lia|intros p [= <-] n age; eauto]).
  assert (Forall (fun t => t_ltb 10 t = false) [3; 7]) as Hn by (repeat constructor).
  exact (checkpoint_round_trip (T := Z) TriggerExample.cfg [3; 7] TriggerExample.state 10 Hc
           ltac:(discriminate) Hn ltac:(vm_compute; reflexivity)).
Defined.
