(* ===== verification/CoalescePolicy.v ===== *)
(** * Coalesce policy matrix (src/elspeth/engine/coalesce_policy.py)

    The pure function that decides merge, fail or wait for a fork group at
    each lifecycle event, with the byte-exact failure reasons that the audit
    trail hashes. *)

From stdpp Require Import pretty.
From S2P Require Import Prelude.

Inductive CoalesceEvent := ARRIVAL | EV_TIMEOUT | FLUSH | LOSS.
#[export] Instance CoalesceEvent_eq_dec : EqDecision CoalesceEvent.
Proof. solve_decision. Defined.

Inductive CoalesceAction := MERGE | FAIL | WAIT.
#[export] Instance CoalesceAction_eq_dec : EqDecision CoalesceAction.
Proof. solve_decision. Defined.

Record CoalesceDecision := mkDecision {
  action : CoalesceAction;
  failure_reason : option string
}.
#[export] Instance CoalesceDecision_eq_dec : EqDecision CoalesceDecision.
Proof. solve_decision. Defined.

(** [CoalesceDecision.__post_init__]: a reason exactly on FAIL. *)
Definition decision_post_init (d : CoalesceDecision) : res CoalesceDecision :=
  reject negb (eqb (is_some (failure_reason d)) (action d == FAIL))
    with OrchestrationInvariantError "CoalesceDecision: failure_reason must be set if and only if action is FAIL";;
  Ok d.

Definition require_failure_reason (d : CoalesceDecision) : res string :=
  match failure_reason d with
  | None => Err (OrchestrationInvariantError "CoalesceDecision.require_failure_reason() called on a decision without one")
  | Some r => Ok r
  end.

Definition merge_decision : CoalesceDecision := mkDecision MERGE None.
Definition wait_decision : CoalesceDecision := mkDecision WAIT None.

(** [_fail(reason)]: built through the validating constructor. *)
Definition fail_decision (reason : string) : res CoalesceDecision :=
  decision_post_init (mkDecision FAIL (Some reason)).

Inductive coalesce_policy := require_all | first | quorum | best_effort | other_policy (name : string).
#[export] Instance coalesce_policy_eq_dec : EqDecision coalesce_policy.
Proof. solve_decision. Defined.

(** The configuration of a coalesce point that the policy reads; [cs_branches]
    are the keys of the branches mapping. *)
Record CoalescePolicySettings := mkPolicySettings {
  ps_policy : coalesce_policy;
  ps_branches : list string;
  ps_quorum_count : option Z
}.

Definition require_quorum_count (s : CoalescePolicySettings) : res Z :=
  match ps_quorum_count s with
  | None => Err (RuntimeError "quorum_count is None for quorum policy")
  | Some q => Ok q
  end.

(** ["sep".join(l)]. *)
Fixpoint join (sep : string) (l : list string) : string :=
  match l with
  | [] => ""
  | [x] => x
  | x :: l' => x ++ sep ++ join sep l'
  end.

Definition is_resolution (e : CoalesceEvent) : bool := (e == EV_TIMEOUT) || (e == FLUSH).

Definition decide_coalesce (s : CoalescePolicySettings) (event : CoalesceEvent)
    (arrived_count : Z) (lost_branches : list string) : res CoalesceDecision :=
  let expected_count := Z.of_nat (length (ps_branches s)) in
  let lost_count := Z.of_nat (length lost_branches) in
  match ps_policy s with
  | require_all =>
      if event == ARRIVAL then Ok (if arrived_count == expected_count then merge_decision else wait_decision)
      else if is_resolution event then fail_decision "incomplete_branches"
      else fail_decision ("branch_lost:" ++ join "," (sort_by String.leb lost_branches))
  | first =>
      if event == ARRIVAL then Ok (if 1 <=? arrived_count then merge_decision else wait_decision)
      else if is_resolution event then
        if arrived_count == 0 then
          fail_decision (if event == EV_TIMEOUT then "first_timeout_no_arrivals" else "all_branches_lost")
        else Err (RuntimeError "Invariant violation: 'first' policy should never have arrived pending branches")
      else if (arrived_count == 0) && (expected_count <=? arrived_count + lost_count)
        then fail_decision "all_branches_lost"
        else Ok wait_decision
  | quorum =>
      q ← require_quorum_count s;
      if event == ARRIVAL then Ok (if q <=? arrived_count then merge_decision else wait_decision)
      else if is_resolution event then
        if q <=? arrived_count then Ok merge_decision
        else fail_decision (if event == EV_TIMEOUT then "quorum_not_met_at_timeout" else "quorum_not_met")
      else
        let max_possible := expected_count - lost_count in
        if max_possible <? q then
          fail_decision ("quorum_impossible:need=" ++ pretty q ++ ",max_possible=" ++ pretty max_possible)
        else if q <=? arrived_count then Ok merge_decision
        else Ok wait_decision
  | best_effort =>
      if event == ARRIVAL then
        Ok (if expected_count <=? arrived_count + lost_count then merge_decision else wait_decision)
      else if is_resolution event then
        if 0 <? arrived_count then Ok merge_decision
        else fail_decision (if event == EV_TIMEOUT then "best_effort_timeout_no_arrivals" else "all_branches_lost")
      else if expected_count <=? arrived_count + lost_count then
        if 0 <? arrived_count then Ok merge_decision else fail_decision "all_branches_lost"
      else Ok wait_decision
  | other_policy _ => Err (RuntimeError "Unknown coalesce policy")
  end.

(** ** Properties *)

(** Settings that the configuration validator lets through: a known policy,
    and a quorum of at least one when the policy is [quorum]. *)
Definition policy_ok (s : CoalescePolicySettings) : Prop :=
  match ps_policy s with
  | quorum => exists q, ps_quorum_count s = Some q /\ 1 <= q
  | other_policy _ => False
  | _ => True
  end.

(** A decision carries a reason exactly when it fails. *)
Definition well_formed (d : CoalesceDecision) : Prop := is_some (failure_reason d) = true <-> action d = FAIL.

Lemma fail_decision_eq r : fail_decision r = Ok (mkDecision FAIL (Some r)).
Proof. reflexivity. Qed.

(** The matrix on validated settings. *)
Lemma decision_total s e arrived lost :
  policy_ok s -> 0 <= arrived ->
  ~ (ps_policy s = first /\ is_resolution e = true /\ arrived <> 0) ->
  exists d, decide_coalesce s e arrived lost = Ok d /\ well_formed d.
Proof.
  intros Hs Ha Hx. unfold policy_ok in Hs. unfold decide_coalesce, well_formed.
  assert (forall r, exists d, fail_decision r = Ok d /\ (is_some (failure_reason d) = true <-> action d = FAIL))
    as Hfail by (intros r; eexists; split; [reflexivity|done]).
  assert (forall b : bool, exists d, Ok (if b then merge_decision else wait_decision) = Ok d /\
            (is_some (failure_reason d) = true <-> action d = FAIL))
    as Hok by (intros []; eexists; split; done).
  destruct (ps_policy s) eqn:Ep; try done; try (destruct Hs as (q & Hq & Hq1); unfold require_quorum_count; rewrite Hq; cbn [mbind res_bind]).
  all: destruct (e == ARRIVAL); [apply Hok|].
  all: destruct (is_resolution e) eqn:Er.
  all: repeat case_match; try apply Hfail; try apply (Hok true); try apply (Hok false).
  bool_facts. exfalso. by apply Hx.
Qed.

(** The two structural guarantees. *)
Lemma decision_structure s e arrived lost d :
  decide_coalesce s e arrived lost = Ok d ->
  (e = ARRIVAL -> action d <> FAIL) /\ (is_resolution e = true -> action d <> WAIT).
Proof.
  intros Hd. split; intros He; subst; unfold decide_coalesce, merge_decision, wait_decision in Hd; rewrite ?fail_decision_eq in Hd.
  - destruct (ps_policy s); cbn in Hd; inv_ok; repeat case_match; simplify_eq; done.
  - destruct e; try done; destruct (ps_policy s); cbn in Hd; inv_ok; repeat case_match; simplify_eq; done.
Qed.

(** Every decision returned is well formed. *)
Lemma decision_well_formed s e arrived lost d :
  decide_coalesce s e arrived lost = Ok d -> well_formed d.
Proof.
  assert (forall r d, fail_decision r = Ok d -> is_some (failure_reason d) = true <-> action d = FAIL) as Hfail
    by (intros r d'; rewrite fail_decision_eq; by intros [= <-]).
  assert (forall (b : bool) d, Ok (if b then merge_decision else wait_decision) = Ok d ->
            is_some (failure_reason d) = true <-> action d = FAIL) as Hok
    by (intros [] d' [= <-]; done).
  unfold decide_coalesce, well_formed. intros Hd.
  destruct (ps_policy s); inv_ok;
    repeat match type of Hd with
      | Ok (if _ then _ else _) = Ok _ => exact (Hok _ _ Hd)
      | fail_decision _ = Ok _ => exact (Hfail _ _ Hd)
      | (if ?b then _ else _) = Ok _ => destruct b
      | Ok merge_decision = Ok _ => exact (Hok true _ Hd)
      | Ok wait_decision = Ok _ => exact (Hok false _ Hd)
      | Err _ = Ok _ => discriminate Hd
      end.
Qed.

(** The matrix is total on validated settings: every event gets a decision
    with a reason exactly on FAIL, except [first] with an arrived branch at
    timeout or flush, which is the documented crash. *)
Theorem decide_total s e arrived lost :
  policy_ok s -> 0 <= arrived ->
  ~ (ps_policy s = first /\ is_resolution e = true /\ arrived <> 0) ->
  exists d, decide_coalesce s e arrived lost = Ok d /\ well_formed d.
Proof. apply decision_total. Qed.

(** The structural guarantees that the executor's delegates rely on: an
    arrival never fails a group, and a timeout or flush never waits. *)
Theorem decide_structure s e arrived lost d :
  decide_coalesce s e arrived lost = Ok d ->
  (e = ARRIVAL -> action d <> FAIL) /\ (is_resolution e = true -> action d <> WAIT).
Proof. apply decision_structure. Qed.

(** The verdict that an arrival would get once [n] branches are there. *)
Definition would_merge (s : CoalescePolicySettings) (lost : list string) (n : Z) : Prop :=
  decide_coalesce s ARRIVAL n lost = Ok merge_decision.

Lemma would_merge_iff s lost n :
  policy_ok s ->
  would_merge s lost n <->
    match ps_policy s with
    | require_all => n = Z.of_nat (length (ps_branches s))
    | first => 1 <= n
    | quorum => exists q, ps_quorum_count s = Some q /\ q <= n
    | best_effort => Z.of_nat (length (ps_branches s)) <= n + Z.of_nat (length lost)
    | other_policy _ => False
    end.
Proof.
  intros Hs. unfold would_merge, decide_coalesce, policy_ok in *.
  change (ARRIVAL == ARRIVAL) with true. cbn iota.
  destruct (ps_policy s); try done.
  - case_bool_decide; split; intros; first [done|lia|exfalso; lia|discriminate].
  - destruct (Z.leb_spec 1 n); split; intros; first [done|lia|exfalso; lia|discriminate].
  - destruct Hs as (q & Hq & _). unfold require_quorum_count. rewrite Hq. cbn.
    destruct (Z.leb_spec q n); split; intros Hx; try done; [eauto|].
    destruct Hx as (q' & [= <-] & ?). exfalso. lia.
  - destruct (Z.leb_spec (Z.of_nat (length (ps_branches s))) (n + Z.of_nat (length lost)));
      split; intros; first [done|lia|exfalso; lia|discriminate].
Qed.

Definition is_fail (r : res CoalesceDecision) : bool :=
  match r with Ok d => action d == FAIL | Err _ => false end.

Lemma loss_fails_iff s arrived lost :
  policy_ok s ->
  is_fail (decide_coalesce s LOSS arrived lost) = true <->
    match ps_policy s with
    | require_all => True
    | first | best_effort => arrived <= 0 /\ (ps_policy s = first -> arrived = 0) /\
                 Z.of_nat (length (ps_branches s)) <= arrived + Z.of_nat (length lost)
    | quorum => exists q, ps_quorum_count s = Some q /\
                  Z.of_nat (length (ps_branches s)) - Z.of_nat (length lost) < q
    | other_policy _ => False
    end.
Proof.
  intros Hs. unfold decide_coalesce, policy_ok in *.
  change (LOSS == ARRIVAL) with false. change (is_resolution LOSS) with false. cbn iota.
  destruct (ps_policy s); try done.
  - case_bool_decide; cbn; [|split; [done|intros; exfalso; naive_solver lia]].
    destruct (Z.leb_spec (Z.of_nat (length (ps_branches s))) (arrived + Z.of_nat (length lost)));
      cbn; split; intros; first [done|lia|exfalso; lia].
  - destruct Hs as (q & Hq & _). unfold require_quorum_count. rewrite Hq. cbn.
    destruct (Z.ltb_spec (Z.of_nat (length (ps_branches s)) - Z.of_nat (length lost)) q);
      [|destruct (q <=? arrived)]; cbn; split; intros Hx; try done; [eauto|..];
      destruct Hx as (q' & [= <-] & ?); exfalso; lia.
  - destruct (Z.leb_spec (Z.of_nat (length (ps_branches s))) (arrived + Z.of_nat (length lost)));
      [destruct (Z.ltb_spec 0 arrived)|]; cbn; split; intros; first [done|lia|exfalso; lia].
Qed.

(** A branch loss fails the group exactly when the group can no longer
    merge: for every policy, LOSS answers FAIL if and only if no number of
    arrivals still possible (at least one, at least those already here, at most
    the branches not lost) would make an arrival merge. *)
Theorem loss_fails_iff_hopeless s arrived lost :
  policy_ok s -> 0 <= arrived -> lost <> [] ->
  arrived + Z.of_nat (length lost) <= Z.of_nat (length (ps_branches s)) ->
  is_fail (decide_coalesce s LOSS arrived lost) = true <->
  forall n, 1 <= n -> arrived <= n <= Z.of_nat (length (ps_branches s)) - Z.of_nat (length lost) ->
    ~ would_merge s lost n.
Proof.
  intros Hs Ha Hl Hle. rewrite loss_fails_iff by done. setoid_rewrite would_merge_iff; [|done..].
  assert (0 < Z.of_nat (length lost)) by (destruct lost; cbn; [done|lia]).
  set (B := Z.of_nat (length (ps_branches s))) in *. set (L := Z.of_nat (length lost)) in *.
  unfold policy_ok in Hs. destruct (ps_policy s) eqn:Ep; try done.
  - split; [intros _ n ? ? ->; lia|done].
  - split; [lia|]. intros Hn. destruct (Z.eq_dec arrived 0) as [->|Hne].
    + split_and!; [lia|done|]. destruct (Z.le_gt_cases B (0 + L)); [done|]. exfalso. apply (Hn 1); lia.
    + exfalso. apply (Hn arrived); lia.
  - destruct Hs as (q & Hq & Hq1). split.
    + intros (q' & Hq' & Hlt) n ? ? (q'' & Hq'' & ?). simplify_eq. lia.
    + intros Hn. exists q. split; [done|]. destruct (Z.lt_ge_cases (B - L) q); [done|].
      exfalso. apply (Hn (B - L)); [lia|lia|eauto].
  - split; [lia|]. intros Hn. destruct (Z.le_gt_cases (B - L) 0); [split_and!; [lia|done|lia]|].
    exfalso. apply (Hn (B - L)); lia.
Qed.

Lemma decide_total_witness :
  exists d, decide_coalesce (mkPolicySettings quorum ["a"; "b"; "c"] (Some 2)) LOSS 0 ["c"; "a"] = Ok d /\ well_formed d.
Proof. apply decide_total; [by exists 2|lia|by intros (? & _)]. Defined.

Lemma decide_structure_witness :
  (EV_TIMEOUT = ARRIVAL -> FAIL <> FAIL) /\ (is_resolution EV_TIMEOUT = true -> FAIL <> WAIT).
Proof.
  apply (decide_structure (mkPolicySettings require_all ["a"; "b"] None) EV_TIMEOUT 1 []
           (mkDecision FAIL (Some "incomplete_branches"))). reflexivity.
Defined.

Lemma loss_fails_iff_hopeless_witness :
  is_fail (decide_coalesce (mkPolicySettings quorum ["a"; "b"; "c"] (Some 2)) LOSS 0 ["c"; "a"]) = true <->
  forall n, 1 <= n -> 0 <= n <= 3 - 2 ->
    ~ would_merge (mkPolicySettings quorum ["a"; "b"; "c"] (Some 2)) ["c"; "a"] n.
Proof.
  apply (loss_fails_iff_hopeless (mkPolicySettings quorum ["a"; "b"; "c"] (Some 2)) 0 ["c"; "a"]);
    [by exists 2|lia|done|cbn; lia].
Defined.

(** The reasons are byte-exact, sorted names and numerals included. *)
Example reasons :
  decide_coalesce (mkPolicySettings require_all ["a"; "b"; "c"] None) LOSS 0 ["c"; "a"]
    = Ok (mkDecision FAIL (Some "branch_lost:a,c")) /\
  decide_coalesce (mkPolicySettings quorum ["a"; "b"; "c"] (Some 2)) LOSS 0 ["c"; "a"]
    = Ok (mkDecision FAIL (Some "quorum_impossible:need=2,max_possible=1")).
Proof. split; vm_compute; reflexivity. Qed.
