(* ===== verification/CoalesceExecutor.v ===== *)
(** * Coalesce executor (src/elspeth/engine/coalesce_executor.py)

    The barrier that holds the branches of a fork group until its policy says
    merge or fail: pending groups, the bounded FIFO of closed groups, and the
    part of the audit database that the late-arrival fallback reads (which
    groups have a finished node state at the coalesce node, and which of those
    a COMPLETED one).  Building the merged row is an argument: it returns a
    merged token, one of the two routed merge failures, or an exception. *)

From S2P Require Import Prelude Triggers CoalescePolicy.

(** The fields of an arriving token that the executor reads. *)
Record branch_token := mkBranchToken {
  bt_token_id : string;
  bt_branch_name : option string;
  bt_fork_group_id : option string;
  bt_has_contract : bool
}.

Definition coalesce_key : Type := string * string.

Section executor.
Context {T : Type} `{TimeScale T}.

Record CoalesceSettings := mkSettings {
  cs_name : string;
  cs_policy : coalesce_policy;
  cs_branches : list string;
  cs_quorum_count : option Z;
  cs_timeout_seconds : option T;
  cs_select : option string   (* the select_branch of a [merge: select] point *)
}.

Definition policy_settings (s : CoalesceSettings) : CoalescePolicySettings :=
  mkPolicySettings (cs_policy s) (cs_branches s) (cs_quorum_count s).

Record BranchEntry := mkEntry { e_token : branch_token; e_arrival_time : T }.

Record PendingCoalesce := mkPendingCoalesce {
  pc_branches : list (string * BranchEntry);
  pc_first_arrival : T;
  pc_lost_branches : list (string * string)
}.

Record executor := mkExecutor {
  ex_settings : list (string * CoalesceSettings);
  ex_pending : list (coalesce_key * PendingCoalesce);
  ex_completed_keys : list (coalesce_key * option bool);
  ex_failed_without_member_state : gset coalesce_key;
  ls_finished : gset coalesce_key;   (* a node state with completed_at *)
  ls_released : gset coalesce_key    (* a node state with status COMPLETED *)
}.

Record CoalesceOutcome := mkOutcome {
  held : bool;
  merged_token : option branch_token;
  consumed_tokens : list branch_token;
  outcome_failure_reason : option string;
  late_arrival : bool;
  join_group_id : option string;
  first_failure_evidence : bool
}.

(** [CoalesceOutcome.__post_init__]. *)
Definition outcome_post_init (o : CoalesceOutcome) : res CoalesceOutcome :=
  let E := OrchestrationInvariantError in
  reject first_failure_evidence o && negb (late_arrival o)
    with E "first_failure_evidence is only valid on a late-arrival outcome";;
  reject held o && is_some (merged_token o) with E "held=True but merged_token is set";;
  reject held o && is_some (outcome_failure_reason o) with E "held=True but failure_reason is set";;
  reject is_some (merged_token o) && is_some (outcome_failure_reason o)
    with E "both merged_token and failure_reason are set";;
  reject is_some (merged_token o) && is_none (join_group_id o)
    with E "merged_token is set but join_group_id is not";;
  reject is_none (merged_token o) && is_some (join_group_id o)
    with E "join_group_id is set but merged_token is not";;
  Ok o.

Inductive merge_result :=
  | Merged (t : branch_token) (join_group_id : string)
  | ContractConflict (message : string)
  | UnionCollision
  | MergeRaised (e : exc).

Variable max_completed_keys : nat.
(** [build_coalesce_merge] followed by [TokenManager.coalesce_tokens]. *)
Variable merge : CoalesceSettings -> list (string * BranchEntry) -> merge_result.

Definition set_pending (x : executor) (p : list (coalesce_key * PendingCoalesce)) : executor :=
  mkExecutor (ex_settings x) p (ex_completed_keys x) (ex_failed_without_member_state x)
    (ls_finished x) (ls_released x).

Definition register_coalesce (x : executor) (s : CoalesceSettings) : executor :=
  mkExecutor (dict_set (ex_settings x) (cs_name s) s) (ex_pending x) (ex_completed_keys x)
    (ex_failed_without_member_state x) (ls_finished x) (ls_released x).

(** The eviction loop of [_mark_completed]. *)
Fixpoint evict (l : list (coalesce_key * option bool)) (fw : gset coalesce_key)
  : list (coalesce_key * option bool) * gset coalesce_key :=
  match l with
  | [] => ([], fw)
  | (k, _) :: l' => if (max_completed_keys <? length l)%nat then evict l' (fw ∖ {[k]}) else (l, fw)
  end.

Definition mark_completed (x : executor) (k : coalesce_key) (merged : option bool) : executor :=
  let '(c, fw) := evict (dict_set (ex_completed_keys x) k merged) (ex_failed_without_member_state x) in
  mkExecutor (ex_settings x) (ex_pending x) c fw (ls_finished x) (ls_released x).

(** The effect on the audit database of finishing node states of the group:
    [finish] for FAILED ones, [finish] and [release] for COMPLETED ones. *)
Definition record_states (x : executor) (k : coalesce_key) (released : bool) : executor :=
  mkExecutor (ex_settings x) (ex_pending x) (ex_completed_keys x) (ex_failed_without_member_state x)
    ({[k]} ∪ ls_finished x) (if released then {[k]} ∪ ls_released x else ls_released x).

(** [_check_landscape_for_completion]. *)
Definition check_landscape_for_completion (x : executor) (k : coalesce_key) : executor * bool :=
  if negb (dict_mem (ex_settings x) k.1) then (x, false)
  else if bool_decide (k ∈ ls_finished x) then (mark_completed x k None, true)
  else (x, false).

(** [key in self._completed_keys or self._check_landscape_for_completion(...)]. *)
Definition already_completed (x : executor) (k : coalesce_key) : executor * bool :=
  if dict_mem (ex_completed_keys x) k then (x, true) else check_landscape_for_completion x k.

(** [_fail_pending]: FAILED states for the arrived branches, close the key,
    remember a failure that left no state behind. *)
Definition fail_pending (x : executor) (k : coalesce_key) (reason : string)
  : executor * res CoalesceOutcome :=
  match dict_get (ex_pending x) k with
  | None => (x, Err (KeyError "_pending"))
  | Some p =>
      let consumed := map (fun be => e_token be.2) (pc_branches p) in
      let x := if consumed is [] then x else record_states x k false in
      let x := set_pending x (dict_del (ex_pending x) k) in
      let x := mark_completed x k (Some false) in
      let x := if consumed is []
               then mkExecutor (ex_settings x) (ex_pending x) (ex_completed_keys x)
                      ({[k]} ∪ ex_failed_without_member_state x) (ls_finished x) (ls_released x)
               else x in
      (x, outcome_post_init (mkOutcome false None consumed (Some reason) false None false))
  end.

(** The tokens of the arrived branches, in the order of the settings. *)
Definition arrived_in_order (s : CoalesceSettings) (p : PendingCoalesce) : list branch_token :=
  omap (fun b => e_token <$> dict_get (pc_branches p) b) (cs_branches s).

(** Exceptions that leave the attempt to a takeover. *)
Definition leaves_attempt (e : exc) : bool :=
  match e with
  | RunLeadershipLostError | RunMembershipLostError | AuditIntegrityError _ => true
  | _ => false
  end.

Definition execute_merge (x : executor) (s : CoalesceSettings) (k : coalesce_key) (p : PendingCoalesce)
  : executor * res CoalesceOutcome :=
  if existsb (fun be => negb (bt_has_contract (e_token be.2))) (pc_branches p) then
    (x, Err (OrchestrationInvariantError "Token on branch has no contract"))
  else if (match cs_select s with Some b => negb (dict_mem (pc_branches p) b) | None => false end) then
    fail_pending x k "select_branch_not_arrived"
  else
    match merge s (pc_branches p) with
    | ContractConflict msg => fail_pending x k ("contract_type_conflict: " ++ msg)
    | UnionCollision => fail_pending x k "union_field_collision"
    | MergeRaised e =>
        if leaves_attempt e then (x, Err e)
        else
          let x := record_states x k false in
          let x := set_pending x (dict_del (ex_pending x) k) in
          (mark_completed x k (Some false), Err e)
    | Merged t join =>
        let x := record_states x k true in
        let x := set_pending x (dict_del (ex_pending x) k) in
        let x := mark_completed x k (Some true) in
        (x, outcome_post_init
              (mkOutcome false (Some t) (arrived_in_order s p) None false (Some join) false))
    end.

Definition decide_group (s : CoalesceSettings) (e : CoalesceEvent) (p : PendingCoalesce) : res CoalesceDecision :=
  decide_coalesce (policy_settings s) e (Z.of_nat (length (pc_branches p))) (pc_lost_branches p).*1.

(** The late-arrival arm of [accept]: the group is already closed. *)
Definition late_arrival_arm (x : executor) (k : coalesce_key) (token : branch_token)
  : executor * res CoalesceOutcome :=
  match dict_get (ex_completed_keys x) k with
  | None => (x, Err (KeyError "_completed_keys"))
  | Some flavor =>
      let evidence := bool_decide (k ∈ ex_failed_without_member_state x) in
      let x := mkExecutor (ex_settings x) (ex_pending x) (ex_completed_keys x)
                 (ex_failed_without_member_state x ∖ {[k]}) (ls_finished x) (ls_released x) in
      let '(x, merged) :=
        match flavor with
        | Some m => (x, m)
        | None => let m := bool_decide (k ∈ ls_released x) in (mark_completed x k (Some m), m)
        end in
      let reason := if (merged : bool) then "late_arrival_after_merge" else "scope_group_failed" in
      (record_states x k false,
       outcome_post_init (mkOutcome false None [token] (Some reason) true None evidence))
  end.

(** [accept]; [now] is the arrival time or the clock reading. *)
Definition accept (x : executor) (token : branch_token) (coalesce_name : string) (now : T)
  : executor * res CoalesceOutcome :=
  match dict_get (ex_settings x) coalesce_name with
  | None => (x, Err (OrchestrationInvariantError "Coalesce not registered"))
  | Some s =>
      match bt_branch_name token with
      | None => (x, Err (OrchestrationInvariantError "Token has no branch_name"))
      | Some branch =>
          if negb (bool_decide (branch ∈ cs_branches s)) then
            (x, Err (OrchestrationInvariantError "Token branch not in expected branches"))
          else
            match bt_fork_group_id token with
            | None => (x, Err (OrchestrationInvariantError "Token has branch_name but no fork_group_id"))
            | Some group =>
                let k := (coalesce_name, group) in
                let '(x, completed) := already_completed x k in
                if completed : bool then late_arrival_arm x k token
                else
                  let p := default (mkPendingCoalesce [] now []) (dict_get (ex_pending x) k) in
                  let p := if t_ltb now (pc_first_arrival p)
                           then mkPendingCoalesce (pc_branches p) now (pc_lost_branches p) else p in
                  let x := set_pending x (dict_set (ex_pending x) k p) in
                  if dict_mem (pc_branches p) branch then
                    (x, Err (OrchestrationInvariantError "Duplicate arrival for branch"))
                  else
                    let p := mkPendingCoalesce (dict_set (pc_branches p) branch (mkEntry token now))
                               (pc_first_arrival p) (pc_lost_branches p) in
                    let x := set_pending x (dict_set (ex_pending x) k p) in
                    match decide_group s ARRIVAL p with
                    | Err e => (x, Err e)
                    | Ok d =>
                        if action d == MERGE then execute_merge x s k p
                        else (x, outcome_post_init (mkOutcome true None [] None false None false))
                    end
            end
      end
  end.

(** [_resolve_pending]. *)
Definition resolve_pending (x : executor) (s : CoalesceSettings) (k : coalesce_key) (p : PendingCoalesce)
    (is_timeout : bool) : executor * res CoalesceOutcome :=
  match decide_group s (if is_timeout then EV_TIMEOUT else FLUSH) p with
  | Err e => (x, Err e)
  | Ok d =>
      match action d with
      | MERGE => execute_merge x s k p
      | FAIL => match require_failure_reason d with
                | Err e => (x, Err e)
                | Ok reason => fail_pending x k reason
                end
      | WAIT => (x, Err (RuntimeError "unreachable: decide_coalesce never returns WAIT for TIMEOUT/FLUSH"))
      end
  end.

(** The loops over the keys collected beforehand; they stop at the first
    exception and keep the state reached. *)
Fixpoint resolve_keys (x : executor) (s : CoalesceSettings) (keys : list coalesce_key)
  : executor * res (list CoalesceOutcome) :=
  match keys with
  | [] => (x, Ok [])
  | k :: keys' =>
      match dict_get (ex_pending x) k with
      | None => (x, Err (KeyError "_pending"))
      | Some p =>
          match resolve_pending x s k p true with
          | (x, Err e) => (x, Err e)
          | (x, Ok o) =>
              match resolve_keys x s keys' with
              | (x, Err e) => (x, Err e)
              | (x, Ok os) => (x, Ok (o :: os))
              end
          end
      end
  end.

Definition check_timeouts (x : executor) (coalesce_name : string) (now : T)
  : executor * res (list CoalesceOutcome) :=
  match dict_get (ex_settings x) coalesce_name with
  | None => (x, Err (OrchestrationInvariantError "Coalesce not registered"))
  | Some s =>
      match cs_timeout_seconds s with
      | None => (x, Ok [])
      | Some timeout =>
          let due := filter (fun kp => kp.1.1 = coalesce_name /\
                       t_leb timeout (t_sub now (pc_first_arrival kp.2)) = true) (ex_pending x) in
          resolve_keys x s due.*1
      end
  end.

Fixpoint flush_keys (x : executor) (keys : list coalesce_key) : executor * res (list CoalesceOutcome) :=
  match keys with
  | [] => (x, Ok [])
  | k :: keys' =>
      match dict_get (ex_settings x) k.1, dict_get (ex_pending x) k with
      | None, _ => (x, Err (KeyError "_settings"))
      | _, None => (x, Err (KeyError "_pending"))
      | Some s, Some p =>
          if (cs_policy s == best_effort) && (length (pc_branches p) == 0%nat)
             && (length (pc_lost_branches p) == 0%nat) then
            (x, Err (OrchestrationInvariantError "Pending coalesce entry has zero branches and zero lost branches"))
          else
            match resolve_pending x s k p false with
            | (x, Err e) => (x, Err e)
            | (x, Ok o) =>
                match flush_keys x keys' with
                | (x, Err e) => (x, Err e)
                | (x, Ok os) => (x, Ok (o :: os))
                end
            end
      end
  end.

Definition flush_pending (x : executor) : executor * res (list CoalesceOutcome) :=
  match flush_keys x (ex_pending x).*1 with
  | (x, Err e) => (x, Err e)
  | (x, Ok os) =>
      (mkExecutor (ex_settings x) (ex_pending x) [] ∅ (ls_finished x) (ls_released x), Ok os)
  end.

(** [_evaluate_after_loss]. *)
Definition evaluate_after_loss (x : executor) (s : CoalesceSettings) (k : coalesce_key)
  : executor * res (option CoalesceOutcome) :=
  match dict_get (ex_pending x) k with
  | None => (x, Err (KeyError "_pending"))
  | Some p =>
      match decide_group s LOSS p with
      | Err e => (x, Err e)
      | Ok d =>
          match action d with
          | MERGE => let '(x, r) := execute_merge x s k p in (x, Some <$> r)
          | FAIL => match require_failure_reason d with
                    | Err e => (x, Err e)
                    | Ok reason => let '(x, r) := fail_pending x k reason in (x, Some <$> r)
                    end
          | WAIT => (x, Ok None)
          end
      end
  end.

Definition notify_branch_lost (x : executor) (coalesce_name fork_group_id lost_branch reason : string) (now : T)
  : executor * res (option CoalesceOutcome) :=
  match dict_get (ex_settings x) coalesce_name with
  | None => (x, Err (OrchestrationInvariantError "Coalesce not registered"))
  | Some s =>
      let k := (coalesce_name, fork_group_id) in
      let '(x, completed) := already_completed x k in
      if completed : bool then (x, Ok None)
      else if negb (bool_decide (lost_branch ∈ cs_branches s)) then
        (x, Err (OrchestrationInvariantError "Lost branch not in expected branches"))
      else
        match dict_get (ex_pending x) k with
        | None =>
            evaluate_after_loss
              (set_pending x (dict_set (ex_pending x) k (mkPendingCoalesce [] now [(lost_branch, reason)]))) s k
        | Some p =>
            if dict_mem (pc_branches p) lost_branch then
              (x, Err (OrchestrationInvariantError "Branch already arrived but was reported as lost"))
            else if dict_mem (pc_lost_branches p) lost_branch then
              (x, Err (OrchestrationInvariantError "Branch already marked lost"))
            else
              evaluate_after_loss
                (set_pending x (dict_set (ex_pending x) k
                   (mkPendingCoalesce (pc_branches p) (pc_first_arrival p)
                      (dict_set (pc_lost_branches p) lost_branch reason)))) s k
        end
  end.

(** [has_recorded_branch_loss]; the Landscape lookup may fill the cache. *)
Definition has_recorded_branch_loss (x : executor) (coalesce_name fork_group_id branch_name : string)
  : executor * bool :=
  let k := (coalesce_name, fork_group_id) in
  match dict_get (ex_pending x) k with
  | Some p => (x, dict_mem (pc_lost_branches p) branch_name)
  | None => let '(x, _) := already_completed x k in (x, false)
  end.

(** [get_barrier_scalars]. *)
Definition get_barrier_scalars (x : executor) : list (coalesce_key * list (string * string)) :=
  omap (fun kp => if pc_lost_branches kp.2 is [] then None else Some (kp.1, pc_lost_branches kp.2))
    (ex_pending x).
End executor.
Arguments CoalesceSettings : clear implicits.
Arguments BranchEntry : clear implicits.
Arguments PendingCoalesce : clear implicits.
Arguments executor : clear implicits.
