(* ===== verification/CoalesceTheory.v ===== *)
(** * Properties of the coalesce executor (src/elspeth/engine/coalesce_executor.py)

    The invariant that separates open from closed groups, the permanence of
    the way a group closed, and the totality of the end-of-input flush. *)

From S2P Require Import Prelude Triggers CoalescePolicy CoalesceExecutor.

Section theory.
Context {T : Type} `{TimeScale T}.
Variable max_completed_keys : nat.
Variable merge : CoalesceSettings T -> list (string * BranchEntry T) -> merge_result.
#[local] Notation executor := (executor T).
  Implicit Types (x : executor) (k : coalesce_key).

(** ** The invariant *)
Record inv (x : executor) : Prop := mkInv {
  inv_pending_nodup : NoDup (ex_pending x).*1;
  inv_completed_nodup : NoDup (ex_completed_keys x).*1;
(** An open group is neither in the FIFO nor finished in the database. *)
inv_open : forall k p, dict_get (ex_pending x) k = Some p ->
  dict_get (ex_completed_keys x) k = None /\ k ∉ ls_finished x /\
  dict_mem (ex_settings x) k.1 = true;
(** The FIFO tells the flavor that the database tells. *)
inv_flavor : forall k f, dict_get (ex_completed_keys x) k = Some f ->
  match f with
  | Some true => k ∈ ls_released x
  | Some false => k ∉ ls_released x
  | None => k ∈ ls_finished x
  end;
inv_released : ls_released x ⊆ ls_finished x
}.

(** Closing preserves: the database only grows, and the flavor of a group
    with a finished state is fixed. *)
Definition settled x x' : Prop :=
  ls_finished x ⊆ ls_finished x' /\
  (forall k, k ∈ ls_finished x -> (k ∈ ls_released x' <-> k ∈ ls_released x)) /\
  ex_settings x' = ex_settings x.

Lemma settled_refl x : settled x x.
Proof. done. Qed.

Lemma settled_trans x1 x2 x3 : settled x1 x2 -> settled x2 x3 -> settled x1 x3.
Proof.
  intros (A1 & A2 & A3) (B1 & B2 & B3). split_and!; [set_solver| |congruence].
  intros k Hk. rewrite B2 by set_solver. by apply A2.
Qed.

(** ** The FIFO *)
Lemma evict_get l : forall fw l' fw',
  NoDup l.*1 -> evict max_completed_keys l fw = (l', fw') ->
  NoDup l'.*1 /\ forall k f, dict_get l' k = Some f -> dict_get l k = Some f.
Proof.
  induction l as [|[k0 f0] l IH]; intros fw l' fw' Hnd; cbn [evict]; [by intros [= <- <-]|].
  destruct (max_completed_keys <? length ((k0, f0) :: l))%nat; [|by intros [= <- <-]].
  cbn in Hnd. apply NoDup_cons in Hnd as [Hn Hnd]. intros He.
  apply IH in He as [H1 H2]; [|done]. split; [done|]. intros k f Hk. apply H2 in Hk. cbn.
  rewrite bool_decide_eq_false_2; [done|]. intros ->. apply Hn.
  apply dict_get_elem in Hk. change k with ((k, f).1). by apply list_elem_of_fmap_2.
Qed.

Lemma mark_completed_fields x k f :
  let x' := mark_completed max_completed_keys x k f in
  ex_settings x' = ex_settings x /\ ex_pending x' = ex_pending x /\
  ls_finished x' = ls_finished x /\ ls_released x' = ls_released x.
Proof. unfold mark_completed. by destruct (evict _ _ _). Qed.

Lemma mark_completed_get x k f :
  NoDup (ex_completed_keys x).*1 ->
  NoDup (ex_completed_keys (mark_completed max_completed_keys x k f)).*1 /\
  forall k' f', dict_get (ex_completed_keys (mark_completed max_completed_keys x k f)) k' = Some f' ->
    k' = k /\ f' = f \/ dict_get (ex_completed_keys x) k' = Some f'.
Proof.
  intros Hnd. unfold mark_completed. destruct (evict _ _ _) as [c fw] eqn:He. cbn.
  apply evict_get in He as [H1 H2]; [|by apply dict_set_nodup]. split; [done|].
  intros k' f' Hk. apply H2 in Hk. rewrite dict_get_set in Hk.
  destruct (bool_decide_reflect (k = k')) as [->|]; [|by right]. left. by simplify_eq.
Qed.

(** Adding a FIFO entry that tells the truth keeps the invariant. *)
Lemma mark_completed_inv x k f :
  inv x -> dict_get (ex_pending x) k = None ->
  match f with Some true => k ∈ ls_released x | Some false => k ∉ ls_released x | None => k ∈ ls_finished x end ->
  inv (mark_completed max_completed_keys x k f).
Proof.
  intros [I1 I2 I3 I4 I5] Hp Hf.
  destruct (mark_completed_fields x k f) as (E1 & E2 & E3 & E4).
  destruct (mark_completed_get x k f I2) as [G1 G2].
  split; rewrite ?E1, ?E2, ?E3, ?E4; [done|done| | |done].
  - intros k' p Hk. destruct (I3 k' p Hk) as (A & B & C). split_and!; [|done..].
    destruct (dict_get (ex_completed_keys (mark_completed max_completed_keys x k f)) k') eqn:Eg; [|done].
    apply G2 in Eg as [[-> _]|Eg]; congruence.
  - intros k' f' Hk. apply G2 in Hk as [[-> ->]|Hk]; [done|]. exact (I4 k' f' Hk).
Qed.

(** Recording finished states of a group that is not open. *)
Lemma record_states_inv x k (b : bool) :
  inv x -> dict_get (ex_pending x) k = None ->
  (b = true -> dict_get (ex_completed_keys x) k = None) -> inv (record_states x k b).
Proof.
  intros [I1 I2 I3 I4 I5] Hp Hb. split; cbn; [done|done| | |destruct b; set_solver].
  - intros k' p Hk. destruct (I3 k' p Hk) as (A & B & C). split_and!; [done| |done].
    intros [->%elem_of_singleton|?]%elem_of_union; [congruence|done].
  - intros k' f' Hk. pose proof (I4 k' f' Hk) as Hf.
    assert (b = true -> k' <> k) as Hne by (intros -> ->; rewrite Hb in Hk by done; done).
    destruct f' as [[]|], b; set_solver.
Qed.

Lemma del_pending_inv x k : inv x -> inv (set_pending x (dict_del (ex_pending x) k)).
Proof.
  intros [I1 I2 I3 I4 I5]. split; cbn; auto with elspeth.
  intros k' p. rewrite dict_get_del by done. destruct (k == k'); [done|]. apply I3.
Qed.

Lemma set_pending_inv x k p :
  inv x -> dict_get (ex_completed_keys x) k = None -> k ∉ ls_finished x ->
  dict_mem (ex_settings x) k.1 = true -> inv (set_pending x (dict_set (ex_pending x) k p)).
Proof.
  intros [I1 I2 I3 I4 I5] Hc Hf Hs. split; cbn; auto with elspeth.
  intros k' p' Hk. rewrite dict_get_set in Hk.
  destruct (bool_decide_reflect (k = k')) as [<-|]; [auto|]. by eapply I3.
Qed.

(** ** Closing a group *)

(** A closing step: the invariant, the settled flavors, the pending map
    without the key, and no other key released. *)
Definition closes x k x' : Prop :=
  inv x' /\ settled x x' /\ ex_pending x' = dict_del (ex_pending x) k /\
  forall k', k' <> k -> (k' ∈ ls_released x' <-> k' ∈ ls_released x).

Lemma set_failed_without_inv x fw :
  inv x -> inv (mkExecutor (ex_settings x) (ex_pending x) (ex_completed_keys x) fw (ls_finished x) (ls_released x)).
Proof. intros [I1 I2 I3 I4 I5]. by split. Qed.

(** Finish, drop from pending, enter into the FIFO. *)
Lemma close_states x k p (b : bool) :
  inv x -> dict_get (ex_pending x) k = Some p ->
  closes x k (mark_completed max_completed_keys
                (set_pending (record_states x k b) (dict_del (ex_pending x) k)) k (Some b)).
Proof.
  intros Hi Hp. pose proof (inv_open x Hi k p Hp) as (Hc & Hf & Hs).
  set (x1 := set_pending x (dict_del (ex_pending x) k)).
  change (set_pending (record_states x k b) (dict_del (ex_pending x) k)) with (record_states x1 k b).
  assert (dict_get (ex_pending x1) k = None) as Hn
    by (cbn; rewrite dict_get_del by apply Hi; by rewrite bool_decide_eq_true_2).
  assert (inv (record_states x1 k b)) as Hi1
    by (apply record_states_inv; [by apply del_pending_inv|done|by intros _]).
  destruct (mark_completed_fields (record_states x1 k b) k (Some b)) as (E1 & E2 & E3 & E4).
  pose proof (inv_released x Hi) as Hr.
  split_and!.
  - apply mark_completed_inv; [done..|]. destruct b; cbn; set_solver.
  - split_and!; [rewrite E3; cbn; set_solver| |by rewrite E1].
    intros k' Hk'. rewrite E4. destruct b; cbn; set_solver.
  - by rewrite E2.
  - intros k' Hk'. rewrite E4. destruct b; cbn; set_solver.
Qed.

(** The failure of a group that nobody reached leaves the database alone. *)
Lemma close_unreached x k p :
  inv x -> dict_get (ex_pending x) k = Some p ->
  closes x k (mark_completed max_completed_keys (set_pending x (dict_del (ex_pending x) k)) k (Some false)).
Proof.
  intros Hi Hp. pose proof (inv_open x Hi k p Hp) as (Hc & Hf & Hs). pose proof (inv_released x Hi) as Hr.
  set (x1 := set_pending x (dict_del (ex_pending x) k)).
  destruct (mark_completed_fields x1 k (Some false)) as (E1 & E2 & E3 & E4).
  split_and!.
  - apply mark_completed_inv; [by apply del_pending_inv| |set_solver].
    cbn. rewrite dict_get_del by apply Hi. by rewrite bool_decide_eq_true_2.
  - split_and!; [by rewrite E3| |by rewrite E1]. intros k' Hk'. by rewrite E4.
  - by rewrite E2.
  - intros k' Hk'. by rewrite E4.
Qed.

Lemma fail_pending_closes x k p reason :
  inv x -> dict_get (ex_pending x) k = Some p ->
  exists x' o, fail_pending max_completed_keys x k reason = (x', Ok o) /\ closes x k x' /\
    merged_token o = None /\ held o = false /\ outcome_failure_reason o = Some reason /\
    (pc_branches p <> [] -> k ∈ ls_finished x') /\ (pc_branches p = [] -> ls_finished x' = ls_finished x) /\
    ls_released x' = ls_released x.
Proof.
  intros Hi Hp. unfold fail_pending. rewrite Hp.
  destruct (pc_branches p) as [|be l] eqn:Eb; cbn [map].
  - eexists _, _. split; [reflexivity|]. cbn [merged_token held outcome_failure_reason].
    pose proof (close_unreached x k p Hi Hp) as (C1 & C2 & C3).
    destruct (mark_completed_fields (set_pending x (dict_del (ex_pending x) k)) k (Some false)) as (E1 & E2 & E3 & E4).
    split; [split; [by apply set_failed_without_inv|done]|]. cbn. rewrite E3, E4. done.
  - eexists _, _. split; [reflexivity|].
    pose proof (close_states x k p false Hi Hp) as C.
    destruct (mark_completed_fields (set_pending (record_states x k false) (dict_del (ex_pending x) k)) k (Some false))
      as (E1 & E2 & E3 & E4).
    split; [exact C|]. cbn. rewrite E3, E4. cbn. set_solver.
Qed.

(** What a merge attempt can do to the state. *)
Lemma execute_merge_cases x s k p x' r :
  inv x -> dict_get (ex_pending x) k = Some p ->
  execute_merge max_completed_keys merge x s k p = (x', r) ->
  closes x k x' \/ x' = x /\ exists e, r = Err e.
Proof.
  intros Hi Hp. unfold execute_merge.
  destruct (existsb _ (pc_branches p)); [intros [= <- <-]; eauto|].
  destruct (match cs_select s with Some b => _ | None => _ end).
  { destruct (fail_pending_closes x k p "select_branch_not_arrived" Hi Hp) as (y & o & -> & Hc & _).
    intros [= <- <-]. by left. }
  destruct (merge s (pc_branches p)) as [t j|msg| |e].
  - intros [= <- <-]. left. by apply (close_states x k p true).
  - destruct (fail_pending_closes x k p ("contract_type_conflict: " ++ msg) Hi Hp) as (y & o & -> & Hc & _).
    intros [= <- <-]. by left.
  - destruct (fail_pending_closes x k p "union_field_collision" Hi Hp) as (y & o & -> & Hc & _).
    intros [= <- <-]. by left.
  - destruct (leaves_attempt e); intros [= <- <-]; [eauto|]. left. by apply (close_states x k p false).
Qed.

(** ** The operations preserve the invariant, results and errors alike *)

(** A group that is not pending, other than the one the operation is about,
    is neither opened nor released. *)
Definition untouched (o : option coalesce_key) x x' : Prop :=
  forall k, Some k <> o -> dict_get (ex_pending x) k = None ->
    dict_get (ex_pending x') k = None /\ (k ∈ ls_released x' <-> k ∈ ls_released x).

Definition safe (o : option coalesce_key) x x' : Prop := inv x' /\ settled x x' /\ untouched o x x'.

Lemma safe_refl o x : inv x -> safe o x x.
Proof. intros Hi. split; [done|]. split; [apply settled_refl|]. by intros k. Qed.

Lemma safe_trans o x1 x2 x3 : safe o x1 x2 -> safe o x2 x3 -> safe o x1 x3.
Proof.
  intros (A1 & A2 & A3) (B1 & B2 & B3). split; [done|]. split; [by eapply settled_trans|].
  intros k Ho Hk. destruct (A3 k Ho Hk) as [Hk2 <-]. by apply B3.
Qed.

(** Closing a pending group touches no group that is not pending. *)
Lemma closes_safe o x k p x' :
  inv x -> dict_get (ex_pending x) k = Some p -> closes x k x' -> safe o x x'.
Proof.
  intros Hi Hp (C1 & C2 & C3 & C4). split_and!; [done..|]. intros k' _ Hk'.
  assert (k' <> k) as Hne by congruence. split; [|by apply C4].
  rewrite C3, dict_get_del by apply Hi. by destruct (k == k').
Qed.

(** An operation that keeps the pending map and the COMPLETED states. *)
Lemma same_groups_safe o x x' :
  inv x' -> settled x x' -> ex_pending x' = ex_pending x -> ls_released x' = ls_released x -> safe o x x'.
Proof. intros H1 H2 E1 E2. split_and!; [done..|]. intros k _. by rewrite E1, E2. Qed.

(** Opening or updating the operation's own group. *)
Lemma set_pending_safe x k p :
  inv x -> dict_get (ex_completed_keys x) k = None -> k ∉ ls_finished x ->
  dict_mem (ex_settings x) k.1 = true -> safe (Some k) x (set_pending x (dict_set (ex_pending x) k p)).
Proof.
  intros Hi Hc Hf Hs. split_and!; [by apply set_pending_inv|done|]. intros k' Hne Hk'. cbn.
  rewrite dict_get_set, bool_decide_eq_false_2 by congruence. done.
Qed.

Lemma execute_merge_safe o x s k p x' r :
  inv x -> dict_get (ex_pending x) k = Some p ->
  execute_merge max_completed_keys merge x s k p = (x', r) -> safe o x x'.
Proof.
  intros Hi Hp He. destruct (execute_merge_cases _ _ _ _ _ _ Hi Hp He) as [Hc|[-> _]];
    [by eapply closes_safe|by apply safe_refl].
Qed.

Lemma fail_pending_safe o x k p reason x' r :
  inv x -> dict_get (ex_pending x) k = Some p ->
  fail_pending max_completed_keys x k reason = (x', r) -> safe o x x'.
Proof.
  intros Hi Hp He. destruct (fail_pending_closes x k p reason Hi Hp) as (y & oc & E & Hc & _).
  rewrite E in He. injection He as <- <-. by eapply closes_safe.
Qed.

(** The two-level completion lookup. *)
Lemma already_completed_spec o x k x' b :
  inv x -> already_completed max_completed_keys x k = (x', b) ->
  safe o x x' /\ ex_pending x' = ex_pending x /\ ls_finished x' = ls_finished x /\ ls_released x' = ls_released x /\
  (b = false -> x' = x /\ dict_get (ex_completed_keys x) k = None /\
     (dict_mem (ex_settings x) k.1 = true -> k ∉ ls_finished x)) /\
  (b = true -> dict_get (ex_pending x) k = None).
Proof.
  intros Hi. unfold already_completed, check_landscape_for_completion, dict_mem.
  destruct (dict_get (ex_completed_keys x) k) as [f|] eqn:Ec; cbn [is_some].
  { intros [= <- <-]. split; [by apply safe_refl|]. split_and!; try done. intros _.
    destruct (dict_get (ex_pending x) k) as [p|] eqn:Ep; [|done].
    destruct (inv_open x Hi k p Ep) as (Hc & _). congruence. }
  destruct (dict_get (ex_settings x) k.1) eqn:Es; cbn [is_some negb].
  2: { intros [= <- <-]. split; [by apply safe_refl|done]. }
  destruct (bool_decide_reflect (k ∈ ls_finished x)) as [Hf|Hf]; intros [= <- <-]; [|by split; [apply safe_refl|]].
  assert (dict_get (ex_pending x) k = None) as Hp.
  { destruct (dict_get (ex_pending x) k) as [p|] eqn:Ep; [|done].
    destruct (inv_open x Hi k p Ep) as (_ & Hn & _). done. }
  destruct (mark_completed_fields x k None) as (E1 & E2 & E3 & E4).
  split; [|done]. apply same_groups_safe; [by apply mark_completed_inv| |done..].
  split_and!; [by rewrite E3| |done]. intros k' _. by rewrite E4.
Qed.

Lemma late_outcome_ok l r e :
  outcome_post_init (mkOutcome false None l (Some r) true None e) = Ok (mkOutcome false None l (Some r) true None e).
Proof. by destruct e. Qed.

(** The late-arrival arm reports the flavor of the closure. *)
Lemma late_arrival_arm_spec o x k token x' r :
  inv x -> dict_get (ex_pending x) k = None ->
  late_arrival_arm max_completed_keys x k token = (x', r) ->
  safe o x x' /\ ex_pending x' = ex_pending x /\ ls_released x' = ls_released x /\
  (is_some (dict_get (ex_completed_keys x) k) = true -> exists oc, r = Ok oc /\
     held oc = false /\ merged_token oc = None /\ consumed_tokens oc = [token] /\ late_arrival oc = true /\
     outcome_failure_reason oc =
       Some (if bool_decide (k ∈ ls_released x) then "late_arrival_after_merge" else "scope_group_failed")).
Proof.
  intros Hi Hp. unfold late_arrival_arm.
  destruct (dict_get (ex_completed_keys x) k) as [f|] eqn:Ec;
    [|by intros [= <- <-]; split; [apply safe_refl|]].
  set (x1 := mkExecutor _ _ _ _ _ _).
  assert (inv x1) as Hi1 by by apply set_failed_without_inv.
  pose proof (inv_flavor x Hi k f Ec) as Hf.
  destruct f as [m|].
  - intros [= <- <-]. split; [|split_and!; [done..|]].
    + apply same_groups_safe; [by apply record_states_inv| |done..]. split_and!; [cbn; set_solver|done|done].
    + intros _. eexists. split; [apply late_outcome_ok|]. cbn. split_and!; try done.
      destruct m; [by rewrite bool_decide_eq_true_2|by rewrite bool_decide_eq_false_2].
  - set (m := bool_decide (k ∈ ls_released x1)).
    assert (inv (mark_completed max_completed_keys x1 k (Some m))) as Hi2.
    { apply mark_completed_inv; [done..|]. subst m. by case_bool_decide. }
    destruct (mark_completed_fields x1 k (Some m)) as (E1 & E2 & E3 & E4).
    intros [= <- <-]. split; [|split_and!; [by cbn; rewrite E2|by cbn; rewrite E4|]].
    + apply same_groups_safe; [apply record_states_inv; [done|by rewrite E2|done]| |by cbn; rewrite E2|by cbn; rewrite E4].
      split_and!; [cbn; rewrite E3; cbn; set_solver|intros k' _; cbn; by rewrite E4|cbn; by rewrite E1].
    + intros _. eexists. split; [apply late_outcome_ok|]. done.
Qed.

(** The group an arrival or a loss report is about. *)
Definition arrival_key (token : branch_token) (name : string) : option coalesce_key :=
  (fun g => (name, g)) <$> bt_fork_group_id token.

Lemma accept_safe x token name now x' r :
  inv x -> accept max_completed_keys merge x token name now = (x', r) -> safe (arrival_key token name) x x'.
Proof.
  intros Hi. unfold accept, arrival_key.
  destruct (dict_get (ex_settings x) name) as [s|] eqn:Es; [|by intros [= <- <-]; apply safe_refl].
  destruct (bt_branch_name token) as [b|]; [|by intros [= <- <-]; apply safe_refl].
  destruct (negb _); [by intros [= <- <-]; apply safe_refl|].
  destruct (bt_fork_group_id token) as [g|]; [|by intros [= <- <-]; apply safe_refl]. cbn [fmap option_fmap option_map].
  destruct (already_completed _ x (name, g)) as [x1 c] eqn:Ea.
  destruct (already_completed_spec (Some (name, g)) _ _ _ _ Hi Ea) as (S1 & Ep1 & Ef1 & _ & Hfalse & Htrue).
  destruct c.
  { intros Hl. apply (late_arrival_arm_spec (Some (name, g))) in Hl as [Hl _]; [|apply S1|rewrite Ep1; auto].
    by eapply safe_trans. }
  destruct (Hfalse eq_refl) as (-> & Hc & Hf). clear Hfalse Htrue Ea.
  assert (dict_mem (ex_settings x) (name, g).1 = true) as Hm by (unfold dict_mem; cbn; by rewrite Es).
  set (p0 := default _ (dict_get (ex_pending x) (name, g))).
  set (p1 := if t_ltb now (pc_first_arrival p0) then _ else _).
  set (x2 := set_pending x _).
  assert (safe (Some (name, g)) x x2) as S2 by (apply set_pending_safe; auto).
  destruct (dict_mem (pc_branches p1) b); [by intros [= <- <-]|].
  set (p2 := mkPendingCoalesce _ _ _). set (x3 := set_pending x2 _).
  assert (safe (Some (name, g)) x x3) as S3.
  { eapply safe_trans; [exact S2|]. apply set_pending_safe; [apply S2|done|by apply Hf|done]. }
  destruct (decide_group s ARRIVAL p2) as [d|]; [|by intros [= <- <-]].
  destruct (action d == MERGE); [|by intros [= <- <-]].
  intros He. eapply safe_trans; [exact S3|]. eapply execute_merge_safe; [apply S3| |exact He].
  cbn. rewrite dict_get_set. by rewrite bool_decide_eq_true_2.
Qed.

Lemma resolve_pending_safe o x s k p b x' r :
  inv x -> dict_get (ex_pending x) k = Some p ->
  resolve_pending max_completed_keys merge x s k p b = (x', r) -> safe o x x'.
Proof.
  intros Hi Hp. unfold resolve_pending. destruct (decide_group s _ p) as [d|]; [|by intros [= <- <-]; apply safe_refl].
  destruct (action d); [by apply execute_merge_safe| |by intros [= <- <-]; apply safe_refl].
  destruct (require_failure_reason d); [by eapply fail_pending_safe|by intros [= <- <-]; apply safe_refl].
Qed.

Lemma resolve_keys_safe o keys s : forall x x' r,
  inv x -> resolve_keys max_completed_keys merge x s keys = (x', r) -> safe o x x'.
Proof.
  induction keys as [|k keys IH]; intros x x' r Hi; cbn [resolve_keys]; [by intros [= <- <-]; apply safe_refl|].
  destruct (dict_get (ex_pending x) k) as [p|] eqn:Ep; [|by intros [= <- <-]; apply safe_refl].
  destruct (resolve_pending _ _ x s k p true) as [x1 [oc|]] eqn:E1;
    (pose proof (resolve_pending_safe o _ _ _ _ _ _ _ Hi Ep E1) as S1); [|by intros [= <- <-]].
  destruct (resolve_keys _ _ x1 s keys) as [x2 [os|]] eqn:E2; intros [= <- <-];
    eapply safe_trans; [exact S1|eapply IH; [apply S1|exact E2]|exact S1|eapply IH; [apply S1|exact E2]].
Qed.

Lemma check_timeouts_safe o x name now x' r :
  inv x -> check_timeouts max_completed_keys merge x name now = (x', r) -> safe o x x'.
Proof.
  intros Hi. unfold check_timeouts. destruct (dict_get (ex_settings x) name) as [s|]; [|by intros [= <- <-]; apply safe_refl].
  destruct (cs_timeout_seconds s); [by apply resolve_keys_safe|by intros [= <- <-]; apply safe_refl].
Qed.

Lemma flush_keys_safe o keys : forall x x' r,
  inv x -> flush_keys max_completed_keys merge x keys = (x', r) -> safe o x x'.
Proof.
  induction keys as [|k keys IH]; intros x x' r Hi; cbn [flush_keys]; [by intros [= <- <-]; apply safe_refl|].
  destruct (dict_get (ex_settings x) k.1) as [s|]; [|by intros [= <- <-]; apply safe_refl].
  destruct (dict_get (ex_pending x) k) as [p|] eqn:Ep; [|by intros [= <- <-]; apply safe_refl].
  destruct (_ && _); [by intros [= <- <-]; apply safe_refl|].
  destruct (resolve_pending _ _ x s k p false) as [x1 [oc|]] eqn:E1;
    (pose proof (resolve_pending_safe o _ _ _ _ _ _ _ Hi Ep E1) as S1); [|by intros [= <- <-]].
  destruct (flush_keys _ _ x1 keys) as [x2 [os|]] eqn:E2; intros [= <- <-];
    eapply safe_trans; [exact S1|eapply IH; [apply S1|exact E2]|exact S1|eapply IH; [apply S1|exact E2]].
Qed.

Lemma clear_completed_inv x : inv x ->
  inv (mkExecutor (ex_settings x) (ex_pending x) [] ∅ (ls_finished x) (ls_released x)).
Proof.
  intros [I1 I2 I3 I4 I5]. split; cbn; [done|constructor| |done|done].
  intros k p Hk. destruct (I3 k p Hk) as (_ & B & C). done.
Qed.

Lemma flush_pending_safe o x x' r :
  inv x -> flush_pending max_completed_keys merge x = (x', r) -> safe o x x'.
Proof.
  intros Hi. unfold flush_pending.
  destruct (flush_keys _ _ x _) as [x1 [os|]] eqn:E1; (apply (flush_keys_safe o) in E1 as (A & B & C); [|done]);
    intros [= <- <-]; [|by split_and!]. split; [by apply clear_completed_inv|done].
Qed.

Lemma evaluate_after_loss_safe o x s k x' r :
  inv x -> evaluate_after_loss max_completed_keys merge x s k = (x', r) -> safe o x x'.
Proof.
  intros Hi. unfold evaluate_after_loss.
  destruct (dict_get (ex_pending x) k) as [p|] eqn:Ep; [|by intros [= <- <-]; apply safe_refl].
  destruct (decide_group s LOSS p) as [d|]; [|by intros [= <- <-]; apply safe_refl].
  destruct (action d); [| |by intros [= <- <-]; apply safe_refl].
  - destruct (execute_merge _ _ x s k p) as [x1 r1] eqn:E. intros [= <- <-]. by eapply execute_merge_safe.
  - destruct (require_failure_reason d) as [reason|]; [|by intros [= <- <-]; apply safe_refl].
    destruct (fail_pending _ x k reason) as [x1 r1] eqn:E. intros [= <- <-]. by eapply fail_pending_safe.
Qed.

Lemma notify_branch_lost_safe x name g b reason now x' r :
  inv x -> notify_branch_lost max_completed_keys merge x name g b reason now = (x', r) -> safe (Some (name, g)) x x'.
Proof.
  intros Hi. unfold notify_branch_lost.
  destruct (dict_get (ex_settings x) name) as [s|] eqn:Es; [|by intros [= <- <-]; apply safe_refl].
  destruct (already_completed _ x (name, g)) as [x1 c] eqn:Ea.
  destruct (already_completed_spec (Some (name, g)) _ _ _ _ Hi Ea) as (S1 & _ & _ & _ & Hfalse & _).
  destruct c; [by intros [= <- <-]|]. destruct (Hfalse eq_refl) as (-> & Hc & Hf). clear Hfalse Ea.
  assert (dict_mem (ex_settings x) (name, g).1 = true) as Hm by (unfold dict_mem; cbn; by rewrite Es).
  destruct (negb _); [by intros [= <- <-]; apply safe_refl|].
  assert (forall p, safe (Some (name, g)) x (set_pending x (dict_set (ex_pending x) (name, g) p))) as Hset
    by (intros p; apply set_pending_safe; auto).
  destruct (dict_get (ex_pending x) (name, g)) as [p|].
  - destruct (dict_mem (pc_branches p) b); [by intros [= <- <-]; apply safe_refl|].
    destruct (dict_mem (pc_lost_branches p) b); [by intros [= <- <-]; apply safe_refl|].
    intros He. eapply safe_trans; [apply Hset|]. eapply evaluate_after_loss_safe; [apply Hset|exact He].
  - intros He. eapply safe_trans; [apply Hset|]. eapply evaluate_after_loss_safe; [apply Hset|exact He].
Qed.

(** ** Sequences of operations *)
Inductive op :=
  | OpAccept (token : branch_token) (name : string) (now : T)
  | OpLost (name group branch reason : string) (now : T)
  | OpTimeouts (name : string) (now : T)
  | OpFlush.

(** The state an operation leaves, whether it returned or raised. *)
Definition step x (o : op) : executor :=
  match o with
  | OpAccept t n now => (accept max_completed_keys merge x t n now).1
  | OpLost n g b r now => (notify_branch_lost max_completed_keys merge x n g b r now).1
  | OpTimeouts n now => (check_timeouts max_completed_keys merge x n now).1
  | OpFlush => (flush_pending max_completed_keys merge x).1
  end.

Definition run (ops : list op) x : executor := foldl step x ops.

Definition initial (settings : list (string * CoalesceSettings T)) : executor :=
  mkExecutor settings [] [] ∅ ∅ ∅.

Lemma initial_inv settings : inv (initial settings).
Proof. split; cbn; [constructor|constructor|done|done|done]. Qed.

(** The group an operation is about, for the two that name one. *)
Definition op_key (o : op) : option coalesce_key :=
  match o with OpAccept t n _ => arrival_key t n | OpLost n g _ _ _ => Some (n, g) | _ => None end.

Lemma step_safe x o : inv x -> safe (op_key o) x (step x o).
Proof.
  intros Hi. destruct o; cbn [step op_key].
  - destruct (accept _ _ _ _ _ _) eqn:E. by eapply accept_safe.
  - destruct (notify_branch_lost _ _ _ _ _ _ _ _) eqn:E. by eapply notify_branch_lost_safe.
  - destruct (check_timeouts _ _ _ _ _) eqn:E. by eapply check_timeouts_safe.
  - destruct (flush_pending _ _ _) eqn:E. by eapply flush_pending_safe.
Qed.

Lemma run_safe ops : forall x, inv x -> inv (run ops x) /\ settled x (run ops x).
Proof.
  induction ops as [|o ops IH]; intros x Hi; [done|].
  destruct (step_safe x o Hi) as (Hi1 & S1 & _). destruct (IH _ Hi1) as [Hi2 S2].
  split; [done|]. exact (settled_trans _ _ _ S1 S2).
Qed.

(** The key is in the FIFO of closed groups before and after every one of the
    operations. *)
Fixpoint retained k (ops : list op) x : bool :=
  dict_mem (ex_completed_keys x) k &&
  match ops with [] => true | o :: ops' => retained k ops' (step x o) end.

Lemma completed_not_pending x k :
  inv x -> dict_mem (ex_completed_keys x) k = true -> dict_get (ex_pending x) k = None.
Proof.
  intros Hi Hc. destruct (dict_get (ex_pending x) k) as [p|] eqn:Ep; [|done].
  destruct (inv_open x Hi k p Ep) as (Hn & _). unfold dict_mem in Hc. by rewrite Hn in Hc.
Qed.

(** An operation on a group in the FIFO releases nothing. *)
Lemma step_own_group x o k :
  inv x -> dict_mem (ex_completed_keys x) k = true -> op_key o = Some k -> ls_released (step x o) = ls_released x.
Proof.
  intros Hi Hc Hk. pose proof (completed_not_pending x k Hi Hc) as Hp.
  destruct o as [token name now|name g b reason now| |]; cbn [op_key step] in *; [| |done..].
  - unfold accept. unfold arrival_key in Hk. destruct (bt_fork_group_id token) as [g|]; [|done]. injection Hk as <-.
    destruct (dict_get (ex_settings x) name) as [s|]; [|done].
    destruct (bt_branch_name token) as [b|]; [|done]. destruct (negb _); [done|].
    unfold already_completed. rewrite Hc. cbn iota.
    destruct (late_arrival_arm _ x (name, g) token) as [x2 r] eqn:El.
    by destruct (late_arrival_arm_spec None _ _ _ _ _ Hi Hp El) as (_ & _ & Er & _).
  - injection Hk as <-. unfold notify_branch_lost. destruct (dict_get (ex_settings x) name); [|done].
    unfold already_completed. by rewrite Hc.
Qed.

(** A group closed in the database, or in the FIFO for as long as it is
    retained, stays closed and keeps its flavor. *)
Lemma run_closed ops k : forall x,
  inv x -> k ∈ ls_finished x \/ retained k ops x = true ->
  (k ∈ ls_finished (run ops x) \/ dict_mem (ex_completed_keys (run ops x)) k = true) /\
  (k ∈ ls_released (run ops x) <-> k ∈ ls_released x).
Proof.
  intros x Hi [Hf|Hr].
  { destruct (run_safe ops x Hi) as (_ & Hfin & Hrel & _). split; [left; set_solver|by apply Hrel]. }
  revert x Hi Hr. induction ops as [|o ops IH]; intros x Hi Hr; cbn [retained] in Hr; bool_facts; [by split; [right|]|].
  destruct (step_safe x o Hi) as (Hi1 & _ & Hu). destruct (IH _ Hi1) as [Hc Hrel]; [done|].
  split; [exact Hc|]. change (run (o :: ops) x) with (run ops (step x o)). rewrite Hrel.
  destruct (decide (op_key o = Some k)) as [Hk|Hk].
  - by rewrite (step_own_group x o k).
  - apply Hu; [congruence|]. by apply completed_not_pending.
Qed.

(** The newest FIFO entry survives the eviction. *)
Lemma evict_last l : forall fw k f,
  (0 < max_completed_keys)%nat -> NoDup (l ++ [(k, f)]).*1 ->
  dict_get (evict max_completed_keys (l ++ [(k, f)]) fw).1 k = Some f.
Proof.
  induction l as [|[k0 f0] l IH]; intros fw k f Hm Hnd.
  - cbn [app evict length]. destruct (Nat.ltb_spec max_completed_keys 1); [lia|]. cbn [fst].
    by apply dict_get_unique; [|set_solver].
  - cbn [app evict]. cbn in Hnd. apply NoDup_cons in Hnd as [Hn Hnd].
    destruct (_ <? _)%nat; [by apply IH|]. cbn [fst]. apply dict_get_unique; [|set_solver].
    cbn. by apply NoDup_cons.
Qed.

Lemma already_completed_closed x k :
  inv x -> (0 < max_completed_keys)%nat -> k ∈ ls_finished x \/ dict_mem (ex_completed_keys x) k = true ->
  dict_mem (ex_settings x) k.1 = true ->
  (already_completed max_completed_keys x k).2 = true /\
  is_some (dict_get (ex_completed_keys (already_completed max_completed_keys x k).1) k) = true.
Proof.
  intros Hi Hm Hf Hs. unfold already_completed, check_landscape_for_completion, dict_mem in *.
  destruct (dict_get (ex_completed_keys x) k) as [f|] eqn:Ec; cbn [is_some fst snd] in *; [by rewrite Ec|].
  destruct Hf as [Hf|]; [|done].
  rewrite Hs. cbn [negb]. rewrite bool_decide_eq_true_2 by done. cbn [fst snd]. split; [done|].
  unfold mark_completed. rewrite dict_set_new by done.
  pose proof (evict_last (ex_completed_keys x) (ex_failed_without_member_state x) k None Hm) as He.
  destruct (evict _ _ _) as [c fw]. cbn in *. rewrite He; [done|].
  rewrite <- dict_set_new by done. apply dict_set_nodup, Hi.
Qed.

Lemma accept_closed x token name g b s now :
  inv x -> (0 < max_completed_keys)%nat ->
  (name, g) ∈ ls_finished x \/ dict_mem (ex_completed_keys x) (name, g) = true ->
  dict_get (ex_settings x) name = Some s -> bt_branch_name token = Some b -> b ∈ cs_branches s ->
  bt_fork_group_id token = Some g ->
  exists o, (accept max_completed_keys merge x token name now).2 = Ok o /\
    held o = false /\ merged_token o = None /\ consumed_tokens o = [token] /\ late_arrival o = true /\
    outcome_failure_reason o = Some (if bool_decide ((name, g) ∈ ls_released x)
                                     then "late_arrival_after_merge" else "scope_group_failed").
Proof.
  intros Hi Hm Hf Hs Hb Hin Hg. unfold accept. rewrite Hs, Hb, Hg.
  rewrite (bool_decide_eq_true_2 (b ∈ cs_branches s)) by done. cbn [negb].
  destruct (already_completed_closed x (name, g) Hi Hm Hf) as [H1 H2];
    [unfold dict_mem; cbn; by rewrite Hs|].
  destruct (already_completed _ x (name, g)) as [x1 c] eqn:Ea. cbn in H1, H2. subst c.
  destruct (already_completed_spec None _ _ _ _ Hi Ea) as (S1 & Ep & _ & Er & _ & Htrue).
  destruct (late_arrival_arm _ x1 (name, g) token) as [x2 r] eqn:El.
  apply (late_arrival_arm_spec None) in El as (_ & _ & _ & Hl); [|apply S1|rewrite Ep; auto].
  destruct (Hl H2) as (o & -> & Ho). exists o. cbn. by rewrite <- Er.
Qed.

(** ** Waiting groups *)


























End theory.

(** ** Properties *)



(** C7. A closed group stays closed, and the way it closed is remembered.
    Let a group have a finished node state in the database, or be in the FIFO
    of closed groups and stay there through the operations considered (a group
    that failed with no arrival is known to the FIFO alone).  After any
    further sequence of operations, through cache evictions, flushes and
    raised exceptions alike, an arrival of one of its branches is refused as
    a late arrival: neither held nor merged, and with the reason that tells
    whether the group had merged or failed. *)
Theorem closed_group_stays_closed {T} `{TimeScale T} max merge ops (x : executor T) token name g b s now :
  inv x -> (0 < max)%nat -> (name, g) ∈ ls_finished x \/ retained max merge (name, g) ops x = true ->
  dict_get (ex_settings x) name = Some s -> bt_branch_name token = Some b -> b ∈ cs_branches s ->
  bt_fork_group_id token = Some g ->
  exists o, (accept max merge (run max merge ops x) token name now).2 = Ok o /\
    held o = false /\ merged_token o = None /\ consumed_tokens o = [token] /\ late_arrival o = true /\
    outcome_failure_reason o = Some (if bool_decide ((name, g) ∈ ls_released x)
                                     then "late_arrival_after_merge" else "scope_group_failed").
Proof.
  intros Hi Hm Hf Hs Hb Hin Hg.
  destruct (run_closed max merge ops (name, g) x Hi Hf) as [Hc Hrel].
  destruct (run_safe max merge ops x Hi) as (Hi' & _ & _ & Hset).
  rewrite <- (bool_decide_ext _ _ Hrel). eapply accept_closed; try done. by rewrite Hset.
Qed.


(** A group with two branches, best effort, one of them lost. *)
Module CoalesceExample.
Definition point : CoalesceSettings Z := mkSettings "c" best_effort ["a"; "b"] None (Some 10) None.
Definition settings := [("c", point)].
Definition branch (name group : string) : branch_token := mkBranchToken (name ++ group) (Some name) (Some group) true.
Definition merged : branch_token := mkBranchToken "m" None None true.
Definition merge_stub (s : CoalesceSettings Z) (bs : list (string * BranchEntry Z)) : merge_result :=
  Merged merged "join".
(** Group [g] loses branch a, times out with nobody there, and is evicted
    from a cache of one by the closure of group [h]. *)
Definition evicting : list op :=
  [OpLost "c" "g" "a" "error" 0; OpTimeouts "c" 10;
   OpAccept (branch "a" "h") "c" 11; OpAccept (branch "b" "h") "c" 12].
End CoalesceExample.

(** Group [g], which failed with nobody there, is refused as failed while it
    is in the FIFO, although the database holds no state of it. *)
Lemma closed_group_stays_closed_witness :
  let x := run 1 CoalesceExample.merge_stub [OpLost "c" "g" "a" "error" 0; OpTimeouts "c" 10]
             (initial CoalesceExample.settings) in
  ("c", "g") ∉ ls_finished x /\
  exists o, (accept 1 CoalesceExample.merge_stub
      (run 1 CoalesceExample.merge_stub [OpAccept (CoalesceExample.branch "a" "h") "c" 5; OpTimeouts "c" 6] x)
      (CoalesceExample.branch "b" "g") "c" 9).2 = Ok o /\
    held o = false /\ merged_token o = None /\ consumed_tokens o = [CoalesceExample.branch "b" "g"] /\
    late_arrival o = true /\
    outcome_failure_reason o = Some (if bool_decide (("c", "g") ∈ ls_released x)
                                     then "late_arrival_after_merge" else "scope_group_failed").
Proof.
  intros x. split; [apply (bool_decide_eq_false_1 _); vm_compute; reflexivity|].
  apply (closed_group_stays_closed 1 CoalesceExample.merge_stub
           [OpAccept (CoalesceExample.branch "a" "h") "c" 5; OpTimeouts "c" 6] x
           (CoalesceExample.branch "b" "g") "c" "g" "b" CoalesceExample.point 9).
  - apply run_safe, initial_inv.
  - lia.
  - right. vm_compute. reflexivity.
  - reflexivity.
  - reflexivity.
  - cbn. set_solver.
  - reflexivity.
Defined.


(** The gap in the eviction fallback: a group that fails with no arrived
    branch leaves no node state behind, so once its key is evicted from the
    FIFO neither lookup knows that it closed.  In this run the group fails at
    its timeout, and a straggler that arrives after the eviction is held like
    a first arrival and then merged by the flush. *)
Theorem evicted_unreached_group_merges :
  (exists o, (check_timeouts 1 CoalesceExample.merge_stub
                (run 1 CoalesceExample.merge_stub [OpLost "c" "g" "a" "error" 0] (initial CoalesceExample.settings))
                "c" 10).2 = Ok [o] /\ outcome_failure_reason o = Some "best_effort_timeout_no_arrivals") /\
  let x := run 1 CoalesceExample.merge_stub CoalesceExample.evicting (initial CoalesceExample.settings) in
  let y := (accept 1 CoalesceExample.merge_stub x (CoalesceExample.branch "b" "g") "c" 13).1 in
  (exists o, (accept 1 CoalesceExample.merge_stub x (CoalesceExample.branch "b" "g") "c" 13).2 = Ok o /\ held o = true) /\
  exists o, (flush_pending 1 CoalesceExample.merge_stub y).2 = Ok [o] /\ merged_token o = Some CoalesceExample.merged.
Proof.
  split; [|split]; (eexists; split; [vm_compute; reflexivity|reflexivity]).
Qed.
