(* ===== verification/Landscape.v ===== *)
(** * Landscape: the tables and transactions of the audit database

    The rows that run coordination and the token scheduler read and write
    (tables of [core/landscape/schema.py]), the write transactions of
    [core/landscape/database.py] ([begin_write]) and the commit guard on
    issued deadlines of [core/landscape/lease_deadlines.py].

    A write transaction holds the write lock from its first statement to its
    commit ([BEGIN IMMEDIATE]), so transactions are serial: the database is a
    value, a transaction is a state transformer that may raise, and an
    exception restores the value it started from.  Instants and durations are
    microseconds in [Z]. *)

From S2P Require Import Prelude Enums.

(** ** Rows *)

(** [runs_table], the columns that coordination reads or writes. *)
Record run_row := mkRun {
  run_status : RunStatus;
  run_completed_at : option Z;
  run_grade : option string;
  run_config_hash : string;
}.

(** [run_coordination_table]: the leader seat of a run. *)
Record seat_row := mkSeat {
  leader_worker_id : option string;
  leader_epoch : Z;
  leader_heartbeat_expires_at : option Z;
  seat_updated_at : Z;
}.

Inductive worker_role := leader | follower.
#[export] Instance worker_role_eq_dec : EqDecision worker_role.
Proof. solve_decision. Defined.

Inductive worker_status := active | departed | evicted.
#[export] Instance worker_status_eq_dec : EqDecision worker_status.
Proof. solve_decision. Defined.

(** [run_workers_table]; the row's key is the worker id. *)
Record worker_row := mkWorker {
  w_run_id : string;
  w_role : worker_role;
  w_status : worker_status;
  w_registered_at : Z;
  w_heartbeat_expires_at : Z;
  w_departed_at : option Z;
  w_evicted_at : option Z;
  w_evicted_by : option string;
  w_entry_point : string;
}.

(** The values in the JSON context of an event. *)
Inductive context_value := CtxNull | CtxBool (b : bool) | CtxStr (s : string) | CtxInt (n : Z) | CtxList (l : list string).
#[export] Instance context_value_eq_dec : EqDecision context_value.
Proof. solve_decision. Defined.

Definition ctx_option (o : option string) : context_value := match o with Some s => CtxStr s | None => CtxNull end.

(** [run_coordination_events_table] without the surrogate keys; the context
    is the list of its JSON members. *)
Record coordination_event := mkEvent {
  ev_run_id : string;
  ev_type : string;
  ev_worker_id : string;
  ev_leader_epoch : option Z;
  ev_recorded_at : Z;
  ev_context : list (string * context_value);
}.
#[export] Instance coordination_event_eq_dec : EqDecision coordination_event.
Proof. solve_decision. Defined.

(** [TokenWorkStatus]. *)
Inductive TokenWorkStatus := READY | LEASED | BLOCKED | PENDING_SINK | TERMINAL | WORK_FAILED.
#[export] Instance TokenWorkStatus_eq_dec : EqDecision TokenWorkStatus.
Proof. solve_decision. Defined.

(** The columns of [token_work_items_table] that say which work it is; no
    verb changes them. *)
Record work_key := mkWorkKey {
  k_run_id : string;
  k_token_id : string;
  k_row_id : string;
  k_node_id : option string;
  k_step_index : Z;
  k_ingest_sequence : Z;
  k_on_success_sink : option string;
  k_join_group_id : option string;
  k_lineage_path : string;
  k_coalesce_node_id : option string;
  k_coalesce_name : option string;
  k_row_union_name : option string;
  k_collector_name : option string;
}.
#[export] Instance work_key_eq_dec : EqDecision work_key.
Proof. solve_decision. Defined.

(** The [pending_*] columns: the sink bundle of a token that waits for its sink. *)
Record sink_bundle := mkBundle {
  b_sink_name : option string;
  b_outcome : option string;
  b_path : option string;
  b_error_hash : option string;
  b_error_message : option string;
}.
#[export] Instance sink_bundle_eq_dec : EqDecision sink_bundle.
Proof. solve_decision. Defined.

Definition no_bundle : sink_bundle := mkBundle None None None None None.

(** [row_payload_json]: the row itself, or the digest that
    [scrubbed_row_payload_json] leaves of it. *)
Inductive row_payload := RowJson (json : string) | Purged (anchor_digest : string).
#[export] Instance row_payload_eq_dec : EqDecision row_payload.
Proof. solve_decision. Defined.

Record work_item := mkItem {
  wi_key : work_key;
  wi_row_payload : row_payload;
  wi_status : TokenWorkStatus;
  wi_queue_key : option string;
  wi_barrier_key : option string;
  wi_bundle : sink_bundle;
  wi_attempt : Z;
  wi_lease_owner : option string;
  wi_lease_expires_at : option Z;
  wi_available_at : Z;
  wi_barrier_blocked_at : option Z;
  wi_barrier_adopted_epoch : option Z;
  wi_created_at : Z;
  wi_updated_at : Z;
}.
#[export] Instance work_item_eq_dec : EqDecision work_item.
Proof. solve_decision. Defined.

(** [SchedulerEventType]. *)
Inductive SchedulerEventType :=
  | ENQUEUE | CLAIM_READY | CLAIM_PENDING_SINK | RECOVER_EXPIRED_LEASE | LEASE_LOST | MARK_BLOCKED
  | MARK_TERMINAL | MARK_FAILED | MARK_PENDING_SINK | MARK_PENDING_SINK_TERMINAL
  | MARK_BLOCKED_BARRIER_TERMINAL | RESUME_REQUEUE_FAILED.
#[export] Instance SchedulerEventType_eq_dec : EqDecision SchedulerEventType.
Proof. solve_decision. Defined.

(** [SchedulerEventRecord], a row of [scheduler_events_table]; the list of
    events is in [seq] order. *)
Record SchedulerEventRecord := mkSchedulerEvent {
  se_type : SchedulerEventType;
  se_run_id : string;
  se_token_id : string;
  se_work_item_id : string;
  se_node_id : option string;
  se_from_status : option TokenWorkStatus;
  se_to_status : TokenWorkStatus;
  se_from_lease_owner : option string;
  se_to_lease_owner : option string;
  se_from_attempt : option Z;
  se_to_attempt : Z;
  se_recorded_at : Z;
  se_from_lease_expires_at : option Z;
  se_to_lease_expires_at : option Z;
  se_caller_owner : option string;
  se_context : list (string * context_value);
}.

(** A row of [group_losses_table]; its key is (run, closer, group, member). *)
Record group_loss := mkGroupLoss {
  gl_token_id : string;
  gl_reason : string;
  gl_recorded_by : string;
  gl_recorded_at : Z;
  gl_loss_id : string;
  gl_adopted_epoch : option Z;
}.

(** What the scheduler reads and writes of [tokens_table], [rows_table],
    [nodes_table], [token_lineage_frames_table], [token_parents_table],
    [token_outcomes_table], [batches_table] and [batch_members_table]: the row
    of a token, the ingest sequence of a row, the nodes of a run, the members of
    a lineage group, the parents of a token, the tokens with a completed and
    those with an ABANDONED outcome, the BUFFERED outcomes with their batch and
    time, the run and the status of a batch, and the ordinal of a member. *)
Record lineage_tables := mkLineage {
  token_rows : gmap (string * string) string;
  row_sequences : gmap (string * string) Z;
  run_nodes : gset (string * string);
  lineage_frames : gset (string * string * string);
  token_parents : gset (string * string * string);
  decided_tokens : gset (string * string);
  abandoned_tokens : gset (string * string);
  buffered_outcomes : list (string * string * string * Z);
  batches : gmap string (string * string);
  batch_members : gmap (string * string) Z;
}.

Definition set_decided (l : lineage_tables) x :=
  mkLineage (token_rows l) (row_sequences l) (run_nodes l) (lineage_frames l) (token_parents l) x (abandoned_tokens l)
    (buffered_outcomes l) (batches l) (batch_members l).
Definition set_buffered (l : lineage_tables) x :=
  mkLineage (token_rows l) (row_sequences l) (run_nodes l) (lineage_frames l) (token_parents l) (decided_tokens l)
    (abandoned_tokens l) x (batches l) (batch_members l).
Definition set_members (l : lineage_tables) x :=
  mkLineage (token_rows l) (row_sequences l) (run_nodes l) (lineage_frames l) (token_parents l) (decided_tokens l)
    (abandoned_tokens l) (buffered_outcomes l) (batches l) x.

Record landscape := mkLandscape {
  runs : gmap string run_row;
  seats : gmap string seat_row;
  workers : gmap string worker_row;
  events : list coordination_event;
  items : gmap string work_item;
  scheduler_events : list SchedulerEventRecord;
  group_losses : gmap (string * string * string * string) group_loss;
  lineage : lineage_tables;
}.

Definition set_runs (d : landscape) x :=
  mkLandscape x (seats d) (workers d) (events d) (items d) (scheduler_events d) (group_losses d) (lineage d).
Definition set_seats (d : landscape) x :=
  mkLandscape (runs d) x (workers d) (events d) (items d) (scheduler_events d) (group_losses d) (lineage d).
Definition set_workers (d : landscape) x :=
  mkLandscape (runs d) (seats d) x (events d) (items d) (scheduler_events d) (group_losses d) (lineage d).
Definition set_events (d : landscape) x :=
  mkLandscape (runs d) (seats d) (workers d) x (items d) (scheduler_events d) (group_losses d) (lineage d).
Definition set_items (d : landscape) x :=
  mkLandscape (runs d) (seats d) (workers d) (events d) x (scheduler_events d) (group_losses d) (lineage d).
Definition set_scheduler_events (d : landscape) x :=
  mkLandscape (runs d) (seats d) (workers d) (events d) (items d) x (group_losses d) (lineage d).
Definition set_group_losses (d : landscape) x :=
  mkLandscape (runs d) (seats d) (workers d) (events d) (items d) (scheduler_events d) x (lineage d).
Definition set_lineage (d : landscape) x :=
  mkLandscape (runs d) (seats d) (workers d) (events d) (items d) (scheduler_events d) (group_losses d) x.

(** [ck_run_coordination_seat_liveness_paired] and
    [ck_run_workers_evicted_at_paired]. *)
Definition seat_row_ok (s : seat_row) : bool :=
  Bool.eqb (is_none (leader_worker_id s)) (is_none (leader_heartbeat_expires_at s)).

Definition worker_row_ok (w : worker_row) : bool :=
  Bool.eqb (w_status w == evicted) (is_some (w_evicted_at w)).

(** SQL comparisons with a NULL operand are not true. *)
Definition sql_lt (a : option Z) (b : Z) : bool := match a with Some x => x <? b | None => false end.
Definition sql_ge (a : option Z) (b : Z) : bool := match a with Some x => b <=? x | None => false end.

(** ** Deadlines issued by a transaction *)
Inductive deadline_key :=
  | LEADER_KEY (run_id worker_id : string) (epoch : Z)
  | WORKER_KEY (run_id worker_id : string)
  | ITEM_KEY (work_item_id : string).
#[export] Instance deadline_key_eq_dec : EqDecision deadline_key.
Proof. solve_decision. Defined.

(** [DeadlineKey.__post_init__]: no part of the identity is empty (the text
    of an epoch never is). *)
Definition deadline_key_ok (k : deadline_key) : bool :=
  match k with
  | LEADER_KEY r w _ | WORKER_KEY r w => negb (r == "") && negb (w == "")
  | ITEM_KEY i => negb (i == "")
  end.

Record issued_deadline := mkDeadline { d_expires_at : Z; d_reserve : Z }.

(** [n / 10] rounded to the nearest integer, ties to even, as [timedelta]
    rounds to its microsecond resolution. *)
Definition tenth (n : Z) : Z :=
  let q := n / 10 in
  let r := n mod 10 in
  if r <? 5 then q else if 5 <? r then q + 1 else if Z.even q then q else q + 1.

Definition deadline_reserve (window : Z) : Z := Z.min 1000000 (tenth window).

(** ** The environment

    The database clock sampled by [read_landscape_decision_time], as a
    function of how many samples were taken before, and the coarser one of
    [read_landscape_transaction_time]; the clock's resolution (a millisecond on
    SQLite, a microsecond on PostgreSQL); the digest that keys an event and
    SHA-256; whether a best-effort write meets a database fault; the process
    clock; and the random ids of [generate_id], the n-th of a table. *)
Class Env := {
  database_clock : nat -> Z;
  transaction_clock : nat -> Z;
  sha256 : string -> string;
  clock_resolution : Z;
  event_digest : coordination_event -> string;
  write_fault : nat -> bool;
  process_clock : nat -> Z;
  generate_id : nat -> string;
}.

(** The connection inside a transaction. *)
Record conn := mkConn {
  c_db : landscape;
  c_issued : list (deadline_key * issued_deadline);
  c_tick : nat;
}.

(** ** Transactions *)
Definition txn (A : Type) : Type := conn -> res A * conn.

#[export] Instance txn_ret : MRet txn := fun A a c => (Ok a, c).
#[export] Instance txn_bind : MBind txn := fun A B f m c =>
  match m c with
  | (Ok a, c) => f a c
  | (Err e, c) => (Err e, c)
  end.

Definition raise {A} (e : exc) : txn A := fun c => (Err e, c).
Definition lift {A} (m : res A) : txn A := fun c => (m, c).
Definition query {A} (f : landscape -> A) : txn A := fun c => (Ok (f (c_db c)), c).
Definition exec (f : landscape -> landscape) : txn unit :=
  fun c => (Ok tt, mkConn (f (c_db c)) (c_issued c) (c_tick c)).

(** [if b: raise e] inside a transaction. *)
Notation "'refuse' b 'with' e ;; k" :=
  (if (b : bool) then raise e else k)
  (at level 10, b at level 99, e at level 99, k at level 200) : elspeth_scope.

Section transactions.
Context `{Env}.

(** [read_landscape_decision_time]. *)
Definition read_landscape_decision_time : txn Z := fun c =>
  (Ok (database_clock (c_tick c)), mkConn (c_db c) (c_issued c) (S (c_tick c))).

(** [read_landscape_transaction_time]. *)
Definition read_landscape_transaction_time : txn Z := fun c =>
  (Ok (transaction_clock (c_tick c)), mkConn (c_db c) (c_issued c) (S (c_tick c))).

(** [record_issued_deadline]: the last expiry issued for a key counts. *)
Definition record_issued_deadline (k : deadline_key) (expires window : Z) : txn unit := fun c =>
  if negb (deadline_key_ok k) then (Err (ValueError "deadline identity"), c)
  else if window <=? 0 then (Err (ValueError "Deadline window"), c)
  else if deadline_reserve window <? clock_resolution then (Err (ValueError "Deadline window is too small"), c)
  else (Ok tt, mkConn (c_db c) (dict_set (c_issued c) k (mkDeadline expires (deadline_reserve window))) (c_tick c)).

Definition forget_issued_deadline (k : deadline_key) : txn unit := fun c =>
  (Ok tt, mkConn (c_db c) (dict_del (c_issued c) k) (c_tick c)).

Definition has_issued_deadline (k : deadline_key) : txn bool := fun c => (Ok (dict_mem (c_issued c) k), c).

(** [_check_deadlines_before_commit]: one fresh sample of the clock, and
    every issued deadline must still have its reserve left. *)
Definition check_deadlines_before_commit : txn unit := fun c =>
  match c_issued c with
  | [] => (Ok tt, c)
  | issued =>
      let sampled_at := database_clock (c_tick c) in
      let c := mkConn (c_db c) [] (S (c_tick c)) in
      if existsb (fun e => d_expires_at e.2 - sampled_at <=? d_reserve e.2) issued
      then (Err LeaseDeadlineExpiredError, c) else (Ok tt, c)
  end.

(** The engine between transactions. *)
Record engine := mkEngine { e_db : landscape; e_tick : nat }.

Definition verb (A : Type) : Type := engine -> res A * engine.

(** [begin_write]: commit when the body returns and the guard agrees,
    otherwise roll back. *)
Definition begin_write {A} (body : txn A) : verb A := fun en =>
  let '(r, c) := (a ← body; _ ← check_deadlines_before_commit; mret a)
                   (mkConn (e_db en) [] (e_tick en)) in
  (r, mkEngine (match r with Ok _ => c_db c | Err _ => e_db en end) (c_tick c)).

(** A read on its own connection. *)
Definition read_only {A} (body : txn A) : verb A := fun en =>
  let '(r, c) := body (mkConn (e_db en) [] (e_tick en)) in (r, mkEngine (e_db en) (c_tick c)).
End transactions.
