(* ===== verification/Coordination.v ===== *)
(** * Coordination: leader seat, epoch fencing and worker membership

    [core/landscape/run_coordination_repository.py] and the tokens of
    [contracts/coordination.py].  One definition per repository verb, with the
    guards and the statements of its transaction in the order of the code. *)

From S2P Require Import Prelude Enums Landscape.

Record CoordinationToken := mkCoordinationToken {
  tk_run_id : string;
  tk_worker_id : string;
  tk_leader_epoch : Z;
}.
#[export] Instance CoordinationToken_eq_dec : EqDecision CoordinationToken.
Proof. solve_decision. Defined.

Record WorkerMembershipToken := mkMembershipToken {
  m_run_id : string;
  m_worker_id : string;
}.
#[export] Instance WorkerMembershipToken_eq_dec : EqDecision WorkerMembershipToken.
Proof. solve_decision. Defined.

Definition membership (t : CoordinationToken) : WorkerMembershipToken :=
  mkMembershipToken (tk_run_id t) (tk_worker_id t).

Inductive SeatReleaseOutcome := RELEASED | FENCE_REFUSED.
Inductive BestEffortEventOutcome := RECORDED | LOST_TO_DB_FAULT.

(** What a heartbeat returns: a snapshot of the seat or the lost membership. *)
Inductive heartbeat_result :=
  | CoordinationSnapshot (leader : option string) (epoch : Z) (seat_live : bool) (role : worker_role)
  | WorkerMembershipLost (t : WorkerMembershipToken).

Record LeaderInfo := mkLeaderInfo {
  li_worker_id : string; li_epoch : Z; li_expires_at : option Z; li_seat_live : bool }.

(** [DEFAULT_RUN_LIVENESS_WINDOW_SECONDS], 80 s. *)
Definition DEFAULT_RUN_LIVENESS_WINDOW : Z := 80000000.

Definition TAKEOVER_FLIPPABLE_RUN_STATUSES : list RunStatus := [FAILED; INTERRUPTED].
Definition IMMUTABLE_SUCCESS_RUN_STATUSES : list RunStatus := [COMPLETED; COMPLETED_WITH_FAILURES; EMPTY].
Definition EXPORT_SEAT_RUN_STATUSES : list RunStatus :=
  TAKEOVER_FLIPPABLE_RUN_STATUSES ++ IMMUTABLE_SUCCESS_RUN_STATUSES.

Definition status_in (s : option RunStatus) (l : list RunStatus) : bool :=
  match s with Some s => bool_decide (s ∈ l) | None => false end.

(** ** Statements *)

(** [UPDATE run_coordination ... WHERE run_id = .. AND p]; the row count is 0
    or 1 because [run_id] is the primary key. *)
Definition update_seat (run_id : string) (p : seat_row -> bool) (f : seat_row -> seat_row) : txn bool := fun c =>
  match seats (c_db c) !! run_id with
  | Some s =>
      if p s then
        if seat_row_ok (f s)
        then (Ok true, mkConn (set_seats (c_db c) (<[run_id := f s]> (seats (c_db c)))) (c_issued c) (c_tick c))
        else (Err (IntegrityError "ck_run_coordination_seat_liveness_paired"), c)
      else (Ok false, c)
  | None => (Ok false, c)
  end.

(** [UPDATE run_workers ... WHERE worker_id = .. AND p]. *)
Definition update_worker (worker_id : string) (p : worker_row -> bool) (f : worker_row -> worker_row)
  : txn bool := fun c =>
  match workers (c_db c) !! worker_id with
  | Some w =>
      if p w then
        if worker_row_ok (f w)
        then (Ok true, mkConn (set_workers (c_db c) (<[worker_id := f w]> (workers (c_db c)))) (c_issued c) (c_tick c))
        else (Err (IntegrityError "ck_run_workers_evicted_at_paired"), c)
      else (Ok false, c)
  | None => (Ok false, c)
  end.

Definition set_heartbeat (expires : Z) (w : worker_row) : worker_row :=
  mkWorker (w_run_id w) (w_role w) (w_status w) (w_registered_at w) expires
    (w_departed_at w) (w_evicted_at w) (w_evicted_by w) (w_entry_point w).

Definition set_departed (now : Z) (w : worker_row) : worker_row :=
  mkWorker (w_run_id w) (w_role w) departed (w_registered_at w) (w_heartbeat_expires_at w)
    (Some now) (w_evicted_at w) (w_evicted_by w) (w_entry_point w).

Definition set_evicted (now : Z) (by_worker : string) (w : worker_row) : worker_row :=
  mkWorker (w_run_id w) (w_role w) evicted (w_registered_at w) (w_heartbeat_expires_at w)
    (w_departed_at w) (Some now) (Some by_worker) (w_entry_point w).

(** The rows that a leader token and an active member match. *)
Definition holds_seat (t : CoordinationToken) (s : seat_row) : bool :=
  (leader_worker_id s == Some (tk_worker_id t)) && (leader_epoch s =? tk_leader_epoch t).

Definition active_member (run_id : string) (w : worker_row) : bool :=
  (w_run_id w == run_id) && (w_status w == active).

Definition leader_deadline_key (t : CoordinationToken) : deadline_key :=
  LEADER_KEY (tk_run_id t) (tk_worker_id t) (tk_leader_epoch t).

Section coordination.
Context `{Env}.

(** [record_coordination_event]: the digest of the event is unique and its
    run exists. *)
Definition record_coordination_event (e : coordination_event) : txn unit := fun c =>
  if existsb (fun e' => event_digest e' == event_digest e) (events (c_db c))
  then (Err (IntegrityError "uq_run_coordination_events_event_id"), c)
  else if is_none (runs (c_db c) !! ev_run_id e) then (Err (IntegrityError "runs.run_id"), c)
  else (Ok tt, mkConn (set_events (c_db c) (events (c_db c) ++ [e])) (c_issued c) (c_tick c)).

(** [_record_best_effort_event]: its own transaction; a database error loses
    the event and nothing else. *)
Definition record_best_effort_event (run_id type worker_id : string) (epoch : option Z)
    (recorded_at : Z) (context : list (string * context_value)) (en : engine)
  : BestEffortEventOutcome * engine :=
  if write_fault (e_tick en) then (LOST_TO_DB_FAULT, en)
  else
    match begin_write (record_coordination_event (mkEvent run_id type worker_id epoch recorded_at context)) en with
    | (Ok _, en) => (RECORDED, en)
    | (Err _, en) => (LOST_TO_DB_FAULT, en)
    end.

(** [_renew_leader_deadline_on]. *)
Definition renew_leader_deadline_on (t : CoordinationToken) (window : Z) : txn unit :=
  now ← read_landscape_decision_time;
  renewed ← update_seat (tk_run_id t) (holds_seat t)
              (fun s => mkSeat (leader_worker_id s) (leader_epoch s) (Some (now + window)) now);
  refuse negb renewed with RunLeadershipLostError ;;
  record_issued_deadline (leader_deadline_key t) (now + window) window.

(** [verify_and_extend_leader_fence]: the verifying UPDATE changes nothing. *)
Definition verify_and_extend_leader_fence (t : CoordinationToken) (window : Z) : txn unit :=
  held ← update_seat (tk_run_id t) (holds_seat t) (fun s => s);
  refuse negb held with RunLeadershipLostError ;;
  renew_leader_deadline_on t window.

(** [fenced_leader_transaction]. *)
Definition fenced_leader_transaction {A} (t : CoordinationToken) (window : Z) (name : string)
    (body : txn A) : verb A := fun en =>
  let r := begin_write
    (_ ← verify_and_extend_leader_fence t window;
     a ← body;
     issued ← has_issued_deadline (leader_deadline_key t);
     _ ← (if issued : bool then renew_leader_deadline_on t window else mret tt);
     mret a) en in
  match r with
  | (Err RunLeadershipLostError, en) =>
      (Err RunLeadershipLostError,
       (record_best_effort_event (tk_run_id t) "fence_refusal" (tk_worker_id t) (Some (tk_leader_epoch t))
          (process_clock (e_tick en)) [("verb", CtxStr name)] en).2)
  | r => r
  end.

(** [verify_membership_fence]. *)
Definition verify_membership_fence (m : WorkerMembershipToken) : txn unit :=
  held ← update_worker (m_worker_id m) (active_member (m_run_id m)) (fun w => w);
  if held : bool then mret tt
  else
    registered ← query (fun d => match workers d !! m_worker_id m with
                                 | Some w => w_run_id w == m_run_id m
                                 | None => false
                                 end);
    refuse negb registered with AuditIntegrityError "unregistered worker_id" ;;
    raise RunMembershipLostError.

(** [fenced_member_transaction]. *)
Definition fenced_member_transaction {A} (m : WorkerMembershipToken) (name : string) (body : txn A)
  : verb A := fun en =>
  match begin_write (_ ← verify_membership_fence m; body) en with
  | (Err RunMembershipLostError, en) =>
      (Err RunMembershipLostError,
       (record_best_effort_event (m_run_id m) "fence_refusal" (m_worker_id m) None
          (process_clock (e_tick en)) [("verb", CtxStr name); ("fence", CtxStr "membership")] en).2)
  | r => r
  end.

(** [fenced_heartbeat_transaction]: the seat row is locked before the fence. *)
Definition fenced_heartbeat_transaction {A} (m : WorkerMembershipToken) (body : txn A) : verb A :=
  begin_write
    (locked_seat ← query (fun d => is_some (seats d !! m_run_id m));
     _ ← verify_membership_fence m;
     refuse negb locked_seat with AuditIntegrityError "registered membership but no coordination seat" ;;
     body).

(** ** Registration *)

(** [_insert_worker_row]: the worker id is the primary key. *)
Definition insert_worker_row (run_id worker_id : string) (role : worker_role) (window : Z)
    (entry_point : string) (now : Z) : txn unit :=
  d ← query (fun d => d);
  refuse is_some (workers d !! worker_id) with IntegrityError "run_workers.worker_id" ;;
  refuse is_none (runs d !! run_id) with IntegrityError "runs.run_id" ;;
  _ ← exec (fun d => set_workers d
             (<[worker_id := mkWorker run_id role active now (now + window) None None None entry_point]> (workers d)));
  record_issued_deadline (WORKER_KEY run_id worker_id) (now + window) window.

(** [_finalize_leader_registration_on]: both clocks restart after the locks. *)
Definition finalize_leader_registration_on (t : CoordinationToken) (window : Z) : txn unit :=
  now ← read_landscape_decision_time;
  seat ← update_seat (tk_run_id t) (holds_seat t)
           (fun s => mkSeat (leader_worker_id s) (leader_epoch s) (Some (now + window)) now);
  refuse negb seat with RunLeadershipLostError ;;
  member ← update_worker (tk_worker_id t)
             (fun w => active_member (tk_run_id t) w && (w_role w == leader)) (set_heartbeat (now + window));
  refuse negb member with AuditIntegrityError "no active same-run leader membership" ;;
  _ ← record_issued_deadline (leader_deadline_key t) (now + window) window;
  record_issued_deadline (WORKER_KEY (tk_run_id t) (tk_worker_id t)) (now + window) window.

Definition worker_register_event (run_id worker_id : string) (epoch : option Z) (now : Z)
    (role entry_point : string) : coordination_event :=
  mkEvent run_id "worker_register" worker_id epoch now [("role", CtxStr role); ("entry_point", CtxStr entry_point)].

(** [register_run_leader_on]: the seat of a new run, at epoch 1. *)
Definition register_run_leader_on (run_id worker_id : string) (window : Z) (entry_point : string)
  : txn CoordinationToken :=
  now ← read_landscape_decision_time;
  d ← query (fun d => d);
  refuse is_some (seats d !! run_id) with IntegrityError "run_coordination.run_id" ;;
  refuse is_none (runs d !! run_id) with IntegrityError "runs.run_id" ;;
  _ ← exec (fun d => set_seats d (<[run_id := mkSeat (Some worker_id) 1 (Some (now + window)) now]> (seats d)));
  let t := mkCoordinationToken run_id worker_id 1 in
  _ ← record_issued_deadline (leader_deadline_key t) (now + window) window;
  _ ← insert_worker_row run_id worker_id leader window entry_point now;
  _ ← record_coordination_event (worker_register_event run_id worker_id (Some 1) now "leader" entry_point);
  _ ← record_coordination_event
        (mkEvent run_id "leader_acquire" worker_id (Some 1) now [("entry_point", CtxStr entry_point)]);
  mret t.

(** [begin_run], the insertion of the run row and of its leader. *)
Definition begin_run (run_id worker_id config_hash : string) (grade : option string) : verb CoordinationToken :=
  begin_write
    (d ← query (fun d => d);
     refuse is_some (runs d !! run_id) with IntegrityError "runs.run_id" ;;
     _ ← exec (fun d => set_runs d (<[run_id := mkRun RUNNING None grade config_hash]> (runs d)));
     t ← register_run_leader_on run_id worker_id DEFAULT_RUN_LIVENESS_WINDOW "run";
     _ ← finalize_leader_registration_on t DEFAULT_RUN_LIVENESS_WINDOW;
     mret t).

(** ** Taking the seat *)

(** The compare-and-swap of both takeover verbs: only a vacant or expired
    seat changes hands, and its epoch grows by one. *)
Definition cas_seat (run_id worker_id : string) (now window : Z) : txn bool :=
  update_seat run_id
    (fun s => is_none (leader_worker_id s) || sql_lt (leader_heartbeat_expires_at s) now)
    (fun s => mkSeat (Some worker_id) (leader_epoch s + 1) (Some (now + window)) now).

(** The end of both takeover verbs: evict the deposed leader, register the
    new one, and record what happened. *)
Definition install_leader (run_id worker_id : string) (prior : option string) (epoch window now : Z)
    (entry_point reason : string) : txn unit :=
  _ ← match prior with
      | Some p =>
          if negb (p == worker_id) then
            gone ← update_worker p (fun w => w_status w == active) (set_evicted now worker_id);
            if gone : bool then
              record_coordination_event (mkEvent run_id "worker_evict" p (Some epoch) now
                [("evicted_by_worker_id", CtxStr worker_id); ("reason", CtxStr reason)])
            else mret tt
          else mret tt
      | None => mret tt
      end;
  _ ← insert_worker_row run_id worker_id leader window entry_point now;
  _ ← record_coordination_event (worker_register_event run_id worker_id (Some epoch) now "leader" entry_point);
  record_coordination_event (mkEvent run_id "leader_acquire" worker_id (Some epoch) now
    [("entry_point", CtxStr entry_point); ("deposed_leader_worker_id", ctx_option prior)]).

Definition run_status_of (run_id : string) : txn (option RunStatus) :=
  query (fun d => run_status <$> runs d !! run_id).

(** [_acquire_run_leadership_on]. *)
Definition acquire_run_leadership_on (run_id worker_id : string) (window : Z) (entry_point : string)
  : txn CoordinationToken :=
  seat ← query (fun d => seats d !! run_id);
  match seat with
  | None => raise (AuditIntegrityError "no run_coordination seat row")
  | Some seat =>
      now ← read_landscape_decision_time;
      status ← run_status_of run_id;
      refuse status_in status IMMUTABLE_SUCCESS_RUN_STATUSES
        with AuditIntegrityError "Successful terminal runs are immutable" ;;
      swapped ← cas_seat run_id worker_id now window;
      refuse negb swapped with NonResumableRunError "leader_live" ;;
      let t := mkCoordinationToken run_id worker_id (leader_epoch seat + 1) in
      _ ← record_issued_deadline (leader_deadline_key t) (now + window) window;
      _ ← exec (fun d => set_runs d (alter (fun r =>
             if bool_decide (run_status r ∈ TAKEOVER_FLIPPABLE_RUN_STATUSES ++ [RUNNING])
             then mkRun RUNNING None None (run_config_hash r) else r) run_id (runs d)));
      _ ← install_leader run_id worker_id (leader_worker_id seat) (leader_epoch seat + 1) window now
            entry_point "deposed_leader_takeover";
      mret t
  end.

(** [acquire_run_leadership]. *)
Definition acquire_run_leadership (run_id worker_id : string) (window : Z) (entry_point : string)
  : verb CoordinationToken :=
  begin_write
    (t ← acquire_run_leadership_on run_id worker_id window entry_point;
     _ ← finalize_leader_registration_on t window;
     mret t).

(** [_acquire_terminal_leadership_on]: the seat of a finished run, for an
    export or a reconciliation; the run row is not touched. *)
Definition acquire_terminal_leadership_on (run_id worker_id : string) (window : Z) (purpose : string)
    (expected_status : option RunStatus) : txn CoordinationToken :=
  seat ← query (fun d => seats d !! run_id);
  match seat with
  | None => raise (AuditIntegrityError "no run_coordination seat row")
  | Some seat =>
      now ← read_landscape_decision_time;
      status ← run_status_of run_id;
      refuse is_some expected_status && negb (status == expected_status)
        with NonResumableRunError "terminal_status_changed" ;;
      refuse status == Some RUNNING with NonResumableRunError "run_not_finalized" ;;
      refuse negb (status_in status EXPORT_SEAT_RUN_STATUSES)
        with AuditIntegrityError "Cannot acquire export leadership" ;;
      swapped ← cas_seat run_id worker_id now window;
      refuse negb swapped with NonResumableRunError "leader_live" ;;
      let t := mkCoordinationToken run_id worker_id (leader_epoch seat + 1) in
      _ ← record_issued_deadline (leader_deadline_key t) (now + window) window;
      _ ← install_leader run_id worker_id (leader_worker_id seat) (leader_epoch seat + 1) window now
            purpose ("deposed_leader_" ++ purpose ++ "_takeover");
      mret t
  end.

(** [acquire_export_leadership]. *)
Definition acquire_export_leadership (run_id worker_id : string) (window : Z) : verb CoordinationToken :=
  begin_write
    (t ← acquire_terminal_leadership_on run_id worker_id window "export" None;
     _ ← finalize_leader_registration_on t window;
     mret t).

(** [acquire_reconciliation_leadership]. *)
Definition acquire_reconciliation_leadership (run_id worker_id : string) (window : Z)
    (expected_status : RunStatus) : verb CoordinationToken := fun en =>
  if bool_decide (expected_status ∉ EXPORT_SEAT_RUN_STATUSES)
  then (Err (ValueError "Reconciliation requires an exact terminal RunStatus"), en)
  else
    begin_write
      (t ← acquire_terminal_leadership_on run_id worker_id window "reconciliation" (Some expected_status);
       _ ← finalize_leader_registration_on t window;
       mret t) en.

(** ** The seated leader *)

(** [release_seat]. *)
Definition release_seat (t : CoordinationToken) : verb SeatReleaseOutcome := fun en =>
  match fenced_leader_transaction t DEFAULT_RUN_LIVENESS_WINDOW "release_seat"
    (now ← read_landscape_decision_time;
     released ← update_seat (tk_run_id t) (holds_seat t) (fun s => mkSeat None (leader_epoch s) None now);
     refuse negb released with AuditIntegrityError "the vacate UPDATE matched no row" ;;
     _ ← forget_issued_deadline (leader_deadline_key t);
     gone ← update_worker (tk_worker_id t) (active_member (tk_run_id t)) (set_departed now);
     refuse negb gone with AuditIntegrityError "no active run_workers row" ;;
     record_coordination_event (mkEvent (tk_run_id t) "leader_release" (tk_worker_id t)
       (Some (tk_leader_epoch t)) now [("worker_row_departed", CtxBool true)])) en with
  | (Ok _, en) => (Ok RELEASED, en)
  | (Err RunLeadershipLostError, en) => (Ok FENCE_REFUSED, en)
  | (Err e, en) => (Err e, en)
  end.

(** [live_leader]. *)
Definition live_leader (run_id : string) : verb (option LeaderInfo) :=
  read_only
    (now ← read_landscape_decision_time;
     seat ← query (fun d => seats d !! run_id);
     mret (s ← seat; w ← leader_worker_id s;
           Some (mkLeaderInfo w (leader_epoch s) (leader_heartbeat_expires_at s)
                   (sql_ge (leader_heartbeat_expires_at s) now)))).

(** [evict_worker]. *)
Definition evict_worker (t : CoordinationToken) (target : string) (grace window : Z) : verb bool :=
  fenced_leader_transaction t window "evict_worker"
    (target_row ← query (fun d => workers d !! target);
     let is_follower w := (w_run_id w == tk_run_id t) && (w_role w == follower)
                          && negb (target == tk_worker_id t) in
     match target_row with
     | None => mret false
     | Some w =>
         if negb (is_follower w) then mret false
         else
           now ← read_landscape_decision_time;
           live_lease ← query (fun d => existsb (fun i : string * work_item =>
               (k_run_id (wi_key i.2) == tk_run_id t) && (wi_status i.2 == LEASED)
               && (wi_lease_owner i.2 == Some target) && sql_ge (wi_lease_expires_at i.2) now)
               (map_to_list (items d)));
           if live_lease : bool then mret false
           else
             gone ← update_worker target
               (fun w => is_follower w && (w_status w == active) && (w_heartbeat_expires_at w <? now - grace))
               (set_evicted now (tk_worker_id t));
             if negb gone then mret false
             else
               _ ← record_coordination_event (mkEvent (tk_run_id t) "worker_evict" target
                     (Some (tk_leader_epoch t)) now
                     [("evicted_by_worker_id", CtxStr (tk_worker_id t)); ("reason", CtxStr "liveness_expired")]);
               mret true
     end).

(** [dead_non_leader_workers]: oldest registration first. *)
Definition registered_before (a b : string * worker_row) : bool :=
  (w_registered_at a.2 <? w_registered_at b.2)
  || ((w_registered_at a.2 =? w_registered_at b.2) && String.leb a.1 b.1).

Definition dead_non_leader_workers (run_id leader_id : string) (grace : Z) : verb (list string) :=
  read_only
    (now ← read_landscape_decision_time;
     query (fun d => (sort_by registered_before (filter (fun e : string * worker_row =>
       active_member run_id e.2 && (w_role e.2 == follower) && negb (e.1 == leader_id)
       && (w_heartbeat_expires_at e.2 <? now - grace)) (map_to_list (workers d)))).*1)).

(** ** Members *)

(** [worker_heartbeat]. *)
Definition worker_heartbeat (m : WorkerMembershipToken) (window : Z) : verb heartbeat_result := fun en =>
  match fenced_heartbeat_transaction m
    (role ← query (fun d => w_role <$> workers d !! m_worker_id m);
     now ← read_landscape_decision_time;
     _ ← update_worker (m_worker_id m) (fun w => w_run_id w == m_run_id m) (set_heartbeat (now + window));
     _ ← record_issued_deadline (WORKER_KEY (m_run_id m) (m_worker_id m)) (now + window) window;
     renewed ← (if role == Some leader
                then update_seat (m_run_id m) (fun s => leader_worker_id s == Some (m_worker_id m))
                       (fun s => mkSeat (leader_worker_id s) (leader_epoch s) (Some (now + window)) now)
                else mret false);
     seat ← query (fun d => seats d !! m_run_id m);
     match seat, role with
     | Some s, Some role =>
         _ ← (if renewed : bool
              then record_issued_deadline (LEADER_KEY (m_run_id m) (m_worker_id m) (leader_epoch s)) (now + window) window
              else mret tt);
         mret (CoordinationSnapshot (leader_worker_id s) (leader_epoch s)
                 (is_some (leader_worker_id s) && sql_ge (leader_heartbeat_expires_at s) now) role)
     | None, _ => raise (AuditIntegrityError "no run_coordination seat row")
     | Some _, None => raise (RuntimeError "NoResultFound")
     end) en with
  | (Err RunMembershipLostError, en) =>
      (Ok (WorkerMembershipLost m),
       (record_best_effort_event (m_run_id m) "fence_refusal" (m_worker_id m) None (process_clock (e_tick en))
          [("verb", CtxStr "worker_heartbeat"); ("fence", CtxStr "membership")] en).2)
  | r => r
  end.

(** [_finalize_follower_admission_on]. *)
Definition finalize_follower_admission_on (run_id worker_id : string) (window : Z) : txn unit :=
  now ← read_landscape_decision_time;
  live ← query (fun d => match seats d !! run_id with
                         | Some s => is_some (leader_worker_id s) && sql_ge (leader_heartbeat_expires_at s) now
                         | None => false
                         end);
  refuse negb live with JoinRefusedError "leader seat expired during follower admission" ;;
  renewed ← update_worker worker_id (fun w => active_member run_id w && (w_role w == follower))
              (set_heartbeat (now + window));
  refuse negb renewed with AuditIntegrityError "no active same-run membership" ;;
  record_issued_deadline (WORKER_KEY run_id worker_id) (now + window) window.

(** [admit_follower]. *)
Definition admit_follower (run_id worker_id config_hash : string) (window : Z) : verb WorkerMembershipToken :=
  begin_write
    (now ← read_landscape_decision_time;
     run ← query (fun d => runs d !! run_id);
     match run with
     | None => raise (JoinRefusedError "run not found")
     | Some run =>
         refuse negb (run_status run == RUNNING) with JoinRefusedError "run status" ;;
         refuse negb (run_config_hash run == config_hash) with JoinRefusedError "resolved settings hash" ;;
         live ← query (fun d => match seats d !! run_id with
                                | Some s => is_some (leader_worker_id s) && sql_ge (leader_heartbeat_expires_at s) now
                                | None => false
                                end);
         refuse negb live with JoinRefusedError "no live leader" ;;
         _ ← insert_worker_row run_id worker_id follower window "join" now;
         _ ← record_coordination_event (worker_register_event run_id worker_id None now "follower" "join");
         _ ← finalize_follower_admission_on run_id worker_id window;
         mret (mkMembershipToken run_id worker_id)
     end).

(** [depart_worker]: idempotent, a lost membership is already departed. *)
Definition depart_worker (m : WorkerMembershipToken) : verb unit := fun en =>
  match fenced_member_transaction m "depart_worker"
    (now ← read_landscape_decision_time;
     gone ← update_worker (m_worker_id m) (active_member (m_run_id m)) (set_departed now);
     refuse negb gone with AuditIntegrityError "the departure UPDATE matched no row" ;;
     record_coordination_event (mkEvent (m_run_id m) "worker_depart" (m_worker_id m) None now [])) en with
  | (Err RunMembershipLostError, en) => (Ok tt, en)
  | r => r
  end.
End coordination.
