(* ===== verification/CoordinationTheory.v ===== *)
(** * CoordinationTheory: what the coordination verbs guarantee

    Every statement of every verb moves the database forward in one preorder
    ([evolves]): seats keep their epoch or raise it, workers never return to
    life, events are only appended.  Transactions compose that fact, so it
    holds of any history of verbs, and with it the fencing theorems. *)

From S2P Require Import Prelude Enums Landscape Coordination.
From stdpp Require Import pretty.
Open Scope Z_scope.

(** ** Running transactions *)
Section running.
Context {A B : Type}.

Lemma txn_bind_ok (m : txn A) (f : A -> txn B) c b c'' :
  (m ≫= f) c = (Ok b, c'') <-> exists a c', m c = (Ok a, c') /\ f a c' = (Ok b, c'').
Proof.
  unfold mbind, txn_bind. destruct (m c) as [[a|e] c'].
  - split; [eauto|intros (? & ? & [= -> ->] & ?); done].
  - split; [done|intros (? & ? & [=] & _)].
Qed.

Lemma txn_bind_err (m : txn A) (f : A -> txn B) c e c'' :
  (m ≫= f) c = (Err e, c'') <->
  m c = (Err e, c'') \/ exists a c', m c = (Ok a, c') /\ f a c' = (Err e, c'').
Proof.
  unfold mbind, txn_bind. destruct (m c) as [[a|e'] c']; split; naive_solver.
Qed.

Lemma txn_bind_eq (m : txn A) (f : A -> txn B) c a c' :
  m c = (Ok a, c') -> (m ≫= f) c = f a c'.
Proof. unfold mbind, txn_bind. by intros ->. Qed.

Lemma txn_bind_eq_err (m : txn A) (f : A -> txn B) c e c' :
  m c = (Err e, c') -> (m ≫= f) c = (Err e, c').
Proof. unfold mbind, txn_bind. by intros ->. Qed.
End running.

(** Walk back through a transaction that returned. *)
Ltac inv_txn :=
  repeat match goal with
  | H : (Ok _, _) = (Ok _, _) |- _ => injection H; clear H; intros; subst
  | H : (Err _, _) = (Ok _, _) |- _ => discriminate H
  | H : raise _ _ = (Ok _, _) |- _ => discriminate H
  | H : mbind _ _ _ = (Ok _, _) |- _ => apply txn_bind_ok in H as (? & ? & ? & H)
  | H : mret _ _ = (Ok _, _) |- _ => unfold mret, txn_ret in H
  | H : query _ _ = (Ok _, _) |- _ => unfold query in H
  | H : exec _ _ = (Ok _, _) |- _ => unfold exec in H
  | H : (if ?b then raise _ else _) _ = (Ok _, _) |- _ => destruct b eqn:?; [discriminate H|]
  | H : read_landscape_decision_time _ = (Ok _, _) |- _ => unfold read_landscape_decision_time in H
  | H : read_landscape_transaction_time _ = (Ok _, _) |- _ => unfold read_landscape_transaction_time in H
  | H : forget_issued_deadline _ _ = (Ok _, _) |- _ => unfold forget_issued_deadline in H
  | H : has_issued_deadline _ _ = (Ok _, _) |- _ => unfold has_issued_deadline in H
  end.

Lemma update_seat_ok r p f c b c' :
  update_seat r p f c = (Ok b, c') ->
  (b = true /\ exists s, seats (c_db c) !! r = Some s /\ p s = true /\ seat_row_ok (f s) = true /\
     c' = mkConn (set_seats (c_db c) (<[r := f s]> (seats (c_db c)))) (c_issued c) (c_tick c)) \/
  (b = false /\ c' = c /\ forall s, seats (c_db c) !! r = Some s -> p s = false).
Proof.
  unfold update_seat. destruct (seats (c_db c) !! r) as [s|] eqn:E; [|naive_solver].
  destruct (p s) eqn:Ep; [|naive_solver]. destruct (seat_row_ok (f s)) eqn:Eo; naive_solver.
Qed.

Lemma update_worker_ok r p f c b c' :
  update_worker r p f c = (Ok b, c') ->
  (b = true /\ exists w, workers (c_db c) !! r = Some w /\ p w = true /\ worker_row_ok (f w) = true /\
     c' = mkConn (set_workers (c_db c) (<[r := f w]> (workers (c_db c)))) (c_issued c) (c_tick c)) \/
  (b = false /\ c' = c /\ forall w, workers (c_db c) !! r = Some w -> p w = false).
Proof.
  unfold update_worker. destruct (workers (c_db c) !! r) as [s|] eqn:E; [|naive_solver].
  destruct (p s) eqn:Ep; [|naive_solver]. destruct (worker_row_ok (f s)) eqn:Eo; naive_solver.
Qed.

(** ** The preorder *)

(** A later state of a seat: a higher epoch, or the same epoch under the same
    leader or vacated. *)
Definition seat_le (s s' : seat_row) : Prop :=
  leader_epoch s < leader_epoch s' \/
  (leader_epoch s = leader_epoch s' /\
   (leader_worker_id s' = leader_worker_id s \/ leader_worker_id s' = None)).

(** A later state of a worker: the same identity, and a status that left
    [active] is final. *)
Definition worker_le (w w' : worker_row) : Prop :=
  w_run_id w' = w_run_id w /\ w_role w' = w_role w /\ w_registered_at w' = w_registered_at w /\
  (w_status w <> active -> w_status w' = w_status w).

Record evolves (d d' : landscape) : Prop := mkEvolves {
  ev_seats : forall r s, seats d !! r = Some s -> exists s', seats d' !! r = Some s' /\ seat_le s s';
  ev_workers : forall i w, workers d !! i = Some w -> exists w', workers d' !! i = Some w' /\ worker_le w w';
  ev_runs : forall r x, runs d !! r = Some x ->
    exists x', runs d' !! r = Some x' /\ run_config_hash x' = run_config_hash x;
  ev_events : events d `prefix_of` events d';
}.

Lemma seat_le_refl s : seat_le s s.
Proof. right. auto. Qed.

Lemma seat_le_trans s1 s2 s3 : seat_le s1 s2 -> seat_le s2 s3 -> seat_le s1 s3.
Proof.
  intros [H1|[H1 L1]] [H2|[H2 L2]]; [left; lia..|].
  right. split; [lia|]. destruct L1 as [<-|E1], L2 as [L2|L2]; auto. right. congruence.
Qed.

Lemma worker_le_refl w : worker_le w w.
Proof. done. Qed.

Lemma worker_le_trans w1 w2 w3 : worker_le w1 w2 -> worker_le w2 w3 -> worker_le w1 w3.
Proof.
  intros (? & ? & ? & L1) (? & ? & ? & L2). split_and!; [congruence..|].
  intros Hn. rewrite L2; [auto|]. by rewrite L1.
Qed.

#[export] Instance evolves_preorder : PreOrder evolves.
Proof.
  split.
  - intros d. split; eauto using seat_le_refl, worker_le_refl.
  - intros d1 d2 d3 [S1 W1 R1 E1] [S2 W2 R2 E2]. split.
    + intros r s Hs. destruct (S1 r s Hs) as (s2 & H2 & L2), (S2 r s2 H2) as (s3 & H3 & L3).
      eauto using seat_le_trans.
    + intros r s Hs. destruct (W1 r s Hs) as (s2 & H2 & L2), (W2 r s2 H2) as (s3 & H3 & L3).
      eauto using worker_le_trans.
    + intros r s Hs. destruct (R1 r s Hs) as (s2 & H2 & L2), (R2 r s2 H2) as (s3 & H3 & L3).
      exists s3. split; congruence.
    + by etrans.
Qed.

(** A transaction that moves the database forward, whether it returns or raises. *)
Class Evolves {A} (m : txn A) : Prop :=
  evolves_run : forall c, evolves (c_db c) (c_db (m c).2).

(** One table changed. *)
Lemma evolves_set_seats d r s' :
  (forall s, seats d !! r = Some s -> seat_le s s') -> evolves d (set_seats d (<[r := s']> (seats d))).
Proof.
  intros Hle. split; cbn; [|eauto using worker_le_refl..].
  intros q s Hs. destruct (decide (q = r)) as [->|Hn].
  - rewrite lookup_insert_eq. eauto.
  - rewrite lookup_insert_ne by done. eauto using seat_le_refl.
Qed.

Lemma evolves_set_workers d i w' :
  (forall w, workers d !! i = Some w -> worker_le w w') -> evolves d (set_workers d (<[i := w']> (workers d))).
Proof.
  intros Hle. split; cbn; [eauto using seat_le_refl| |eauto..].
  intros q s Hs. destruct (decide (q = i)) as [->|Hn].
  - rewrite lookup_insert_eq. eauto.
  - rewrite lookup_insert_ne by done. eauto using worker_le_refl.
Qed.

Lemma evolves_set_events d e : evolves d (set_events d (events d ++ [e])).
Proof. split; cbn; [eauto using seat_le_refl, worker_le_refl..|]. by apply prefix_app_r. Qed.

(** ** Every statement and every verb evolves *)
Section evolving.
Context `{Env}.

#[export] Instance evolves_ret {A} (a : A) : Evolves (mret a).
Proof. intros c. reflexivity. Qed.
#[export] Instance evolves_raise {A} e : Evolves (raise e : txn A).
Proof. intros c. reflexivity. Qed.
#[export] Instance evolves_query {A} (f : landscape -> A) : Evolves (query f).
Proof. intros c. reflexivity. Qed.
#[export] Instance evolves_clock : Evolves read_landscape_decision_time.
Proof. intros c. reflexivity. Qed.
#[export] Instance evolves_issue k e w : Evolves (record_issued_deadline k e w).
Proof. intros c. unfold record_issued_deadline. by repeat case_match. Qed.
#[export] Instance evolves_forget k : Evolves (forget_issued_deadline k).
Proof. intros c. reflexivity. Qed.
#[export] Instance evolves_has k : Evolves (has_issued_deadline k).
Proof. intros c. reflexivity. Qed.
#[export] Instance evolves_commit : Evolves check_deadlines_before_commit.
Proof. intros c. unfold check_deadlines_before_commit. by repeat case_match. Qed.
#[export] Instance evolves_event e : Evolves (record_coordination_event e).
Proof.
  intros c. unfold record_coordination_event. repeat case_match; cbn; try reflexivity.
  apply evolves_set_events.
Qed.

#[export] Instance evolves_bind {A B} (m : txn A) (f : A -> txn B) :
  Evolves m -> (forall a, Evolves (f a)) -> Evolves (m ≫= f).
Proof.
  intros Hm Hf c. unfold mbind, txn_bind. specialize (Hm c). destruct (m c) as [[a|e] c']; [|done].
  etrans; [exact Hm|apply Hf].
Qed.

#[export] Instance evolves_if {A} (b : bool) (m m' : txn A) :
  Evolves m -> Evolves m' -> Evolves (if b then m else m').
Proof. by destruct b. Qed.

Lemma evolves_update_seat r p f :
  (forall s, p s = true -> seat_le s (f s)) -> Evolves (update_seat r p f).
Proof.
  intros Hf c. unfold update_seat. repeat case_match; cbn; try reflexivity.
  apply evolves_set_seats. intros s' Hs. simplify_eq. auto.
Qed.

Lemma evolves_update_worker i p f :
  (forall w, p w = true -> worker_le w (f w)) -> Evolves (update_worker i p f).
Proof.
  intros Hf c. unfold update_worker. repeat case_match; cbn; try reflexivity.
  apply evolves_set_workers. intros s' Hs. simplify_eq. auto.
Qed.

#[export] Instance evolves_renew_seat r p e now :
  Evolves (update_seat r p (fun s => mkSeat (leader_worker_id s) (leader_epoch s) e now)).
Proof. apply evolves_update_seat. intros s _. right. auto. Qed.
#[export] Instance evolves_same_seat r p : Evolves (update_seat r p (fun s => s)).
Proof. apply evolves_update_seat. intros s _. apply seat_le_refl. Qed.
#[export] Instance evolves_vacate r p now :
  Evolves (update_seat r p (fun s => mkSeat None (leader_epoch s) None now)).
Proof. apply evolves_update_seat. intros s _. right. auto. Qed.
#[export] Instance evolves_cas r w now win : Evolves (cas_seat r w now win).
Proof. apply evolves_update_seat. intros s _. left. cbn. lia. Qed.
#[export] Instance evolves_same_worker i p : Evolves (update_worker i p (fun w => w)).
Proof. apply evolves_update_worker. intros w _. apply worker_le_refl. Qed.
#[export] Instance evolves_heartbeat i p e : Evolves (update_worker i p (set_heartbeat e)).
Proof. by apply evolves_update_worker. Qed.

Lemma evolves_leave i p f :
  (forall w, p w = true -> w_status w = active) ->
  (forall w, w_run_id (f w) = w_run_id w /\ w_role (f w) = w_role w /\ w_registered_at (f w) = w_registered_at w) ->
  Evolves (update_worker i p f).
Proof.
  intros Hp Hf. apply evolves_update_worker. intros w Hw. destruct (Hf w) as (? & ? & ?).
  split_and!; [done..|]. intros Hn. by apply Hp in Hw.
Qed.

#[export] Instance evolves_insert_worker r i role win e now : Evolves (insert_worker_row r i role win e now).
Proof.
  intros c. unfold insert_worker_row. unfold mbind, txn_bind, query, exec. cbn [c_db].
  destruct (workers (c_db c) !! i) eqn:E; [reflexivity|]. cbn [is_some].
  case_match; [reflexivity|].
  etrans; [|apply evolves_issue]. apply evolves_set_workers. intros w. cbn. by rewrite E.
Qed.

#[export] Instance evolves_flip_run r f :
  (forall x, run_config_hash (f x) = run_config_hash x) -> Evolves (exec (fun d => set_runs d (alter f r (runs d)))).
Proof.
  intros Hf c. cbn. split; cbn; [eauto using seat_le_refl, worker_le_refl..| |done].
  intros q x Hx. destruct (decide (q = r)) as [->|Hn].
  - rewrite lookup_alter_eq, Hx. eauto.
  - rewrite lookup_alter_ne by done. eauto.
Qed.

Ltac evolving := repeat (first [typeclasses eauto | apply evolves_bind | apply evolves_if | intros ?]).

#[export] Instance evolves_verify_leader t w : Evolves (verify_and_extend_leader_fence t w).
Proof. unfold verify_and_extend_leader_fence, renew_leader_deadline_on. evolving. Qed.
#[export] Instance evolves_renew_leader t w : Evolves (renew_leader_deadline_on t w).
Proof. unfold renew_leader_deadline_on. evolving. Qed.
#[export] Instance evolves_verify_member m : Evolves (verify_membership_fence m).
Proof. unfold verify_membership_fence. evolving. Qed.
#[export] Instance evolves_finalize t w : Evolves (finalize_leader_registration_on t w).
Proof. unfold finalize_leader_registration_on. evolving. Qed.
#[export] Instance evolves_install r i p e win now ep why : Evolves (install_leader r i p e win now ep why).
Proof.
  unfold install_leader. apply evolves_bind; [|evolving]. destruct p as [p|]; [|evolving].
  apply evolves_if; [|evolving]. apply evolves_bind; [|evolving].
  apply evolves_leave; [intros w Hw; by bool_facts|done].
Qed.
#[export] Instance evolves_acquire r i win ep : Evolves (acquire_run_leadership_on r i win ep).
Proof.
  unfold acquire_run_leadership_on, run_status_of. apply evolves_bind; [evolving|]. intros [s|]; [|evolving].
  repeat first [apply evolves_bind; [solve [evolving]|intros ?] | apply evolves_if; [solve [evolving]|]].
  apply evolves_bind; [|evolving]. apply evolves_flip_run. intros x. by case_match.
Qed.
#[export] Instance evolves_acquire_terminal r i win p st : Evolves (acquire_terminal_leadership_on r i win p st).
Proof.
  unfold acquire_terminal_leadership_on, run_status_of. apply evolves_bind; [evolving|]. intros [s|]; evolving.
Qed.
#[export] Instance evolves_finalize_follower r i w : Evolves (finalize_follower_admission_on r i w).
Proof. unfold finalize_follower_admission_on. evolving. Qed.

(** A verb moves the database forward. *)
Definition verb_evolves {A} (v : verb A) : Prop := forall en, evolves (e_db en) (e_db (v en).2).

Lemma begin_write_evolves {A} (m : txn A) : Evolves m -> verb_evolves (begin_write m).
Proof.
  intros Hm en. unfold begin_write.
  assert (Evolves (a ← m; _ ← check_deadlines_before_commit; mret a)) as He by evolving.
  specialize (He (mkConn (e_db en) [] (e_tick en))).
  destruct ((a ← m; _ ← check_deadlines_before_commit; mret a) (mkConn (e_db en) [] (e_tick en))) as [[] c];
    [exact He|reflexivity].
Qed.

Lemma best_effort_evolves r ty w ep at_ ctx en :
  evolves (e_db en) (e_db (record_best_effort_event r ty w ep at_ ctx en).2).
Proof.
  unfold record_best_effort_event. case_match; [reflexivity|].
  pose proof (begin_write_evolves (record_coordination_event (mkEvent r ty w ep at_ ctx)) _ en) as He.
  by destruct (begin_write _ en) as [[] ?].
Qed.

Lemma fenced_leader_evolves {A} t w name (body : txn A) :
  Evolves body -> verb_evolves (fenced_leader_transaction t w name body).
Proof.
  intros Hb en. unfold fenced_leader_transaction.
  match goal with |- context [begin_write ?m en] =>
    pose proof (begin_write_evolves m ltac:(evolving) en) as He; destruct (begin_write m en) as [[a|e] en'] end; [done|].
  destruct e; try done. etrans; [exact He|apply best_effort_evolves].
Qed.

Lemma fenced_member_evolves {A} m name (body : txn A) :
  Evolves body -> verb_evolves (fenced_member_transaction m name body).
Proof.
  intros Hb en. unfold fenced_member_transaction.
  match goal with |- context [begin_write ?m en] =>
    pose proof (begin_write_evolves m ltac:(evolving) en) as He; destruct (begin_write m en) as [[a|e] en'] end; [done|].
  destruct e; try done. etrans; [exact He|apply best_effort_evolves].
Qed.

Lemma begin_run_evolves r i h g : verb_evolves (begin_run r i h g).
Proof.
  apply begin_write_evolves. intros c. unfold mbind at 1, txn_bind at 1. cbn [query].
  destruct (runs (c_db c) !! r) eqn:Er; [reflexivity|]. cbn [is_some].
  unfold mbind at 1, txn_bind at 1. cbn [exec].
  set (c1 := mkConn (set_runs _ _) _ _). transitivity (c_db c1).
  { subst c1. split; cbn; [eauto using seat_le_refl, worker_le_refl..| |done].
    intros q x Hx. rewrite lookup_insert_ne by (intros ->; congruence). eauto. }
  revert c1. apply evolves_bind; [|evolving]. intros c1. unfold register_run_leader_on.
  unfold mbind at 1, txn_bind at 1. unfold mbind at 1, txn_bind at 1. cbn [query read_landscape_decision_time c_db].
  destruct (seats (c_db c1) !! r) eqn:Es; [reflexivity|]. cbn [is_some].
  case_match; [reflexivity|]. unfold mbind at 1, txn_bind at 1. cbn [exec].
  set (c2 := mkConn (set_seats _ _) _ _). transitivity (c_db c2).
  { subst c2. apply evolves_set_seats. cbn. by rewrite Es. }
  revert c2. evolving.
Qed.

Lemma acquire_run_leadership_evolves r i w ep : verb_evolves (acquire_run_leadership r i w ep).
Proof. apply begin_write_evolves. evolving. Qed.

Lemma acquire_export_leadership_evolves r i w : verb_evolves (acquire_export_leadership r i w).
Proof. apply begin_write_evolves. evolving. Qed.

Lemma acquire_reconciliation_leadership_evolves r i w st : verb_evolves (acquire_reconciliation_leadership r i w st).
Proof.
  intros en. unfold acquire_reconciliation_leadership. case_bool_decide; [reflexivity|].
  apply begin_write_evolves. evolving.
Qed.

Lemma release_seat_evolves t : verb_evolves (release_seat t).
Proof.
  intros en. unfold release_seat.
  match goal with |- context [fenced_leader_transaction t ?w ?n ?b en] =>
    assert (Evolves b) as Hb; [|pose proof (fenced_leader_evolves t w n b Hb en) as He;
      by destruct (fenced_leader_transaction t w n b en) as [[|[]] ?]] end.
  evolving. apply evolves_leave; [intros w Hw; unfold active_member in Hw; by bool_facts|done].
Qed.

Lemma evict_worker_evolves t target g w : verb_evolves (evict_worker t target g w).
Proof.
  apply fenced_leader_evolves. apply evolves_bind; [evolving|]. intros [row|]; [|evolving].
  repeat first [apply evolves_bind; [solve [evolving]|intros ?] | apply evolves_if; [solve [evolving]|]].
  apply evolves_bind; [|evolving]. apply evolves_leave; [intros x Hx; by bool_facts|done].
Qed.

Lemma worker_heartbeat_evolves m w : verb_evolves (worker_heartbeat m w).
Proof.
  intros en. unfold worker_heartbeat, fenced_heartbeat_transaction.
  match goal with |- context [begin_write ?b en] =>
    assert (Evolves b) as Hb; [|pose proof (begin_write_evolves b Hb en) as He;
      destruct (begin_write b en) as [[a|e] en']] end.
  - repeat first [apply evolves_bind; [solve [evolving]|intros ?] | apply evolves_if; [solve [evolving]|]].
    repeat case_match; evolving.
  - done.
  - destruct e; try done. etrans; [exact He|apply best_effort_evolves].
Qed.

Lemma admit_follower_evolves r i h w : verb_evolves (admit_follower r i h w).
Proof.
  apply begin_write_evolves. apply evolves_bind; [evolving|intros now].
  apply evolves_bind; [evolving|]. intros [run|]; evolving.
Qed.

Lemma depart_worker_evolves m : verb_evolves (depart_worker m).
Proof.
  intros en. unfold depart_worker.
  match goal with |- context [fenced_member_transaction m ?n ?b en] =>
    assert (Evolves b) as Hb; [|pose proof (fenced_member_evolves m n b Hb en) as He;
      by destruct (fenced_member_transaction m n b en) as [[|[]] ?]] end.
  evolving. apply evolves_leave; [intros w Hw; unfold active_member in Hw; by bool_facts|done].
Qed.
End evolving.

(** ** What a returned verb did *)
Section returned.
Context `{Env}.

Lemma commit_db c r c' : check_deadlines_before_commit c = (r, c') -> c_db c' = c_db c.
Proof. unfold check_deadlines_before_commit. intros Hc. repeat case_match; by simplify_eq. Qed.

Lemma commit_live c c' k d :
  check_deadlines_before_commit c = (Ok tt, c') -> dict_get (c_issued c) k = Some d ->
  d_reserve d < d_expires_at d - database_clock (c_tick c) /\ c_tick c' = S (c_tick c).
Proof.
  unfold check_deadlines_before_commit. intros Hc Hd. apply dict_get_elem in Hd.
  destruct (c_issued c) as [|e l]; [by apply elem_of_nil in Hd|].
  destruct (existsb _ _) eqn:Ex in Hc; [done|]. rewrite <- not_true_iff_false, existsb_exists in Ex.
  injection Hc as <-. split; [|done].
  destruct (Z.leb_spec (d_expires_at d - database_clock (c_tick c)) (d_reserve d)); [|lia].
  exfalso. apply Ex. exists (k, d). split; [by apply list_elem_of_In|]. by apply Z.leb_le.
Qed.

Lemma begin_write_ok {A} (m : txn A) en a en' :
  begin_write m en = (Ok a, en') ->
  exists c c', m (mkConn (e_db en) [] (e_tick en)) = (Ok a, c) /\
    check_deadlines_before_commit c = (Ok tt, c') /\ e_db en' = c_db c /\ e_tick en' = c_tick c'.
Proof.
  unfold begin_write. destruct ((a ← m; _ ← check_deadlines_before_commit; mret a) _) as [[x|] c'] eqn:E; [|done].
  intros [= -> <-]. inv_txn. rename x0 into c1. destruct x1. eexists _, _. split_and!; [done..| |done].
  cbn. by eapply commit_db.
Qed.

Lemma begin_write_err {A} (m : txn A) en e en' : begin_write m en = (Err e, en') -> e_db en' = e_db en.
Proof.
  unfold begin_write. destruct ((a ← m; _ ← check_deadlines_before_commit; mret a) _) as [[|] c']; [done|].
  by intros [= -> <-].
Qed.

(** The state that the finalisation of a new leader leaves. *)
Lemma finalize_ok t w c u c' :
  finalize_leader_registration_on t w c = (Ok u, c') ->
  exists s row, seats (c_db c) !! tk_run_id t = Some s /\ holds_seat t s = true /\
    workers (c_db c) !! tk_worker_id t = Some row /\ active_member (tk_run_id t) row = true /\
    let now := database_clock (c_tick c) in
    c_db c' = set_workers (set_seats (c_db c)
                (<[tk_run_id t := mkSeat (leader_worker_id s) (leader_epoch s) (Some (now + w)) now]> (seats (c_db c))))
                (<[tk_worker_id t := set_heartbeat (now + w) row]> (workers (c_db c))) /\
    dict_get (c_issued c') (leader_deadline_key t) = Some (mkDeadline (now + w) (deadline_reserve w)).
Proof.
  unfold finalize_leader_registration_on. intros Hf. inv_txn. bool_facts. subst.
  match goal with Hs : update_seat _ _ _ _ = _ |- _ => apply update_seat_ok in Hs as [(_ & s & Hs & Hh & _ & ->)|(? & _)]; [|done] end.
  match goal with Hw : update_worker _ _ _ _ = _ |- _ => apply update_worker_ok in Hw as [(_ & row & Hw & Ha & _ & ->)|(? & _)]; [|done] end.
  cbn in *. bool_facts. unfold record_issued_deadline in *. repeat case_match; simplify_eq.
  exists s, row. split_and!; [done..|]. cbn. rewrite dict_get_set. rewrite bool_decide_eq_false_2 by done.
  by rewrite dict_get_set, bool_decide_eq_true_2.
Qed.

Lemma finalize_seated t w c u c' :
  finalize_leader_registration_on t w c = (Ok u, c') ->
  exists s, seats (c_db c') !! tk_run_id t = Some s /\ holds_seat t s = true.
Proof.
  intros (s & row & _ & Hh & _ & _ & -> & _)%finalize_ok. cbn. rewrite lookup_insert_eq. eauto.
Qed.

(** A takeover raises the epoch it found by one. *)
Lemma acquire_on_token r i w ep c t c' :
  acquire_run_leadership_on r i w ep c = (Ok t, c') ->
  exists s, seats (c_db c) !! r = Some s /\ t = mkCoordinationToken r i (leader_epoch s + 1).
Proof.
  unfold acquire_run_leadership_on. intros Ha. inv_txn. destruct (seats _ !! r) as [s|] eqn:Es; [|done].
  inv_txn. eauto.
Qed.

Lemma acquire_terminal_on_token r i w p st c t c' :
  acquire_terminal_leadership_on r i w p st c = (Ok t, c') ->
  exists s, seats (c_db c) !! r = Some s /\ t = mkCoordinationToken r i (leader_epoch s + 1).
Proof.
  unfold acquire_terminal_leadership_on. intros Ha. inv_txn. destruct (seats _ !! r) as [s|] eqn:Es; [|done].
  inv_txn. eauto.
Qed.

Lemma register_on_token r i w ep c t c' :
  register_run_leader_on r i w ep c = (Ok t, c') ->
  seats (c_db c) !! r = None /\ t = mkCoordinationToken r i 1.
Proof.
  unfold register_run_leader_on. intros Ha. inv_txn. cbn in *.
  destruct (seats _ !! r); [done|]. auto.
Qed.
Lemma begin_run_ok r i h g en t en' :
  begin_run r i h g en = (Ok t, en') ->
  seats (e_db en) !! r = None /\ t = mkCoordinationToken r i 1 /\
  exists s, seats (e_db en') !! r = Some s /\ holds_seat t s = true.
Proof.
  intros (c & c' & Hm & _ & -> & _)%begin_write_ok. inv_txn.
  match goal with Hr : register_run_leader_on _ _ _ _ _ = _ |- _ => apply register_on_token in Hr as [? ->] end.
  match goal with Hr : finalize_leader_registration_on _ _ _ = _ |- _ => apply finalize_seated in Hr end.
  auto.
Qed.

Lemma acquire_ok r i w ep en t en' :
  acquire_run_leadership r i w ep en = (Ok t, en') ->
  exists s, seats (e_db en) !! r = Some s /\ t = mkCoordinationToken r i (leader_epoch s + 1) /\
  exists s', seats (e_db en') !! r = Some s' /\ holds_seat t s' = true.
Proof.
  intros (c & c' & Hm & _ & -> & _)%begin_write_ok. inv_txn.
  match goal with Hr : acquire_run_leadership_on _ _ _ _ _ = _ |- _ => apply acquire_on_token in Hr as (s & ? & ->) end.
  match goal with Hr : finalize_leader_registration_on _ _ _ = _ |- _ => apply finalize_seated in Hr end.
  eauto.
Qed.

Lemma acquire_terminal_ok r i w p st en t en' :
  begin_write (t ← acquire_terminal_leadership_on r i w p st; _ ← finalize_leader_registration_on t w; mret t) en
    = (Ok t, en') ->
  exists s, seats (e_db en) !! r = Some s /\ t = mkCoordinationToken r i (leader_epoch s + 1) /\
  exists s', seats (e_db en') !! r = Some s' /\ holds_seat t s' = true.
Proof.
  intros (c & c' & Hm & _ & -> & _)%begin_write_ok. inv_txn.
  match goal with Hr : acquire_terminal_leadership_on _ _ _ _ _ _ = _ |- _ =>
    apply acquire_terminal_on_token in Hr as (s & ? & ->) end.
  match goal with Hr : finalize_leader_registration_on _ _ _ = _ |- _ => apply finalize_seated in Hr end.
  eauto.
Qed.

(** A refused best-effort event or a recorded one. *)
Lemma best_effort_db r ty w ep at_ ctx en :
  let en' := (record_best_effort_event r ty w ep at_ ctx en).2 in
  e_db en' = e_db en \/ e_db en' = set_events (e_db en) (events (e_db en) ++ [mkEvent r ty w ep at_ ctx]).
Proof.
  unfold record_best_effort_event. destruct (write_fault (e_tick en)); [by left|].
  destruct (begin_write _ en) as [[u|e] en'] eqn:E; cbn.
  - right. apply begin_write_ok in E as (c & c' & Hr & _ & -> & _).
    unfold record_coordination_event in Hr. cbn in Hr. repeat case_match; by simplify_eq.
  - left. by apply begin_write_err in E.
Qed.

(** The database after a refusal: at most one more [fence_refusal] event. *)
Definition refusal_only (worker : string) (d d' : landscape) : Prop :=
  d' = d \/ exists e, ev_type e = "fence_refusal" /\ ev_worker_id e = worker /\ d' = set_events d (events d ++ [e]).

Lemma update_seat_none r p f c :
  (forall s, seats (c_db c) !! r = Some s -> p s = false) -> update_seat r p f c = (Ok false, c).
Proof. unfold update_seat. intros Hp. destruct (seats (c_db c) !! r) as [s|]; [|done]. by rewrite (Hp s). Qed.

Lemma fence_refuses {A} t w name (body : txn A) en :
  (forall s, seats (e_db en) !! tk_run_id t = Some s -> holds_seat t s = false) ->
  exists en', fenced_leader_transaction t w name body en = (Err RunLeadershipLostError, en') /\
    refusal_only (tk_worker_id t) (e_db en) (e_db en').
Proof.
  intros Hs. unfold fenced_leader_transaction, begin_write.
  rewrite (txn_bind_eq_err _ _ _ RunLeadershipLostError (mkConn (e_db en) [] (e_tick en))).
  - eexists. split; [reflexivity|]. cbn. unfold refusal_only.
    match goal with |- context [record_best_effort_event ?r ?ty ?w ?ep ?a ?cx ?x] =>
      destruct (best_effort_db r ty w ep a cx x) as [->| ->] end; cbn; [by left|].
    right. eexists. split; [|split; [|reflexivity]]; reflexivity.
  - apply txn_bind_eq_err. unfold verify_and_extend_leader_fence.
    by rewrite (txn_bind_eq _ _ _ false (mkConn (e_db en) [] (e_tick en)) (update_seat_none _ _ _ (mkConn _ _ _) Hs)).
Qed.

Lemma membership_refuses {A} i row name (body : txn A) en :
  workers (e_db en) !! i = Some row -> w_status row <> active ->
  exists en', fenced_member_transaction (mkMembershipToken (w_run_id row) i) name body en
      = (Err RunMembershipLostError, en') /\ refusal_only i (e_db en) (e_db en').
Proof.
  intros Hw Ha. unfold fenced_member_transaction, begin_write.
  rewrite (txn_bind_eq_err _ _ _ RunMembershipLostError (mkConn (e_db en) [] (e_tick en))).
  - eexists. split; [reflexivity|]. cbn. unfold refusal_only.
    match goal with |- context [record_best_effort_event ?r ?ty ?w ?ep ?a ?cx ?x] =>
      destruct (best_effort_db r ty w ep a cx x) as [->| ->] end; cbn; [by left|].
    right. eexists. split; [|split; [|reflexivity]]; reflexivity.
  - apply txn_bind_eq_err. unfold verify_membership_fence.
    rewrite (txn_bind_eq _ _ _ false (mkConn (e_db en) [] (e_tick en))).
    + unfold mbind, txn_bind, query. cbn. rewrite Hw, bool_decide_eq_true_2 by done. done.
    + unfold update_worker. cbn. rewrite Hw. unfold active_member. by rewrite (bool_decide_eq_false_2 (_ = active)), andb_false_r.
Qed.
Lemma event_ok e c u c' :
  record_coordination_event e c = (Ok u, c') ->
  c' = mkConn (set_events (c_db c) (events (c_db c) ++ [e])) (c_issued c) (c_tick c).
Proof. unfold record_coordination_event. intros He. repeat case_match; by simplify_eq. Qed.

Lemma issue_ok k e w c u c' :
  record_issued_deadline k e w c = (Ok u, c') ->
  c' = mkConn (c_db c) (dict_set (c_issued c) k (mkDeadline e (deadline_reserve w))) (c_tick c).
Proof. unfold record_issued_deadline. intros He. repeat case_match; by simplify_eq. Qed.

(** The renewal finds the seat held and restarts its clock. *)
Lemma renew_ok t w c u c' :
  renew_leader_deadline_on t w c = (Ok u, c') ->
  exists s, seats (c_db c) !! tk_run_id t = Some s /\ holds_seat t s = true /\
    let now := database_clock (c_tick c) in
    c_db c' = set_seats (c_db c)
      (<[tk_run_id t := mkSeat (leader_worker_id s) (leader_epoch s) (Some (now + w)) now]> (seats (c_db c))).
Proof.
  unfold renew_leader_deadline_on. intros Hr. inv_txn. bool_facts. subst.
  apply issue_ok in Hr as ->.
  match goal with Hs : update_seat _ _ _ _ = _ |- _ => apply update_seat_ok in Hs as [(_ & s & Hs & Hh & _ & ->)|(? & _)]; [|done] end.
  cbn in *. eauto.
Qed.

Lemma verify_leader_ok t w c u c' :
  verify_and_extend_leader_fence t w c = (Ok u, c') ->
  exists s, seats (c_db c) !! tk_run_id t = Some s /\ holds_seat t s = true /\
    let now := database_clock (c_tick c) in
    c_db c' = set_seats (c_db c)
      (<[tk_run_id t := mkSeat (leader_worker_id s) (leader_epoch s) (Some (now + w)) now]> (seats (c_db c))).
Proof.
  unfold verify_and_extend_leader_fence. intros Hr. inv_txn. bool_facts. subst.
  match goal with Hs : update_seat _ _ _ _ = _ |- _ => apply update_seat_ok in Hs as [(_ & s & Hs & Hh & _ & ->)|(? & _)]; [|done] end.
  apply renew_ok in Hr as (s' & Hs' & Hh' & E). cbn in *. rewrite lookup_insert_eq in Hs'. simplify_eq.
  exists s'. split_and!; [done..|]. rewrite E. unfold set_seats. cbn. by rewrite insert_insert_eq.
Qed.

(** A fenced transaction that committed ran its body behind the fence. *)
Lemma fenced_leader_ok {A} t w name (body : txn A) en a en' :
  fenced_leader_transaction t w name body en = (Ok a, en') ->
  exists c1 c2 c3 issued u, verify_and_extend_leader_fence t w (mkConn (e_db en) [] (e_tick en)) = (Ok tt, c1) /\
    body c1 = (Ok a, c2) /\
    (if issued : bool then renew_leader_deadline_on t w else mret tt) c2 = (Ok u, c3) /\ e_db en' = c_db c3.
Proof.
  unfold fenced_leader_transaction. destruct (begin_write _ en) as [[x|e] en1] eqn:E; [|by destruct e].
  intros [= -> ->]. apply begin_write_ok in E as (c & c' & Hm & _ & -> & _). inv_txn.
  repeat match goal with u : () |- _ => destruct u end. do 5 eexists. split_and!; [eassumption..|reflexivity].
Qed.

Lemma release_ok t en en' :
  release_seat t en = (Ok RELEASED, en') ->
  exists s, seats (e_db en') !! tk_run_id t = Some s /\ leader_worker_id s = None /\ leader_epoch s = tk_leader_epoch t.
Proof.
  unfold release_seat. destruct (fenced_leader_transaction _ _ _ _ en) as [[x|e] en1] eqn:E; [|by destruct e].
  intros [= ->]. apply fenced_leader_ok in E as (c1 & c2 & c3 & issued & u & Hv & Hb & Hr & ->).
  apply verify_leader_ok in Hv as (s & Hs & Hh & Hc1). inv_txn. bool_facts. subst.
  match goal with Hx : update_seat _ _ _ _ = _ |- _ => apply update_seat_ok in Hx as [(_ & s1 & Hs1 & Hh1 & _ & ->)|(? & _)]; [|done] end.
  match goal with Hx : update_worker _ _ _ _ = _ |- _ => apply update_worker_ok in Hx as [(_ & w1 & Hw1 & Ha1 & _ & ->)|(? & _)]; [|done] end.
  match goal with Hx : record_coordination_event _ _ = _ |- _ => apply event_ok in Hx as -> end. cbn in *.
  unfold holds_seat in Hh1. bool_facts.
  destruct issued.
  - apply renew_ok in Hr as (s2 & Hs2 & Hh2 & _). cbn in Hs2. rewrite lookup_insert_eq in Hs2. simplify_eq.
  - inv_txn. cbn. rewrite lookup_insert_eq. eexists. split; [done|]. cbn. split; [done|]. lia.
Qed.

Lemma insert_worker_ok r i role w e now c u c' :
  insert_worker_row r i role w e now c = (Ok u, c') ->
  workers (c_db c) !! i = None /\ is_Some (runs (c_db c) !! r) /\
  c_db c' = set_workers (c_db c) (<[i := mkWorker r role active now (now + w) None None None e]> (workers (c_db c))).
Proof.
  unfold insert_worker_row. intros Hi. inv_txn. apply issue_ok in Hi as ->. cbn in *.
  unfold is_none in *. bool_facts. destruct (workers _ !! i); [done|]. destruct (runs _ !! r); [|done]. eauto.
Qed.

(** Installing a leader: the deposed one is no longer active, the new one
    has an identity that was never used, and no other table changes. *)
Lemma install_ok r i prior epoch w now ep why c u c' :
  install_leader r i prior epoch w now ep why c = (Ok u, c') ->
  workers (c_db c) !! i = None /\ is_Some (runs (c_db c) !! r) /\
  runs (c_db c') = runs (c_db c) /\ seats (c_db c') = seats (c_db c) /\
  (forall p row, prior = Some p -> workers (c_db c) !! p = Some row ->
     exists row', workers (c_db c') !! p = Some row' /\ w_status row' <> active).
Proof.
  unfold install_leader. intros Hi. apply txn_bind_ok in Hi as (u1 & c1 & Hp & Hi). inv_txn.
  match goal with Hx : insert_worker_row _ _ _ _ _ _ _ = _ |- _ => apply insert_worker_ok in Hx as (Hn & Hr & E1) end.
  match goal with Hx : record_coordination_event (worker_register_event _ _ _ _ _ _) _ = _ |- _ => apply event_ok in Hx as -> end.
  match goal with Hx : record_coordination_event _ _ = _ |- _ => apply event_ok in Hx as -> end. cbn. rewrite E1. cbn.
  destruct prior as [p|]; [|inv_txn; naive_solver].
  destruct (decide (p = i)) as [->|Hpi].
  { rewrite bool_decide_eq_true_2 in Hp by done. cbn in Hp. inv_txn. naive_solver. }
  rewrite bool_decide_eq_false_2 in Hp by done. cbn in Hp. inv_txn.
  match goal with Hx : update_worker _ _ _ _ = _ |- _ => apply update_worker_ok in Hx as [(-> & w1 & Hw1 & Ha1 & _ & ->)|(-> & -> & Hna)] end.
  - apply event_ok in Hp as ->. cbn in *. rewrite lookup_insert_ne in Hn by done.
    split_and!; [done..|]. intros p' row [= <-] Hrow. rewrite lookup_insert_ne, lookup_insert_eq by done.
    eexists. split; [done|]. done.
  - inv_txn. split_and!; [done..|]. intros p' row [= <-] Hrow. rewrite lookup_insert_ne by done.
    exists row. split; [done|]. specialize (Hna row Hrow). cbn in Hna. by bool_facts.
Qed.

(** Everything a returned takeover tells of the database before and after. *)
Lemma acquire_on_ok r i w ep c t c' :
  acquire_run_leadership_on r i w ep c = (Ok t, c') ->
  exists s run, seats (c_db c) !! r = Some s /\ runs (c_db c) !! r = Some run /\
    run_status run ∉ IMMUTABLE_SUCCESS_RUN_STATUSES /\ workers (c_db c) !! i = None /\
    (leader_worker_id s = None \/
     exists e, leader_heartbeat_expires_at s = Some e /\ e < database_clock (c_tick c)) /\
    t = mkCoordinationToken r i (leader_epoch s + 1) /\
    runs (c_db c') !! r = Some (mkRun RUNNING None None (run_config_hash run)) /\
    (forall p row, leader_worker_id s = Some p -> workers (c_db c) !! p = Some row ->
       exists row', workers (c_db c') !! p = Some row' /\ w_status row' <> active).
Proof.
  unfold acquire_run_leadership_on, run_status_of. intros Ha. inv_txn. destruct (seats _ !! r) as [s|] eqn:Es; [|done].
  inv_txn. bool_facts. subst.
  match goal with Hx : cas_seat _ _ _ _ _ = _ |- _ => apply update_seat_ok in Hx as [(_ & s1 & Hs1 & Hc1 & _ & ->)|(? & _)]; [|done] end.
  match goal with Hx : record_issued_deadline _ _ _ _ = _ |- _ => apply issue_ok in Hx as -> end.
  match goal with Hx : install_leader _ _ _ _ _ _ _ _ _ = _ |- _ => apply install_ok in Hx as (Hn & [x Hr] & Er & _ & Hp) end.
  cbn in *. rewrite lookup_alter_eq, fmap_Some in Hr. destruct Hr as (run & Hrun & ->).
  rewrite Hrun in *. cbn in *. bool_facts. assert (s1 = s) as -> by congruence.
  exists s, run. split_and!; try done.
  - apply orb_true_iff in Hc1 as [Hv|He].
    + left. by destruct (leader_worker_id s).
    + right. unfold sql_lt in He. case_match; [|done]. eexists. split; [done|]. by apply Z.ltb_lt.
  - rewrite Er, lookup_alter_eq, Hrun. cbn. f_equal. rewrite bool_decide_eq_true_2; [done|].
    unfold IMMUTABLE_SUCCESS_RUN_STATUSES, TAKEOVER_FLIPPABLE_RUN_STATUSES in *.
    destruct (run_status run); set_solver.
Qed.

Lemma acquire_terminal_on_vacant r i w p st c t c' s :
  acquire_terminal_leadership_on r i w p st c = (Ok t, c') -> seats (c_db c) !! r = Some s ->
  is_none (leader_worker_id s) || sql_lt (leader_heartbeat_expires_at s) (database_clock (c_tick c)) = true.
Proof.
  unfold acquire_terminal_leadership_on, run_status_of. intros Ha Hs. inv_txn. rewrite Hs in Ha. inv_txn. bool_facts. subst.
  match goal with Hx : cas_seat _ _ _ _ _ = _ |- _ => apply update_seat_ok in Hx as [(_ & s1 & Hs1 & Hc1 & _)|(? & _)]; [|done] end.
  cbn in *. by simplify_eq.
Qed.
End returned.

(** ** Histories *)
Section histories.
Context `{Env}.

(** The verbs that mint a leader token. *)
Inductive mints : engine -> CoordinationToken -> engine -> Prop :=
  | mint_begin en r i h g t en' : begin_run r i h g en = (Ok t, en') -> mints en t en'
  | mint_takeover en r i w ep t en' : acquire_run_leadership r i w ep en = (Ok t, en') -> mints en t en'
  | mint_export en r i w t en' : acquire_export_leadership r i w en = (Ok t, en') -> mints en t en'
  | mint_reconcile en r i w st t en' : acquire_reconciliation_leadership r i w st en = (Ok t, en') -> mints en t en'.

(** One committed or refused call of any worker: a repository verb, or any
    fenced transaction whose body moves the coordination tables forward
    (such as the scheduler's verbs, which do not write them at all). *)
Inductive step : engine -> engine -> Prop :=
  | step_begin en r i h g : step en (begin_run r i h g en).2
  | step_takeover en r i w ep : step en (acquire_run_leadership r i w ep en).2
  | step_export en r i w : step en (acquire_export_leadership r i w en).2
  | step_reconcile en r i w st : step en (acquire_reconciliation_leadership r i w st en).2
  | step_release en t : step en (release_seat t en).2
  | step_evict en t target g w : step en (evict_worker t target g w en).2
  | step_heartbeat en m w : step en (worker_heartbeat m w en).2
  | step_admit en r i h w : step en (admit_follower r i h w en).2
  | step_depart en m : step en (depart_worker m en).2
  | step_leader {A} en t w name (body : txn A) :
      Evolves body -> step en (fenced_leader_transaction t w name body en).2
  | step_member {A} en m name (body : txn A) :
      Evolves body -> step en (fenced_member_transaction m name body en).2.

Lemma step_evolves en en' : step en en' -> evolves (e_db en) (e_db en').
Proof.
  destruct 1; [apply begin_run_evolves|apply acquire_run_leadership_evolves|apply acquire_export_leadership_evolves
    |apply acquire_reconciliation_leadership_evolves|apply release_seat_evolves|apply evict_worker_evolves
    |apply worker_heartbeat_evolves|apply admit_follower_evolves|apply depart_worker_evolves
    |by apply fenced_leader_evolves|by apply fenced_member_evolves].
Qed.

Lemma history_evolves en en' : rtc step en en' -> evolves (e_db en) (e_db en').
Proof. induction 1; [reflexivity|]. etrans; [by apply step_evolves|done]. Qed.

Lemma mints_seated en t en' :
  mints en t en' -> exists s, seats (e_db en') !! tk_run_id t = Some s /\ holds_seat t s = true.
Proof.
  destruct 1 as [????????%begin_run_ok|????????%acquire_ok|???????Ha|????????Ha].
  - naive_solver.
  - naive_solver.
  - apply acquire_terminal_ok in Ha. naive_solver.
  - unfold acquire_reconciliation_leadership in Ha. case_bool_decide; [done|].
    apply acquire_terminal_ok in Ha. naive_solver.
Qed.

(** The seat moved past a token. *)
Definition outdated (t : CoordinationToken) (d : landscape) : Prop :=
  exists s, seats d !! tk_run_id t = Some s /\ tk_leader_epoch t <= leader_epoch s /\ holds_seat t s = false.

Lemma outdated_evolves t d d' : evolves d d' -> outdated t d -> outdated t d'.
Proof.
  intros He (s & Hs & Hle & Hh). destruct (ev_seats _ _ He _ _ Hs) as (s' & Hs' & Hls). exists s'.
  split_and!; [done|destruct Hls as [|[]]; lia|]. unfold holds_seat in *.
  destruct Hls as [Hlt|[Heq [->| ->]]].
  - apply andb_false_intro2, Z.eqb_neq. lia.
  - by rewrite <- Heq.
  - done.
Qed.

Lemma outdated_refused {A} t w name (body : txn A) en :
  outdated t (e_db en) ->
  exists en', fenced_leader_transaction t w name body en = (Err RunLeadershipLostError, en') /\
    refusal_only (tk_worker_id t) (e_db en) (e_db en').
Proof. intros (s & Hs & _ & Hh). apply fence_refuses. intros s' Hs'. by simplify_eq. Qed.

Lemma mints_fresh en t en' s :
  mints en t en' -> seats (e_db en) !! tk_run_id t = Some s -> leader_epoch s < tk_leader_epoch t.
Proof.
  destruct 1 as [????????%begin_run_ok|????????%acquire_ok|???????Ha|????????Ha].
  - naive_solver.
  - intros Hs. destruct_and?; subst. destruct H0 as (s0 & ? & -> & _). cbn in *. simplify_eq. lia.
  - apply acquire_terminal_ok in Ha as (s0 & ? & -> & _). cbn. intros. simplify_eq. lia.
  - unfold acquire_reconciliation_leadership in Ha. case_bool_decide; [done|].
    apply acquire_terminal_ok in Ha as (s0 & ? & -> & _). cbn. intros. simplify_eq. lia.
Qed.

Lemma later_mint_epoch en1 t1 en2 en3 t2 en4 :
  mints en1 t1 en2 -> rtc step en2 en3 -> mints en3 t2 en4 -> tk_run_id t1 = tk_run_id t2 ->
  tk_leader_epoch t1 < tk_leader_epoch t2.
Proof.
  intros (s & Hs & Hh)%mints_seated Hst Hm Hr.
  destruct (ev_seats _ _ (history_evolves _ _ Hst) _ _ Hs) as (s' & Hs' & Hle). rewrite Hr in Hs'.
  pose proof (mints_fresh _ _ _ _ Hm Hs'). unfold holds_seat in Hh. bool_facts.
  destruct Hle as [|[]]; lia.
Qed.

Lemma mint_outdates en1 t1 en2 en3 t2 en4 :
  mints en1 t1 en2 -> rtc step en2 en3 -> mints en3 t2 en4 -> tk_run_id t1 = tk_run_id t2 ->
  outdated t1 (e_db en4).
Proof.
  intros H1 Hst H2 Hr. pose proof (later_mint_epoch _ _ _ _ _ _ H1 Hst H2 Hr).
  destruct (mints_seated _ _ _ H2) as (s & Hs & Hh). rewrite <- Hr in Hs. exists s.
  unfold holds_seat in *. bool_facts. split_and!; [done|lia|]. apply andb_false_intro2, Z.eqb_neq. lia.
Qed.
End histories.

(** ** Membership *)
Section membership.
Context `{Env}.

Lemma worker_history en en' i row :
  rtc step en en' -> workers (e_db en) !! i = Some row ->
  exists row', workers (e_db en') !! i = Some row' /\ worker_le row row'.
Proof. intros Hst%history_evolves Hw. by apply (ev_workers _ _ Hst). Qed.

(** Registering a known identity fails. *)
Lemma admit_inserts r i h w en t en' :
  admit_follower r i h w en = (Ok t, en') -> workers (e_db en) !! i = None.
Proof.
  intros (c & c' & Hm & _)%begin_write_ok. inv_txn. destruct (runs _ !! r); [|done]. inv_txn.
  match goal with Hx : insert_worker_row _ _ _ _ _ _ _ = _ |- _ => apply insert_worker_ok in Hx as (Hn & _) end. done.
Qed.

Lemma acquire_inserts r i w ep en t en' :
  acquire_run_leadership r i w ep en = (Ok t, en') -> workers (e_db en) !! i = None.
Proof.
  intros (c & c' & Hm & _)%begin_write_ok. inv_txn.
  match goal with Ha : acquire_run_leadership_on _ _ _ _ _ = _ |- _ => apply acquire_on_ok in Ha as (? & ? & ? & ? & ? & ? & _) end. done.
Qed.

Lemma begin_run_inserts r i h g en t en' :
  begin_run r i h g en = (Ok t, en') -> workers (e_db en) !! i = None.
Proof.
  intros (c & c' & Hm & _)%begin_write_ok. inv_txn.
  match goal with Ha : register_run_leader_on _ _ _ _ _ = _ |- _ => unfold register_run_leader_on in Ha end. inv_txn.
  repeat match goal with Hx : record_issued_deadline _ _ _ _ = _ |- _ => apply issue_ok in Hx as -> end.
  match goal with Hx : insert_worker_row _ _ _ _ _ _ _ = _ |- _ => apply insert_worker_ok in Hx as (Hn & _) end. done.
Qed.

(** The unexpired leases of a worker in a run. *)
Definition live_lease (d : landscape) (run worker : string) (now : Z) : Prop :=
  exists id it, items d !! id = Some it /\ k_run_id (wi_key it) = run /\ wi_status it = LEASED /\
    wi_lease_owner it = Some worker /\ exists e, wi_lease_expires_at it = Some e /\ now <= e.

Lemma live_lease_query d run worker now :
  existsb (fun i : string * work_item => (k_run_id (wi_key i.2) == run) && (wi_status i.2 == LEASED)
    && (wi_lease_owner i.2 == Some worker) && sql_ge (wi_lease_expires_at i.2) now) (map_to_list (items d)) = false ->
  ~ live_lease d run worker now.
Proof.
  intros Hx (id & it & Hit & Hr & Hst & Ho & e & He & Hle). apply not_true_iff_false in Hx. apply Hx.
  apply existsb_exists. exists (id, it). split; [by apply list_elem_of_In, elem_of_map_to_list|]. cbn.
  rewrite He. cbn. rewrite Hr, Hst, Ho, !bool_decide_eq_true_2 by done. cbn. lia.
Qed.
End membership.

(** ** Forward execution *)
Section forward.
Context `{Env} `{!Inj (=) (=) event_digest}.

Definition window_ok (w : Z) : Prop := 0 < w /\ clock_resolution <= deadline_reserve w.

Lemma issue_run k e w c :
  window_ok w -> deadline_key_ok k = true ->
  record_issued_deadline k e w c
    = (Ok tt, mkConn (c_db c) (dict_set (c_issued c) k (mkDeadline e (deadline_reserve w))) (c_tick c)).
Proof.
  intros [Hw Hr] Hk. unfold record_issued_deadline. rewrite Hk. cbn.
  rewrite (proj2 (Z.leb_gt w 0)) by lia. by rewrite (proj2 (Z.ltb_ge _ _)) by lia.
Qed.

Lemma event_run e c :
  e ∉ events (c_db c) -> is_Some (runs (c_db c) !! ev_run_id e) ->
  record_coordination_event e c
    = (Ok tt, mkConn (set_events (c_db c) (events (c_db c) ++ [e])) (c_issued c) (c_tick c)).
Proof.
  intros He [x Hx]. unfold record_coordination_event.
  destruct (existsb _ _) eqn:Ex.
  - apply existsb_exists in Ex as (e' & Hin & Hd). bool_facts. apply (inj event_digest) in Hd as ->.
    by apply list_elem_of_In in Hin.
  - by rewrite Hx.
Qed.

Lemma insert_worker_run r i role w ep now c :
  window_ok w -> r <> "" -> i <> "" -> workers (c_db c) !! i = None -> is_Some (runs (c_db c) !! r) ->
  insert_worker_row r i role w ep now c
    = (Ok tt, mkConn (set_workers (c_db c)
                (<[i := mkWorker r role active now (now + w) None None None ep]> (workers (c_db c))))
         (dict_set (c_issued c) (WORKER_KEY r i) (mkDeadline (now + w) (deadline_reserve w))) (c_tick c)).
Proof.
  intros Hw Hr Hi Hn [x Hx]. unfold insert_worker_row, query, exec. unfold mbind, txn_bind. cbn.
  rewrite Hn, Hx. cbn. rewrite issue_run; [done|done|]. cbn. by rewrite !bool_decide_eq_false_2.
Qed.

(** The eviction of the deposed leader always runs through. *)
Lemma depose_run r i prior epoch now why c :
  is_Some (runs (c_db c) !! r) -> workers (c_db c) !! i = None ->
  (forall e, e ∈ events (c_db c) -> ev_recorded_at e <> now) ->
  exists c', (match prior with
      | Some p =>
          if negb (p == i) then
            gone ← update_worker p (fun w => w_status w == active) (set_evicted now i);
            if gone : bool then
              record_coordination_event (mkEvent r "worker_evict" p (Some epoch) now
                [("evicted_by_worker_id", CtxStr i); ("reason", CtxStr why)])
            else mret tt
          else mret tt
      | None => mret tt
      end) c = (Ok tt, c') /\
    c_issued c' = c_issued c /\ c_tick c' = c_tick c /\ runs (c_db c') = runs (c_db c) /\
    seats (c_db c') = seats (c_db c) /\ workers (c_db c') !! i = None /\
    (forall e, e ∈ events (c_db c') -> ev_recorded_at e <> now \/ ev_type e = "worker_evict").
Proof.
  intros Hr Hi Hev. destruct prior as [p|]; [|eexists; split; [done|]; split_and!; eauto].
  destruct (decide (p = i)) as [->|Hp].
  { rewrite bool_decide_eq_true_2 by done. eexists. split; [done|]; split_and!; eauto. }
  rewrite bool_decide_eq_false_2 by done. cbn [negb]. unfold mbind, txn_bind, update_worker.
  destruct (workers (c_db c) !! p) as [row|] eqn:Ep; [|eexists; split; [done|]; split_and!; eauto].
  destruct (decide (w_status row = active)) as [Ha|Ha];
    [|rewrite bool_decide_eq_false_2 by done; eexists; split; [done|]; split_and!; eauto].
  rewrite bool_decide_eq_true_2 by done. change (worker_row_ok (set_evicted now i row)) with true. cbv iota beta.
  rewrite event_run; [|intros He; by apply Hev in He|done].
  eexists. split; [done|]. cbn. rewrite lookup_insert_ne by done. split_and!; try done.
  intros e [He|He%list_elem_of_singleton]%elem_of_app; [auto|]. subst. by right.
Qed.

Lemma install_run r i prior epoch w now ep why c :
  window_ok w -> r <> "" -> i <> "" ->
  is_Some (runs (c_db c) !! r) -> workers (c_db c) !! i = None ->
  (forall e, e ∈ events (c_db c) -> ev_recorded_at e <> now) ->
  exists c', install_leader r i prior epoch w now ep why c = (Ok tt, c') /\
    c_issued c' = dict_set (c_issued c) (WORKER_KEY r i) (mkDeadline (now + w) (deadline_reserve w)) /\
    c_tick c' = c_tick c /\ seats (c_db c') = seats (c_db c) /\
    workers (c_db c') !! i = Some (mkWorker r leader active now (now + w) None None None ep).
Proof.
  intros Hw Hr Hi Hrun Hn Hev. unfold install_leader.
  destruct (depose_run r i prior epoch now why c Hrun Hn Hev) as (c1 & E1 & I1 & T1 & R1 & S1 & N1 & V1).
  rewrite (txn_bind_eq _ _ _ _ _ E1). rewrite <- R1 in Hrun.
  rewrite (txn_bind_eq _ _ _ _ _ (insert_worker_run r i leader w ep now c1 Hw Hr Hi N1 Hrun)).
  match goal with |- context [(record_coordination_event ?e ≫= _) ?c2] =>
    rewrite (txn_bind_eq _ _ _ _ _ (event_run e c2 ltac:(cbn; intros He; apply V1 in He as [He|He]; done) Hrun)) end.
  rewrite event_run; [|cbn; intros [He|He%list_elem_of_singleton]%elem_of_app; [apply V1 in He as [He|He]; done|done]|done].
  eexists. split; [done|]. cbn. rewrite lookup_insert_eq, I1, S1, T1. done.
Qed.

Lemma finalize_run t w c s row :
  window_ok w -> tk_run_id t <> "" -> tk_worker_id t <> "" ->
  seats (c_db c) !! tk_run_id t = Some s -> holds_seat t s = true ->
  workers (c_db c) !! tk_worker_id t = Some row -> active_member (tk_run_id t) row = true -> w_role row = leader ->
  w_evicted_at row = None ->
  exists c', finalize_leader_registration_on t w c = (Ok tt, c') /\ c_tick c' = S (c_tick c) /\
    let d := mkDeadline (database_clock (c_tick c) + w) (deadline_reserve w) in
    c_issued c' = dict_set (dict_set (c_issued c) (leader_deadline_key t) d)
                    (WORKER_KEY (tk_run_id t) (tk_worker_id t)) d.
Proof.
  intros Hw Hr Hi Hs Hh Hrow Ha Hl He. unfold finalize_leader_registration_on.
  rewrite (txn_bind_eq _ _ _ (database_clock (c_tick c)) (mkConn (c_db c) (c_issued c) (S (c_tick c)))) by done.
  pose proof Hh as Hh'. unfold holds_seat in Hh'. bool_facts.
  erewrite (txn_bind_eq (update_seat _ _ _)); cycle 1.
  { unfold update_seat. cbn. rewrite Hs, Hh. unfold seat_row_ok. cbn.
    rename select (leader_worker_id s = _) into El. by rewrite El. }
  cbn [negb]. erewrite (txn_bind_eq (update_worker _ _ _)); cycle 1.
  { unfold update_worker. cbn. rewrite Hrow, Ha, Hl. cbn. unfold worker_row_ok. cbn.
    unfold active_member in Ha. bool_facts. rename select (w_status row = _) into Es. by rewrite Es, He. }
  cbn [negb]. rewrite (txn_bind_eq _ _ _ _ _ (issue_run (leader_deadline_key t) _ w _ Hw
    ltac:(cbn; by rewrite !bool_decide_eq_false_2))).
  rewrite issue_run; [|done|cbn; by rewrite !bool_decide_eq_false_2]. by eexists.
Qed.

Lemma acquire_on_run r i w ep c s run :
  window_ok w -> r <> "" -> i <> "" ->
  seats (c_db c) !! r = Some s -> runs (c_db c) !! r = Some run ->
  run_status run ∉ IMMUTABLE_SUCCESS_RUN_STATUSES -> workers (c_db c) !! i = None -> c_issued c = [] ->
  let now := database_clock (c_tick c) in
  (leader_worker_id s = None \/ exists e0, leader_heartbeat_expires_at s = Some e0 /\ e0 < now) ->
  (forall e, e ∈ events (c_db c) -> ev_recorded_at e <> now) ->
  let t := mkCoordinationToken r i (leader_epoch s + 1) in
  exists c1, acquire_run_leadership_on r i w ep c = (Ok t, c1) /\ c_tick c1 = S (c_tick c) /\
    seats (c_db c1) !! r = Some (mkSeat (Some i) (leader_epoch s + 1) (Some (now + w)) now) /\
    workers (c_db c1) !! i = Some (mkWorker r leader active now (now + w) None None None ep) /\
    exists d d', c_issued c1 = [(leader_deadline_key t, d); (WORKER_KEY r i, d')].
Proof.
  intros Hw Hr Hi Hs Hrun Him Hn Hc now Hv Hev t.
  unfold acquire_run_leadership_on. rewrite (txn_bind_eq _ _ _ (Some s) c) by (unfold query; cbn; by rewrite Hs).
  cbv beta iota. rewrite (txn_bind_eq _ _ _ now (mkConn (c_db c) (c_issued c) (S (c_tick c)))) by done.
  erewrite txn_bind_eq by (unfold run_status_of, query; cbn; by rewrite Hrun). cbn [fmap option_fmap option_map status_in].
  rewrite bool_decide_eq_false_2 by done.
  erewrite (txn_bind_eq (cas_seat _ _ _ _)); cycle 1.
  { unfold cas_seat, update_seat. cbn. rewrite Hs.
    assert (is_none (leader_worker_id s) || sql_lt (leader_heartbeat_expires_at s) now = true) as ->; [|done].
    destruct Hv as [->|(e0 & -> & ?)]; [done|]. apply orb_true_iff. right. cbn. lia. }
  cbn [negb]. cbv zeta. erewrite txn_bind_eq; [|apply issue_run; [done|cbn; by rewrite !bool_decide_eq_false_2]].
  erewrite (txn_bind_eq (exec _)) by reflexivity.
  match goal with |- context [(install_leader ?r ?i ?p ?e ?w ?n ?ep ?why ≫= _) ?c] =>
    destruct (install_run r i p e w n ep why c) as (c1 & E & I & T & S' & W') end;
    [done|done|done|cbn; rewrite lookup_alter_eq, Hrun; by eexists|done|done|].
  rewrite (txn_bind_eq _ _ _ _ _ E). eexists. split; [reflexivity|]. rewrite T, S', I, W'. cbn.
  rewrite lookup_insert_eq. split_and!; try done. rewrite Hc. cbn.
  rewrite bool_decide_eq_false_2 by done. eauto.
Qed.

(** A commit whose every deadline still has its reserve succeeds. *)
Lemma commit_run c :
  Forall (fun e => d_reserve e.2 < d_expires_at e.2 - database_clock (c_tick c)) (c_issued c) ->
  exists c', check_deadlines_before_commit c = (Ok tt, c') /\ c_db c' = c_db c.
Proof.
  intros Hf. unfold check_deadlines_before_commit. destruct (c_issued c) as [|e l] eqn:E; [eauto|].
  destruct (existsb _ _) eqn:Ex; [|eauto]. exfalso. apply existsb_exists in Ex as (x & Hin & Hx). rewrite Forall_forall in Hf. apply list_elem_of_In, Hf in Hin. lia.
Qed.
End forward.

(** ** Properties *)

(** Fencing epochs are never reused: whatever happens in between, with
    any number of workers and of refused calls, a leader token minted later
    for the same run carries a strictly higher epoch, so no two tokens of a run
    are ever equal and only the last one can match the seat. *)
Theorem minted_epochs_increase `{Env} en1 t1 en2 en3 t2 en4 :
  mints en1 t1 en2 -> rtc step en2 en3 -> mints en3 t2 en4 -> tk_run_id t1 = tk_run_id t2 ->
  tk_leader_epoch t1 < tk_leader_epoch t2 /\
  exists s, seats (e_db en4) !! tk_run_id t2 = Some s /\ holds_seat t2 s = true /\ holds_seat t1 s = false.
Proof.
  intros H1 Hst H2 Hr. pose proof (later_mint_epoch _ _ _ _ _ _ H1 Hst H2 Hr) as Hlt. split; [done|].
  destruct (mints_seated _ _ _ H2) as (s & Hs & Hh). exists s. split_and!; [done..|].
  unfold holds_seat in *. bool_facts. apply andb_false_intro2, Z.eqb_neq. lia.
Qed.

(** C4. A deposed leader is fenced for ever: once another leader took the
    seat of its run, every leader-fenced transaction under the old token, with
    any body and after any further history, raises [RunLeadershipLostError]
    without running the body, and leaves the database as it was except for at
    most one [fence_refusal] event. *)
Theorem deposed_leader_is_fenced `{Env} {A} en1 t1 en2 en3 t2 en4 en5 w name (body : txn A) :
  mints en1 t1 en2 -> rtc step en2 en3 -> mints en3 t2 en4 -> tk_run_id t1 = tk_run_id t2 -> rtc step en4 en5 ->
  exists en6, fenced_leader_transaction t1 w name body en5 = (Err RunLeadershipLostError, en6) /\
    refusal_only (tk_worker_id t1) (e_db en5) (e_db en6).
Proof.
  intros H1 Hst H2 Hr Hst'. apply outdated_refused. eapply outdated_evolves; [by apply history_evolves|].
  by eapply mint_outdates.
Qed.

(** A released seat stays released: after [release_seat] succeeded, and
    whatever happens later, releasing again with the same token answers
    [FENCE_REFUSED] and every leader-fenced transaction under it is refused;
    neither changes any table but the event log. *)
Theorem release_is_final `{Env} {A} t en en1 en2 w name (body : txn A) :
  release_seat t en = (Ok RELEASED, en1) -> rtc step en1 en2 ->
  (exists en3, release_seat t en2 = (Ok FENCE_REFUSED, en3) /\ refusal_only (tk_worker_id t) (e_db en2) (e_db en3)) /\
  (exists en3, fenced_leader_transaction t w name body en2 = (Err RunLeadershipLostError, en3) /\
     refusal_only (tk_worker_id t) (e_db en2) (e_db en3)).
Proof.
  intros (s & Hs & Hl & He)%release_ok Hst.
  assert (outdated t (e_db en2)) as Ho.
  { eapply outdated_evolves; [by apply history_evolves|]. exists s. split_and!; [done|lia|].
    unfold holds_seat. by rewrite Hl. }
  split; [|by apply outdated_refused]. unfold release_seat.
  match goal with |- context [fenced_leader_transaction t ?w ?n ?b en2] =>
    destruct (outdated_refused t w n b en2 Ho) as (en3 & -> & Hd) end. eauto.
Qed.

(** The seat only changes hands from the dead: when a takeover returns,
    the seat was vacant or its clock had run out at the sampled instant, the
    run was not a finished success, the new identity was never registered, the
    epoch grew by one, the deposed leader's membership is no longer active, the
    run is RUNNING again, and the new seat still had its whole commit reserve
    left at the last clock sample of the transaction. *)
Theorem takeover_only_from_the_dead `{Env} r i w ep en t en' :
  acquire_run_leadership r i w ep en = (Ok t, en') ->
  exists s run s' e k,
    seats (e_db en) !! r = Some s /\ runs (e_db en) !! r = Some run /\
    run_status run ∉ IMMUTABLE_SUCCESS_RUN_STATUSES /\ workers (e_db en) !! i = None /\
    (leader_worker_id s = None \/
     exists e0, leader_heartbeat_expires_at s = Some e0 /\ e0 < database_clock (e_tick en)) /\
    t = mkCoordinationToken r i (leader_epoch s + 1) /\
    runs (e_db en') !! r = Some (mkRun RUNNING None None (run_config_hash run)) /\
    (forall p row, leader_worker_id s = Some p -> workers (e_db en) !! p = Some row ->
       exists row', workers (e_db en') !! p = Some row' /\ w_status row' <> active) /\
    seats (e_db en') !! r = Some s' /\ holds_seat t s' = true /\
    leader_heartbeat_expires_at s' = Some e /\ e_tick en' = S k /\ deadline_reserve w < e - database_clock k.
Proof.
  intros (c & c' & Hm & Hc & -> & ->)%begin_write_ok. inv_txn.
  match goal with Ha : acquire_run_leadership_on _ _ _ _ _ = _ |- _ =>
    apply acquire_on_ok in Ha as (s & run & Hs & Hr & Hi & Hn & Hv & -> & Hr' & Hp) end.
  match goal with Hf : finalize_leader_registration_on _ _ _ = _ |- _ =>
    apply finalize_ok in Hf as (s1 & row1 & Hs1 & Hh1 & Hw1 & _ & Ed & Ei) end. cbn in *.
  destruct (commit_live _ _ _ _ Hc Ei) as [Hlive Ht].
  eexists s, run, _, _, _. rewrite Ed. cbn. rewrite lookup_insert_eq. split_and!; try done.
  intros p row Hl Hw. destruct (Hp p row Hl Hw) as (row' & Hw' & Hna).
  rewrite lookup_insert_ne by congruence. eauto.
Qed.

(** No verb displaces a live leader: while the seat is held and its clock
    has not run out, a takeover, an export takeover and a reconciliation
    takeover are all refused and change nothing. *)
Theorem live_leader_keeps_seat `{Env} en r s p e i w ep st :
  seats (e_db en) !! r = Some s -> leader_worker_id s = Some p ->
  leader_heartbeat_expires_at s = Some e -> database_clock (e_tick en) <= e ->
  (exists x en', acquire_run_leadership r i w ep en = (Err x, en') /\ e_db en' = e_db en) /\
  (exists x en', acquire_export_leadership r i w en = (Err x, en') /\ e_db en' = e_db en) /\
  (exists x en', acquire_reconciliation_leadership r i w st en = (Err x, en') /\ e_db en' = e_db en).
Proof.
  intros Hs Hl He Hlive.
  assert (forall p st, exists x en', begin_write (t ← acquire_terminal_leadership_on r i w p st;
            _ ← finalize_leader_registration_on t w; mret t) en = (Err x, en') /\ e_db en' = e_db en) as Hterm.
  { intros pu st'. destruct (begin_write _ en) as [[t|x] en'] eqn:E; [|eauto using begin_write_err].
    exfalso. apply begin_write_ok in E as (c & c' & Hm & _). inv_txn.
    match goal with Ha : acquire_terminal_leadership_on _ _ _ _ _ _ = _ |- _ =>
      apply (acquire_terminal_on_vacant _ _ _ _ _ _ _ _ _ Ha) in Hs end.
    rewrite Hl, He in Hs. cbn in Hs. apply Z.ltb_lt in Hs. lia. }
  split_and!; [|apply Hterm|].
  - destruct (acquire_run_leadership r i w ep en) as [[t|x] en'] eqn:E; [|eauto using begin_write_err].
    exfalso. apply begin_write_ok in E as (c & c' & Hm & _). inv_txn.
    match goal with Ha : acquire_run_leadership_on _ _ _ _ _ = _ |- _ =>
      apply acquire_on_ok in Ha as (s0 & run & Hs0 & _ & _ & _ & Hv & _) end. cbn in *.
    destruct Hv as [|(e0 & He0 & ?)]; simplify_eq; lia.
  - unfold acquire_reconciliation_leadership. case_bool_decide; [eauto|apply Hterm].
Qed.

(** Worker identities are single use: once a worker has departed or was
    evicted, then after any further history its membership token is refused by
    every member-fenced transaction, which changes nothing but the event log,
    and no verb registers that identity again. *)
Theorem left_worker_never_returns `{Env} {A} en i row en' name (body : txn A) r h g w ep :
  workers (e_db en) !! i = Some row -> w_status row <> active -> rtc step en en' ->
  (exists en'', fenced_member_transaction (mkMembershipToken (w_run_id row) i) name body en'
      = (Err RunMembershipLostError, en'') /\ refusal_only i (e_db en') (e_db en'')) /\
  is_ok (begin_run r i h g en').1 = false /\ is_ok (acquire_run_leadership r i w ep en').1 = false /\
  is_ok (admit_follower r i h w en').1 = false.
Proof.
  intros Hw Ha Hst. destruct (worker_history _ _ _ _ Hst Hw) as (row' & Hw' & Hr & _ & _ & Hf). split.
  - rewrite <- Hr. apply membership_refuses; [done|]. by rewrite Hf.
  - split_and!; apply not_true_iff_false; intros (t & Ht)%is_ok_true;
      match type of Ht with (?v en').1 = _ => destruct (v en') as [o en''] eqn:E; cbn in Ht; subst end.
    + apply begin_run_inserts in E. congruence.
    + apply acquire_inserts in E. congruence.
    + apply admit_inserts in E. congruence.
Qed.

(** Eviction is safe: when [evict_worker] reports an eviction, the target
    was an active follower of the leader's own run, other than the leader, its
    heartbeat had been expired for longer than the grace period at the sampled
    instant and it held no unexpired lease then; that row, and no other worker,
    changed. *)
Theorem evicts_only_the_dead `{Env} t target g w en en' :
  evict_worker t target g w en = (Ok true, en') ->
  exists row now, workers (e_db en) !! target = Some row /\ w_run_id row = tk_run_id t /\ w_role row = follower /\
    w_status row = active /\ target <> tk_worker_id t /\ w_heartbeat_expires_at row < now - g /\
    ~ live_lease (e_db en) (tk_run_id t) target now /\ now = database_clock (S (e_tick en)) /\
    workers (e_db en') = <[target := set_evicted now (tk_worker_id t) row]> (workers (e_db en)).
Proof.
  intros (c1 & c2 & c3 & issued & u & Hv & Hb & Hr & ->)%fenced_leader_ok.
  assert (c_tick c1 = S (e_tick en)) as Et1.
  { unfold verify_and_extend_leader_fence, renew_leader_deadline_on in Hv. inv_txn. apply issue_ok in Hv as ->.
    repeat match goal with Hx : update_seat _ _ _ _ = _ |- _ => apply update_seat_ok in Hx as [(_ & ? & _ & _ & _ & ->)|(_ & -> & _)] end; done. }
  assert (workers (c_db c3) = workers (c_db c2)) as ->.
  { destruct issued; [|by inv_txn]. by apply renew_ok in Hr as (? & _ & _ & ->). }
  apply verify_leader_ok in Hv as (s & _ & _ & E1). inv_txn.
  destruct (workers _ !! target) as [row|] eqn:Erow; [|done].
  cbv beta zeta iota in Hb. destruct (negb _) eqn:Ef in Hb; [done|]. inv_txn.
  destruct (existsb _ _) eqn:El in Hb; [done|]. inv_txn.
  destruct (negb _) eqn:Eg in Hb; [done|]. apply negb_false_iff in Eg. subst. inv_txn.
  match goal with Hx : record_coordination_event _ _ = _ |- _ => apply event_ok in Hx as -> end.
  match goal with Hx : update_worker _ _ _ _ = _ |- _ => apply update_worker_ok in Hx as [(_ & w1 & Hw1 & Hp & _ & ->)|(? & _)]; [|done] end.
  cbn in *. rewrite Et1, E1 in *. cbn in *. apply live_lease_query in El. bool_facts. simplify_eq.
  exists row, (database_clock (S (e_tick en))). split_and!; try done. lia.
Qed.

(** A follower joins only a run that is RUNNING with the same
    configuration, under a leader whose seat is live both at the decision and
    after the registration; the admission writes exactly one active follower
    row and leaves seats and runs alone. *)
Theorem admitted_under_live_leader `{Env} r i h w en t en' :
  admit_follower r i h w en = (Ok t, en') ->
  exists run s e, runs (e_db en) !! r = Some run /\ run_status run = RUNNING /\ run_config_hash run = h /\
    seats (e_db en) !! r = Some s /\ is_Some (leader_worker_id s) /\ leader_heartbeat_expires_at s = Some e /\
    database_clock (e_tick en) <= e /\ database_clock (S (e_tick en)) <= e /\
    t = mkMembershipToken r i /\
    seats (e_db en') = seats (e_db en) /\ runs (e_db en') = runs (e_db en) /\
    workers (e_db en') = <[i := mkWorker r follower active (database_clock (e_tick en))
                                 (database_clock (S (e_tick en)) + w) None None None "join"]> (workers (e_db en)).
Proof.
  intros (c & c' & Hm & _ & -> & _)%begin_write_ok. inv_txn. destruct (runs _ !! r) as [run|] eqn:Er; [|done]. inv_txn.
  match goal with Hx : finalize_follower_admission_on _ _ _ _ = _ |- _ => unfold finalize_follower_admission_on in Hx end. inv_txn.
  match goal with Hx : insert_worker_row _ _ _ _ _ _ ?c = (Ok _, ?c') |- _ =>
    assert (c_tick c' = c_tick c) as Etick by (unfold insert_worker_row in Hx; inv_txn; by apply issue_ok in Hx as ->);
    apply insert_worker_ok in Hx as (Hn & _ & Ei) end.
  match goal with Hx : record_coordination_event _ _ = _ |- _ => apply event_ok in Hx as -> end.
  match goal with Hx : record_issued_deadline _ _ _ _ = _ |- _ => apply issue_ok in Hx as -> end. cbn in *.
  bool_facts. subst.
  match goal with Hx : update_worker _ _ _ _ = _ |- _ => apply update_worker_ok in Hx as [(_ & w1 & Hw1 & _ & _ & ->)|(? & _)]; [|done] end.
  cbn in *. rewrite Ei, Etick in *. cbn in *. rewrite lookup_insert_eq in Hw1. injection Hw1 as <-.
  destruct (seats _ !! r) as [s|] eqn:Es; [|done]. bool_facts.
  destruct (leader_worker_id s) eqn:El; [|done]. unfold sql_ge in *.
  destruct (leader_heartbeat_expires_at s) as [e|] eqn:Ee; [|done].
  exists run, s, e. split_and!; try done; [by apply Z.leb_le..|]. rewrite insert_insert_eq. reflexivity.
Qed.

(** C34. A dead leader's run can be taken over.  The takeover returns the token
    of the next epoch whenever its side conditions hold: the window is a legal
    one and neither identity is empty; the seat is vacant or its lease has
    expired; the run has not finished as a success (those runs are immutable);
    no worker has the new identity; no coordination event carries the instant
    of the takeover and [event_digest] is injective, so that the id of its own
    event is free; and the commit comes before the renewed lease is due. *)
Theorem takeover_succeeds `{Env} `{!Inj (=) (=) event_digest} r i w ep en s run :
  window_ok w -> r <> "" -> i <> "" ->
  seats (e_db en) !! r = Some s -> runs (e_db en) !! r = Some run ->
  run_status run ∉ IMMUTABLE_SUCCESS_RUN_STATUSES -> workers (e_db en) !! i = None ->
  (leader_worker_id s = None \/
   exists e0, leader_heartbeat_expires_at s = Some e0 /\ e0 < database_clock (e_tick en)) ->
  (forall e, e ∈ events (e_db en) -> ev_recorded_at e <> database_clock (e_tick en)) ->
  database_clock (S (S (e_tick en))) - database_clock (S (e_tick en)) < w - deadline_reserve w ->
  exists en', acquire_run_leadership r i w ep en = (Ok (mkCoordinationToken r i (leader_epoch s + 1)), en').
Proof.
  intros Hw Hr Hi Hs Hrun Him Hn Hv Hev Hclk. unfold acquire_run_leadership, begin_write.
  set (now := database_clock (e_tick en)) in *. set (t := mkCoordinationToken r i (leader_epoch s + 1)).
  set (c0 := mkConn (e_db en) [] (e_tick en)).
  destruct (acquire_on_run r i w ep c0 s run) as (c1 & E1 & T1 & S1 & W1 & d & d' & I1); [done..|].
  destruct (finalize_run t w c1 _ (mkWorker r leader active now (now + w) None None None ep) Hw Hr Hi S1)
    as (c2 & E2 & T2 & I2); [|exact W1| |done|done|].
  { unfold holds_seat. cbn. by rewrite bool_decide_eq_true_2, Z.eqb_refl. }
  { unfold active_member. cbn. by rewrite bool_decide_eq_true_2. }
  rewrite I1, T1 in I2. cbn in I2.
  rewrite bool_decide_eq_true_2 in I2 by done. cbn in I2.
  rewrite bool_decide_eq_false_2, bool_decide_eq_true_2 in I2 by done.
  destruct (commit_run c2) as (c3 & E3 & _).
  { rewrite I2, T2, T1. repeat constructor; cbn; lia. }
  erewrite txn_bind_eq; cycle 1.
  { rewrite (txn_bind_eq _ _ _ _ _ E1), (txn_bind_eq _ _ _ _ _ E2). reflexivity. }
  rewrite (txn_bind_eq _ _ _ _ _ E3). by eexists.
Qed.

(** A leader that is no longer an active member can never release its
    seat: whatever happens later, [release_seat] under its token does not
    return RELEASED (it raises [AuditIntegrityError] while the seat is held).
    [depart_worker] does not look at the role, so the membership token of a
    seated leader leads there. *)
Theorem departed_leader_cannot_release `{Env} t en w en1 en2 :
  workers (e_db en) !! tk_worker_id t = Some w -> w_status w <> active -> rtc step en en1 ->
  release_seat t en1 <> (Ok RELEASED, en2).
Proof.
  intros Hw0 Hd0 Hst Hrel. destruct (worker_history _ _ _ _ Hst Hw0) as (w' & Hw & _ & _ & _ & Hd). specialize (Hd Hd0).
  unfold release_seat in Hrel.
  destruct (fenced_leader_transaction _ _ _ _ en1) as [[x|e] en3] eqn:E; [|by destruct e].
  apply fenced_leader_ok in E as (c1 & c2 & c3 & issued & u & Hv & Hb & _).
  apply verify_leader_ok in Hv as (s & _ & _ & Hc1). inv_txn. bool_facts. subst.
  match goal with Hx : update_seat _ _ _ _ = _ |- _ => apply update_seat_ok in Hx as [(_ & s1 & _ & _ & _ & ->)|(? & _)]; [|done] end.
  match goal with Hx : update_worker _ _ _ _ = _ |- _ => apply update_worker_ok in Hx as [(_ & w1 & Hw1 & Ha1 & _ & _)|(? & _)]; [|done] end.
  cbn in *. rewrite Hc1 in Hw1. cbn in Hw1. simplify_eq. unfold active_member in Ha1. bool_facts. congruence.
Qed.

(** ** Witnesses *)
Module CoordinationExample.
Fixpoint bits (p : positive) : string :=
  match p with xH => "" | xO p => String Ascii.zero (bits p) | xI p => String Ascii.one (bits p) end.

#[export] Instance bits_inj : Inj (=) (=) bits.
Proof. intros p. induction p as [p IH|p IH|]; intros [q|q|]; cbn; try done; intros [= E]; f_equal; auto. Qed.

#[export] Instance context_value_countable : Countable context_value.
Proof.
  refine (inj_countable'
    (fun v => match v with
              | CtxNull => inl None | CtxBool b => inl (Some b)
              | CtxStr s => inr (inl s) | CtxInt n => inr (inr (inl n)) | CtxList l => inr (inr (inr l))
              end)
    (fun x => match x with
              | inl None => CtxNull | inl (Some b) => CtxBool b
              | inr (inl s) => CtxStr s | inr (inr (inl n)) => CtxInt n | inr (inr (inr l)) => CtxList l
              end) _). by intros [].
Defined.

#[export] Instance event_countable : Countable coordination_event.
Proof.
  refine (inj_countable'
    (fun e => (ev_run_id e, ev_type e, ev_worker_id e, ev_leader_epoch e, ev_recorded_at e, ev_context e))
    (fun '(r, ty, w, ep, a, cx) => mkEvent r ty w ep a cx) _). by intros [].
Defined.

(** A clock that jumps past every lease after its sixth sample. *)
Definition env : Env := {|
  database_clock n := (if (n <? 6)%nat then Z.of_nat n else 1000 + Z.of_nat n) * 1000000;
  transaction_clock n := Z.of_nat n * 1000000;
  sha256 s := s;
  clock_resolution := 1000;
  event_digest e := bits (encode e);
  write_fault _ := false;
  process_clock n := Z.of_nat n;
  generate_id n := pretty (Z.of_nat n) |}.

#[export] Instance digest_inj : Inj (=) (=) (@event_digest env).
Proof. intros e e' E%bits_inj. by apply encode_inj. Qed.

Definition W : Z := DEFAULT_RUN_LIVENESS_WINDOW.
Definition en0 : engine := mkEngine (mkLandscape ∅ ∅ ∅ [] ∅ [] ∅ (mkLineage ∅ ∅ ∅ ∅ ∅ ∅ ∅ [] ∅ ∅)) 0.
Definition tok1 := mkCoordinationToken "r" "a" 1.
Definition tok2 := mkCoordinationToken "r" "b" 2.
Definition en1 : engine := (begin_run (H := env) "r" "a" "h" None en0).2.
Definition try (en : engine) : engine := (acquire_run_leadership (H := env) "r" "x" W "resume" en).2.
Definition en3 : engine := try (try (try en1)).
Definition en4 : engine := (acquire_run_leadership (H := env) "r" "b" W "resume" en3).2.
Definition joined : engine := (admit_follower (H := env) "r" "f" "h" W en1).2.
Definition gone : engine := (evict_worker (H := env) tok1 "f" 10000000 W joined).2.
Definition left : engine := (depart_worker (H := env) (membership tok1) en1).2.

Lemma by_first {A B} (p : A * B) a : p.1 = a -> p = (a, p.2).
Proof. by destruct p; cbn; intros ->. Qed.

Lemma mint1 : mints (H := env) en0 tok1 en1.
Proof. unfold en1. eapply mint_begin, by_first. vm_compute. reflexivity. Qed.
Lemma mint2 : mints (H := env) en3 tok2 en4.
Proof. unfold en4. eapply mint_takeover, by_first. vm_compute. reflexivity. Qed.
Lemma waiting : rtc (step (H := env)) en1 en3.
Proof. unfold en3, try. do 3 (eapply rtc_l; [apply step_takeover|]). apply rtc_refl. Qed.
End CoordinationExample.

#[local] Existing Instance CoordinationExample.env.
#[local] Existing Instance CoordinationExample.digest_inj.

Lemma minted_epochs_increase_witness :
  1 < 2 /\ exists s, seats (e_db CoordinationExample.en4) !! "r" = Some s /\
    holds_seat CoordinationExample.tok2 s = true /\ holds_seat CoordinationExample.tok1 s = false.
Proof.
  exact (minted_epochs_increase _ _ _ _ _ _ CoordinationExample.mint1 CoordinationExample.waiting
           CoordinationExample.mint2 eq_refl).
Defined.

Lemma deposed_leader_is_fenced_witness :
  exists en6, fenced_leader_transaction CoordinationExample.tok1 1000000 "verb" (mret 5) CoordinationExample.en4
      = (Err RunLeadershipLostError, en6) /\ refusal_only "a" (e_db CoordinationExample.en4) (e_db en6).
Proof.
  exact (deposed_leader_is_fenced _ _ _ _ _ _ _ 1000000 "verb" (mret 5) CoordinationExample.mint1
           CoordinationExample.waiting CoordinationExample.mint2 eq_refl (rtc_refl _ _)).
Defined.

Lemma release_is_final_witness :
  let en := (release_seat CoordinationExample.tok1 CoordinationExample.en1).2 in
  (exists en3, release_seat CoordinationExample.tok1 en = (Ok FENCE_REFUSED, en3) /\ refusal_only "a" (e_db en) (e_db en3)) /\
  (exists en3, fenced_leader_transaction CoordinationExample.tok1 1 "verb" (mret 5) en
      = (Err RunLeadershipLostError, en3) /\ refusal_only "a" (e_db en) (e_db en3)).
Proof.
  refine (release_is_final CoordinationExample.tok1 CoordinationExample.en1 _ _ 1 "verb" (mret 5) _ (rtc_refl _ _)).
  apply CoordinationExample.by_first. vm_compute. reflexivity.
Defined.

Lemma takeover_only_from_the_dead_witness :
  exists s, seats (e_db CoordinationExample.en3) !! "r" = Some s /\ leader_epoch s + 1 = 2 /\
    exists e0, leader_heartbeat_expires_at s = Some e0 /\ e0 < 1006000000.
Proof.
  destruct (takeover_only_from_the_dead "r" "b" CoordinationExample.W "resume" CoordinationExample.en3
              CoordinationExample.tok2 CoordinationExample.en4)
    as (s & run & s' & e & k & Hs & _ & _ & _ & Hv & Ht & _).
  - unfold CoordinationExample.en4. apply CoordinationExample.by_first. vm_compute. reflexivity.
  - exists s. injection Ht as <-. split_and!; [done|done|]. destruct Hv as [Hv|Hv]; [|exact Hv].
    exfalso. vm_compute in Hs. injection Hs as <-. discriminate Hv.
Defined.

Lemma live_leader_keeps_seat_witness :
  exists x en', acquire_run_leadership "r" "b" CoordinationExample.W "resume" CoordinationExample.en1 = (Err x, en') /\
    e_db en' = e_db CoordinationExample.en1.
Proof.
  destruct (live_leader_keeps_seat CoordinationExample.en1 "r" (mkSeat (Some "a") 1 (Some 81000000) 1000000) "a" 81000000
              "b" CoordinationExample.W "resume" FAILED) as (Hx & _);
    [vm_compute; reflexivity|reflexivity|reflexivity|vm_compute; discriminate|exact Hx].
Defined.

Lemma takeover_succeeds_witness :
  exists en', acquire_run_leadership "r" "b" CoordinationExample.W "resume" CoordinationExample.en3
    = (Ok CoordinationExample.tok2, en').
Proof.
  apply (takeover_succeeds "r" "b" CoordinationExample.W "resume" CoordinationExample.en3
           (mkSeat (Some "a") 1 (Some 81000000) 1000000) (mkRun RUNNING None None "h")).
  - split; vm_compute; [reflexivity|discriminate].
  - discriminate.
  - discriminate.
  - vm_compute. reflexivity.
  - vm_compute. reflexivity.
  - cbn. set_solver.
  - vm_compute. reflexivity.
  - right. exists 81000000. split; [reflexivity|vm_compute; reflexivity].
  - intros e He. assert (Forall (fun e => ev_recorded_at e <> 1006000000) (events (e_db CoordinationExample.en3))) as Hf
      by (vm_compute; repeat constructor; discriminate).
    rewrite Forall_forall in Hf. exact (Hf e He).
  - vm_compute. reflexivity.
Defined.

Lemma left_worker_never_returns_witness :
  exists en'', fenced_member_transaction (mkMembershipToken "r" "a") "verb" (mret 5) CoordinationExample.en4
      = (Err RunMembershipLostError, en'') /\ refusal_only "a" (e_db CoordinationExample.en4) (e_db en'').
Proof.
  destruct (workers (e_db CoordinationExample.en4) !! "a") as [row|] eqn:E; [|vm_compute in E; discriminate E].
  destruct (left_worker_never_returns CoordinationExample.en4 "a" row CoordinationExample.en4 "verb" (mret 5)
              "r" "h" None CoordinationExample.W "resume" E) as [Hf _].
  - vm_compute in E. injection E as <-. discriminate.
  - apply rtc_refl.
  - vm_compute in E. injection E as <-. exact Hf.
Defined.

Lemma evicts_only_the_dead_witness :
  exists row now, workers (e_db CoordinationExample.joined) !! "f" = Some row /\
    w_heartbeat_expires_at row < now - 10000000.
Proof.
  destruct (evicts_only_the_dead CoordinationExample.tok1 "f" 10000000 CoordinationExample.W
              CoordinationExample.joined CoordinationExample.gone) as (row & now & Hw & _ & _ & _ & _ & He & _).
  - unfold CoordinationExample.gone. apply CoordinationExample.by_first. vm_compute. reflexivity.
  - eauto.
Defined.

Lemma admitted_under_live_leader_witness :
  exists run, runs (e_db CoordinationExample.en1) !! "r" = Some run /\ run_status run = RUNNING /\ run_config_hash run = "h".
Proof.
  destruct (admitted_under_live_leader "r" "f" "h" CoordinationExample.W CoordinationExample.en1
              (mkMembershipToken "r" "f") CoordinationExample.joined) as (run & s & e & Hr & Hs & Hh & _).
  - unfold CoordinationExample.joined. apply CoordinationExample.by_first. vm_compute. reflexivity.
  - eauto.
Defined.

Lemma departed_leader_cannot_release_witness :
  (depart_worker (membership CoordinationExample.tok1) CoordinationExample.en1).1 = Ok tt /\
  (exists s, seats (e_db CoordinationExample.left) !! "r" = Some s /\ holds_seat CoordinationExample.tok1 s = true) /\
  forall en2, release_seat CoordinationExample.tok1 CoordinationExample.left <> (Ok RELEASED, en2).
Proof.
  split_and!; [vm_compute; reflexivity|eexists; split; vm_compute; reflexivity|].
  intros en2. destruct (workers (e_db CoordinationExample.left) !! "a") as [row|] eqn:E; [|vm_compute in E; discriminate E].
  apply (departed_leader_cannot_release CoordinationExample.tok1 CoordinationExample.left row); [exact E| |apply rtc_refl].
  vm_compute in E. injection E as <-. discriminate.
Defined.
