(* ===== verification/Scheduler.v ===== *)
(** * Scheduler: the durable work queue of a run

    [core/landscape/scheduler/]: enqueueing ([queue.py], [work_items.py]),
    claims, heartbeats and recovery of leases ([leases.py]), the dispositions
    that end a claim ([dispositions.py]), group losses ([group_losses.py]) and
    the event store ([events.py]), with the row predicates of [schema.py] and
    the item fence of [core/landscape/item_fencing.py].

    Every verb is a fenced transaction of [Coordination]; row locks do not
    appear because write transactions are serial. *)

From S2P Require Import Prelude Enums Outcomes Landscape Coordination.
From stdpp Require Import pretty.
Open Scope Z_scope.

(** ** Rows and predicates *)

(** [ck_token_work_items_lease_owner_required_when_leased] and
    [ck_token_work_items_pending_error_hash_hex]. *)
Definition hex_digit (a : Ascii.ascii) : bool :=
  let n := Ascii.nat_of_ascii a in
  ((48 <=? n) && (n <=? 57) || (97 <=? n) && (n <=? 102))%nat.

Definition is_hex16 (s : string) : bool :=
  (String.length s =? 16)%nat && forallb hex_digit (String.list_ascii_of_string s).

Definition item_row_ok (i : work_item) : bool :=
  (negb (wi_status i == LEASED) || (is_some (wi_lease_owner i) && negb (wi_lease_owner i == Some "")))
  && match b_error_hash (wi_bundle i) with Some h => is_hex16 h | None => true end.

(** The unique key (run, token, node, attempt). *)
Definition same_identity (i j : work_item) : bool :=
  (k_run_id (wi_key i) == k_run_id (wi_key j)) && (k_token_id (wi_key i) == k_token_id (wi_key j))
  && (k_node_id (wi_key i) == k_node_id (wi_key j)) && (wi_attempt i =? wi_attempt j).

Definition in_run (run_id : string) (i : work_item) : bool := k_run_id (wi_key i) == run_id.

(** [pending_sink_bundle_clause]. *)
Definition pending_sink_bundle_clause (i : work_item) : bool :=
  let b := wi_bundle i in
  let pair o p := (b_outcome b == Some (outcome_value o)) && (b_path b == Some (path_value p)) in
  let no_error_evidence := is_none (b_error_hash b) && is_none (b_error_message b) in
  let error_evidence := is_some (b_error_hash b) && negb (b_error_hash b == Some "") && is_some (b_error_message b) in
  let join := k_join_group_id (wi_key i) in
  negb (wi_row_payload i == RowJson "") && is_some (b_sink_name b) && negb (b_sink_name b == Some "")
  && (pair SUCCESS DEFAULT_FLOW && no_error_evidence
      || pair SUCCESS GATE_ROUTED && no_error_evidence
      || pair FAILURE ON_ERROR_ROUTED && error_evidence
      || pair SUCCESS COALESCED && is_some join && negb (join == Some "") && no_error_evidence
      || pair FAILURE QUARANTINED_AT_SOURCE && error_evidence && is_none join).

(** The sink-redrive subtype: any bundle column is set. *)
Definition sink_redrive_shaped (i : work_item) : bool :=
  let b := wi_bundle i in
  is_some (b_sink_name b) || is_some (b_outcome b) || is_some (b_path b)
  || is_some (b_error_hash b) || is_some (b_error_message b).

(** [active_worker_fence_clause] and [claim_verb_fence_clause]. *)
Definition active_worker_fence_clause (d : landscape) (worker_id run_id : string) : bool :=
  match workers d !! worker_id with Some w => active_member run_id w | None => false end.

Definition claim_verb_fence_clause (d : landscape) (worker_id run_id : string) : bool :=
  active_worker_fence_clause d worker_id run_id
  || negb (existsb (fun e : string * worker_row => w_run_id e.2 == run_id) (map_to_list (workers d))).

(** [work_item_token_decided_clause] and [undecided_failed_work_clause]. *)
Definition token_decided (d : landscape) (i : work_item) : bool :=
  bool_decide ((k_run_id (wi_key i), k_token_id (wi_key i)) ∈ decided_tokens (lineage d)).

Definition undecided_failed_work_clause (d : landscape) (i : work_item) : bool :=
  (wi_status i == WORK_FAILED) && negb (token_decided d i).

(** A new lease state; every other column is kept. *)
Definition set_lease (status : TokenWorkStatus) (owner : option string) (expires : option Z) (now : Z)
    (i : work_item) : work_item :=
  mkItem (wi_key i) (wi_row_payload i) status (wi_queue_key i) (wi_barrier_key i) (wi_bundle i) (wi_attempt i)
    owner expires (wi_available_at i) (wi_barrier_blocked_at i) (wi_barrier_adopted_epoch i) (wi_created_at i) now.

Definition set_payload (p : row_payload) (i : work_item) : work_item :=
  mkItem (wi_key i) p (wi_status i) (wi_queue_key i) (wi_barrier_key i) (wi_bundle i) (wi_attempt i)
    (wi_lease_owner i) (wi_lease_expires_at i) (wi_available_at i) (wi_barrier_blocked_at i)
    (wi_barrier_adopted_epoch i) (wi_created_at i) (wi_updated_at i).

Definition set_attempt (a : Z) (i : work_item) : work_item :=
  mkItem (wi_key i) (wi_row_payload i) (wi_status i) (wi_queue_key i) (wi_barrier_key i) (wi_bundle i) a
    (wi_lease_owner i) (wi_lease_expires_at i) (wi_available_at i) (wi_barrier_blocked_at i)
    (wi_barrier_adopted_epoch i) (wi_created_at i) (wi_updated_at i).

(** [ORDER BY ingest_sequence, step_index, created_at, work_item_id] and the
    same order without the creation time. *)
Definition claim_before (a b : string * work_item) : bool :=
  let ka := wi_key a.2 in
  let kb := wi_key b.2 in
  if negb (k_ingest_sequence ka =? k_ingest_sequence kb) then k_ingest_sequence ka <? k_ingest_sequence kb
  else if negb (k_step_index ka =? k_step_index kb) then k_step_index ka <? k_step_index kb
  else if negb (wi_created_at a.2 =? wi_created_at b.2) then wi_created_at a.2 <? wi_created_at b.2
  else String.leb a.1 b.1.

Definition sweep_before (a b : string * work_item) : bool :=
  let ka := wi_key a.2 in
  let kb := wi_key b.2 in
  if negb (k_ingest_sequence ka =? k_ingest_sequence kb) then k_ingest_sequence ka <? k_ingest_sequence kb
  else if negb (k_step_index ka =? k_step_index kb) then k_step_index ka <? k_step_index kb
  else String.leb a.1 b.1.

(** [SELECT ... WHERE p ORDER BY before]. *)
Definition select_items (before : string * work_item -> string * work_item -> bool)
    (p : work_item -> bool) (d : landscape) : list (string * work_item) :=
  sort_by before (filter (fun e : string * work_item => p e.2) (map_to_list (items d))).

(** ** Statements *)
Definition put_items (f : gmap string work_item -> gmap string work_item) (c : conn) : conn :=
  mkConn (set_items (c_db c) (f (items (c_db c)))) (c_issued c) (c_tick c).

(** [UPDATE token_work_items ... WHERE work_item_id = id AND p]. *)
Definition update_item (id : string) (p : work_item -> bool) (f : work_item -> work_item) : txn bool := fun c =>
  match items (c_db c) !! id with
  | Some i =>
      if p i then
        if item_row_ok (f i) then (Ok true, put_items (<[id := f i]>) c)
        else (Err (IntegrityError "ck_token_work_items"), c)
      else (Ok false, c)
  | None => (Ok false, c)
  end.

(** The same with a new [work_item_id], which must not be taken, and with an
    identity that no other row has. *)
Definition rename_item (prior next : string) (p : work_item -> bool) (f : work_item -> work_item) : txn bool := fun c =>
  match items (c_db c) !! prior with
  | Some i =>
      if p i then
        if negb (item_row_ok (f i)) then (Err (IntegrityError "ck_token_work_items"), c)
        else if (negb (next == prior) && is_some (items (c_db c) !! next))
                || existsb (fun e : string * work_item => negb (e.1 == prior) && same_identity e.2 (f i))
                     (map_to_list (items (c_db c)))
        then (Err (IntegrityError "token_work_items identity"), c)
        else (Ok true, put_items (fun m => <[next := f i]> (delete prior m)) c)
      else (Ok false, c)
  | None => (Ok false, c)
  end.

(** [UPDATE ... WHERE p RETURNING work_item_id]. *)
Definition update_items_where (p : work_item -> bool) (f : work_item -> work_item) : txn (list string) := fun c =>
  let hit := filter (fun e : string * work_item => p e.2) (map_to_list (items (c_db c))) in
  if forallb (fun e : string * work_item => item_row_ok (f e.2)) hit
  then (Ok hit.*1, put_items (fmap (fun i => if p i then f i else i)) c)
  else (Err (IntegrityError "ck_token_work_items"), c).

(** Statements executed once per element, with the row counts summed. *)
Fixpoint execute_many {A} (f : A -> txn bool) (l : list A) : txn nat :=
  match l with
  | [] => mret 0%nat
  | a :: l =>
      hit ← f a;
      n ← execute_many f l;
      mret ((if hit : bool then 1 else 0) + n)%nat
  end.

Fixpoint for_each {A} (f : A -> txn unit) (l : list A) : txn unit :=
  match l with
  | [] => mret tt
  | a :: l => _ ← f a; for_each f l
  end.

(** ** The event store *)

(** [SchedulerEventStore.record] and [record_many]; the table refuses a
    negative attempt. *)
Definition record (e : SchedulerEventRecord) : txn unit := fun c =>
  if (match se_from_attempt e with Some a => a <? 0 | None => false end) || (se_to_attempt e <? 0)
  then (Err (LandscapeRecordError "scheduler event"), c)
  else (Ok tt, mkConn (set_scheduler_events (c_db c) (scheduler_events (c_db c) ++ [e])) (c_issued c) (c_tick c)).

Definition record_many (l : list SchedulerEventRecord) : txn unit := for_each record l.

(** The event of a transition of one row that keeps its id and its attempt. *)
Definition transition_event (type : SchedulerEventType) (id : string) (before : work_item)
    (to_status : TokenWorkStatus) (to_owner : option string) (to_expires : option Z) (now : Z) (caller : string)
  : SchedulerEventRecord :=
  mkSchedulerEvent type (k_run_id (wi_key before)) (k_token_id (wi_key before)) id (k_node_id (wi_key before))
    (Some (wi_status before)) to_status (wi_lease_owner before) to_owner (Some (wi_attempt before)) (wi_attempt before)
    now (wi_lease_expires_at before) to_expires (Some caller) [].

(** The event of a rotation to a fresh id. *)
Definition rotation_event (type : SchedulerEventType) (next id : string) (before : work_item) (next_attempt now : Z)
    (to_status : TokenWorkStatus) (from_owner : option string) (from_expires : option Z) (caller : string)
  : SchedulerEventRecord :=
  mkSchedulerEvent type (k_run_id (wi_key before)) (k_token_id (wi_key before)) next (k_node_id (wi_key before))
    (Some (wi_status before)) to_status from_owner None (Some (wi_attempt before)) next_attempt
    now from_expires None (Some caller) (if next == id then [] else [("previous_work_item_id", CtxStr id)]).

(** [recovery_event_for_previous_work_item]: the latest one. *)
Definition previous_of (e : SchedulerEventRecord) : option string :=
  match dict_get (se_context e) "previous_work_item_id" with Some (CtxStr id) => Some id | _ => None end.

Definition recovery_event_for_previous_work_item (d : landscape) (run_id previous : string)
  : option SchedulerEventRecord :=
  head (filter (fun e => (se_run_id e == run_id) && (se_type e == RECOVER_EXPIRED_LEASE)
                         && (previous_of e == Some previous)) (reverse (scheduler_events d))).

Section scheduler.
Context `{Env}.

(** [work_item_id]: SHA-256 of run, token, node and attempt. *)
Definition work_item_id (run_id token_id : string) (node_id : option string) (attempt : Z) : string :=
  sha256 (run_id ++ ":" ++ token_id ++ ":" ++ default "<terminal>" node_id ++ ":" ++ pretty attempt).

Definition scrubbed_row_payload_json (anchor : string) : row_payload := Purged (sha256 anchor).

(** [fenced_write]: a leader transaction with the default window. *)
Definition fenced_write {A} (t : CoordinationToken) (name : string) (body : txn A) : verb A :=
  fenced_leader_transaction t DEFAULT_RUN_LIVENESS_WINDOW name body.

(** [fenced_item_transaction]: the body runs while the member still leases
    this attempt of the item. *)
Definition fenced_item_transaction {A} (m : WorkerMembershipToken) (id : string) (item : work_item) (name : string)
    (body : txn A) : verb A := fun en =>
  if negb (k_run_id (wi_key item) == m_run_id m) || negb (wi_lease_owner item == Some (m_worker_id m))
  then (Err (AuditIntegrityError "Item authority must belong to the admitted worker and run"), en)
  else if negb (wi_status item == LEASED)
  then (Err (AuditIntegrityError "Item authority must be a claimed LEASED work item"), en)
  else
    fenced_member_transaction m name
      (held ← update_item id
         (fun i => in_run (m_run_id m) i && (wi_attempt i =? wi_attempt item)
                   && (k_token_id (wi_key i) == k_token_id (wi_key item))
                   && (k_row_id (wi_key i) == k_row_id (wi_key item))
                   && (wi_lease_owner i == Some (m_worker_id m)) && (wi_status i == LEASED)) (fun i => i);
       refuse negb held with SchedulerLeaseLostError ;;
       body) en.

(** ** Enqueueing *)

(** [validate_node_cursor] and [validate_work_item_references]. *)
Definition validate_node_cursor (run_id : string) (node_id : option string) : txn unit :=
  d ← query (fun d => d);
  match node_id with
  | None => mret tt
  | Some n =>
      refuse bool_decide ((run_id, n) ∉ run_nodes (lineage d)) with AuditIntegrityError "node outside run" ;; mret tt
  end.

Definition validate_work_item_references (k : work_key) : txn unit :=
  d ← query (fun d => d);
  match token_rows (lineage d) !! (k_run_id k, k_token_id k) with
  | None => raise (AuditIntegrityError "token outside run")
  | Some token_row_id =>
      refuse negb (token_row_id == k_row_id k) with AuditIntegrityError "token of another row" ;;
      match row_sequences (lineage d) !! (k_run_id k, k_row_id k) with
      | None => raise (AuditIntegrityError "row outside run")
      | Some sequence =>
          refuse negb (sequence =? k_ingest_sequence k) with AuditIntegrityError "another ingest_sequence" ;;
          _ ← validate_node_cursor (k_run_id k) (k_node_id k);
          validate_node_cursor (k_run_id k) (k_coalesce_node_id k)
      end
  end.

(** [ready_work_item_values]. *)
Definition ready_work_item_values (k : work_key) (payload : row_payload) (queue_key barrier_key : option string)
    (attempt available_at : Z) : work_item :=
  mkItem k payload READY queue_key barrier_key no_bundle attempt None None available_at None None available_at available_at.

(** [_validate_replay]: the row that is already there is the same work. *)
Definition replay_matches (i existing : work_item) : bool :=
  (wi_key existing == wi_key i) && (wi_row_payload existing == wi_row_payload i)
  && (wi_queue_key existing == wi_queue_key i) && (wi_barrier_key existing == wi_barrier_key i)
  && (wi_bundle existing == wi_bundle i) && (wi_attempt existing =? wi_attempt i).

(** [insert_work_items_idempotent]: the values by id, each offered once; the
    insert that leaves existing rows alone; and the check that those are the
    same work.  The ids that were inserted are returned. *)
Fixpoint values_by_id (values by_id : list (string * work_item)) : res (list (string * work_item)) :=
  match values with
  | [] => Ok by_id
  | (id, i) :: values =>
      match dict_get by_id id with
      | Some offered =>
          reject negb (replay_matches i offered) with LandscapeRecordError "incompatible existing work item" ;;
          values_by_id values by_id
      | None => values_by_id values (dict_set by_id id i)
      end
  end.

Definition insert_row (id : string) (i : work_item) : txn unit := fun c =>
  if negb (item_row_ok i) || is_some (items (c_db c) !! id)
     || existsb (fun e : string * work_item => same_identity e.2 i) (map_to_list (items (c_db c)))
  then (Err (LandscapeRecordError "database rejected audit write"), c)
  else (Ok tt, put_items (<[id := i]>) c).

Fixpoint insert_missing (l : list (string * work_item)) : txn (list string) :=
  match l with
  | [] => mret []
  | (id, i) :: l =>
      d ← query (fun d => d);
      if is_some (items d !! id) then insert_missing l
      else
        _ ← insert_row id i;
        ids ← insert_missing l;
        mret (id :: ids)
  end.

Definition insert_work_items_idempotent (values : list (string * work_item)) : txn (list string) :=
  by_id ← lift (values_by_id values []);
  inserted ← insert_missing by_id;
  d ← query (fun d => d);
  refuse existsb (fun e : string * work_item => negb (bool_decide (e.1 ∈ inserted))
                    && match items d !! e.1 with Some existing => negb (replay_matches e.2 existing) | None => true end) by_id
    with LandscapeRecordError "incompatible existing work item" ;;
  mret inserted.

(** [insert_work_item_idempotent]: was the row inserted? *)
Definition insert_work_item_idempotent (id : string) (i : work_item) : txn bool :=
  inserted ← insert_work_items_idempotent [(id, i)];
  mret (negb (bool_decide (inserted = []))).

(** [insert_work_items]: every row is new. *)
Definition insert_work_items (values : list (string * work_item)) : txn unit :=
  for_each (fun e : string * work_item => insert_row e.1 e.2) values.

Definition enqueue_event (id : string) (k : work_key) (attempt now : Z) : SchedulerEventRecord :=
  mkSchedulerEvent ENQUEUE (k_run_id k) (k_token_id k) id (k_node_id k) None READY None None None attempt now None None None [].

(** The work of a key in the member's run. *)
Definition key_in_run (run_id : string) (k : work_key) : work_key :=
  mkWorkKey run_id (k_token_id k) (k_row_id k) (k_node_id k) (k_step_index k) (k_ingest_sequence k)
    (k_on_success_sink k) (k_join_group_id k) (k_lineage_path k) (k_coalesce_node_id k) (k_coalesce_name k)
    (k_row_union_name k) (k_collector_name k).

(** [enqueue_ready]. *)
Definition enqueue_ready (m : WorkerMembershipToken) (k : work_key) (payload : row_payload)
    (queue_key barrier_key : option string) (attempt : Z) : verb (string * work_item) :=
  let k := key_in_run (m_run_id m) k in
  let id := work_item_id (m_run_id m) (k_token_id k) (k_node_id k) attempt in
  fenced_member_transaction m "enqueue_ready"
    (available_at ← read_landscape_transaction_time;
     _ ← validate_work_item_references k;
     inserted ← insert_work_item_idempotent id
                  (ready_work_item_values k payload queue_key barrier_key attempt available_at);
     _ ← (if inserted : bool then record (enqueue_event id k attempt available_at) else mret tt);
     row ← query (fun d => items d !! id);
     match row with Some i => mret (id, i) | None => raise (RuntimeError "NoResultFound") end).

(** ** Claims *)

Definition row_in_run (d : landscape) (id run_id : string) : option work_item :=
  i ← items d !! id; if in_run run_id i then Some i else None.

(** [claim_ready_row]: lease one READY row, if it still is available and the
    membership fence that the caller asked for holds. *)
Definition claim_ready_row (id run_id lease_owner : string) (lease : Z) (membership_fenced strict : bool)
  : txn (option (string * work_item)) :=
  locked ← query (fun d => row_in_run d id run_id);
  match locked with
  | None => mret None
  | Some row =>
      now ← read_landscape_decision_time;
      fence ← query (fun d =>
        if strict then active_worker_fence_clause d lease_owner run_id
        else if membership_fenced then claim_verb_fence_clause d lease_owner run_id else true);
      changed ← update_item id
        (fun i => in_run run_id i && (wi_status i == READY) && (wi_available_at i <=? now) && fence)
        (set_lease LEASED (Some lease_owner) (Some (now + lease)) now);
      if negb changed then
        d ← query (fun d => d);
        let still_ready := match row_in_run d id run_id with Some i => wi_status i == READY | None => false end in
        refuse strict && still_ready && negb (active_worker_fence_clause d lease_owner run_id)
          with RunWorkerEvictedError ;;
        refuse negb strict && membership_fenced && still_ready
               && match workers d !! lease_owner with
                  | Some w => (w_run_id w == run_id) && negb (w_status w == active)
                  | None => false
                  end
          with RunWorkerEvictedError ;;
        mret None
      else
        _ ← record_issued_deadline (ITEM_KEY id) (now + lease) lease;
        _ ← record (transition_event CLAIM_READY id row LEASED (Some lease_owner) (Some (now + lease)) now lease_owner);
        claimed ← query (fun d => i ← row_in_run d id run_id;
                                  if (wi_status i == LEASED) && (wi_lease_owner i == Some lease_owner)
                                  then Some i else None);
        match claimed with
        | None => raise (AuditIntegrityError "leased row was not owned by the claimant")
        | Some i => mret (Some (id, i))
        end
  end.

(** [claim_ready]: the first available READY row of the run. *)
Definition claim_ready (m : WorkerMembershipToken) (lease_owner : string) (lease : Z)
  : verb (option (string * work_item)) := fun en =>
  if negb (lease_owner == m_worker_id m) then (Err (ValueError "lease owner must match authority token"), en)
  else
    fenced_member_transaction m "claim_ready"
      (now ← read_landscape_decision_time;
       row ← query (fun d => head (select_items claim_before
               (fun i => in_run (m_run_id m) i && (wi_status i == READY) && (wi_available_at i <=? now)) d));
       match row with
       | None => mret None
       | Some (id, _) => claim_ready_row id (m_run_id m) lease_owner lease true false
       end) en.

(** [enqueue_ready_claimed_on]: enqueue and lease in the caller's transaction;
    a worker is fenced first. *)
Definition enqueue_ready_claimed_on (run_id : string) (k : work_key) (payload : row_payload)
    (queue_key barrier_key : option string) (attempt : Z) (lease_owner : string) (lease : Z)
    (worker_id : option string) : txn (string * work_item) :=
  let k := key_in_run run_id k in
  let id := work_item_id run_id (k_token_id k) (k_node_id k) attempt in
  available_at ← read_landscape_transaction_time;
  fence ← query (fun d => match worker_id with Some w => active_worker_fence_clause d w run_id | None => true end);
  refuse negb fence with RunWorkerEvictedError ;;
  _ ← validate_work_item_references k;
  inserted ← insert_work_item_idempotent id
               (ready_work_item_values k payload queue_key barrier_key attempt available_at);
  _ ← (if inserted : bool then record (enqueue_event id k attempt available_at) else mret tt);
  row ← query (fun d => items d !! id);
  match row with
  | None => raise (RuntimeError "NoResultFound")
  | Some i =>
      if wi_status i == READY then
        claimed ← claim_ready_row id run_id lease_owner lease false (is_some worker_id);
        mret (default (id, i) claimed)
      else mret (id, i)
  end.

(** [enqueue_ready_claimed]: enqueue and lease in one transaction. *)
Definition enqueue_ready_claimed (m : WorkerMembershipToken) (k : work_key) (payload : row_payload)
    (queue_key barrier_key : option string) (attempt : Z) (lease_owner : string) (lease : Z)
  : verb (string * work_item) := fun en =>
  if negb (lease_owner == m_worker_id m) then (Err (ValueError "enqueue lease owner must match membership token"), en)
  else
    fenced_member_transaction m "enqueue_ready_claimed"
      (enqueue_ready_claimed_on (m_run_id m) k payload queue_key barrier_key attempt lease_owner lease
         (Some (m_worker_id m))) en.

(** [claim_pending_sink]: the leader leases the first row that waits for its
    sink; the bundle must be complete. *)
Definition claim_pending_sink (t : CoordinationToken) (lease_owner : string) (lease : Z)
  : verb (option (string * work_item)) := fun en =>
  if negb (lease_owner == tk_worker_id t) then (Err (ValueError "lease owner must match authority token"), en)
  else
    fenced_write t "claim_pending_sink"
      (row ← query (fun d => head (select_items claim_before
               (fun i => in_run (tk_run_id t) i && (wi_status i == PENDING_SINK)) d));
       match row with
       | None => mret None
       | Some (id, row) =>
           refuse negb (pending_sink_bundle_clause row) with AuditIntegrityError "incomplete sink bundle" ;;
           now ← read_landscape_decision_time;
           fence ← query (fun d => claim_verb_fence_clause d lease_owner (tk_run_id t));
           changed ← update_item id
             (fun i => in_run (tk_run_id t) i && (wi_status i == PENDING_SINK)
                       && pending_sink_bundle_clause i && fence)
             (set_lease LEASED (Some lease_owner) (Some (now + lease)) now);
           if negb changed then
             d ← query (fun d => d);
             refuse match workers d !! lease_owner with
                    | Some w => (w_run_id w == tk_run_id t) && negb (w_status w == active)
                    | None => false
                    end
               with RunWorkerEvictedError ;;
             mret None
           else
             _ ← record_issued_deadline (ITEM_KEY id) (now + lease) lease;
             _ ← record (transition_event CLAIM_PENDING_SINK id row LEASED (Some lease_owner) (Some (now + lease)) now
                           lease_owner);
             claimed ← query (fun d => row_in_run d id (tk_run_id t));
             match claimed with
             | None => raise (AuditIntegrityError "leased row was not owned by the claimant")
             | Some i => mret (Some (id, i))
             end
       end) en.

(** [heartbeat_lease]: extend a lease that is still held.  A lost lease is
    recorded and committed before the exception is raised (the digest of the
    recovery event is not part of the recorded context here). *)
Definition heartbeat_lease (m : WorkerMembershipToken) (id lease_owner : string) (lease : Z) : verb Z := fun en =>
  if negb (lease_owner == m_worker_id m) then (Err (ValueError "lease owner must match authority token"), en)
  else
    match fenced_member_transaction m "heartbeat_lease"
      (now ← read_landscape_decision_time;
       held ← update_item id
         (fun i => in_run (m_run_id m) i && (wi_status i == LEASED) && (wi_lease_owner i == Some lease_owner))
         (fun i => set_lease (wi_status i) (wi_lease_owner i) (Some (now + lease)) now i);
       if held : bool then
         _ ← record_issued_deadline (ITEM_KEY id) (now + lease) lease;
         mret (Some (now + lease))
       else
         d ← query (fun d => d);
         _ ← match row_in_run d id (m_run_id m) with
             | Some i =>
                 record (mkSchedulerEvent LEASE_LOST (m_run_id m) (k_token_id (wi_key i)) id (k_node_id (wi_key i))
                   (Some LEASED) (wi_status i) (Some lease_owner) (wi_lease_owner i) (Some (wi_attempt i))
                   (wi_attempt i) now None (wi_lease_expires_at i) (Some lease_owner)
                   [("reason", CtxStr "heartbeat_cas_miss")])
             | None =>
                 match recovery_event_for_previous_work_item d (m_run_id m) id with
                 | Some e =>
                     record (mkSchedulerEvent LEASE_LOST (m_run_id m) (se_token_id e) id (se_node_id e)
                       (Some LEASED) (se_to_status e) (Some lease_owner) (se_to_lease_owner e) (se_from_attempt e)
                       (se_to_attempt e) now (se_from_lease_expires_at e) (se_to_lease_expires_at e) (Some lease_owner)
                       [("reason", CtxStr "heartbeat_cas_miss_after_recovery");
                          ("recovered_work_item_id", CtxStr (se_work_item_id e))])
                 | None => mret tt
                 end
             end;
         mret None) en with
    | (Ok (Some expires), en) => (Ok expires, en)
    | (Ok None, en) => (Err SchedulerLeaseLostError, en)
    | (Err e, en) => (Err e, en)
    end.

(** [peer_active_leases]: the other owners of unexpired leases. *)
Definition peer_active_leases (run_id caller_owner : string) : verb (list string) :=
  read_only
    (now ← read_landscape_decision_time;
     query (fun d => sort_by String.leb (remove_dups (omap (fun e : string * work_item =>
       if in_run run_id e.2 && (wi_status e.2 == LEASED) && negb (wi_lease_owner e.2 == Some caller_owner)
          && match wi_lease_expires_at e.2 with Some x => now <? x | None => false end
       then wi_lease_owner e.2 else None) (map_to_list (items d)))))).

(** ** Recovery *)

(** No active worker row with a fresh enough heartbeat owns the lease. *)
Definition owner_registry_dead (d : landscape) (grace_threshold : Z) (i : work_item) : bool :=
  match wi_lease_owner i ≫= (fun o => workers d !! o) with
  | Some w => negb ((w_status w == active) && (grace_threshold <=? w_heartbeat_expires_at w))
  | None => true
  end.

Definition lease_owner_not_caller (caller : string) (i : work_item) : bool := negb (wi_lease_owner i == Some caller).

(** [rotation_filters] with [reap_eligible]. *)
Definition reapable (d : landscape) (run_id caller : string) (now grace stall : Z) (i : work_item) : bool :=
  in_run run_id i && (wi_status i == LEASED) && sql_lt (wi_lease_expires_at i) now && lease_owner_not_caller caller i
  && (owner_registry_dead d (now - grace) i || sql_lt (wi_lease_expires_at i) (now - stall)).

(** The next id of a row that is recovered or re-driven: sink redrives keep it. *)
Definition next_attempt (i : work_item) : Z := if sink_redrive_shaped i then wi_attempt i else wi_attempt i + 1.

Definition next_id (run_id : string) (e : string * work_item) : string :=
  if sink_redrive_shaped e.2 then e.1
  else work_item_id run_id (k_token_id (wi_key e.2)) (k_node_id (wi_key e.2)) (wi_attempt e.2 + 1).

Definition next_status (i : work_item) : TokenWorkStatus := if sink_redrive_shaped i then PENDING_SINK else READY.

(** [_rotate_expired_leases]. *)
Definition rotate_expired_leases (t : CoordinationToken) (grace stall : Z) : txn nat :=
  let run_id := tk_run_id t in
  let caller := tk_worker_id t in
  discovery_now ← read_landscape_decision_time;
  candidates ← query (fun d => filter (fun e : string * work_item =>
      in_run run_id e.2 && (wi_status e.2 == LEASED) && sql_lt (wi_lease_expires_at e.2) discovery_now
      && lease_owner_not_caller caller e.2) (map_to_list (items d)));
  if bool_decide (candidates = []) then mret 0%nat
  else
    let owner_ids := omap (fun e : string * work_item => wi_lease_owner e.2) candidates in
    let known_owner i := match wi_lease_owner i with Some o => bool_decide (o ∈ owner_ids) | None => true end in
    now ← read_landscape_decision_time;
    d ← query (fun d => d);
    let expired := sort_by sweep_before (filter (fun e : string * work_item =>
        bool_decide (e.1 ∈ candidates.*1) && known_owner e.2 && reapable d run_id caller now grace stall e.2)
        (map_to_list (items d))) in
    if bool_decide (expired = []) then mret 0%nat
    else
      refuse existsb (fun e : string * work_item => sink_redrive_shaped e.2 && negb (pending_sink_bundle_clause e.2)) expired
        with AuditIntegrityError "incomplete sink bundle" ;;
      let sink_ids := (filter (fun e : string * work_item => sink_redrive_shaped e.2) expired).*1 in
      let transforms := filter (fun e : string * work_item => negb (sink_redrive_shaped e.2)) expired in
      sink_changed ← update_items_where
        (fun i => reapable d run_id caller now grace stall i && sql_lt (wi_lease_expires_at i) discovery_now
                  && known_owner i && sink_redrive_shaped i && pending_sink_bundle_clause i)
        (set_lease PENDING_SINK None None now);
      refuse negb (forallb (fun id => bool_decide (id ∈ sink_ids)) sink_changed)
        with AuditIntegrityError "rotated a pending-sink item it had not selected" ;;
      rotated ← execute_many (fun e : string * work_item =>
        rename_item e.1 (next_id run_id e)
          (fun i => reapable d run_id caller now grace stall i && negb (sink_redrive_shaped i))
          (fun i => set_attempt (next_attempt e.2) (set_lease READY None None now i))) transforms;
      transform_changed ← query (fun d => filter (fun id => is_some (row_in_run d id run_id))
                                            (remove_dups (map (next_id run_id) transforms)));
      refuse negb (length transform_changed =? rotated)%nat
        with AuditIntegrityError "rotated transform items but fresh identities are missing" ;;
      let changed_ids := sink_changed ++ transform_changed in
      d' ← query (fun d => d);
      refuse existsb (fun e : string * work_item =>
               negb (bool_decide (next_id run_id e ∈ changed_ids))
               && match row_in_run d' e.1 run_id with
                  | Some i => (wi_status i == LEASED) && negb (pending_sink_bundle_clause i)
                              && (sink_redrive_shaped e.2 || sink_redrive_shaped i)
                  | None => false
                  end) expired
        with AuditIntegrityError "incomplete sink bundle" ;;
      let recovered := filter (fun e : string * work_item => bool_decide (next_id run_id e ∈ changed_ids)) expired in
      _ ← record_many (map (fun e : string * work_item =>
            rotation_event RECOVER_EXPIRED_LEASE (next_id run_id e) e.1 e.2 (next_attempt e.2) now (next_status e.2)
              (wi_lease_owner e.2) (wi_lease_expires_at e.2) caller) recovered);
      _ ← for_each (fun e : string * work_item =>
            match wi_lease_owner e.2 with
            | Some o =>
                if owner_registry_dead d (now - grace) e.2 then mret tt
                else record_coordination_event (mkEvent run_id "worker_stalled" o (Some (tk_leader_epoch t)) now
                       [("reaped_work_item_id", CtxStr e.1); ("previous_work_item_id", CtxStr e.1);
                        ("reason", CtxStr "item_stall_budget")])
            | None => mret tt
            end) recovered;
      mret (length (remove_dups changed_ids)).

(** [recover_expired_leases]. *)
Definition recover_expired_leases (t : CoordinationToken) (grace stall : Z) : verb nat :=
  fenced_write t "recover_expired_leases" (rotate_expired_leases t grace stall).

(** [requeue_undecided_failed_work]: on resume, a FAILED row whose token was
    never decided goes back to READY under a fresh identity. *)
Definition requeue_undecided_failed_work (t : CoordinationToken) : verb nat :=
  let run_id := tk_run_id t in
  fenced_write t "requeue_undecided_failed_work"
    (d ← query (fun d => d);
     let undecided := select_items sweep_before (fun i => in_run run_id i && undecided_failed_work_clause d i) d in
     if bool_decide (undecided = []) then mret 0%nat
     else
       refuse existsb (fun e : string * work_item => wi_row_payload e.2 == scrubbed_row_payload_json e.1) undecided
         with AuditIntegrityError "row payload was purged" ;;
       refuse existsb (fun e : string * work_item =>
                existsb (fun l : (string * string * string * string) * group_loss =>
                  (l.1.1.1.1 == run_id) && (gl_token_id l.2 == k_token_id (wi_key e.2)))
                  (map_to_list (group_losses d))) undecided
         with AuditIntegrityError "a group-loss record already names them" ;;
       now ← read_landscape_decision_time;
       let fresh e := work_item_id run_id (k_token_id (wi_key e.2)) (k_node_id (wi_key e.2)) (wi_attempt e.2 + 1) in
       changed ← execute_many (fun e : string * work_item =>
         rename_item e.1 (fresh e) (fun i => in_run run_id i && undecided_failed_work_clause d i)
           (fun i => set_attempt (wi_attempt i + 1) (set_lease READY None None now i))) undecided;
       refuse negb (changed =? length undecided)%nat with AuditIntegrityError "rotated fewer than the locked items" ;;
       _ ← record_many (map (fun e : string * work_item =>
             mkSchedulerEvent RESUME_REQUEUE_FAILED run_id (k_token_id (wi_key e.2)) (fresh e) (k_node_id (wi_key e.2))
               (Some WORK_FAILED) READY None None (Some (wi_attempt e.2)) (wi_attempt e.2 + 1) now None None
               (Some (tk_worker_id t)) [("previous_work_item_id", CtxStr e.1)]) undecided);
       mret (length undecided)).

(** ** Group losses *)
Record GroupLossSpec := mkGroupLossSpec {
  ls_closer_name : string;
  ls_group_id : string;
  ls_member_key : string;
  ls_token_id : string;
  ls_reason : string;
}.

Definition loss_key : Type := string * string * string.

Definition spec_key (s : GroupLossSpec) : loss_key := (ls_closer_name s, ls_group_id s, ls_member_key s).

(** The first loop: one spec per key, and one token per key. *)
Fixpoint losses_by_key (specs : list GroupLossSpec) (by_key : list (loss_key * GroupLossSpec))
  : res (list (loss_key * GroupLossSpec)) :=
  match specs with
  | [] => Ok by_key
  | s :: specs =>
      reject (64 <? String.length (ls_reason s))%nat with AuditIntegrityError "Group-loss reason" ;;
      match dict_get by_key (spec_key s) with
      | Some s' =>
          reject negb (ls_token_id s' == ls_token_id s)
            with AuditIntegrityError "Two distinct tokens cannot lose the same member of one group" ;;
          losses_by_key specs by_key
      | None => losses_by_key specs (dict_set by_key (spec_key s) s)
      end
  end.

(** [record_group_losses]: the first durable record of a member wins, and a
    later one must name the same token. *)
Definition record_group_losses (run_id : string) (specs : list GroupLossSpec) (recorded_by : string) (now : Z)
  : txn nat :=
  if bool_decide (length specs = 0%nat) then mret 0%nat
  else
    by_key ← lift (losses_by_key specs []);
    inserted ← execute_many (fun e : loss_key * GroupLossSpec =>
      d ← query (fun d => d);
      if is_some (group_losses d !! (run_id, e.1.1.1, e.1.1.2, e.1.2)) then mret false
      else
        _ ← exec (fun d => set_group_losses d
              (<[(run_id, e.1.1.1, e.1.1.2, e.1.2) := 
                  mkGroupLoss (ls_token_id e.2) (ls_reason e.2) recorded_by now
                    ("loss_" ++ String.substring 0 12 (generate_id (size (group_losses d)))) None]>
                 (group_losses d)));
        mret true) by_key;
    d ← query (fun d => d);
    refuse existsb (fun s => match group_losses d !! (run_id, ls_closer_name s, ls_group_id s, ls_member_key s) with
                             | Some l => negb (gl_token_id l == ls_token_id s)
                             | None => true
                             end) specs
      with AuditIntegrityError "Group-loss record already exists with another token" ;;
    mret inserted.

(** ** Dispositions *)
Inductive DispositionImage :=
  | BlockedImage (queue_key barrier_key : option string) (payload : row_payload)
  | TerminalImage (payload : row_payload)
  | FailedImage (purged : row_payload)
  | PendingSinkImage (payload : row_payload) (sink outcome path : string) (error_hash error_message : option string)
      (lease_owner : string).

Definition image_status (im : DispositionImage) : TokenWorkStatus :=
  match im with
  | BlockedImage _ _ _ => BLOCKED | TerminalImage _ => TERMINAL | FailedImage _ => WORK_FAILED
  | PendingSinkImage _ _ _ _ _ _ _ => PENDING_SINK
  end.

Definition image_owner (im : DispositionImage) : option string :=
  match im with PendingSinkImage _ _ _ _ _ _ o => Some o | _ => None end.

Definition image_event (im : DispositionImage) : SchedulerEventType :=
  match im with
  | BlockedImage _ _ _ => MARK_BLOCKED | TerminalImage _ => MARK_TERMINAL | FailedImage _ => MARK_FAILED
  | PendingSinkImage _ _ _ _ _ _ _ => MARK_PENDING_SINK
  end.

(** The columns that each image writes; a failed row keeps its payload until
    its token is decided. *)
Definition apply_image (im : DispositionImage) (decided : bool) (now : Z) (i : work_item) : work_item :=
  let i' := set_lease (image_status im) (image_owner im) None now i in
  match im with
  | BlockedImage q b p =>
      mkItem (wi_key i) p BLOCKED q b (wi_bundle i) (wi_attempt i) None None (wi_available_at i) (Some now)
        (wi_barrier_adopted_epoch i) (wi_created_at i) now
  | TerminalImage p => set_payload p i'
  | FailedImage p => if decided then set_payload p i' else i'
  | PendingSinkImage p sink outcome path h msg o =>
      mkItem (wi_key i) p PENDING_SINK (wi_queue_key i) (wi_barrier_key i)
        (mkBundle (Some sink) (Some outcome) (Some path) h msg) (wi_attempt i) (Some o) None (wi_available_at i)
        (wi_barrier_blocked_at i) (wi_barrier_adopted_epoch i) (wi_created_at i) now
  end.

(** [_transition_on]: out of a transform lease that the member still owns. *)
Definition transition_on (m : WorkerMembershipToken) (id : string) (im : DispositionImage)
    (losses : list GroupLossSpec) (require_bundle : bool) : txn (string * work_item) :=
  now ← read_landscape_transaction_time;
  before ← query (fun d => items d !! id);
  d ← query (fun d => d);
  changed ← update_item id
    (fun i => in_run (m_run_id m) i && (wi_status i == LEASED) && is_none (b_sink_name (wi_bundle i))
              && (wi_lease_owner i == Some (m_worker_id m)))
    (fun i => apply_image im (token_decided d i) now i);
  refuse negb changed with AuditIntegrityError "Scheduler transition affected no row" ;;
  after ← query (fun d => items d !! id);
  match before, after with
  | Some before, Some after =>
      refuse require_bundle && negb (pending_sink_bundle_clause after)
        with AuditIntegrityError "incomplete durable sink bundle" ;;
      _ ← record (transition_event (image_event im) id before (image_status im) (image_owner im) None now (m_worker_id m));
      _ ← record_group_losses (m_run_id m) losses (m_worker_id m) now;
      mret (id, after)
  | _, _ => raise (AuditIntegrityError "could not be read before the write")
  end.

(** [_transition]. *)
Definition transition (m : WorkerMembershipToken) (id expected_owner : string) (im : DispositionImage)
    (losses : list GroupLossSpec) (require_bundle : bool) : verb (string * work_item) := fun en =>
  if negb (expected_owner == m_worker_id m)
  then (Err (ValueError "disposition lease owner must match membership token"), en)
  else fenced_member_transaction m "_transition" (transition_on m id im losses require_bundle) en.

Definition mark_blocked (m : WorkerMembershipToken) (id : string) (queue_key barrier_key : option string)
    (payload : row_payload) (owner : string) : verb (string * work_item) := fun en =>
  if is_none queue_key && is_none barrier_key then (Err (AuditIntegrityError "without a queue_key or barrier_key"), en)
  else transition m id owner (BlockedImage queue_key barrier_key payload) [] false en.

Definition mark_terminal (m : WorkerMembershipToken) (id owner : string) (losses : list GroupLossSpec) :=
  transition m id owner (TerminalImage (scrubbed_row_payload_json id)) losses false.

Definition mark_failed (m : WorkerMembershipToken) (id owner : string) (losses : list GroupLossSpec) :=
  transition m id owner (FailedImage (scrubbed_row_payload_json id)) losses false.

Definition mark_pending_sink (m : WorkerMembershipToken) (id : string) (payload : row_payload)
    (sink outcome path : string) (error_hash error_message : option string) (owner : string)
    (losses : list GroupLossSpec) :=
  transition m id owner (PendingSinkImage payload sink outcome path error_hash error_message owner) losses true.

(** ** After the sink *)

(** The rows that a sink write terminalizes: waiting for the sink or leased
    for its redrive. *)
Definition at_sink (run_id : string) (i : work_item) : bool :=
  in_run run_id i && ((wi_status i == PENDING_SINK) || (wi_status i == LEASED)) && is_some (b_sink_name (wi_bundle i)).

Definition terminalize (now : Z) (anchor : string) (i : work_item) : work_item :=
  set_payload (scrubbed_row_payload_json anchor) (set_lease TERMINAL None None now i).

Definition terminal_event (caller : string) (now : Z) (e : string * work_item) : SchedulerEventRecord :=
  transition_event MARK_PENDING_SINK_TERMINAL e.1 e.2 TERMINAL None None now caller.

(** [mark_pending_sink_terminal]: a miss rolls back and counts zero. *)
Definition mark_pending_sink_terminal (t : CoordinationToken) (token_id expected_owner : string) : verb nat := fun en =>
  let p i := at_sink (tk_run_id t) i && (k_token_id (wi_key i) == token_id) && (wi_lease_owner i == Some expected_owner) in
  match fenced_leader_transaction t DEFAULT_RUN_LIVENESS_WINDOW "mark_pending_sink_terminal"
    (now ← read_landscape_transaction_time;
     rows ← query (fun d => sort_by (fun a b : string * work_item => String.leb a.1 b.1)
              (filter (fun e : string * work_item => p e.2) (map_to_list (items d))));
     refuse bool_decide (rows = []) with RuntimeError "_PendingSinkTerminalMiss" ;;
     changed ← update_items_where p (terminalize now token_id);
     refuse negb (length changed =? length rows)%nat with RuntimeError "_PendingSinkTerminalMiss" ;;
     _ ← record_many (map (terminal_event expected_owner now) rows);
     mret (length changed)) en with
  | (Err (RuntimeError s), en) =>
      if s == "_PendingSinkTerminalMiss" then (Ok 0%nat, en) else (Err (RuntimeError s), en)
  | r => r
  end.

(** [mark_pending_sink_terminal_many]: all or nothing. *)
Fixpoint first_duplicate (l : list string) : bool :=
  match l with [] => false | x :: l => bool_decide (x ∈ l) || first_duplicate l end.

Definition check_batch_member (rows : list (string * work_item)) (expected_owner token_id : string) : res unit :=
  match filter (fun e : string * work_item => k_token_id (wi_key e.2) == token_id) rows with
  | [] => Err (AuditIntegrityError "missing token_id")
  | [e] =>
      reject negb (pending_sink_bundle_clause e.2) with AuditIntegrityError "a member without a complete durable sink bundle" ;;
      reject negb (wi_lease_owner e.2 == Some expected_owner) with AuditIntegrityError "strict owner CAS" ;;
      Ok tt
  | _ => Err (AuditIntegrityError "expected exactly one")
  end.

Definition mark_pending_sink_terminal_many (t : CoordinationToken) (token_ids : list string) (expected_owner : string)
  : verb nat := fun en =>
  if bool_decide (token_ids = []) then (Ok 0%nat, en)
  else if first_duplicate token_ids then (Err (AuditIntegrityError "duplicate token_id"), en)
  else
    fenced_leader_transaction t DEFAULT_RUN_LIVENESS_WINDOW "mark_pending_sink_terminal_many"
      (now ← read_landscape_transaction_time;
       rows ← query (select_items sweep_before
                (fun i => at_sink (tk_run_id t) i && bool_decide (k_token_id (wi_key i) ∈ token_ids)));
       _ ← for_each (fun token_id => lift (check_batch_member rows expected_owner token_id)) token_ids;
       changed ← execute_many (fun e : string * work_item =>
         update_item e.1
           (fun i => at_sink (tk_run_id t) i && (wi_status i == wi_status e.2)
                     && (k_token_id (wi_key i) == k_token_id (wi_key e.2))
                     && (wi_lease_owner i == Some expected_owner) && pending_sink_bundle_clause i)
           (terminalize now (k_token_id (wi_key e.2)))) rows;
       refuse negb (changed =? length rows)%nat with AuditIntegrityError "refusing partial terminalization" ;;
       _ ← record_many (map (terminal_event expected_owner now) rows);
       mret changed) en.

(** [terminalize_pending_sinks_with_terminal_outcomes]: crash repair of rows
    whose token was decided before the row was terminalized. *)
Definition terminalize_pending_sinks_with_terminal_outcomes (t : CoordinationToken) (caller_owner : string) : verb nat :=
  fenced_write t "terminalize_pending_sinks_with_terminal_outcomes"
    (now ← read_landscape_transaction_time;
     rows ← query (fun d => select_items sweep_before
              (fun i => in_run (tk_run_id t) i && (wi_status i == PENDING_SINK) && is_some (b_sink_name (wi_bundle i))
                        && token_decided d i) d);
     changed ← execute_many (fun e : string * work_item =>
       update_item e.1
         (fun i => in_run (tk_run_id t) i && (wi_status i == PENDING_SINK) && is_some (b_sink_name (wi_bundle i)))
         (terminalize now (k_token_id (wi_key e.2)))) rows;
     refuse negb (changed =? length rows)%nat with AuditIntegrityError "refusing partial repair" ;;
     _ ← record_many (map (terminal_event caller_owner now) rows);
     mret changed).
End scheduler.
