(* ===== verification/Emissions.v ===== *)
(** * Emissions: verbs that put new work into the queue together with other writes

    [BarrierEmission] of [contracts/scheduler.py], the dispositions of
    [dispositions.py] that enqueue children in the same transaction, the two
    ingest verbs of [queue.py] and the fresh pending-sink rows of
    [work_items.py], and the adoption of group losses of [group_losses.py].

    The recorders of rows, tokens, node states and routing events that an
    ingest runs in its transaction are parameters: transactions of their own
    repositories. *)

From S2P Require Import Prelude Enums Outcomes Landscape Coordination Scheduler.
Open Scope Z_scope.

(** [BarrierEmission]. *)
Record BarrierEmission := mkEmission {
  be_token_id : string;
  be_row_payload : row_payload;
  be_bundle : sink_bundle;
  be_row_id : option string;
  be_node_id : option string;
  be_step_index : option Z;
  be_ingest_sequence : option Z;
  be_queue_key : option string;
  be_barrier_key : option string;
  be_on_success_sink : option string;
  be_join_group_id : option string;
  be_lineage_path : string;
  be_coalesce_node_id : option string;
  be_coalesce_name : option string;
  be_row_union_name : option string;
  be_collector_name : option string;
  be_attempt : Z;
}.

(** The key of the row that an emission becomes. *)
Definition emission_key (run_id : string) (e : BarrierEmission) (row_id : string) (node_id : option string)
    (step_index ingest_sequence : Z) : work_key :=
  mkWorkKey run_id (be_token_id e) row_id node_id step_index ingest_sequence (be_on_success_sink e)
    (be_join_group_id e) (be_lineage_path e) (be_coalesce_node_id e) (be_coalesce_name e) (be_row_union_name e)
    (be_collector_name e).

(** A row to insert, with its event. *)
Definition prepared : Type := (string * work_item) * SchedulerEventRecord.

Fixpoint map_txn {A B} (f : A -> txn B) (l : list A) : txn (list B) :=
  match l with
  | [] => mret []
  | a :: l => b ← f a; bs ← map_txn f l; mret (b :: bs)
  end.

Section emissions.
Context `{Env}.

(** [_prepare_ready_emission_on]. *)
Definition prepare_ready_emission_on (run_id : string) (e : BarrierEmission) : txn prepared :=
  match be_row_id e, be_step_index e, be_ingest_sequence e with
  | Some row_id, Some step_index, Some ingest_sequence =>
      let k := emission_key run_id e row_id (be_node_id e) step_index ingest_sequence in
      let id := work_item_id run_id (be_token_id e) (be_node_id e) (be_attempt e) in
      _ ← validate_work_item_references k;
      available_at ← read_landscape_transaction_time;
      mret ((id, ready_work_item_values k (be_row_payload e) (be_queue_key e) (be_barrier_key e) (be_attempt e) available_at),
            enqueue_event id k (be_attempt e) available_at)
  | _, _, _ => raise (AuditIntegrityError "requires row_id, step_index and ingest_sequence")
  end.

(** The events of the children by id, a later one in the place of an earlier one. *)
Definition events_by_id (children : list prepared) : list (string * SchedulerEventRecord) :=
  foldl (fun d c => dict_set d (se_work_item_id c.2) c.2) [] children.

(** [_transition_with_ready_children]: the children are enqueued and the
    parent's lease is spent in one transaction. *)
Definition transition_with_ready_children (m : WorkerMembershipToken) (id : string) (emitted : list BarrierEmission)
    (expected_owner : string) (im : DispositionImage) (losses : list GroupLossSpec) (require_bundle : bool)
  : verb ((string * work_item) * list (string * work_item)) := fun en =>
  if bool_decide (length emitted = 0%nat)
  then (Err (ValueError "atomic child disposition requires at least one READY emission"), en)
  else if negb (expected_owner == m_worker_id m)
  then (Err (ValueError "disposition lease owner must match membership token"), en)
  else
    fenced_member_transaction m "_transition_with_ready_children"
      (children ← map_txn (prepare_ready_emission_on (m_run_id m)) emitted;
       inserted ← insert_work_items_idempotent (map fst children);
       _ ← record_many (map snd (filter (fun e : string * SchedulerEventRecord => bool_decide (e.1 ∈ inserted))
                                   (events_by_id children)));
       child_rows ← map_txn (fun c : prepared =>
         row ← query (fun d => row_in_run d (se_work_item_id c.2) (m_run_id m));
         match row with
         | Some i => mret (se_work_item_id c.2, i)
         | None => raise (KeyError "rows_by_id")
         end) children;
       parent ← transition_on m id im losses require_bundle;
       mret (parent, child_rows)) en.

Definition mark_terminal_with_ready_children (m : WorkerMembershipToken) (id : string) (emitted : list BarrierEmission)
    (owner : string) (losses : list GroupLossSpec) :=
  transition_with_ready_children m id emitted owner (TerminalImage (scrubbed_row_payload_json id)) losses false.

Definition mark_failed_with_ready_children (m : WorkerMembershipToken) (id : string) (emitted : list BarrierEmission)
    (owner : string) (losses : list GroupLossSpec) :=
  transition_with_ready_children m id emitted owner (FailedImage (scrubbed_row_payload_json id)) losses false.

Definition mark_pending_sink_with_ready_children (m : WorkerMembershipToken) (id : string)
    (emitted : list BarrierEmission) (payload : row_payload) (sink outcome path : string)
    (error_hash error_message : option string) (owner : string) (losses : list GroupLossSpec) :=
  transition_with_ready_children m id emitted owner
    (PendingSinkImage payload sink outcome path error_hash error_message owner) losses true.

(** ** Fresh rows that wait for a sink *)

(** [prepare_fresh_pending_sink_item]. *)
Definition prepare_fresh_pending_sink_item (run_id : string) (e : BarrierEmission)
    (context : list (string * context_value)) (database_now : Z) (parked_lease_owner : option string) : txn prepared :=
  refuse is_some (be_node_id e) with AuditIntegrityError "fresh sink-bound emissions live on the terminal lane" ;;
  match be_row_id e, be_step_index e, be_ingest_sequence e with
  | Some row_id, Some step_index, Some ingest_sequence =>
      let k := emission_key run_id e row_id None step_index ingest_sequence in
      let id := work_item_id run_id (be_token_id e) None (be_attempt e) in
      _ ← validate_work_item_references k;
      mret ((id, mkItem k (be_row_payload e) PENDING_SINK (be_queue_key e) (be_barrier_key e) (be_bundle e) (be_attempt e)
                   parked_lease_owner None database_now None None database_now database_now),
            mkSchedulerEvent MARK_PENDING_SINK run_id (be_token_id e) id None None PENDING_SINK None parked_lease_owner
              None (be_attempt e) database_now None None None context)
  | _, _, _ => raise (AuditIntegrityError "requires row_id, step_index and ingest_sequence")
  end.

(** [_park_source_quarantine_on]. *)
Definition park_source_quarantine_on (run_id : string) (e : BarrierEmission) (parked_lease_owner : string)
  : txn (string * work_item) :=
  now ← read_landscape_transaction_time;
  row ← prepare_fresh_pending_sink_item run_id e [("reason", CtxStr "source_quarantine_ingest")] now
          (Some parked_lease_owner);
  _ ← insert_work_items [row.1];
  _ ← record_many [row.2];
  parked ← query (fun d => items d !! row.1.1);
  match parked with
  | None => raise (RuntimeError "NoResultFound")
  | Some i =>
      refuse negb (pending_sink_bundle_clause i) with AuditIntegrityError "parked an incomplete durable sink bundle" ;;
      mret (row.1.1, i)
  end.

(** ** Ingest *)
Section ingest.
(** [insert_row_with_token_on], which returns the ids of the row and the token
    it recorded, and the other audit records of the same transaction. *)
Context (insert_row_with_token : txn (string * string)) (record_states : txn unit).

(** [ingest_row_with_initial_claim]: [k] carries the ids of the source spec. *)
Definition ingest_row_with_initial_claim (t : CoordinationToken) (k : work_key) (payload : row_payload)
    (queue_key barrier_key : option string) (lease_owner : string) (lease : Z) : verb (string * work_item) := fun en =>
  if negb (lease_owner == tk_worker_id t)
  then (Err (ValueError "ingest lease owner must match coordination token"), en)
  else
    fenced_leader_transaction t DEFAULT_RUN_LIVENESS_WINDOW "ingest_row_with_initial_claim"
      (recorded ← insert_row_with_token;
       refuse negb (recorded.1 == k_row_id k) || negb (recorded.2 == k_token_id k)
         with AuditIntegrityError "row/token identities differ from the SourceIngestSpec" ;;
       _ ← record_states;
       enqueue_ready_claimed_on (tk_run_id t) k payload queue_key barrier_key 1 lease_owner lease None) en.

(** [ingest_quarantine_row_with_pending_sink]: a quarantined source row goes
    straight to its sink. *)
Definition ingest_quarantine_row_with_pending_sink (t : CoordinationToken) (row_id token_id : string)
    (ingest_sequence : Z) (source_state_id divert_state_id : string) (e : BarrierEmission)
  : verb (string * work_item) := fun en =>
  if negb (be_token_id e == token_id) || negb (be_row_id e == Some row_id)
     || negb (be_ingest_sequence e == Some ingest_sequence)
     || negb (b_outcome (be_bundle e) == Some (outcome_value FAILURE))
     || negb (b_path (be_bundle e) == Some (path_value QUARANTINED_AT_SOURCE))
  then (Err (AuditIntegrityError "pending-sink image does not describe this source row"), en)
  else if negb (divert_state_id == source_state_id)
  then (Err (AuditIntegrityError "DIVERT event does not belong to the source state"), en)
  else
    fenced_leader_transaction t DEFAULT_RUN_LIVENESS_WINDOW "ingest_quarantine_row_with_pending_sink"
      (recorded ← insert_row_with_token;
       refuse negb (recorded.1 == row_id) || negb (recorded.2 == token_id)
         with AuditIntegrityError "row/token identities differ from the SourceIngestSpec" ;;
       _ ← record_states;
       park_source_quarantine_on (tk_run_id t) e (tk_worker_id t)) en.
End ingest.

(** ** Adoption of group losses *)
(** [authenticate_adoption_loss]: the lost member is one that the group minted. *)
Definition authenticate_adoption_loss (run_id : string) (s : GroupLossSpec) (kind : FrameKind)
    (declared_roster : option (list string)) : txn unit :=
  let refused := AuditIntegrityError "no durable roster authority witness" in
  match kind with
  | FORK =>
      match declared_roster with
      | None => raise (AuditIntegrityError "supplied no declared roster")
      | Some roster => refuse negb (bool_decide (ls_member_key s ∈ roster)) with refused ;; mret tt
      end
  | EXPAND =>
      d ← query (fun d => d);
      refuse negb (bool_decide ((run_id, ls_group_id s, ls_member_key s) ∈ lineage_frames (lineage d))) with refused ;;
      mret tt
  end.

(** [stage_escalation_loss]: was the loss new? *)
Definition stage_escalation_loss (t : CoordinationToken) (s : GroupLossSpec) (kind : FrameKind)
    (declared_roster : option (list string)) (recorded_by : string) : verb bool :=
  fenced_leader_transaction t DEFAULT_RUN_LIVENESS_WINDOW "stage_escalation_loss"
    (_ ← authenticate_adoption_loss (tk_run_id t) s kind declared_roster;
     now ← read_landscape_transaction_time;
     n ← record_group_losses (tk_run_id t) [s] recorded_by now;
     mret (bool_decide (n = 1%nat))).

(** [adopt_group_losses]: each loss is adopted once. *)
Definition adopt_loss (run_id loss_id : string) (epoch : Z) : txn nat := fun c =>
  let hit (e : (string * string * string * string) * group_loss) :=
    (e.1.1.1.1 == run_id) && (gl_loss_id e.2 == loss_id) && is_none (gl_adopted_epoch e.2) in
  (Ok (length (filter (fun e => hit e) (map_to_list (group_losses (c_db c))))),
   mkConn (set_group_losses (c_db c)
     (map_imap (fun k l => Some (if hit (k, l)
                                 then mkGroupLoss (gl_token_id l) (gl_reason l) (gl_recorded_by l) (gl_recorded_at l)
                                        (gl_loss_id l) (Some epoch)
                                 else l)) (group_losses (c_db c)))) (c_issued c) (c_tick c)).

Definition adopt_group_losses (t : CoordinationToken) (loss_ids : list string) : verb nat := fun en =>
  if bool_decide (loss_ids = []) then (Ok 0%nat, en)
  else
    fenced_leader_transaction t DEFAULT_RUN_LIVENESS_WINDOW "adopt_group_losses"
      (marked ← map_txn (fun id => adopt_loss (tk_run_id t) id (tk_leader_epoch t)) loss_ids;
       mret (foldr Nat.add 0%nat marked)) en.
End emissions.
