(* ===== verification/Barrier.v ===== *)
(** * Barrier: the barrier journal

    [core/landscape/scheduler/barrier.py]: the atomic completion of a barrier
    (consume BLOCKED rows, hand others to their sink, emit new work), its two
    partial-release wrappers, adoption of held rows by a leader, and the reads
    of the holds; with [record_terminal_outcomes_guarded] and
    [record_buffered_outcome_guarded] of [data_flow/outcomes.py] and
    [add_batch_member_guarded] of [execution/batches.py]. *)

From S2P Require Import Prelude Enums Outcomes AuditDerive Landscape Coordination Scheduler Emissions.
Open Scope Z_scope.

(** ** Outcomes and batches written with a barrier *)

(** [BarrierTerminalOutcomeSpec]. *)
Record BarrierTerminalOutcomeSpec := mkOutcomeSpec {
  os_token_id : string;
  os_outcome : TerminalOutcome;
  os_path : TerminalPath;
  os_error_hash : option string;
}.

(** [_validate_outcome_fields]. *)
Definition validate_outcome_fields (t : TokenOutcome) : res unit :=
  match constraints_of (to_pair t) with
  | None => Err (ValueError "Unhandled (outcome, path) pair")
  | Some k =>
      reject existsb (fun f => is_none (field_value t f)) (required k) with ValueError "required field is NULL" ;;
      reject existsb (fun fv => negb (field_value t fv.1 == Some fv.2)) (exact k)
        with ValueError "field has not its exact value" ;;
      reject existsb (fun f => is_some (field_value t f)) (forbidden k) with ValueError "forbidden field is set" ;;
      Ok tt
  end.

Definition spec_outcome (s : BarrierTerminalOutcomeSpec) : TokenOutcome :=
  mkTokenOutcome (os_token_id s) (Some (os_outcome s)) (os_path s) true None None (os_error_hash s).

(** One terminal outcome: the token exists, has none yet, and its error hash
    is sixteen lowercase hex digits. *)
Definition insert_terminal_outcome (run_id : string) (s : BarrierTerminalOutcomeSpec) : txn unit :=
  d ← query (fun d => d);
  refuse is_none (token_rows (lineage d) !! (run_id, os_token_id s))
         || existsb (fun x : string * string => x.2 == os_token_id s) (elements (decided_tokens (lineage d)))
         || match os_error_hash s with Some h => negb (is_hex16 h) | None => false end
    with LandscapeRecordError "database rejected audit write" ;;
  exec (fun d => set_lineage d (set_decided (lineage d) ({[ (run_id, os_token_id s) ]} ∪ decided_tokens (lineage d)))).

(** [record_terminal_outcomes_guarded]. *)
Definition record_terminal_outcomes_guarded (run_id : string) (outcomes : list BarrierTerminalOutcomeSpec) : txn unit :=
  _ ← for_each (fun s => lift (validate_outcome_fields (spec_outcome s))) outcomes;
  for_each (insert_terminal_outcome run_id) outcomes.

(** [add_batch_member_guarded]: membership changes only while the batch is a
    draft of the same run. *)
Definition add_batch_member_guarded (batch_id token_id : string) (ordinal : Z) (expected_run_id : string) : txn unit :=
  d ← query (fun d => d);
  match batches (lineage d) !! batch_id with
  | None => raise (AuditIntegrityError "batch not found")
  | Some (run_id, status) =>
      refuse negb (run_id == expected_run_id) with AuditIntegrityError "batch belongs to another run" ;;
      refuse negb (status == "draft") with AuditIntegrityError "batch membership is immutable outside status 'draft'" ;;
      refuse is_none (token_rows (lineage d) !! (run_id, token_id)) with AuditIntegrityError "token outside the batch's run" ;;
      refuse is_some (batch_members (lineage d) !! (batch_id, token_id))
             || existsb (fun e : (string * string) * Z => (e.1.1 == batch_id) && (e.2 =? ordinal))
                  (map_to_list (batch_members (lineage d)))
        with IntegrityError "batch_members" ;;
      exec (fun d => set_lineage d (set_members (lineage d) (<[(batch_id, token_id) := ordinal]> (batch_members (lineage d)))))
  end.

Section barrier.
Context `{Env}.

(** [record_buffered_outcome_guarded]: the id of the outcome. *)
Definition record_buffered_outcome_guarded (run_id token_id batch_id : string) (recorded_at : Z) : txn string :=
  _ ← lift (validate_outcome_fields (mkTokenOutcome token_id None BUFFERED false None (Some batch_id) None));
  d ← query (fun d => d);
  refuse is_none (token_rows (lineage d) !! (run_id, token_id))
         || negb (match batches (lineage d) !! batch_id with Some b => b.1 == run_id | None => false end)
    with LandscapeRecordError "database rejected audit write" ;;
  _ ← exec (fun d => set_lineage d
        (set_buffered (lineage d) (buffered_outcomes (lineage d) ++ [(run_id, token_id, batch_id, recorded_at)])));
  mret ("out_" ++ String.substring 0 12 (generate_id (length (buffered_outcomes (lineage d)))))%string.

(** ** Completion *)

Definition held (run_id barrier_key : string) (scope : option string) (i : work_item) : bool :=
  in_run run_id i && (wi_barrier_key i == Some barrier_key) && (wi_status i == BLOCKED)
  && match scope with Some r => k_row_id (wi_key i) == r | None => true end.

Definition held_as (run_id barrier_key token_id : string) (i : work_item) : bool :=
  in_run run_id i && (wi_barrier_key i == Some barrier_key) && (wi_status i == BLOCKED)
  && (k_token_id (wi_key i) == token_id).

Definition token_of (e : string * work_item) : string := k_token_id (wi_key e.2).

Definition rows_of_token (rows : list (string * work_item)) (token_id : string) : list (string * work_item) :=
  filter (fun e => token_of e == token_id) rows.

(** The checks before the transaction. *)
Definition check_completion (consumed : list string) (pending ready : list BarrierEmission) (exhaustive : bool)
    (scope : option string) (snapshot : option (list string)) (outcomes : list BarrierTerminalOutcomeSpec) : res unit :=
  reject is_some scope && negb exhaustive with AuditIntegrityError "scope_row_id on the partial-release arm" ;;
  reject is_some snapshot && negb exhaustive with AuditIntegrityError "intake snapshot on the partial-release arm" ;;
  reject first_duplicate consumed with AuditIntegrityError "duplicate live token_ids" ;;
  reject first_duplicate (map be_token_id pending) with AuditIntegrityError "duplicate pending-sink emissions" ;;
  reject first_duplicate (map be_token_id ready) with AuditIntegrityError "duplicate ready emissions" ;;
  reject first_duplicate (map os_token_id outcomes) with AuditIntegrityError "duplicate terminal outcomes" ;;
  reject existsb (fun s => negb (bool_decide (os_token_id s ∈ consumed))) outcomes
    with AuditIntegrityError "terminal outcomes outside its consumed set" ;;
  reject existsb (fun e => bool_decide (be_token_id e ∈ consumed)) pending
    with AuditIntegrityError "token_ids both consumed and emitted to pending-sink" ;;
  reject existsb (fun e => is_none (b_sink_name (be_bundle e)) || is_none (b_outcome (be_bundle e))
                           || is_none (b_path (be_bundle e))) pending
    with AuditIntegrityError "pending-sink emission requires sink_name, outcome and path" ;;
  reject match snapshot with
         | Some snap => existsb (fun t => negb (bool_decide (t ∈ snap))) consumed
         | None => false
         end with AuditIntegrityError "consumed token(s) outside its own intake snapshot" ;;
  reject match scope with
         | Some r => existsb (fun e => match be_row_id e with Some x => negb (x == r) | None => false end) (pending ++ ready)
         | None => false
         end with AuditIntegrityError "emission outside the scoped pending group" ;;
  Ok tt.

(** [_terminalize_consumed_barrier_rows]. *)
Definition by_token_and_id (a b : string * work_item) : bool :=
  if negb (token_of a == token_of b) then String.leb (token_of a) (token_of b) else String.leb a.1 b.1.

Definition barrier_event (type : SchedulerEventType) (run_id : string) (e : string * work_item) (status : TokenWorkStatus)
    (owner : option string) (now : Z) (context : list (string * context_value)) : SchedulerEventRecord :=
  mkSchedulerEvent type run_id (token_of e) e.1 (k_node_id (wi_key e.2)) (Some BLOCKED) status (wi_lease_owner e.2) owner
    (Some (wi_attempt e.2)) (wi_attempt e.2) now (wi_lease_expires_at e.2) None None context.

Definition terminalize_consumed_barrier_rows (run_id barrier_key : string) (consumed : list string)
    (blocked_rows : list (string * work_item)) (now : Z) (release_context : list (string * context_value)) : txn nat :=
  let candidates := sort_by by_token_and_id (filter (fun e => bool_decide (token_of e ∈ consumed)) blocked_rows) in
  if bool_decide (candidates = []) then mret 0%nat
  else
    terminalized ← execute_many (fun e : string * work_item =>
      update_item e.1 (held_as run_id barrier_key (token_of e)) (terminalize now barrier_key)) candidates;
    refuse negb (terminalized =? length consumed)%nat || negb (terminalized =? length candidates)%nat
      with AuditIntegrityError "Scheduler barrier terminalization mismatch" ;;
    _ ← record_many (map (fun e => barrier_event MARK_BLOCKED_BARRIER_TERMINAL run_id e TERMINAL None now
          (foldl (fun d kv => dict_set d kv.1 kv.2) [("barrier_key", CtxStr barrier_key)] release_context)) candidates);
    mret terminalized.

(** An SQLAlchemy error of a statement, reported as a record error. *)
Definition rejecting {A} (m : txn A) : txn A := fun c =>
  match m c with
  | (Err (IntegrityError _), c) => (Err (LandscapeRecordError "database rejected audit write"), c)
  | r => r
  end.

Definition emission_of (emissions : list BarrierEmission) (token_id : string) : option BarrierEmission :=
  head (filter (fun e => be_token_id e == token_id) emissions).

(** The handoff of one BLOCKED row to its sink. *)
Definition hand_off (e : option BarrierEmission) (owner : option string) (now : Z) (i : work_item) : work_item :=
  match e with
  | Some e =>
      mkItem (wi_key i) (be_row_payload e) PENDING_SINK (wi_queue_key i) (wi_barrier_key i) (be_bundle e) (wi_attempt i)
        owner None (wi_available_at i) (wi_barrier_blocked_at i) (wi_barrier_adopted_epoch i) (wi_created_at i) now
  | None => i
  end.

(** [_transition_passthrough_pending_sink]; the emissions have distinct tokens. *)
Definition transition_passthrough_pending_sink (run_id barrier_key : string) (blocked_rows : list (string * work_item))
    (passthrough : list BarrierEmission) (context : list (string * context_value)) (now : Z) (owner : option string)
  : txn unit :=
  if bool_decide (length passthrough = 0%nat) then mret tt
  else
    let candidates := filter (fun e => is_some (emission_of passthrough (token_of e))) blocked_rows in
    transitioned ← rejecting (execute_many (fun e : string * work_item =>
      update_item e.1 (held_as run_id barrier_key (token_of e)) (hand_off (emission_of passthrough (token_of e)) owner now))
      candidates);
    refuse negb (transitioned =? length passthrough)%nat
      with AuditIntegrityError "Scheduler barrier pending-sink handoff mismatch" ;;
    record_many (map (fun e => barrier_event MARK_PENDING_SINK run_id e PENDING_SINK owner now context) candidates).

(** [_prepare_ready_emission]. *)
Definition prepare_ready_emission (run_id : string) (context : list (string * context_value)) (now claim_order_at : Z)
    (e : BarrierEmission) : txn prepared :=
  match be_row_id e, be_step_index e, be_ingest_sequence e with
  | Some row_id, Some step_index, Some ingest_sequence =>
      let k := emission_key run_id e row_id (be_node_id e) step_index ingest_sequence in
      let id := work_item_id run_id (be_token_id e) (be_node_id e) (be_attempt e) in
      _ ← validate_work_item_references k;
      available_at ← read_landscape_transaction_time;
      mret ((id, mkItem k (be_row_payload e) READY (be_queue_key e) (be_barrier_key e) no_bundle (be_attempt e) None None
                   available_at None None claim_order_at available_at),
            mkSchedulerEvent ENQUEUE run_id (be_token_id e) id (be_node_id e) None READY None None None (be_attempt e)
              now None None None context)
  | _, _, _ => raise (AuditIntegrityError "requires row_id, step_index and ingest_sequence")
  end.

(** The emissions in the order in which claims shall take them. *)
Fixpoint prepare_ready_emissions (run_id : string) (context : list (string * context_value)) (now : Z)
    (l : list BarrierEmission) : txn (list prepared) :=
  match l with
  | [] => mret []
  | e :: l =>
      p ← prepare_ready_emission run_id context now (now - Z.of_nat (length l)) e;
      ps ← prepare_ready_emissions run_id context now l;
      mret (p :: ps)
  end.

(** Which pending-sink emissions release a held row, and which are fresh. *)
Fixpoint split_emissions (exhaustive : bool) (rows : list (string * work_item)) (l : list BarrierEmission)
  : res (list BarrierEmission * list BarrierEmission) :=
  match l with
  | [] => Ok ([], [])
  | e :: l =>
      match rows_of_token rows (be_token_id e) with
      | [] =>
          reject negb exhaustive with AuditIntegrityError "refusing partial sink handoff" ;;
          '(pass, fresh) ← split_emissions exhaustive rows l;
          Ok (pass, e :: fresh)
      | [_] =>
          '(pass, fresh) ← split_emissions exhaustive rows l;
          Ok (e :: pass, fresh)
      | _ => Err (AuditIntegrityError "expected exactly one")
      end
  end.

(** The checks of a completion against the held rows, and the context of its
    events. *)
Definition check_release (bk : string) (consumed : list string) (exhaustive : bool) (snapshot : option (list string))
    (rows : list (string * work_item)) (passthrough : list BarrierEmission) : res (list (string * context_value)) :=
  let durable := map token_of rows in
  let base := [("barrier_key", CtxStr bk)] ++ (if exhaustive then [("consumed_count", CtxInt (Z.of_nat (length consumed)))] else []) in
  if negb exhaustive then Ok base
  else
    let handed := map be_token_id passthrough in
    let inside t := match snapshot with Some snap => bool_decide (t ∈ snap) | None => true end in
    reject existsb (fun t => negb (inside t)) handed
      with AuditIntegrityError "handed off buffered token(s) outside its own intake snapshot" ;;
    reject existsb (fun t => inside t && negb (bool_decide (t ∈ consumed)) && negb (bool_decide (t ∈ handed))) durable
      with AuditIntegrityError "durable BLOCKED rows hold token(s) neither consumed nor handed off" ;;
    let late := sort_by String.leb (remove_dups (filter (fun t => negb (inside t)) durable)) in
    Ok (base ++ (if bool_decide (late = []) then [] else [("late_arrival_token_ids", CtxList late)])).

(** The checks of the outcomes against the tokens. *)
Definition check_outcomes (run_id : string) (outcomes : list BarrierTerminalOutcomeSpec) (d : landscape) : res unit :=
  reject existsb (fun s => is_none (token_rows (lineage d) !! (run_id, os_token_id s))) outcomes
    with AuditIntegrityError "terminal outcome for a missing or foreign token" ;;
  reject existsb (fun s => bool_decide ((run_id, os_token_id s) ∈ decided_tokens (lineage d))) outcomes
    with AuditIntegrityError "would duplicate terminal outcomes" ;;
  Ok tt.

(** The transaction of [complete_barrier]. *)
Definition complete_barrier_on (run_id worker_id barrier_key : string) (consumed : list string)
    (pending ready : list BarrierEmission) (exhaustive : bool) (scope : option string) (snapshot : option (list string))
    (release_context : list (string * context_value)) (owner : option string) (losses : list GroupLossSpec)
    (outcomes : list BarrierTerminalOutcomeSpec) : txn nat :=
  now ← read_landscape_transaction_time;
  d ← query (fun d => d);
  _ ← lift (check_outcomes run_id outcomes d);
  let rows := select_items sweep_before (held run_id barrier_key scope) d in
  let durable := map token_of rows in
  refuse existsb (fun x => negb (bool_decide (x ∈ durable))) consumed
    with AuditIntegrityError "Scheduler barrier terminalization mismatch: missing token_ids" ;;
  refuse match snapshot with
         | Some snap => existsb (fun x => negb (bool_decide (x ∈ durable))) snap
         | None => false
         end with AuditIntegrityError "intake snapshot token(s) with no durable BLOCKED row under the barrier" ;;
  split ← lift (split_emissions exhaustive rows pending);
  context ← lift (check_release barrier_key consumed exhaustive snapshot rows split.1);
  terminalized ← terminalize_consumed_barrier_rows run_id barrier_key consumed rows now release_context;
  _ ← record_terminal_outcomes_guarded run_id outcomes;
  _ ← transition_passthrough_pending_sink run_id barrier_key rows split.1 context now owner;
  fresh ← map_txn (fun e => prepare_fresh_pending_sink_item run_id e context now owner) split.2;
  ready_rows ← prepare_ready_emissions run_id context now ready;
  _ ← insert_work_items (map fst (fresh ++ ready_rows));
  _ ← record_many (map snd (fresh ++ ready_rows));
  _ ← record_group_losses run_id losses worker_id now;
  mret terminalized.

(** [complete_barrier]. *)
Definition complete_barrier (t : CoordinationToken) (barrier_key : string) (consumed : list string)
    (pending ready : list BarrierEmission) (exhaustive : bool) (scope : option string) (snapshot : option (list string))
    (release_context : list (string * context_value)) (owner : option string) (losses : list GroupLossSpec)
    (outcomes : list BarrierTerminalOutcomeSpec) : verb nat := fun en =>
  match check_completion consumed pending ready exhaustive scope snapshot outcomes with
  | Err e => (Err e, en)
  | Ok _ =>
      fenced_write t "complete_barrier"
        (complete_barrier_on (tk_run_id t) (tk_worker_id t) barrier_key consumed pending ready exhaustive scope snapshot
           release_context owner losses outcomes) en
  end.

(** [mark_blocked_barrier_pending_sink_many]; the handoffs are by token. *)
Definition handoff_emission (h : string * (row_payload * sink_bundle)) : BarrierEmission :=
  mkEmission h.1 h.2.1 h.2.2 None None None None None None None None "" None None None None 1.

Definition mark_blocked_barrier_pending_sink_many (t : CoordinationToken) (barrier_key : string)
    (handoffs : list (string * (row_payload * sink_bundle))) (owner : option string) : verb nat := fun en =>
  if bool_decide (length handoffs = 0%nat) then (Ok 0%nat, en)
  else
    match complete_barrier t barrier_key [] (map handoff_emission handoffs) [] false None None [] owner [] [] en with
    | (Ok _, en) => (Ok (length handoffs), en)
    | r => r
    end.

(** [mark_blocked_barrier_terminal]. *)
Definition mark_blocked_barrier_terminal (t : CoordinationToken) (barrier_key : string) (token_ids : list string)
    (release_context : list (string * context_value)) (losses : list GroupLossSpec) : verb nat := fun en =>
  if bool_decide (token_ids = []) then (Err (AuditIntegrityError "requires at least one live token_id"), en)
  else complete_barrier t barrier_key token_ids [] [] false None None release_context None losses [] en.

(** ** Adoption *)
Record BatchMembershipSpec := mkMembership { ms_batch_id : string; ms_ordinal : Z }.

Record BarrierAdoptionResult := mkAdoption {
  ad_adopted : bool;
  ad_epoch : Z;
  ad_outcome_id : option string;
}.

Definition set_adopted (epoch : option Z) (now : Z) (i : work_item) : work_item :=
  mkItem (wi_key i) (wi_row_payload i) (wi_status i) (wi_queue_key i) (wi_barrier_key i) (wi_bundle i) (wi_attempt i)
    (wi_lease_owner i) (wi_lease_expires_at i) (wi_available_at i) (wi_barrier_blocked_at i) epoch (wi_created_at i) now.

(** [adopt_blocked_barrier_item]: the leader's epoch marks the hold once; an
    aggregation also records the membership and the BUFFERED outcome, dated
    back to the arrival. *)
Definition adopt_blocked_barrier_item (t : CoordinationToken) (id token_id barrier_key : string)
    (membership : option BatchMembershipSpec) (buffered_batch : option string) : verb BarrierAdoptionResult := fun en =>
  let run_id := tk_run_id t in
  let epoch := tk_leader_epoch t in
  if negb (Bool.eqb (is_none membership) (is_none buffered_batch))
  then (Err (AuditIntegrityError "the aggregation arm requires BOTH specs and the coalesce arm NEITHER"), en)
  else if match membership, buffered_batch with Some ms, Some b => negb (ms_batch_id ms == b) | _, _ => false end
  then (Err (AuditIntegrityError "one adoption belongs to exactly one batch"), en)
  else
    fenced_leader_transaction t DEFAULT_RUN_LIVENESS_WINDOW "adopt_blocked_barrier_item"
      (now ← read_landscape_transaction_time;
       changed ← update_item id
         (fun i => held_as run_id barrier_key token_id i && is_none (wi_barrier_adopted_epoch i))
         (set_adopted (Some epoch) now);
       d ← query (fun d => d);
       if negb changed then
         match row_in_run d id run_id with
         | Some i =>
             match wi_barrier_adopted_epoch i with
             | Some e =>
                 refuse negb (held_as run_id barrier_key token_id i) with AuditIntegrityError "journal corruption" ;;
                 mret (mkAdoption false e None)
             | None => raise (AuditIntegrityError "journal corruption")
             end
         | None => raise (AuditIntegrityError "journal corruption")
         end
       else
         _ ← match membership with
             | Some ms => add_batch_member_guarded (ms_batch_id ms) token_id (ms_ordinal ms) run_id
             | None => mret tt
             end;
         outcome_id ← match buffered_batch with
                      | Some b =>
                          match items d !! id ≫= wi_barrier_blocked_at with
                          | Some blocked_at =>
                              o ← record_buffered_outcome_guarded run_id token_id b blocked_at;
                              mret (Some o)
                          | None => raise (AuditIntegrityError "no barrier_blocked_at arrival stamp")
                          end
                      | None => mret None
                      end;
         mret (mkAdoption true epoch outcome_id)) en.

(** [reset_adoption_marker_to_pending]: a restore may hand the holds back. *)
Definition reset_adoption_marker_to_pending (t : CoordinationToken) (ids : list string) : verb nat := fun en =>
  if bool_decide (ids = []) then (Ok 0%nat, en)
  else
    fenced_leader_transaction t DEFAULT_RUN_LIVENESS_WINDOW "reset_adoption_marker_to_pending"
      (execute_many (fun id => update_item id
         (fun i => in_run (tk_run_id t) i && (wi_status i == BLOCKED))
         (fun i => set_adopted None (wi_updated_at i) i)) (remove_dups ids)) en.

(** ** Reads *)

(** [blocked_barrier_hold_clause]. *)
Definition blocked_barrier_hold_clause (i : work_item) : bool := (wi_status i == BLOCKED) && is_some (wi_barrier_key i).

Definition by_barrier (a b : string * work_item) : bool :=
  let ka := default "" (wi_barrier_key a.2) in
  let kb := default "" (wi_barrier_key b.2) in
  if negb (ka == kb) then String.leb ka kb
  else if negb (k_ingest_sequence (wi_key a.2) =? k_ingest_sequence (wi_key b.2))
  then k_ingest_sequence (wi_key a.2) <? k_ingest_sequence (wi_key b.2)
  else String.leb a.1 b.1.

Definition list_blocked_barrier_items (run_id : string) : verb (list (string * work_item)) :=
  read_only (query (select_items by_barrier (fun i => in_run run_id i && blocked_barrier_hold_clause i))).

Definition count_blocked_barrier_items (run_id : string) : verb nat :=
  read_only (query (fun d => length (filter (fun e : string * work_item => in_run run_id e.2 && blocked_barrier_hold_clause e.2)
                                       (map_to_list (items d))))).

Definition list_pending_blocked_barrier_items (run_id : string) : verb (list (string * work_item)) :=
  read_only (query (select_items by_barrier
    (fun i => in_run run_id i && blocked_barrier_hold_clause i && is_none (wi_barrier_adopted_epoch i)))).
End barrier.
