(* ===== verification/Lifecycle.v ===== *)
(** * Lifecycle: the abstract machine of a work item

    What the queue promises, without transactions, fences or SQL: the legal
    edges between the states of one row, the moves of the table that they
    induce, and what every sequence of moves guarantees.  [SchedulerTheory]
    proves that each verb of the scheduler performs such moves. *)

From S2P Require Import Prelude Enums Outcomes Landscape Scheduler Emissions Barrier.
Open Scope Z_scope.

Section lifecycle.
Context `{Env}.

(** A row that keeps its id.  A leader adopts a held row that no leader has
    adopted; the marker is cleared only where [reset] allows it. *)
Inductive legal (reset : Prop) : work_item -> work_item -> Prop :=
  | legal_claim i owner expires now :
      wi_status i = READY -> legal reset i (set_lease LEASED (Some owner) (Some expires) now i)
  | legal_redrive i owner expires now :
      wi_status i = PENDING_SINK -> pending_sink_bundle_clause i = true ->
      legal reset i (set_lease LEASED (Some owner) (Some expires) now i)
  | legal_extend i expires now :
      wi_status i = LEASED -> legal reset i (set_lease (wi_status i) (wi_lease_owner i) (Some expires) now i)
  | legal_dispose i im decided now :
      wi_status i = LEASED -> b_sink_name (wi_bundle i) = None -> legal reset i (apply_image im decided now i)
  | legal_sink_done i anchor now :
      wi_status i = PENDING_SINK \/ wi_status i = LEASED -> is_some (b_sink_name (wi_bundle i)) = true ->
      legal reset i (terminalize now anchor i)
  | legal_release i now :
      wi_status i = LEASED -> sink_redrive_shaped i = true -> pending_sink_bundle_clause i = true ->
      legal reset i (set_lease PENDING_SINK None None now i)
  | legal_barrier_done i anchor now :
      wi_status i = BLOCKED -> legal reset i (terminalize now anchor i)
  | legal_hand_off i e owner now :
      wi_status i = BLOCKED -> legal reset i (hand_off (Some e) owner now i)
  | legal_adopt i epoch now :
      wi_status i = BLOCKED -> wi_barrier_adopted_epoch i = None -> legal reset i (set_adopted (Some epoch) now i)
  | legal_reset i now :
      reset -> wi_status i = BLOCKED -> legal reset i (set_adopted None now i).

(** A row that starts its next attempt under a fresh id. *)
Inductive rotates : work_item -> work_item -> Prop :=
  | rotates_lost i now :
      wi_status i = LEASED -> sink_redrive_shaped i = false ->
      rotates i (set_attempt (wi_attempt i + 1) (set_lease READY None None now i))
  | rotates_failed i now :
      wi_status i = WORK_FAILED ->
      rotates i (set_attempt (wi_attempt i + 1) (set_lease READY None None now i)).

(** New work: a READY row that nobody owns, or a row that waits for its sink. *)
Definition fresh_work (i : work_item) : Prop :=
  wi_lease_expires_at i = None /\
  (wi_status i = READY /\ wi_lease_owner i = None \/ wi_status i = PENDING_SINK).

(** A move of the table: rows change in place, one row changes its id to a
    free one, or new work arrives.  Only the markers of the rows [R] may be
    cleared. *)
Inductive move_within (R : string -> Prop) : gmap string work_item -> gmap string work_item -> Prop :=
  | move_update m m' :
      map_Forall2 (fun id i i' => i' = i \/ (legal (R id) i i' /\ item_row_ok i' = true)) m m' -> move_within R m m'
  | move_rotate m prior next i i' :
      m !! prior = Some i -> next = prior \/ m !! next = None -> rotates i i' -> item_row_ok i' = true ->
      move_within R m (<[next := i']> (delete prior m))
  | move_insert m id i : m !! id = None -> fresh_work i -> item_row_ok i = true -> move_within R m (<[id := i]> m).

Definition anywhere (_ : string) : Prop := True.
Definition move : gmap string work_item -> gmap string work_item -> Prop := move_within anywhere.

Lemma move_one R m id i i' : m !! id = Some i -> legal (R id) i i' -> item_row_ok i' = true -> move_within R m (<[id := i']> m).
Proof.
  intros Hi Hl Hok. apply move_update. intros k. destruct (decide (k = id)) as [->|Hk].
  - rewrite Hi, lookup_insert_eq. constructor. by right.
  - rewrite lookup_insert_ne by done. destruct (m !! k); constructor. by left.
Qed.

Lemma move_refl R m : move_within R m m.
Proof. apply move_update. intros k. destruct (m !! k); constructor. by left. Qed.

(** ** What moves preserve *)

(** The lease columns fit the status. *)
Definition lease_shape (i : work_item) : Prop :=
  match wi_status i with
  | LEASED => (exists o, wi_lease_owner i = Some o /\ o <> "") /\ is_Some (wi_lease_expires_at i)
  | PENDING_SINK => wi_lease_expires_at i = None
  | _ => wi_lease_owner i = None /\ wi_lease_expires_at i = None
  end.

Lemma row_ok_owner i : item_row_ok i = true -> wi_status i = LEASED -> exists o, wi_lease_owner i = Some o /\ o <> "".
Proof.
  unfold item_row_ok. intros Hok Hs. apply andb_true_iff in Hok as [Hok _].
  rewrite bool_decide_eq_true_2 in Hok by done. cbn in Hok. destruct (wi_lease_owner i) as [o|]; [|done].
  bool_facts. exists o. split; congruence.
Qed.

Lemma legal_shape reset i i' : legal reset i i' -> item_row_ok i' = true -> lease_shape i -> lease_shape i'.
Proof.
  intros Hl Hok Hi. pose proof (row_ok_owner _ Hok) as Ho.
  assert (forall o e now j, i' = set_lease LEASED o (Some e) now j -> lease_shape i') as Hlease.
  { intros o e now j ->. unfold lease_shape. cbn in *. split; [by apply Ho|done]. }
  destruct Hl as [| |i e now Hs|i im dec now| | | | |i epoch now Hs|i now _ Hs]; try (by eapply Hlease); try done.
  - rewrite Hs in *. by eapply Hlease.
  - destruct im; cbn; unfold lease_shape; cbn; [done|done| |done]. by destruct dec.
Qed.

Lemma rotates_shape i i' : rotates i i' -> lease_shape i'.
Proof. by destruct 1. Qed.

(** The two ways in which a row of the new table relates to the old one. *)
Lemma update_row R (m m' : gmap string work_item) id i' :
  map_Forall2 (fun id i i' => i' = i \/ (legal (R id) i i' /\ item_row_ok i' = true)) m m' -> m' !! id = Some i' ->
  exists i, m !! id = Some i /\ (i' = i \/ (legal (R id) i i' /\ item_row_ok i' = true)).
Proof. intros Hf Hi'. specialize (Hf id). rewrite Hi' in Hf. inversion Hf; subst. eauto. Qed.

Lemma updated_row R (m m' : gmap string work_item) id i :
  map_Forall2 (fun id i i' => i' = i \/ (legal (R id) i i' /\ item_row_ok i' = true)) m m' -> m !! id = Some i ->
  exists i', m' !! id = Some i' /\ (i' = i \/ (legal (R id) i i' /\ item_row_ok i' = true)).
Proof. intros Hf Hi. specialize (Hf id). rewrite Hi in Hf. inversion Hf; subst. eauto. Qed.

Definition leases_ok (m : gmap string work_item) : Prop := map_Forall (fun _ i => lease_shape i) m.

Lemma move_leases R m m' : move_within R m m' -> leases_ok m -> leases_ok m'.
Proof.
  intros Hm Hok. destruct Hm as [m m' Hf|m prior next i i' Hi _ Hr Hrow|m id i Hn [He Hf] _].
  - intros id i' Hi'. destruct (update_row _ _ _ _ _ Hf Hi') as (i & Hi & [->|[Hl Hrow]]); [by eapply Hok|].
    eapply legal_shape; [done..|by eapply Hok].
  - apply map_Forall_insert_2; [by eapply rotates_shape|]. by apply map_Forall_delete.
  - apply map_Forall_insert_2; [|done]. unfold lease_shape. destruct Hf as [[-> ->]| ->]; auto.
Qed.

(** A finished row has no legal edge. *)
Lemma terminal_stuck reset i i' : wi_status i = TERMINAL -> ~ legal reset i i' /\ ~ rotates i i'.
Proof. intros Hs. split; intros Hl; destruct Hl; rewrite Hs in *; intuition congruence. Qed.

Lemma move_terminal R m m' id i :
  move_within R m m' -> m !! id = Some i -> wi_status i = TERMINAL -> m' !! id = Some i.
Proof.
  intros Hm Hi Hs. destruct Hm as [m m' Hf|m prior next j j' Hj Hfree Hr Hrow|m id' j Hn _ _].
  - destruct (updated_row _ _ _ _ _ Hf Hi) as (i' & Hi' & [->|[Hl _]]); [done|]. by apply terminal_stuck in Hl.
  - assert (prior <> id) as Hne. { intros ->. rewrite Hi in Hj. injection Hj as <-. by apply (terminal_stuck True _ j') in Hs as [_ []]. }
    assert (next <> id) by (intros ->; destruct Hfree; congruence). by rewrite lookup_insert_ne, lookup_delete_ne.
  - rewrite lookup_insert_ne; [done|congruence].
Qed.

(** Work is known by its key, and by how often it was tried. *)
Definition has_work (k : work_key) (attempt : Z) (m : gmap string work_item) : Prop :=
  exists id i, m !! id = Some i /\ wi_key i = k /\ attempt <= wi_attempt i.

Lemma legal_key reset i i' : legal reset i i' -> wi_key i' = wi_key i /\ wi_attempt i' = wi_attempt i.
Proof. destruct 1 as [| | |i im dec now| | | | | |]; try done. destruct im; try done. by destruct dec. Qed.

Lemma rotates_key i i' : rotates i i' -> wi_key i' = wi_key i /\ wi_attempt i' = wi_attempt i + 1.
Proof. by destruct 1. Qed.

Lemma move_work R k a m m' : move_within R m m' -> has_work k a m -> has_work k a m'.
Proof.
  intros Hm (id & i & Hi & Hk & Ha). destruct Hm as [m m' Hf|m prior next j j' Hj Hfree Hr Hrow|m id' j Hn _ _].
  - destruct (updated_row _ _ _ _ _ Hf Hi) as (i' & Hi' & Hcase). exists id, i'. split; [done|].
    destruct Hcase as [->|[[-> ->]%legal_key _]]; done.
  - destruct (decide (prior = id)) as [->|Hne].
    + rewrite Hi in Hj. injection Hj as <-. apply rotates_key in Hr as [Hk' Ha']. exists next, j'. rewrite lookup_insert_eq.
      split_and!; [done|congruence|lia].
    + assert (next <> id) by (intros ->; destruct Hfree; congruence). exists id, i. by rewrite lookup_insert_ne, lookup_delete_ne.
  - exists id, i. rewrite lookup_insert_ne by congruence. done.
Qed.

(** ** The adoption marker *)

(** A row that a leader adopted at a barrier and that is still held, or has
    left for its sink, or is done. *)
Definition adopted_by (epoch : Z) (i : work_item) : Prop :=
  wi_barrier_adopted_epoch i = Some epoch /\
  match wi_status i with
  | BLOCKED | PENDING_SINK | TERMINAL => True
  | LEASED => is_some (b_sink_name (wi_bundle i)) = true
  | _ => False
  end.

Lemma bundle_sink i : pending_sink_bundle_clause i = true -> is_some (b_sink_name (wi_bundle i)) = true.
Proof. unfold pending_sink_bundle_clause. intros Hp. by bool_facts. Qed.

(** It never runs a transform again, so only a reset could clear its marker. *)
Lemma legal_adopted (reset : Prop) epoch i i' : ~ reset -> legal reset i i' -> adopted_by epoch i -> adopted_by epoch i'.
Proof.
  intros Hr Hl [He Hs]. unfold adopted_by in *. destruct Hl; repeat match goal with Hx : wi_status _ = _ |- _ => rewrite Hx in * end;
    cbn in *; try done.
  - by split; [|apply bundle_sink].
  - by destruct (b_sink_name _).
  - congruence.
Qed.

Lemma rotates_adopted epoch i i' : rotates i i' -> ~ adopted_by epoch i.
Proof.
  intros Hr [_ Hs]. destruct Hr as [i now Hl Hn|i now Hl]; rewrite Hl in Hs; [|done].
  unfold sink_redrive_shaped in Hn. by rewrite Hs in Hn.
Qed.

Lemma move_adopted R epoch m m' id i :
  ~ R id -> move_within R m m' -> m !! id = Some i -> adopted_by epoch i -> exists i', m' !! id = Some i' /\ adopted_by epoch i'.
Proof.
  intros HR Hm Hi Ha. destruct Hm as [m m' Hf|m prior next j j' Hj Hfree Hr Hrow|m id' j Hn _ _].
  - destruct (updated_row _ _ _ _ _ Hf Hi) as (i' & Hi' & [->|[Hl _]]); eauto using legal_adopted.
  - assert (prior <> id) as Hne. { intros ->. rewrite Hi in Hj. injection Hj as <-. by eapply rotates_adopted in Hr. }
    assert (next <> id) by (intros ->; destruct Hfree; congruence). exists i. by rewrite lookup_insert_ne, lookup_delete_ne.
  - exists i. rewrite lookup_insert_ne; [done|congruence].
Qed.
End lifecycle.
