(* ===== verification/SchedulerFacts.v ===== *)
(** * SchedulerFacts: how the scheduler's statements act on the queue

    What a fence leaves alone, what each statement does to the work items, and
    the replay of the event log: the lemmas from which [SchedulerReplay] and
    [SchedulerTheory] prove their properties of the verbs. *)

From S2P Require Import Prelude Enums Outcomes Landscape Coordination CoordinationTheory Scheduler.
Open Scope Z_scope.

(** ** What the fences leave alone *)

(** Two databases that agree on everything the scheduler writes. *)
Definition quiet (d d' : landscape) : Prop :=
  items d' = items d /\ scheduler_events d' = scheduler_events d /\ group_losses d' = group_losses d.

#[export] Instance quiet_preorder : PreOrder quiet.
Proof.
  split; [done|]. intros d1 d2 d3 (H1 & H2 & H3) (E1 & E2 & E3).
  unfold quiet. by rewrite E1, E2, E3.
Qed.

(** A property of the scheduler's tables only. *)
Class Stable (P : landscape -> Prop) : Prop := stable : forall d d', quiet d d' -> P d -> P d'.

Section fences.
Context `{Env}.

Lemma renew_quiet t w c u c' :
  renew_leader_deadline_on t w c = (Ok u, c') -> quiet (c_db c) (c_db c').
Proof. by intros (s & _ & _ & ->)%renew_ok. Qed.

Lemma refusal_quiet r ty w ep at_ ctx en : quiet (e_db en) (e_db (record_best_effort_event r ty w ep at_ ctx en).2).
Proof. by destruct (best_effort_db r ty w ep at_ ctx en) as [->| ->]. Qed.

Lemma refusal_lineage r ty w ep at_ ctx en :
  lineage (e_db (record_best_effort_event r ty w ep at_ ctx en).2) = lineage (e_db en).
Proof. by destruct (best_effort_db r ty w ep at_ ctx en) as [->| ->]. Qed.

(** The body of a committed leader transaction ran on the same queue, lineage
    and coordination events, and nothing touched them after it. *)
Lemma leader_body_lineage {A} t w name (body : txn A) en a en' :
  fenced_leader_transaction t w name body en = (Ok a, en') ->
  exists c c', quiet (e_db en) (c_db c) /\ workers (c_db c) = workers (e_db en) /\
    (lineage (c_db c) = lineage (e_db en) /\ events (c_db c) = events (e_db en)) /\ body c = (Ok a, c') /\
    quiet (c_db c') (e_db en') /\ lineage (e_db en') = lineage (c_db c') /\ events (e_db en') = events (c_db c').
Proof.
  intros (c1 & c2 & c3 & issued & u & Hv & Hb & Hr & ->)%fenced_leader_ok.
  apply verify_leader_ok in Hv as (s & _ & _ & Hv). exists c1, c2. rewrite Hv. split_and!; [done..| | |].
  - destruct issued; [by eapply renew_quiet|]. by inv_txn.
  - destruct issued; [by apply renew_ok in Hr as (s' & _ & _ & ->)|]. by inv_txn.
  - destruct issued; [by apply renew_ok in Hr as (s' & _ & _ & ->)|]. by inv_txn.
Qed.

Lemma leader_body {A} t w name (body : txn A) en a en' :
  fenced_leader_transaction t w name body en = (Ok a, en') ->
  exists c c', quiet (e_db en) (c_db c) /\ workers (c_db c) = workers (e_db en) /\
    body c = (Ok a, c') /\ quiet (c_db c') (e_db en').
Proof. intros (c & c' & ? & ? & _ & ? & ? & _)%leader_body_lineage. eauto 10. Qed.

Lemma leader_error {A} t w name (body : txn A) en e en' :
  fenced_leader_transaction t w name body en = (Err e, en') -> quiet (e_db en) (e_db en').
Proof.
  unfold fenced_leader_transaction. destruct (begin_write _ en) as [[a|x] en1] eqn:E; [done|].
  apply begin_write_err in E. intros Hx. rewrite <- E.
  destruct x; try (by injection Hx as _ <-). injection Hx as _ <-. apply refusal_quiet.
Qed.

Lemma leader_error_lineage {A} t w name (body : txn A) en e en' :
  fenced_leader_transaction t w name body en = (Err e, en') -> lineage (e_db en') = lineage (e_db en).
Proof.
  unfold fenced_leader_transaction. destruct (begin_write _ en) as [[a|x] en1] eqn:E; [done|].
  apply begin_write_err in E. intros Hx. rewrite <- E.
  destruct x; try (by injection Hx as _ <-). injection Hx as _ <-. apply refusal_lineage.
Qed.

Lemma verify_member_ok m c u c' :
  verify_membership_fence m c = (Ok u, c') ->
  c' = c /\ exists w, workers (c_db c) !! m_worker_id m = Some w /\ active_member (m_run_id m) w = true.
Proof.
  unfold verify_membership_fence. intros Hv. apply txn_bind_ok in Hv as (b & c1 & Hu & Hv).
  apply update_worker_ok in Hu as [(-> & w & Hw & Ha & _ & ->)|(-> & -> & _)].
  - inv_txn. split; [|eauto]. destruct c as [d i k]; cbn in *. f_equal. unfold set_workers. rewrite insert_id by done.
    by destruct d.
  - inv_txn.
Qed.

Lemma member_body {A} m name (body : txn A) en a en' :
  fenced_member_transaction m name body en = (Ok a, en') ->
  exists c', body (mkConn (e_db en) [] (e_tick en)) = (Ok a, c') /\ e_db en' = c_db c' /\
    (exists w, workers (e_db en) !! m_worker_id m = Some w /\ active_member (m_run_id m) w = true) /\
    exists c'', check_deadlines_before_commit c' = (Ok tt, c'').
Proof.
  unfold fenced_member_transaction. destruct (begin_write _ en) as [[x|e] en1] eqn:E; [|by destruct e].
  intros [= -> ->]. apply begin_write_ok in E as (c & c' & Hm & Hc & -> & _). inv_txn.
  match goal with Hv : verify_membership_fence _ _ = _ |- _ => apply verify_member_ok in Hv as [-> Hw] end. eauto 10.
Qed.

Lemma member_error {A} m name (body : txn A) en e en' :
  fenced_member_transaction m name body en = (Err e, en') -> quiet (e_db en) (e_db en').
Proof.
  unfold fenced_member_transaction. destruct (begin_write _ en) as [[a|x] en1] eqn:E; [done|].
  apply begin_write_err in E. intros Hx. rewrite <- E.
  destruct x; try (by injection Hx as _ <-). injection Hx as _ <-. apply refusal_quiet.
Qed.

(** A body that keeps a property when it returns. *)
Definition keeps (P : landscape -> Prop) {A} (m : txn A) : Prop :=
  forall c a c', P (c_db c) -> m c = (Ok a, c') -> P (c_db c').

Lemma leader_keeps P `{!Stable P} {A} t w name (body : txn A) en :
  keeps P body -> P (e_db en) -> P (e_db (fenced_leader_transaction t w name body en).2).
Proof.
  intros Hk HP. destruct (fenced_leader_transaction t w name body en) as [[a|e] en'] eqn:E; cbn.
  - apply leader_body in E as (c & c' & Hq & _ & Hb & Hq'). eapply stable; [exact Hq'|]. eapply Hk; [|exact Hb].
    by eapply stable.
  - apply leader_error in E. by eapply stable.
Qed.

Lemma member_keeps P `{!Stable P} {A} m name (body : txn A) en :
  keeps P body -> P (e_db en) -> P (e_db (fenced_member_transaction m name body en).2).
Proof.
  intros Hk HP. destruct (fenced_member_transaction m name body en) as [[a|e] en'] eqn:E; cbn.
  - apply member_body in E as (c' & Hb & -> & _). by eapply Hk; [|exact Hb].
  - apply member_error in E. by eapply stable.
Qed.
End fences.

(** ** Statements *)
Section statements.
Context `{Env}.

Lemma update_item_ok id p f c b c' :
  update_item id p f c = (Ok b, c') ->
  (b = true /\ exists i, items (c_db c) !! id = Some i /\ p i = true /\ item_row_ok (f i) = true /\
     c' = put_items (<[id := f i]>) c) \/
  (b = false /\ c' = c /\ forall i, items (c_db c) !! id = Some i -> p i = false).
Proof.
  unfold update_item. destruct (items (c_db c) !! id) as [i|] eqn:E; [|naive_solver].
  destruct (p i) eqn:Ep; [|naive_solver]. destruct (item_row_ok (f i)) eqn:Eo; naive_solver.
Qed.

Lemma rename_item_ok prior next p f c b c' :
  rename_item prior next p f c = (Ok b, c') ->
  (b = true /\ exists i, items (c_db c) !! prior = Some i /\ p i = true /\
     (next = prior \/ items (c_db c) !! next = None) /\ item_row_ok (f i) = true /\
     c' = put_items (fun m => <[next := f i]> (delete prior m)) c) \/
  (b = false /\ c' = c /\ forall i, items (c_db c) !! prior = Some i -> p i = false).
Proof.
  unfold rename_item. destruct (items (c_db c) !! prior) as [i|] eqn:E; [|naive_solver].
  destruct (p i) eqn:Ep; [|naive_solver]. destruct (item_row_ok (f i)) eqn:Eo; cbn [negb]; [|done].
  match goal with |- context [if ?x then _ else _] => destruct x eqn:Ex; [done|] end.
  intros [= <- <-]. left. split; [done|]. exists i. split_and!; try done.
  apply orb_false_iff in Ex as [Ex _]. apply andb_false_iff in Ex as [Ex|Ex]; bool_facts; [by left|right].
  by destruct (items (c_db c) !! next).
Qed.

Lemma record_ok e c u c' :
  record e c = (Ok u, c') ->
  c' = mkConn (set_scheduler_events (c_db c) (scheduler_events (c_db c) ++ [e])) (c_issued c) (c_tick c).
Proof. unfold record. intros Hr. case_match; by simplify_eq. Qed.

Lemma record_many_ok l c u c' :
  record_many l c = (Ok u, c') ->
  c' = mkConn (set_scheduler_events (c_db c) (scheduler_events (c_db c) ++ l)) (c_issued c) (c_tick c).
Proof.
  revert c. induction l as [|e l IH]; intros c Hr; cbn in Hr.
  - inv_txn. unfold set_scheduler_events. rewrite app_nil_r. by destruct c' as [[] ? ?].
  - inv_txn. match goal with Hx : record e _ = _ |- _ => apply record_ok in Hx as -> end.
    apply IH in Hr as ->. cbn. by rewrite <- app_assoc.
Qed.
End statements.

(** ** Replay of the event log *)

(** What the log says of a row: status, owner and attempt. *)
Definition cell : Type := TokenWorkStatus * option string * Z.

Definition cell_of (i : work_item) : cell := (wi_status i, wi_lease_owner i, wi_attempt i).

Definition view (d : landscape) : gmap string cell := cell_of <$> items d.

(** The id that a rotation retires. *)
Definition retired_by (e : SchedulerEventRecord) : option string :=
  match se_type e with RECOVER_EXPIRED_LEASE | RESUME_REQUEUE_FAILED => previous_of e | _ => None end.

(** One event: a rotation retires the previous id; a lost lease reports on a
    row that somebody else moved, and moves nothing. *)
Definition replay_event (v : gmap string cell) (e : SchedulerEventRecord) : gmap string cell :=
  if se_type e == LEASE_LOST then v
  else
    <[se_work_item_id e := (se_to_status e, se_to_lease_owner e, se_to_attempt e)]>
      (match retired_by e with Some p => delete p v | None => v end).

Definition replay (l : list SchedulerEventRecord) : gmap string cell := foldl replay_event ∅ l.

(** The log tells the whole story of the queue. *)
Definition replays (d : landscape) : Prop := view d = replay (scheduler_events d).

Lemma replays_same d d' : items d' = items d -> scheduler_events d' = scheduler_events d -> replays d -> replays d'.
Proof. unfold replays, view. by intros -> ->. Qed.

#[export] Instance replays_stable : Stable replays.
Proof. intros d d' (Hi & He & _). by apply replays_same. Qed.

(** An event that describes a row that stays under its id, or a rotation. *)
Definition describes (e : SchedulerEventRecord) (id : string) (i : work_item) : Prop :=
  se_type e <> LEASE_LOST /\ retired_by e = None /\ se_work_item_id e = id /\
  (se_to_status e, se_to_lease_owner e, se_to_attempt e) = cell_of i.

Definition describes_move (e : SchedulerEventRecord) (prior next : string) (i : work_item) : Prop :=
  se_type e <> LEASE_LOST /\ se_work_item_id e = next /\
  (retired_by e = Some prior \/ (retired_by e = None /\ next = prior)) /\
  (se_to_status e, se_to_lease_owner e, se_to_attempt e) = cell_of i.

Lemma replay_describes v e id i : describes e id i -> replay_event v e = <[id := cell_of i]> v.
Proof.
  intros (Ht & Hp & Hid & Hc). unfold replay_event. by rewrite bool_decide_eq_false_2, Hp, Hid, Hc.
Qed.

Lemma replay_move v e prior next i :
  describes_move e prior next i -> replay_event v e = <[next := cell_of i]> (delete prior v).
Proof.
  intros (Ht & Hid & Hp & Hc). unfold replay_event. rewrite bool_decide_eq_false_2, Hid, Hc by done.
  destruct Hp as [->|[-> ->]]; [done|]. apply map_eq. intros k.
  destruct (decide (k = prior)) as [->|]; [by rewrite !lookup_insert_eq|].
  by rewrite !lookup_insert_ne, lookup_delete_ne.
Qed.

Lemma replays_many d d' l :
  replays d -> view d' = foldl replay_event (view d) l -> scheduler_events d' = scheduler_events d ++ l -> replays d'.
Proof. unfold replays, replay. intros Hr Hv ->. by rewrite Hv, Hr, foldl_app. Qed.

Lemma replays_one d d' id i e :
  replays d -> items d' = <[id := i]> (items d) -> scheduler_events d' = scheduler_events d ++ [e] ->
  describes e id i -> replays d'.
Proof.
  intros Hr Hi He Hd. eapply replays_many; [done| |done]. cbn. rewrite (replay_describes _ _ _ _ Hd).
  unfold view. by rewrite Hi, fmap_insert.
Qed.

Lemma transition_describes type id before i st owner expires now caller :
  type <> LEASE_LOST -> cell_of i = (st, owner, wi_attempt before) ->
  describes (transition_event type id before st owner expires now caller) id i.
Proof. intros Ht Hc. unfold describes. rewrite Hc. by destruct type. Qed.

Section updates.
Context `{Env}.

Lemma execute_many_le {A} (f : A -> txn bool) l c n c' :
  execute_many f l c = (Ok n, c') -> (n <= length l)%nat.
Proof.
  revert c n. induction l as [|a l IH]; intros c n Hx; cbn in Hx; inv_txn; [done|].
  match goal with Hx : execute_many _ l _ = _ |- _ => apply IH in Hx end. case_match; cbn; lia.
Qed.

(** A batch of updates by id, each of which hit, replays in order. *)
Lemma execute_updates (p : string * work_item -> work_item -> bool) (f : string * work_item -> work_item -> work_item)
    (ev : string * work_item -> SchedulerEventRecord) rows c n c' :
  execute_many (fun e => update_item e.1 (p e) (f e)) rows c = (Ok n, c') -> (length rows <= n)%nat ->
  NoDup rows.*1 -> (forall e, e ∈ rows -> items (c_db c) !! e.1 = Some e.2 /\ describes (ev e) e.1 (f e e.2)) ->
  view (c_db c') = foldl replay_event (view (c_db c)) (map ev rows) /\
  scheduler_events (c_db c') = scheduler_events (c_db c).
Proof.
  revert c n. induction rows as [|e rows IH]; intros c n He Hn Hnd Hrows; cbn in He; inv_txn; [done|].
  match goal with Hu : update_item _ _ _ _ = _ |- _ => apply update_item_ok in Hu as [(-> & i & Hi & _ & _ & ->)|(-> & -> & _)] end.
  - cbn in Hn, Hnd. apply NoDup_cons in Hnd as [Hnin Hnd].
    destruct (Hrows e) as [Hie Hde]; [set_solver|]. rewrite Hi in Hie. injection Hie as ->.
    match goal with Hx : execute_many _ rows _ = _ |- _ => eapply IH in Hx as [Hv He'] end; [|lia|done|].
    + rewrite Hv, He'. cbn [map foldl]. split; [|done]. f_equal.
      rewrite (replay_describes _ _ _ _ Hde). unfold view. cbn. by rewrite fmap_insert.
    + intros e' Hin. destruct (Hrows e') as [Hie' Hde']; [set_solver|]. split; [|done]. cbn.
      rewrite lookup_insert_ne; [done|]. intros Heq. apply Hnin. rewrite Heq. apply list_elem_of_fmap. eauto.
  - match goal with Hx : execute_many _ rows _ = _ |- _ => apply execute_many_le in Hx end. cbn in Hn. lia.
Qed.

(** The effect of such a batch on the table. *)
Lemma execute_updates_effect (p : string * work_item -> work_item -> bool) (f : string * work_item -> work_item -> work_item)
    rows c n c' :
  execute_many (fun e => update_item e.1 (p e) (f e)) rows c = (Ok n, c') -> (length rows <= n)%nat ->
  NoDup rows.*1 -> (forall e, e ∈ rows -> items (c_db c) !! e.1 = Some e.2) ->
  (forall e, e ∈ rows -> items (c_db c') !! e.1 = Some (f e e.2) /\ p e e.2 = true) /\
  (forall x, x ∉ rows.*1 -> items (c_db c') !! x = items (c_db c) !! x) /\
  c' = put_items (fun _ => items (c_db c')) c.
Proof.
  revert c n. induction rows as [|e rows IH]; intros c n He Hn Hnd Hrows; cbn in He.
  { inv_txn. split_and!; [by intros ? ?%not_elem_of_nil|done|]. by destruct c' as [[] ? ?]. }
  apply txn_bind_ok in He as (hit & c1 & Hu & He). apply txn_bind_ok in He as (n' & c2 & He & [= <- <-]).
  apply update_item_ok in Hu as [(-> & i & Hi & Hp & _ & ->)|(-> & -> & _)].
  2:{ apply execute_many_le in He. cbn in Hn. lia. }
  cbn in Hn, Hnd. apply NoDup_cons in Hnd as [Hnin Hnd]. rewrite (Hrows e) in Hi by (by left). injection Hi as <-.
  assert (forall e', e' ∈ rows -> e'.1 <> e.1) as Hdist.
  { intros e' Hin Heq. apply Hnin. rewrite <- Heq. by apply list_elem_of_fmap_2. }
  eapply IH in He as (Heff & Hother & Hc); [|lia|done|].
  - split_and!.
    + intros e' [->|Hin]%elem_of_cons; [|auto]. split; [|done]. rewrite Hother by done. cbn. apply lookup_insert_eq.
    + intros x Hx. cbn in Hx. apply not_elem_of_cons in Hx as [Hx1 Hx2]. rewrite Hother by done. cbn.
      by rewrite lookup_insert_ne.
    + rewrite Hc at 1. by destruct c as [[] ? ?].
  - intros e' Hin. cbn. rewrite lookup_insert_ne by (intros Heq; by apply (Hdist e')). apply Hrows. by right.
Qed.

(** Events that set distinct rows. *)
Lemma foldl_sets (f : work_item -> work_item) (ev : string * work_item -> SchedulerEventRecord) rows v k :
  NoDup rows.*1 -> (forall e, e ∈ rows -> describes (ev e) e.1 (f e.2)) ->
  foldl replay_event v (map ev rows) !! k =
    match (list_to_map rows : gmap string work_item) !! k with Some i => Some (cell_of (f i)) | None => v !! k end.
Proof.
  revert v. induction rows as [|e rows IH]; intros v Hnd Hd; [done|]. cbn in Hnd. apply NoDup_cons in Hnd as [Hnin Hnd].
  cbn [map foldl]. rewrite IH; [|done|set_solver]. rewrite (replay_describes v _ _ _ (Hd e ltac:(set_solver))).
  destruct e as [id i]. cbn [list_to_map foldr]. cbn in *.
  destruct (decide (k = id)) as [->|Hk].
  - rewrite (not_elem_of_list_to_map_1 rows id) by done. by rewrite !lookup_insert_eq.
  - by rewrite !lookup_insert_ne.
Qed.

Lemma update_where_ok p f c ids c' :
  update_items_where p f c = (Ok ids, c') ->
  ids = (filter (fun e : string * work_item => p e.2) (map_to_list (items (c_db c)))).*1 /\
  c' = put_items (fmap (fun i => if p i then f i else i)) c.
Proof. unfold update_items_where. intros Hu. case_match; by simplify_eq. Qed.

(** The rows that a predicate selects, as a map. *)
Lemma selected_map (p : work_item -> bool) (m : gmap string work_item) rows k :
  rows ≡ₚ filter (fun e : string * work_item => p e.2) (map_to_list m) ->
  NoDup rows.*1 /\
  (list_to_map rows : gmap string work_item) !! k = i ← m !! k; if p i then Some i else None.
Proof.
  intros Hp. assert (NoDup rows.*1) as Hnd.
  { rewrite Hp. eapply sublist_NoDup; [apply (NoDup_fst_map_to_list m)|]. apply fmap_sublist, sublist_filter. }
  split; [done|]. destruct (m !! k ≫= _) as [i|] eqn:E.
  - apply elem_of_list_to_map_1; [done|]. rewrite Hp, list_elem_of_filter, elem_of_map_to_list. cbn.
    apply bind_Some in E as (j & Hj & E). destruct (p j) eqn:Ep; [|done]. injection E as ->. by rewrite Ep.
  - apply not_elem_of_list_to_map_1. rewrite Hp. intros ((k' & j) & -> & Hin)%list_elem_of_fmap.
    apply list_elem_of_filter in Hin as [Hpj Hin%elem_of_map_to_list]. cbn in *. rewrite Hin in E. cbn in E.
    by destruct (p j).
Qed.

Lemma where_replays p f (ev : string * work_item -> SchedulerEventRecord) rows c ids c' :
  update_items_where p f c = (Ok ids, c') ->
  rows ≡ₚ filter (fun e : string * work_item => p e.2) (map_to_list (items (c_db c))) ->
  (forall e, e ∈ rows -> describes (ev e) e.1 (f e.2)) ->
  view (c_db c') = foldl replay_event (view (c_db c)) (map ev rows) /\
  scheduler_events (c_db c') = scheduler_events (c_db c).
Proof.
  intros [_ ->]%update_where_ok Hp Hd. split; [|done]. apply map_eq. intros k. unfold view. cbn.
  destruct (selected_map p (items (c_db c)) rows k Hp) as [Hnd Hm].
  rewrite (foldl_sets f ev rows _ k Hnd Hd), Hm, !lookup_fmap. destruct (items (c_db c) !! k) as [i|]; cbn; [|done].
  by destruct (p i).
Qed.

(** One row moved to a free id. *)
Definition moves_row (next : string * work_item -> string) (f : string * work_item -> work_item -> work_item)
    (e : string * work_item) (m m' : gmap string work_item) : Prop :=
  m !! e.1 = Some e.2 /\ (next e = e.1 \/ m !! next e = None) /\ item_row_ok (f e e.2) = true /\
  m' = <[next e := f e e.2]> (delete e.1 m).

(** A batch of rotations to fresh ids replays in order and disturbs no other row. *)
Lemma execute_renames (next : string * work_item -> string) (p : work_item -> bool)
    (f : string * work_item -> work_item -> work_item) (ev : string * work_item -> SchedulerEventRecord) rows c n c' :
  execute_many (fun e => rename_item e.1 (next e) p (f e)) rows c = (Ok n, c') ->
  NoDup rows.*1 ->
  (forall e, e ∈ rows -> items (c_db c) !! e.1 = Some e.2 /\ p e.2 = true /\ describes_move (ev e) e.1 (next e) (f e e.2)) ->
  n = length rows /\ view (c_db c') = foldl replay_event (view (c_db c)) (map ev rows) /\
  scheduler_events (c_db c') = scheduler_events (c_db c) /\
  (forall x i, items (c_db c) !! x = Some i -> x ∉ rows.*1 -> items (c_db c') !! x = Some i /\ forall e, e ∈ rows -> next e <> x) /\
  (forall e, e ∈ rows -> items (c_db c') !! next e = Some (f e e.2)) /\
  rtc (fun m m' => exists e, e ∈ rows /\ moves_row next f e m m') (items (c_db c)) (items (c_db c')).
Proof.
  revert c n. induction rows as [|e rows IH]; intros c n He Hnd Hrows; cbn in He; inv_txn.
  { split_and!; [done..|set_solver|set_solver|apply rtc_refl]. }
  cbn in Hnd. apply NoDup_cons in Hnd as [Hnin Hnd]. destruct (Hrows e) as (Hie & Hpe & Hde); [by left|].
  match goal with Hu : rename_item _ _ _ _ _ = _ |- _ =>
    apply rename_item_ok in Hu as [(-> & i & Hi & _ & Hfree & Hok & ->)|(_ & _ & Hno)] end;
    [|exfalso; specialize (Hno _ Hie); congruence].
  rewrite Hi in Hie. injection Hie as ->.
  set (c1 := put_items _ c) in *.
  assert (forall x i, items (c_db c) !! x = Some i -> x <> e.1 -> next e <> x /\ items (c_db c1) !! x = Some i) as Hother.
  { intros x i Hx Hne. assert (next e <> x) as Hnx.
    { intros <-. destruct Hfree as [Hf|Hf]; congruence. }
    split; [done|]. subst c1. cbn. by rewrite lookup_insert_ne, lookup_delete_ne. }
  assert (forall e', e' ∈ rows -> e'.1 <> e.1) as Hdist.
  { intros e' Hin Heq. apply Hnin. rewrite <- Heq. by apply list_elem_of_fmap_2. }
  match goal with Hx : execute_many _ rows _ = _ |- _ => eapply IH in Hx as (-> & Hv & Hs & Hkeep & Hnew & Hrtc) end; [|done|].
  - split_and!; [done| |done|..].
    + rewrite Hv. cbn [map foldl]. f_equal. rewrite (replay_move _ _ _ _ _ Hde). subst c1. unfold view. cbn.
      by rewrite fmap_insert, fmap_delete.
    + intros x i Hx Hnx. cbn in Hnx. apply not_elem_of_cons in Hnx as [Hx1 Hx2].
      destruct (Hother x i Hx Hx1) as [Hn1 Hi1]. destruct (Hkeep x i Hi1 Hx2) as [Hk Hk'].
      split; [done|]. intros e' [->|Hin]%elem_of_cons; auto.
    + intros e' [->|Hin]%elem_of_cons; [|auto]. apply Hkeep.
      * subst c1. cbn. apply lookup_insert_eq.
      * intros (e' & Heq & Hin)%list_elem_of_fmap. destruct (Hrows e') as (Hie' & _); [by right|].
        destruct (Hother _ _ Hie' (Hdist e' Hin)) as [Hne _]. by apply Hne.
    + eapply rtc_l; [exists e; split; [by left|split_and!; done]|].
      eapply rtc_subrel; [|exact Hrtc]. intros m m' (e' & Hin & Hm). exists e'. split; [by right|done].
  - intros e' Hin. destruct (Hrows e') as (Hie' & Hpe' & Hde'); [by right|].
    destruct (Hother _ _ Hie' (Hdist e' Hin)) as [_ Hx]. auto.
Qed.

(** Setting some rows and moving others, in any interleaving. *)
Lemma sets_commute_move (ev : string * work_item -> SchedulerEventRecord) (g : string * work_item -> work_item)
    sets e prior next i v :
  (forall x, x ∈ sets -> describes (ev x) x.1 (g x) /\ x.1 <> prior /\ x.1 <> next) ->
  describes_move e prior next i ->
  foldl replay_event (replay_event v e) (map ev sets) = replay_event (foldl replay_event v (map ev sets)) e.
Proof.
  intros Hs He. revert v. induction sets as [|x sets IH]; intros v; [done|]. cbn [map foldl].
  destruct (Hs x) as (Hx & Hp & Hn); [by left|].
  rewrite <- IH by (intros y Hy; apply Hs; by right). f_equal. rewrite !(replay_describes _ _ _ _ Hx), !(replay_move _ _ _ _ _ He).
  rewrite delete_insert_ne by done. by rewrite insert_insert_ne.
Qed.

Lemma foldl_partition (sink : work_item -> bool) (next : string * work_item -> string)
    (g : string * work_item -> work_item) (ev : string * work_item -> SchedulerEventRecord) rows v :
  NoDup rows.*1 ->
  (forall e, e ∈ rows -> if sink e.2 then describes (ev e) e.1 (g e) else describes_move (ev e) e.1 (next e) (g e)) ->
  (forall e x, e ∈ rows -> x ∈ rows -> sink e.2 = false -> sink x.2 = true -> next e <> x.1) ->
  foldl replay_event v (map ev rows) =
  foldl replay_event (foldl replay_event v (map ev (filter (fun e : string * work_item => sink e.2) rows)))
    (map ev (filter (fun e : string * work_item => negb (sink e.2)) rows)).
Proof.
  intros Hnd Hd Hne. revert v. induction rows as [|e rows IH]; intros v; [done|].
  cbn in Hnd. apply NoDup_cons in Hnd as [Hnin Hnd]. cbn [map foldl].
  rewrite IH; [|done|intros; apply Hd; by right|intros; apply Hne; [by right|by right|done|done]].
  rewrite !filter_cons. pose proof (Hd e ltac:(by left)) as He.
  destruct (sink e.2) eqn:Es; cbn [negb].
  - rewrite decide_True, decide_False by naive_solver. done.
  - rewrite decide_False, decide_True by naive_solver. cbn [map foldl]. f_equal.
    eapply sets_commute_move; [|exact He]. intros x [Hx Hin]%list_elem_of_filter.
    apply Is_true_true in Hx. pose proof (Hd x ltac:(by right)) as Hd'. rewrite Hx in Hd'. split_and!; [exact Hd'|..].
    + intros Heq. apply Hnin. rewrite <- Heq. by apply list_elem_of_fmap_2.
    + intros Heq. by apply (Hne e x ltac:(by left) ltac:(by right) Es Hx).
Qed.
End updates.

(** ** Reads, inserts and selections *)

(** Drop the statements that do not touch the queue. *)
Ltac quiet_steps :=
  repeat match goal with
  | Hx : record_issued_deadline _ _ _ _ = (Ok _, _) |- _ => apply issue_ok in Hx as ->
  | Hx : record _ _ = (Ok _, _) |- _ => apply record_ok in Hx as ->
  | Hx : record_many _ _ = (Ok _, _) |- _ => apply record_many_ok in Hx as ->
  end.

Section selections.
Context `{Env}.

Lemma references_db k c u c' : validate_work_item_references k c = (Ok u, c') -> c_db c' = c_db c.
Proof.
  unfold validate_work_item_references, validate_node_cursor. intros Hv. inv_txn.
  destruct (token_rows _ !! _); [|done]. inv_txn. destruct (row_sequences _ !! _); [|done]. inv_txn.
  repeat case_match; by inv_txn.
Qed.

(** Inserting one row, and inserting several. *)
Lemma insert_row_ok id i c u c' :
  insert_row id i c = (Ok u, c') ->
  items (c_db c) !! id = None /\ item_row_ok i = true /\ c' = put_items (<[id := i]>) c.
Proof.
  unfold insert_row. intros Hi. destruct (_ || _) eqn:Ex in Hi; [done|]. injection Hi as _ <-.
  apply orb_false_iff in Ex as [Ex _]. bool_facts. by destruct (items (c_db c) !! id).
Qed.

Definition inserted_rows (l : list (string * work_item)) (ids : list string) : list (string * work_item) :=
  filter (fun e : string * work_item => bool_decide (e.1 ∈ ids)) l.

(** The rows of a chain of inserts, with the table before and after. *)
Inductive inserts : list (string * work_item) -> gmap string work_item -> gmap string work_item -> Prop :=
  | inserts_nil m : inserts [] m m
  | inserts_cons id i l m m' :
      m !! id = None -> item_row_ok i = true -> inserts l (<[id := i]> m) m' -> inserts ((id, i) :: l) m m'.

Lemma inserts_nil_inv m m' : inserts [] m m' -> m' = m.
Proof. by inversion 1. Qed.

Lemma inserts_keep l m m' x i : inserts l m m' -> m !! x = Some i -> m' !! x = Some i.
Proof. induction 1 as [|id j l m m' Hn _ _ IH]; [done|]. intros Hx. apply IH. rewrite lookup_insert_ne; congruence. Qed.

Lemma inserts_fresh l m m' e : inserts l m m' -> e ∈ l -> m !! e.1 = None.
Proof.
  induction 1 as [|id j l m m' Hn _ _ IH]; [by intros ?%not_elem_of_nil|].
  intros [->|Hin]%elem_of_cons; [done|]. specialize (IH Hin). by apply lookup_insert_None in IH as [? _].
Qed.

Lemma inserts_replay l m m' evs :
  inserts l m m' -> Forall2 (fun e ev => describes ev e.1 e.2) l evs ->
  cell_of <$> m' = foldl replay_event (cell_of <$> m) evs.
Proof.
  intros Hi. revert evs. induction Hi as [|id i l m m' Hn Hok _ IH]; intros evs Hf; inversion Hf as [|? ev ? evs' Hd Hf']; subst; [done|].
  cbn [foldl]. rewrite (replay_describes _ _ _ _ Hd). rewrite (IH evs' Hf'). cbn. by rewrite fmap_insert.
Qed.

Lemma insert_items_new values c u c' :
  insert_work_items values c = (Ok u, c') -> inserts values (items (c_db c)) (items (c_db c')) /\ c' = put_items (fun _ => items (c_db c')) c.
Proof.
  unfold insert_work_items. revert c. induction values as [|[id i] values IH]; intros c Hv; cbn in Hv.
  { inv_txn. split; [constructor|]. by destruct c' as [[] ? ?]. }
  apply txn_bind_ok in Hv as (u' & c1 & (Hn & Hok & ->)%insert_row_ok & Hv). apply IH in Hv as [Hins Hc].
  split; [by constructor|]. rewrite Hc at 1. by destruct c as [[] ? ?].
Qed.

(** [insert_missing] inserts, in order, the rows that were not there. *)
Lemma insert_missing_ok l c ids c' :
  insert_missing l c = (Ok ids, c') -> NoDup l.*1 ->
  ids = (filter (fun e : string * work_item => is_none (items (c_db c) !! e.1)) l).*1 /\
  inserts (filter (fun e : string * work_item => is_none (items (c_db c) !! e.1)) l) (items (c_db c)) (items (c_db c')) /\
  c' = put_items (fun _ => items (c_db c')) c.
Proof.
  revert c ids. induction l as [|[id i] l IH]; intros c ids Hm Hnd; cbn in Hm.
  { inv_txn. split_and!; [done|constructor|]. by destruct c' as [[] ? ?]. }
  apply txn_bind_ok in Hm as (d & c1 & Hq & Hm). injection Hq as <- <-. cbn in Hnd. apply NoDup_cons in Hnd as [Hnin Hnd].
  destruct (items _ !! id) as [j|] eqn:Ej; cbn in Hm.
  - apply IH in Hm as (-> & Hins & Hc); [|done]. rewrite filter_cons. cbn. rewrite Ej. cbn. by rewrite decide_False by auto.
  - apply txn_bind_ok in Hm as (u & c1 & (_ & Hok & ->)%insert_row_ok & Hm).
    apply txn_bind_ok in Hm as (ids' & c2 & Hm & [= <- <-]). apply IH in Hm as (-> & Hins & Hc); [|done].
    cbn in Hins. rewrite filter_cons. cbn. rewrite Ej. cbn. rewrite decide_True by done.
    assert (filter (fun e : string * work_item => is_none (<[id := i]> (items (c_db c)) !! e.1)) l
            = filter (fun e : string * work_item => is_none (items (c_db c) !! e.1)) l) as Hf.
    { clear -Hnin. induction l as [|e l IH]; [done|]. cbn in Hnin. apply not_elem_of_cons in Hnin as [H1 H2].
      rewrite !filter_cons, lookup_insert_ne, IH by done. done. }
    rewrite Hf in Hins. split_and!; [|by constructor|]; cbn.
    + f_equal. by rewrite Hf.
    + rewrite Hc. by destruct c as [[] ? ?].
Qed.

Lemma values_by_id_ok values by_id l :
  values_by_id values by_id = Ok l -> NoDup by_id.*1 -> NoDup l.*1.
Proof.
  revert by_id. induction values as [|[id i] values IH]; intros by_id Hv Hnd; cbn in Hv; [by inv_ok|].
  destruct (dict_get by_id id); [inv_ok; eauto|]. eapply IH; [done|]. by apply dict_set_nodup.
Qed.

(** The whole idempotent insert. *)
Lemma insert_items_ok values c ids c' :
  insert_work_items_idempotent values c = (Ok ids, c') ->
  exists by_id new, values_by_id values [] = Ok by_id /\ NoDup by_id.*1 /\
    new = filter (fun e : string * work_item => is_none (items (c_db c) !! e.1)) by_id /\ ids = new.*1 /\
    inserts new (items (c_db c)) (items (c_db c')) /\ c' = put_items (fun _ => items (c_db c')) c.
Proof.
  unfold insert_work_items_idempotent, lift. intros Hi. inv_txn.
  match goal with Hx : (_, _) = (Ok _, _) |- _ => injection Hx as Hv -> end.
  pose proof (values_by_id_ok _ _ _ Hv ltac:(constructor)) as Hnd.
  match goal with Hx : insert_missing _ _ = _ |- _ => apply insert_missing_ok in Hx as (-> & Hins & Hc) end; [|done]. eauto 10.
Qed.

Lemma insert_idempotent_ok id i c b c' :
  insert_work_item_idempotent id i c = (Ok b, c') ->
  (b = true /\ items (c_db c) !! id = None /\ item_row_ok i = true /\ c' = put_items (<[id := i]>) c) \/
  (b = false /\ c' = c /\ is_Some (items (c_db c) !! id)).
Proof.
  unfold insert_work_item_idempotent. intros Hi. inv_txn.
  match goal with Hx : insert_work_items_idempotent _ _ = _ |- _ =>
    apply insert_items_ok in Hx as (by_id & new & Hv & _ & -> & -> & Hins & Hc) end. cbn in Hv. injection Hv as <-.
  destruct (items (c_db c) !! id) as [j|] eqn:Ej.
  - right. assert (filter (fun e : string * work_item => is_none (items (c_db c) !! e.1)) [(id, i)] = []) as Hf.
    { rewrite filter_cons, decide_False; [done|]. cbn. rewrite Ej. auto. }
    rewrite Hf in *. apply inserts_nil_inv in Hins. split_and!; [done| |done]. rewrite Hc, Hins. by destruct c as [[] ? ?].
  - left. assert (filter (fun e : string * work_item => is_none (items (c_db c) !! e.1)) [(id, i)] = [(id, i)]) as Hf.
    { rewrite filter_cons, decide_True; [done|]. cbn. by rewrite Ej. }
    rewrite Hf in *. inversion Hins as [|? ? ? ? ? _ Hok Hrest]; subst. apply inserts_nil_inv in Hrest.
    split_and!; try done. by rewrite Hc, Hrest.
Qed.

(** The first row of a selection is in the table and satisfies it. *)
Lemma select_head before p d id i :
  head (select_items before p d) = Some (id, i) -> items d !! id = Some i /\ p i = true.
Proof.
  unfold select_items. intros Hh%head_Some_elem_of. rewrite sort_by_perm in Hh.
  apply list_elem_of_filter in Hh as [Hp Hin%elem_of_map_to_list]. by apply Is_true_true in Hp.
Qed.

(** The rows of a selection, as the batch lemmas want them. *)
Lemma select_rows before p d e : e ∈ select_items before p d -> items d !! e.1 = Some e.2 /\ p e.2 = true.
Proof.
  unfold select_items. rewrite sort_by_perm. intros [Hp Hin]%list_elem_of_filter. destruct e as [id i].
  apply elem_of_map_to_list in Hin. by apply Is_true_true in Hp.
Qed.

Lemma select_nodup before p d : NoDup (select_items before p d).*1.
Proof. apply (selected_map p (items d) _ ""). apply sort_by_perm. Qed.

Lemma record_losses_db run specs by_ now c n c' :
  record_group_losses run specs by_ now c = (Ok n, c') -> items (c_db c') = items (c_db c) /\ scheduler_events (c_db c') = scheduler_events (c_db c).
Proof.
  unfold record_group_losses. case_match; [by intros; inv_txn|]. intros Hx. unfold lift in Hx. inv_txn.
  destruct (losses_by_key _ _) as [l|]; inv_txn.
  match goal with Hx : execute_many _ _ _ = _ |- _ => clear -Hx; rename Hx into Hm end.
  match type of Hm with _ ?c0 = (Ok ?n0, _) => revert c0 n0 Hm end.
  match goal with |- forall _ _, execute_many _ ?l0 _ = _ -> _ => induction l0 as [|e l IH] end; intros c0 n0 Hm; cbn in Hm; inv_txn; [done|].
  match goal with Hx : execute_many _ _ _ = _ |- _ => apply IH in Hx as [-> ->] end. case_match; by inv_txn.
Qed.
End selections.

(** ** The coordination verbs leave the queue alone *)

(** A transaction that touches no table of the scheduler. *)
Class Quiet {A} (m : txn A) : Prop := quiet_run : forall c, quiet (c_db c) (c_db (m c).2).

Section quietness.
Context `{Env}.

#[export] Instance quiet_ret {A} (a : A) : Quiet (mret a).
Proof. by intros c. Qed.
#[export] Instance quiet_raise {A} e : Quiet (raise e : txn A).
Proof. by intros c. Qed.
#[export] Instance quiet_query {A} (f : landscape -> A) : Quiet (query f).
Proof. by intros c. Qed.
#[export] Instance quiet_clock : Quiet read_landscape_decision_time.
Proof. by intros c. Qed.
#[export] Instance quiet_issue k e w : Quiet (record_issued_deadline k e w).
Proof. intros c. unfold record_issued_deadline. by repeat case_match. Qed.
#[export] Instance quiet_forget k : Quiet (forget_issued_deadline k).
Proof. by intros c. Qed.
#[export] Instance quiet_has k : Quiet (has_issued_deadline k).
Proof. by intros c. Qed.
#[export] Instance quiet_commit : Quiet check_deadlines_before_commit.
Proof. intros c. unfold check_deadlines_before_commit. by repeat case_match. Qed.
#[export] Instance quiet_event e : Quiet (record_coordination_event e).
Proof. intros c. unfold record_coordination_event. by repeat case_match. Qed.
#[export] Instance quiet_update_seat r p f : Quiet (update_seat r p f).
Proof. intros c. unfold update_seat. by repeat case_match. Qed.
#[export] Instance quiet_update_worker i p f : Quiet (update_worker i p f).
Proof. intros c. unfold update_worker. by repeat case_match. Qed.
#[export] Instance quiet_set_runs f : Quiet (exec (fun d => set_runs d (f d))).
Proof. by intros c. Qed.
#[export] Instance quiet_set_seats f : Quiet (exec (fun d => set_seats d (f d))).
Proof. by intros c. Qed.
#[export] Instance quiet_set_workers f : Quiet (exec (fun d => set_workers d (f d))).
Proof. by intros c. Qed.

#[export] Instance quiet_bind {A B} (m : txn A) (f : A -> txn B) :
  Quiet m -> (forall a, Quiet (f a)) -> Quiet (m ≫= f).
Proof.
  intros Hm Hf c. unfold mbind, txn_bind. specialize (Hm c). destruct (m c) as [[a|e] c']; [|done].
  etrans; [exact Hm|apply Hf].
Qed.

#[export] Instance quiet_if {A} (b : bool) (m m' : txn A) : Quiet m -> Quiet m' -> Quiet (if b then m else m').
Proof. by destruct b. Qed.
#[export] Instance quiet_option {A B} (o : option B) (m : B -> txn A) (m' : txn A) :
  (forall b, Quiet (m b)) -> Quiet m' -> Quiet (match o with Some b => m b | None => m' end).
Proof. by destruct o. Qed.

Definition verb_quiet {A} (v : verb A) : Prop := forall en, quiet (e_db en) (e_db (v en).2).

Lemma begin_write_quiet {A} (m : txn A) : Quiet m -> verb_quiet (begin_write m).
Proof.
  intros Hm en. destruct (begin_write m en) as [[a|e] en'] eqn:E; cbn.
  - apply begin_write_ok in E as (c & c' & Hr & _ & -> & _). specialize (Hm (mkConn (e_db en) [] (e_tick en))).
    by rewrite Hr in Hm.
  - by apply begin_write_err in E as ->.
Qed.

Lemma fenced_leader_quiet {A} t w name (body : txn A) : Quiet body -> verb_quiet (fenced_leader_transaction t w name body).
Proof.
  intros Hq en. destruct (fenced_leader_transaction t w name body en) as [[a|e] en'] eqn:E; cbn; [|by eapply leader_error].
  apply leader_body in E as (c & c' & H1 & _ & Hb & H2). specialize (Hq c). rewrite Hb in Hq. etrans; [exact H1|].
  etrans; [exact Hq|exact H2].
Qed.

Lemma fenced_member_quiet {A} m name (body : txn A) : Quiet body -> verb_quiet (fenced_member_transaction m name body).
Proof.
  intros Hq en. destruct (fenced_member_transaction m name body en) as [[a|e] en'] eqn:E; cbn; [|by eapply member_error].
  apply member_body in E as (c & Hb & -> & _). specialize (Hq (mkConn (e_db en) [] (e_tick en))). by rewrite Hb in Hq.
Qed.

Ltac quietly := repeat (first [typeclasses eauto | apply quiet_bind | apply quiet_if | apply quiet_option | intros ?]).

(** The verbs of [Coordination]. *)
Inductive coordination_step : engine -> engine -> Prop :=
  | c_begin en r i h g : coordination_step en (begin_run r i h g en).2
  | c_takeover en r i w ep : coordination_step en (acquire_run_leadership r i w ep en).2
  | c_export en r i w : coordination_step en (acquire_export_leadership r i w en).2
  | c_reconcile en r i w st : coordination_step en (acquire_reconciliation_leadership r i w st en).2
  | c_release en t : coordination_step en (release_seat t en).2
  | c_evict en t target g w : coordination_step en (evict_worker t target g w en).2
  | c_heartbeat en m w : coordination_step en (worker_heartbeat m w en).2
  | c_admit en r i h w : coordination_step en (admit_follower r i h w en).2
  | c_depart en m : coordination_step en (depart_worker m en).2.

Lemma install_quiet r i p e win now ep why : Quiet (install_leader r i p e win now ep why).
Proof. unfold install_leader, insert_worker_row, finalize_leader_registration_on, renew_leader_deadline_on. quietly. Qed.

Lemma finalize_quiet t w : Quiet (finalize_leader_registration_on t w).
Proof. unfold finalize_leader_registration_on, renew_leader_deadline_on. quietly. Qed.

Lemma coordination_quiet en en' : coordination_step en en' -> quiet (e_db en) (e_db en').
Proof.
  pose proof install_quiet. pose proof finalize_quiet.
  destruct 1.
  - apply begin_write_quiet. unfold register_run_leader_on, insert_worker_row. quietly.
  - apply begin_write_quiet. unfold acquire_run_leadership_on, run_status_of, cas_seat. quietly.
  - apply begin_write_quiet. unfold acquire_terminal_leadership_on, run_status_of, cas_seat. quietly.
  - unfold acquire_reconciliation_leadership. case_bool_decide; [done|]. apply begin_write_quiet.
    unfold acquire_terminal_leadership_on, run_status_of, cas_seat. quietly.
  - unfold release_seat. match goal with |- context [fenced_leader_transaction t ?w ?n ?b en] =>
      pose proof (fenced_leader_quiet t w n b ltac:(quietly) en) as Hq; by destruct (fenced_leader_transaction t w n b en) as [[|[]] ?] end.
  - apply fenced_leader_quiet. quietly.
  - unfold worker_heartbeat, fenced_heartbeat_transaction. match goal with |- context [begin_write ?b en] =>
      pose proof (begin_write_quiet b ltac:(unfold verify_membership_fence; quietly) en) as Hq; destruct (begin_write b en) as [[|[]] ?] end; try done.
    etrans; [exact Hq|apply refusal_quiet].
  - apply begin_write_quiet. unfold insert_worker_row, finalize_follower_admission_on. quietly.
  - unfold depart_worker. match goal with |- context [fenced_member_transaction m ?n ?b en] =>
      pose proof (fenced_member_quiet m n b ltac:(quietly) en) as Hq; by destruct (fenced_member_transaction m n b en) as [[|[]] ?] end.
Qed.
End quietness.
