(* ===== verification/SchedulerRecovery.v ===== *)
(** * SchedulerRecovery: what lease recovery does to the queue

    [rotate_expired_leases] runs a bulk update for sink redrives and one
    rename per transform; its effect on every row, as one statement. *)

From S2P Require Import Prelude Enums Outcomes Landscape Coordination CoordinationTheory Scheduler Lifecycle SchedulerFacts.
Open Scope Z_scope.

Section recovery.
Context `{Env}.
Context (t : CoordinationToken) (grace stall : Z).

(** The rows that a sweep takes: reapable at the second reading of the clock
    and expired at the first one already. *)
Definition swept (d : landscape) (tick : nat) (i : work_item) : bool :=
  reapable d (tk_run_id t) (tk_worker_id t) (database_clock (S tick)) grace stall i
  && sql_lt (wi_lease_expires_at i) (database_clock tick).

(** The row that a swept row becomes. *)
Definition recovered_item (now : Z) (i : work_item) : work_item :=
  if sink_redrive_shaped i then set_lease PENDING_SINK None None now i
  else set_attempt (next_attempt i) (set_lease READY None None now i).

Definition recovery_event (now : Z) (e : string * work_item) : SchedulerEventRecord :=
  rotation_event RECOVER_EXPIRED_LEASE (next_id (tk_run_id t) e) e.1 e.2 (next_attempt e.2) now (next_status e.2)
    (wi_lease_owner e.2) (wi_lease_expires_at e.2) (tk_worker_id t).

(** The effect of a sweep. *)
Definition recovers (d d' : landscape) (tick : nat) (rows : list (string * work_item)) : Prop :=
  rows ≡ₚ filter (fun e : string * work_item => swept d tick e.2) (map_to_list (items d)) /\
  scheduler_events d' = scheduler_events d ++ map (recovery_event (database_clock (S tick))) rows /\
  view d' = foldl replay_event (view d) (map (recovery_event (database_clock (S tick))) rows) /\
  (forall id i, items d !! id = Some i ->
    if swept d tick i then items d' !! next_id (tk_run_id t) (id, i) = Some (recovered_item (database_clock (S tick)) i)
    else items d' !! id = Some i) /\
  (forall R, rtc (move_within R) (items d) (items d')).

Lemma filter_iff {A} (p q : A -> bool) (l : list A) : (forall x, x ∈ l -> p x = q x) ->
  filter (fun x => p x) l = filter (fun x => q x) l.
Proof.
  intros Hpq. induction l as [|x l IH]; [done|]. rewrite !filter_cons, IH by (intros; apply Hpq; by right).
  specialize (Hpq x ltac:(by left)). rewrite Hpq. done.
Qed.

Lemma recovers_nothing d tick :
  (forall id i, items d !! id = Some i -> swept d tick i = false) -> recovers d d tick [].
Proof.
  intros Hno. split_and!; [|by rewrite app_nil_r|done| |].
  - rewrite (filter_iff _ (fun _ => false)).
    + by induction (map_to_list (items d)).
    + intros [id i] Hin%elem_of_map_to_list. by apply (Hno id).
  - intros id i Hi. by rewrite (Hno id i Hi).
  - intros R; apply rtc_refl.
Qed.

(** Reaping looks at candidates only, and known owners are no restriction. *)
Lemma reap_selects d tick e :
  e ∈ map_to_list (items d) ->
  let candidates := filter (fun e : string * work_item =>
      in_run (tk_run_id t) e.2 && (wi_status e.2 == LEASED) && sql_lt (wi_lease_expires_at e.2) (database_clock tick)
      && lease_owner_not_caller (tk_worker_id t) e.2) (map_to_list (items d)) in
  let owner_ids := omap (fun e : string * work_item => wi_lease_owner e.2) candidates in
  let known_owner i := match wi_lease_owner i with Some o => bool_decide (o ∈ owner_ids) | None => true end in
  let r := reapable d (tk_run_id t) (tk_worker_id t) (database_clock (S tick)) grace stall e.2 in
  bool_decide (e.1 ∈ candidates.*1) && known_owner e.2 && r = swept d tick e.2 /\
  (r && sql_lt (wi_lease_expires_at e.2) (database_clock tick) = true -> known_owner e.2 = true).
Proof.
  intros Hin candidates owner_ids known_owner r.
  assert (r && sql_lt (wi_lease_expires_at e.2) (database_clock tick) = true -> e ∈ candidates) as Hc.
  { intros Hr. apply list_elem_of_filter. split; [|done]. apply Is_true_true. subst r. unfold reapable in Hr.
    rewrite !andb_true_iff in *. tauto. }
  assert (e ∈ candidates -> known_owner e.2 = true) as Hk.
  { intros Hc'. subst known_owner. cbn. destruct (wi_lease_owner e.2) as [o|] eqn:Eo; [|done].
    apply bool_decide_eq_true_2. apply list_elem_of_omap. eauto. }
  split; [|intros Hr; apply Hk, Hc, Hr].
  unfold swept. fold r. destruct (decide (e ∈ candidates)) as [Hin'|Hnin].
  - rewrite bool_decide_eq_true_2, (Hk Hin') by (by apply list_elem_of_fmap_2). cbn.
    apply list_elem_of_filter in Hin' as [Hp%Is_true_true _]. bool_facts.
    match goal with Hs : sql_lt _ _ = true |- _ => rewrite Hs end. by rewrite andb_true_r.
  - rewrite bool_decide_eq_false_2.
    + cbn. symmetry. apply not_true_iff_false. intros Hr. by apply Hnin, Hc.
    + intros ([id i] & Heq & Hin')%list_elem_of_fmap. apply Hnin.
      assert (e = (id, i)) as ->; [|done]. destruct e as [id' i']. cbn in Heq. subst.
      apply list_elem_of_filter in Hin' as [_ Hin']. apply elem_of_map_to_list in Hin, Hin'. congruence.
Qed.

(** Coordination events are recorded without touching the queue. *)
Lemma stalled_events_quiet (f : string * work_item -> txn unit) l c u c' :
  (forall e c u c', f e c = (Ok u, c') -> quiet (c_db c) (c_db c')) ->
  for_each f l c = (Ok u, c') -> quiet (c_db c) (c_db c').
Proof.
  intros Hf. revert c. induction l as [|e l IH]; intros c Hx; cbn in Hx; inv_txn; [done|].
  match goal with Hx : f e _ = _ |- _ => apply Hf in Hx; rewrite Hx end. eauto.
Qed.

Lemma recovery_describes now e :
  if sink_redrive_shaped e.2 then describes (recovery_event now e) e.1 (recovered_item now e.2)
  else describes_move (recovery_event now e) e.1 (next_id (tk_run_id t) e) (recovered_item now e.2).
Proof.
  unfold recovery_event, recovered_item, next_status, describes, describes_move, retired_by, previous_of, next_attempt, next_id.
  destruct (sink_redrive_shaped e.2) eqn:Es; cbn.
  - by rewrite bool_decide_eq_true_2.
  - split_and!; [done..| |done]. case_bool_decide; [by right|by left].
Qed.

(** Membership of a selection. *)
Lemma selected_elem (p : work_item -> bool) (m : gmap string work_item) (rows : list (string * work_item)) e :
  rows ≡ₚ filter (fun e : string * work_item => p e.2) (map_to_list m) ->
  e ∈ rows <-> m !! e.1 = Some e.2 /\ p e.2 = true.
Proof.
  intros ->. destruct e as [id i]. rewrite list_elem_of_filter, elem_of_map_to_list. cbn. rewrite Is_true_true. tauto.
Qed.

Lemma not_moved (p : work_item -> bool) (m : gmap string work_item) (rows : list (string * work_item)) id i :
  rows ≡ₚ filter (fun e : string * work_item => p e.2) (map_to_list m) ->
  m !! id = Some i -> p i && negb (sink_redrive_shaped i) = false ->
  id ∉ (filter (fun e : string * work_item => negb (sink_redrive_shaped e.2)) rows).*1.
Proof.
  intros Hrows Hi Hp (y & -> & [Hs Hy]%list_elem_of_filter)%list_elem_of_fmap.
  apply (selected_elem _ _ _ _ Hrows) in Hy as [Hy Hpy]. apply Is_true_true in Hs.
  rewrite Hi in Hy. injection Hy as ->. by rewrite Hpy, Hs in Hp.
Qed.

(** A bulk update is one move. *)
Lemma where_moves R p f c ids c' :
  update_items_where p f c = (Ok ids, c') ->
  (forall id i, items (c_db c) !! id = Some i -> p i = true -> legal (R id) i (f i)) -> move_within R (items (c_db c)) (items (c_db c')).
Proof.
  unfold update_items_where. intros Hu Hl. destruct (forallb _ _) eqn:Ef in Hu; [|done]. injection Hu as _ <-.
  rewrite forallb_forall in Ef. apply move_update. intros id. cbn. rewrite lookup_fmap.
  destruct (items (c_db c) !! id) as [i|] eqn:Hi; cbn; constructor. destruct (p i) eqn:Ep; [right|by left].
  split; [eauto|]. apply (Ef (id, i)). apply list_elem_of_In, list_elem_of_filter. cbn. rewrite Ep.
  split; [done|by apply elem_of_map_to_list].
Qed.

(** The bulk update of sink redrives, then the renames of transforms. *)
Lemma rotation_steps now d (p : work_item -> bool) (q : work_item -> bool) rows c c1 c2 ids n :
  rows ≡ₚ filter (fun e : string * work_item => p e.2) (map_to_list (items d)) ->
  c_db c = d ->
  (forall id i, items d !! id = Some i -> p i = true -> wi_status i = LEASED /\
     (sink_redrive_shaped i = true -> pending_sink_bundle_clause i = true)) ->
  (forall e, e ∈ rows -> sink_redrive_shaped e.2 = false -> q e.2 = true) ->
  update_items_where (fun i => p i && sink_redrive_shaped i) (set_lease PENDING_SINK None None now) c = (Ok ids, c1) ->
  execute_many (fun e : string * work_item => rename_item e.1 (next_id (tk_run_id t) e) q
    (fun i => set_attempt (next_attempt e.2) (set_lease READY None None now i)))
    (filter (fun e : string * work_item => negb (sink_redrive_shaped e.2)) rows) c1 = (Ok n, c2) ->
  view (c_db c2) = foldl replay_event (view d) (map (recovery_event now) rows) /\
  scheduler_events (c_db c2) = scheduler_events d /\
  (forall id i, items d !! id = Some i ->
    if p i then items (c_db c2) !! next_id (tk_run_id t) (id, i) = Some (recovered_item now i)
    else items (c_db c2) !! id = Some i) /\
  (forall R, rtc (move_within R) (items d) (items (c_db c2))).
Proof.
  intros Hrows <- Hlegal Hq Hu Hx.
  set (sinks := filter (fun e : string * work_item => sink_redrive_shaped e.2) rows).
  set (moved := filter (fun e : string * work_item => negb (sink_redrive_shaped e.2)) rows) in *.
  destruct (selected_map p (items (c_db c)) rows "" Hrows) as [Hnd _].
  pose proof (fun e => selected_elem p _ rows e Hrows) as Hin.
  assert (forall e, e ∈ moved <-> e ∈ rows /\ sink_redrive_shaped e.2 = false) as Hmoved.
  { intros e. subst moved. rewrite list_elem_of_filter, Is_true_true, negb_true_iff. tauto. }
  destruct (update_where_ok _ _ _ _ _ Hu) as [_ Hc1]. pose proof Hu as Hu'.
  assert (forall e, e ∈ rows -> sink_redrive_shaped e.2 = true -> describes (recovery_event now e) e.1 (set_lease PENDING_SINK None None now e.2)) as Hds.
  { intros e _ Es. pose proof (recovery_describes now e) as Hd. unfold recovered_item in Hd. by rewrite Es in Hd. }
  eapply (where_replays _ _ (recovery_event now) sinks) in Hu as [Hv1 He1].
  2:{ subst sinks. rewrite Hrows, list_filter_filter. apply Permutation_refl', list_filter_iff.
      intros e. rewrite !Is_true_true, andb_true_iff. tauto. }
  2:{ intros e [Es He]%list_elem_of_filter. apply Is_true_true in Es. auto. }
  eapply (execute_renames _ _ _ (recovery_event now)) in Hx as (_ & Hv2 & He2 & Hkeep & Hnew & Hrtc).
  2:{ eapply sublist_NoDup; [exact Hnd|]. apply fmap_sublist, sublist_filter. }
  2:{ intros e [He Es]%Hmoved. split_and!; [|by apply Hq|].
      - subst c1. cbn. apply Hin in He as [He _]. by rewrite lookup_fmap, He; cbn; rewrite Es, andb_false_r.
      - pose proof (recovery_describes now e) as Hd. unfold recovered_item in Hd. by rewrite Es in Hd. }
  split_and!.
  - rewrite Hv2, Hv1. symmetry. apply (foldl_partition sink_redrive_shaped (next_id (tk_run_id t)) (fun e => recovered_item now e.2)); [done| |].
    + intros e _. pose proof (recovery_describes now e). by destruct (sink_redrive_shaped e.2).
    + intros e x He Hx Ee Ex. apply Hin in Hx as [Hx _].
      apply (Hkeep x.1 (if p x.2 && sink_redrive_shaped x.2 then set_lease PENDING_SINK None None now x.2 else x.2)).
      * subst c1. cbn. by rewrite lookup_fmap, Hx.
      * apply (not_moved _ _ _ _ _ Hrows Hx). by rewrite Ex, andb_false_r.
      * by apply Hmoved.
  - congruence.
  - intros id i Hi. destruct (p i) eqn:Ep.
    + destruct (sink_redrive_shaped i) eqn:Es.
      * unfold next_id, recovered_item. cbn. rewrite Es. apply Hkeep.
        -- subst c1. cbn. by rewrite lookup_fmap, Hi; cbn; rewrite Ep, Es.
        -- apply (not_moved _ _ _ _ _ Hrows Hi). by rewrite Es, andb_false_r.
      * assert ((id, i) ∈ moved) as Hm%Hnew by (apply Hmoved; split; [by apply Hin|done]).
        rewrite Hm. unfold recovered_item. cbn. by rewrite Es.
    + apply Hkeep.
      * subst c1. cbn. by rewrite lookup_fmap, Hi; cbn; rewrite Ep.
      * apply (not_moved _ _ _ _ _ Hrows Hi). by rewrite Ep.
  - intros R. eapply rtc_l; [eapply where_moves; [exact Hu'|]|].
    + intros id i Hi Hp. apply andb_true_iff in Hp as [Hp Es]. destruct (Hlegal id i Hi Hp) as [Hs Hb]. by apply legal_release; auto.
    + eapply rtc_subrel; [|exact Hrtc]. intros m m' (e & [He Es]%Hmoved & Hm & Hfree & Hrow & ->).
      apply Hin in He as [He Hp]. eapply move_rotate; [done..| |done]. unfold next_attempt. rewrite Es.
      destruct (Hlegal _ _ He Hp). by apply rotates_lost.
Qed.

Lemma stalled_quiet (d : landscape) (at_ : Z) e c u c' :
  match wi_lease_owner e.2 with
  | Some o =>
      if owner_registry_dead d (at_ - grace) e.2 then mret tt
      else record_coordination_event (mkEvent (tk_run_id t) "worker_stalled" o (Some (tk_leader_epoch t)) at_
             [("reaped_work_item_id", CtxStr e.1); ("previous_work_item_id", CtxStr e.1);
              ("reason", CtxStr "item_stall_budget")])
  | None => mret tt
  end c = (Ok u, c') -> quiet (c_db c) (c_db c').
Proof.
  destruct (wi_lease_owner e.2); [|intros; by inv_txn]. case_match; [intros; by inv_txn|].
  by intros ->%event_ok.
Qed.

(** Every swept row is reported as recovered. *)
Lemma recovered_all d tick now ids c1 d2 n rows transforms :
  rows ≡ₚ filter (fun e : string * work_item => swept d tick e.2) (map_to_list (items d)) ->
  (forall id i, items d !! id = Some i ->
    if swept d tick i then items d2 !! next_id (tk_run_id t) (id, i) = Some (recovered_item now i)
    else items d2 !! id = Some i) ->
  transforms = filter (fun e : string * work_item => negb (sink_redrive_shaped e.2)) rows ->
  update_items_where (fun i => swept d tick i && sink_redrive_shaped i) (set_lease PENDING_SINK None None now) c1 = (Ok ids, n) ->
  c_db c1 = d ->
  filter (fun e : string * work_item => bool_decide (next_id (tk_run_id t) e ∈
    ids ++ filter (fun id => is_some (row_in_run d2 id (tk_run_id t)))
             (remove_dups (map (next_id (tk_run_id t)) transforms)))) rows = rows.
Proof.
  intros Hrows Heff -> [-> _]%update_where_ok <-. rewrite (filter_iff _ (fun _ => true)).
  { clear. induction rows as [|e rows IH]; [done|]. rewrite filter_cons, decide_True by done. by f_equal. }
  intros [id i] He. pose proof He as Hin. apply (selected_elem _ _ _ _ Hrows) in Hin as [Hi Hs]. cbn in Hi, Hs.
  apply bool_decide_eq_true_2, elem_of_app. destruct (sink_redrive_shaped i) eqn:Es.
  - left. unfold next_id. cbn. rewrite Es. apply list_elem_of_fmap. exists (id, i). split; [done|].
    apply list_elem_of_filter. cbn. rewrite Hs, Es. split; [done|by apply elem_of_map_to_list].
  - right. apply list_elem_of_filter. split.
    + specialize (Heff id i Hi). rewrite Hs in Heff. unfold row_in_run. rewrite Heff. cbn.
      unfold swept, reapable in Hs. bool_facts. unfold recovered_item, in_run in *. rewrite Es. cbn.
      match goal with Hx : bool_decide _ = true |- _ => by rewrite Hx | Hx : k_run_id _ = _ |- _ => by rewrite Hx, bool_decide_eq_true_2 end.
    + apply elem_of_remove_dups, list_elem_of_fmap. exists (id, i). split; [done|].
      apply list_elem_of_filter. cbn. by rewrite Es.
Qed.

(** The sweep refuses an incomplete bundle before it writes. *)
Lemma complete_bundle d (p : work_item -> bool) (rows : list (string * work_item)) :
  rows ≡ₚ filter (fun e : string * work_item => p e.2) (map_to_list (items d)) ->
  existsb (fun e : string * work_item => sink_redrive_shaped e.2 && negb (pending_sink_bundle_clause e.2)) rows = false ->
  forall id i, items d !! id = Some i -> p i = true -> sink_redrive_shaped i = true -> pending_sink_bundle_clause i = true.
Proof.
  intros Hrows Hex id i Hi Hp Hs. apply negb_false_iff, not_true_iff_false. intros Hn.
  rewrite <- not_true_iff_false, existsb_exists in Hex. apply Hex. exists (id, i).
  rewrite <- list_elem_of_In, (selected_elem _ _ _ _ Hrows). cbn. by rewrite Hs, Hn.
Qed.

Lemma update_where_ext (p q : work_item -> bool) f c :
  (forall id i, items (c_db c) !! id = Some i -> p i = q i) -> update_items_where p f c = update_items_where q f c.
Proof.
  intros Hpq. unfold update_items_where.
  rewrite (filter_iff (fun e : string * work_item => p e.2) (fun e => q e.2)).
  - case_match; [|done]. unfold put_items. rewrite (map_fmap_ext _ (fun i => if q i then f i else i) (items (c_db c))); [done|].
    intros id i Hi. by rewrite (Hpq id i Hi).
  - intros [id i] Hin%elem_of_map_to_list. by apply (Hpq id).
Qed.

(** A sweep that returns has the effect. *)
Lemma rotate_ok c n c' :
  rotate_expired_leases t grace stall c = (Ok n, c') -> exists rows, recovers (c_db c) (c_db c') (c_tick c) rows.
Proof.
  unfold rotate_expired_leases. intros Hb. inv_txn. cbn [c_db c_tick] in Hb.
  pose proof (reap_selects (c_db c) (c_tick c)) as Hsel. cbv zeta in Hsel.
  set (candidates := filter _ _) in Hb, Hsel. destruct (candidates == []) eqn:Ec.
  { inv_txn. exists []. apply recovers_nothing. intros id i Hi. apply elem_of_map_to_list in Hi.
    destruct (Hsel _ Hi) as [Hs _]. apply bool_decide_eq_true in Ec. by rewrite Ec in Hs. }
  cbv zeta in Hb. inv_txn. cbn [c_db c_tick] in Hb. set (rows := sort_by _ _) in Hb.
  assert (rows ≡ₚ filter (fun e : string * work_item => swept (c_db c) (c_tick c) e.2) (map_to_list (items (c_db c)))) as Hrows.
  { subst rows. rewrite sort_by_perm. apply Permutation_refl', filter_iff. intros e He. by apply Hsel. }
  destruct (rows == []) eqn:Er.
  { inv_txn. apply bool_decide_eq_true in Er. exists []. apply recovers_nothing. intros id i Hi.
    apply not_true_iff_false. intros Hs.
    assert ((id, i) ∈ rows) as Hx by (by apply (selected_elem _ _ _ _ Hrows)). rewrite Er in Hx. by apply not_elem_of_nil in Hx. }
  inv_txn. clearbody rows.
  match goal with Hu : update_items_where _ _ _ = _ |- _ =>
    rewrite (update_where_ext _ (fun i => swept (c_db c) (c_tick c) i && sink_redrive_shaped i)) in Hu end.
  2:{ intros id i Hi. cbn in Hi. apply elem_of_map_to_list in Hi. destruct (Hsel _ Hi) as [_ Hk]. cbn [snd] in Hk. unfold swept.
      destruct (_ && sql_lt _ _) eqn:Es; [|done]. rewrite Hk by done. cbn [andb].
      destruct (sink_redrive_shaped i) eqn:Esh; [|done]. apply (complete_bundle (c_db c) (swept (c_db c) (c_tick c)) rows Hrows Heqb id i); [|done|done].
      by apply elem_of_map_to_list. }
  match goal with Hu : update_items_where _ _ _ = _, Hx : execute_many _ _ _ = _ |- _ =>
    eapply (rotation_steps _ (c_db c)) in Hx as (Hv & He & Heff & Hmoves); [|exact Hrows| | | |exact Hu]; [|done| |] end.
  - match goal with Hu : update_items_where _ _ _ = _ |- _ =>
      pose proof (recovered_all _ _ _ _ _ _ _ _ _ Hrows Heff eq_refl Hu eq_refl) as Hall end.
    rewrite Hall in *. quiet_steps.
    match goal with Hx : for_each _ _ _ = _ |- _ =>
      apply stalled_events_quiet in Hx as (Hqi & Hqe & _); [|intros; by eapply stalled_quiet] end.
    exists rows. unfold recovers, view. rewrite Hqe, Hqi. cbn. rewrite He. split_and!; [done..|exact Hv|exact Heff|exact Hmoves].
  - intros id i Hi Hs. split; [unfold swept, reapable in Hs; by bool_facts|].
    by eapply (complete_bundle _ _ _ Hrows Heqb).
  - intros e Hin%(selected_elem _ _ _ _ Hrows) Es. destruct Hin as [_ Hs]. unfold swept in Hs. bool_facts.
    rewrite Es. by apply andb_true_iff.
Qed.
End recovery.
