(* ===== verification/SchedulerReplay.v ===== *)
(** * SchedulerReplay: the event log tells the story of the queue

    The status, the owner and the attempt of every work item are what the
    replay of the scheduler events says.  Here: each verb of [Scheduler] keeps
    that. *)

From S2P Require Import Prelude Enums Outcomes Landscape Coordination CoordinationTheory Scheduler SchedulerFacts SchedulerRecovery.
Open Scope Z_scope.

(** ** Every verb keeps the log complete *)
Section replayed.
Context `{Env}.

(** A lease change of one row with its event. *)
Lemma lease_replays d d' id i e :
  replays d -> items d !! id = Some i -> items d' = <[id := e]> (items d) ->
  wi_attempt e = wi_attempt i -> forall type now caller expires,
  scheduler_events d' = scheduler_events d ++
    [transition_event type id i (wi_status e) (wi_lease_owner e) expires now caller] ->
  type <> LEASE_LOST -> replays d'.
Proof.
  intros Hr _ Hi Ha type now caller expires He Ht. eapply replays_one; [done..|].
  apply transition_describes; [done|]. unfold cell_of. by rewrite Ha.
Qed.

Lemma claim_ready_row_replays id run owner lease mf st : keeps replays (claim_ready_row id run owner lease mf st).
Proof.
  intros c a c' Hr Hb. unfold claim_ready_row, row_in_run in Hb. inv_txn.
  destruct (items _ !! id) as [row|] eqn:Erow; cbn in Hb; [|inv_txn; done].
  destruct (in_run run row) eqn:Ein; cbn in Hb; [|inv_txn; done]. inv_txn.
  match goal with Hu : update_item _ _ _ _ = _ |- _ => apply update_item_ok in Hu as [(-> & i & Hi & Hp & _ & ->)|(-> & -> & _)] end;
    cbn [negb] in Hb; inv_txn; [|done].
  quiet_steps. cbn in *. rewrite Erow in Hi. injection Hi as ->.
  match type of Hb with (match ?o with Some _ => _ | None => _ end) _ = _ => destruct o end; inv_txn.
  eapply (lease_replays _ _ id); [done|exact Erow|reflexivity|..]; done.
Qed.

Lemma claim_ready_replays m owner lease en : replays (e_db en) -> replays (e_db (claim_ready m owner lease en).2).
Proof.
  unfold claim_ready. case_match; [done|]. apply member_keeps; [apply _|].
  intros c a c' Hr Hb. inv_txn. destruct (head _) as [[id i]|]; [|by inv_txn]. by eapply claim_ready_row_replays in Hb.
Qed.

Lemma enqueue_step_replays id k payload q b attempt now :
  keeps replays
    (inserted ← insert_work_item_idempotent id (ready_work_item_values k payload q b attempt now);
     if inserted : bool then record (enqueue_event id k attempt now) else mret tt).
Proof.
  intros c a c' Hr Hb. inv_txn.
  match goal with Hu : insert_work_item_idempotent _ _ _ = _ |- _ => apply insert_idempotent_ok in Hu as [(-> & Hn & _ & ->)|(-> & -> & _)] end;
    [|by inv_txn]. quiet_steps. by eapply replays_one.
Qed.

Lemma enqueue_ready_replays m k payload q b attempt en :
  replays (e_db en) -> replays (e_db (enqueue_ready m k payload q b attempt en).2).
Proof.
  apply member_keeps; [apply _|]. intros c a c' Hr Hb. inv_txn.
  match goal with Hv : validate_work_item_references _ _ = _ |- _ => apply references_db in Hv end. cbn in *.
  destruct (items _ !! _); inv_txn.
  match goal with Hi : insert_work_item_idempotent _ _ ?c0 = (Ok ?b, ?c1), He : _ ?c1 = (Ok ?u, ?c2) |- _ =>
    eapply (enqueue_step_replays _ _ _ _ _ _ _ c0 u c2); [congruence|]; apply txn_bind_ok; exists b, c1; eauto end.
Qed.

Lemma enqueue_claimed_on_replays run k payload q b attempt owner lease w :
  keeps replays (enqueue_ready_claimed_on run k payload q b attempt owner lease w).
Proof.
  intros c a c' Hr Hb. unfold enqueue_ready_claimed_on in Hb. inv_txn.
  match goal with Hv : validate_work_item_references _ _ = _ |- _ => apply references_db in Hv end. cbn in *.
  match goal with Hi : insert_work_item_idempotent _ _ ?c0 = (Ok ?b, ?c1), He : _ ?c1 = (Ok ?u, ?c2) |- _ =>
    assert (replays (c_db c2)) as Hr2 by
      (eapply (enqueue_step_replays _ _ _ _ _ _ _ c0 u c2); [congruence|]; apply txn_bind_ok; exists b, c1; eauto) end.
  destruct (items _ !! _); [|done]. case_match; inv_txn; [|done]. by eapply claim_ready_row_replays.
Qed.

Lemma enqueue_ready_claimed_replays m k payload q b attempt owner lease en :
  replays (e_db en) -> replays (e_db (enqueue_ready_claimed m k payload q b attempt owner lease en).2).
Proof.
  unfold enqueue_ready_claimed. case_match; [done|]. apply member_keeps; [apply _|]. apply enqueue_claimed_on_replays.
Qed.

Lemma claim_pending_sink_replays t owner lease en :
  replays (e_db en) -> replays (e_db (claim_pending_sink t owner lease en).2).
Proof.
  unfold claim_pending_sink. case_match; [done|]. apply leader_keeps; [apply _|].
  intros c a c' Hr Hb. inv_txn.
  destruct (head _) as [[id row]|] eqn:Eh; [|by inv_txn]. apply select_head in Eh as [Erow _]. inv_txn.
  match goal with Hu : update_item _ _ _ _ = _ |- _ => apply update_item_ok in Hu as [(-> & i & Hi & Hp & _ & ->)|(-> & -> & _)] end;
    cbn [negb] in Hb; inv_txn; [|done].
  quiet_steps. cbn in *. rewrite Erow in Hi. injection Hi as ->. destruct (row_in_run _ _ _); inv_txn.
  eapply (lease_replays _ _ id); [done|exact Erow|reflexivity|..]; done.
Qed.

Lemma heartbeat_replays m id owner lease en :
  replays (e_db en) -> replays (e_db (heartbeat_lease m id owner lease en).2).
Proof.
  unfold heartbeat_lease. case_match; [done|]. intros Hr.
  match goal with |- context [fenced_member_transaction m ?n ?b en] =>
    assert (keeps replays b) as Hk; [|pose proof (member_keeps replays m n b en Hk Hr) as Hr'] end.
  - clear. intros c a c' Hr Hb. inv_txn.
    match goal with Hu : update_item _ _ _ _ = _ |- _ => apply update_item_ok in Hu as [(-> & i & Hi & Hp & _ & ->)|(-> & -> & _)] end;
      inv_txn; quiet_steps.
    + unfold replays, view in *. cbn in *. rewrite fmap_insert, insert_id; [done|]. by rewrite lookup_fmap, Hi.
    + repeat case_match; inv_txn; quiet_steps; unfold replays, replay in *; cbn; rewrite ?foldl_app; done.
  - destruct (fenced_member_transaction _ _ _ _) as [[[]|] ?]; done.
Qed.

Lemma transition_on_replays m id im losses rb : keeps replays (transition_on m id im losses rb).
Proof.
  intros c a c' Hr Hb. unfold transition_on in Hb. inv_txn.
  match goal with Hu : update_item _ _ _ _ = _ |- _ => apply update_item_ok in Hu as [(-> & i & Hi & Hp & _ & ->)|(-> & -> & _)] end; [|done].
  cbn in Hi, Hb. rewrite Hi, lookup_insert_eq in Hb. inv_txn. quiet_steps.
  match goal with Hx : record_group_losses _ _ _ _ _ = _ |- _ => apply record_losses_db in Hx as [Hit Hev] end. cbn in *.
  eapply replays_one; [done|exact Hit|exact Hev|]. apply transition_describes; [by destruct im|].
  by destruct im; cbn; [| |case_match|].
Qed.

Lemma transition_replays m id owner im losses rb en :
  replays (e_db en) -> replays (e_db (transition m id owner im losses rb en).2).
Proof. unfold transition. case_match; [done|]. apply member_keeps; [apply _|]. apply transition_on_replays. Qed.

Lemma terminal_describes caller now anchor e :
  describes (terminal_event caller now e) e.1 (terminalize now anchor e.2).
Proof. by apply transition_describes. Qed.

Lemma mark_pending_sink_terminal_replays t token owner en :
  replays (e_db en) -> replays (e_db (mark_pending_sink_terminal t token owner en).2).
Proof.
  unfold mark_pending_sink_terminal. intros Hr.
  match goal with |- context [fenced_leader_transaction t ?w ?n ?b en] =>
    assert (keeps replays b) as Hk; [|pose proof (leader_keeps replays t w n b en Hk Hr) as Hr'] end.
  - clear. intros c a c' Hr Hb. inv_txn. quiet_steps.
    match goal with Hu : update_items_where _ _ _ = _ |- _ =>
      eapply (where_replays _ _ (terminal_event owner _)) in Hu as [Hv He]; [|apply sort_by_perm|intros; apply terminal_describes] end.
    cbn in *. eapply replays_many; [exact Hr|exact Hv|cbn; by rewrite He].
  - destruct (fenced_leader_transaction _ _ _ _ _) as [[|[]] ?]; try done. by case_match.
Qed.

Lemma check_batch_db l c u c' (f : string -> res unit) :
  for_each (fun x => lift (f x)) l c = (Ok u, c') -> c' = c.
Proof.
  revert c. induction l as [|x l IH]; intros c Hx; cbn in Hx; inv_txn; [done|].
  unfold lift in *. simplify_eq. eauto.
Qed.

Lemma terminal_many_replays t tokens owner en :
  replays (e_db en) -> replays (e_db (mark_pending_sink_terminal_many t tokens owner en).2).
Proof.
  unfold mark_pending_sink_terminal_many. do 2 (case_match; [done|]). apply leader_keeps; [apply _|].
  intros c a c' Hr Hb. inv_txn. quiet_steps. bool_facts.
  match goal with Hx : for_each _ _ _ = _ |- _ => apply check_batch_db in Hx as -> end.
  match goal with Hu : execute_many _ _ _ = _ |- _ =>
    eapply (execute_updates _ _ (terminal_event owner _)) in Hu as [Hv He];
    [|by apply Nat.eqb_eq in Heqb as ->|apply select_nodup|intros e [Hi _]%select_rows; split; [exact Hi|apply terminal_describes]] end.
  cbn in *. eapply replays_many; [exact Hr|exact Hv|cbn; by rewrite He].
Qed.

Lemma terminalize_decided_replays t caller en :
  replays (e_db en) -> replays (e_db (terminalize_pending_sinks_with_terminal_outcomes t caller en).2).
Proof.
  apply leader_keeps; [apply _|]. intros c a c' Hr Hb. inv_txn. quiet_steps. bool_facts.
  match goal with Hu : execute_many _ _ _ = _ |- _ =>
    eapply (execute_updates _ _ (terminal_event caller _)) in Hu as [Hv He];
    [|by apply Nat.eqb_eq in Heqb as ->|apply select_nodup|intros e [Hi _]%select_rows; split; [exact Hi|apply terminal_describes]] end.
  cbn in *. eapply replays_many; [exact Hr|exact Hv|cbn; by rewrite He].
Qed.

Lemma requeue_replays t en : replays (e_db en) -> replays (e_db (requeue_undecided_failed_work t en).2).
Proof.
  apply leader_keeps; [apply _|]. intros c a c' Hr Hb. inv_txn.
  cbv zeta in Hb. case_match; [by inv_txn|]. inv_txn. quiet_steps. bool_facts.
  match goal with Hu : execute_many _ _ _ = _ |- context [map ?ev _] =>
    eapply (execute_renames _ _ _ ev) in Hu as (_ & Hv & He & _);
    [|apply select_nodup|intros e [Hi Hp]%select_rows; split_and!; [exact Hi|exact Hp|]] end.
  - cbn in *. eapply replays_many; [exact Hr|exact Hv|cbn; by rewrite He].
  - unfold describes_move. cbn. split_and!; [done..| |done]. by left.
Qed.

Lemma recover_replays t grace stall en : replays (e_db en) -> replays (e_db (recover_expired_leases t grace stall en).2).
Proof.
  apply leader_keeps; [apply _|]. intros c a c' Hr Hb. apply rotate_ok in Hb as (rows & _ & He & Hv & _).
  by eapply replays_many.
Qed.

Lemma item_replays {A} m id item name (body : txn A) en :
  Quiet body -> replays (e_db en) -> replays (e_db (fenced_item_transaction m id item name body en).2).
Proof.
  intros Hq. unfold fenced_item_transaction. do 2 (case_match; [done|]). apply member_keeps; [apply _|].
  intros c a c' Hr Hb. inv_txn.
  match goal with Hx : body ?c1 = _ |- _ => specialize (Hq c1); rewrite Hx in Hq; eapply stable; [exact Hq|] end.
  match goal with Hu : update_item _ _ _ _ = _ |- _ => apply update_item_ok in Hu as [(_ & i & Hi & _ & _ & ->)|(_ & -> & _)] end; [|done].
  unfold replays, view in *. cbn. by rewrite insert_id.
Qed.
End replayed.
