(* ===== verification/BarrierReplay.v ===== *)
(** * BarrierReplay: the verbs of [Emissions] and [Barrier] and the queue

    What each statement of a barrier completion does to the held rows, and
    that these verbs keep the event log complete. *)

From S2P Require Import Prelude Enums Outcomes AuditDerive Landscape Coordination CoordinationTheory Scheduler Emissions Barrier Lifecycle SchedulerFacts SchedulerRecovery SchedulerReplay.
Open Scope Z_scope.

(** ** Emissions *)
Section emitted.
Context `{Env}.

(** A prepared row and its event agree. *)
Definition prepared_ok (p : prepared) : Prop := describes p.2 p.1.1 p.1.2.

Lemma map_txn_rel {A B} (f : A -> txn B) (R : A -> B -> Prop) l c bs c' :
  (forall a c b c', f a c = (Ok b, c') -> c_db c' = c_db c /\ R a b) ->
  map_txn f l c = (Ok bs, c') -> c_db c' = c_db c /\ Forall2 R l bs.
Proof.
  intros Hf. revert c bs c'. induction l as [|a l IH]; intros c bs c' Hm; cbn in Hm.
  { inv_txn. done. }
  apply txn_bind_ok in Hm as (b & c1 & [Hc1 Hb]%Hf & Hm). apply txn_bind_ok in Hm as (bs' & c2 & [Hc2 Hbs]%IH & [= <- <-]).
  split; [congruence|by constructor].
Qed.

Lemma map_txn_db {A B} (f : A -> txn B) (P : B -> Prop) l c bs c' :
  (forall a c b c', f a c = (Ok b, c') -> c_db c' = c_db c /\ P b) ->
  map_txn f l c = (Ok bs, c') -> c_db c' = c_db c /\ Forall P bs.
Proof.
  intros Hf [Hdb Hr]%(map_txn_rel _ (fun _ => P)); [|done]. split; [done|]. clear -Hr. induction Hr; by constructor.
Qed.

(** A prepared READY row. *)
Definition prepared_ready (p : prepared) : Prop :=
  prepared_ok p /\ wi_status p.1.2 = READY /\ wi_lease_owner p.1.2 = None /\ fresh_work p.1.2.

Lemma prepare_ready_on_ok run e c p c' :
  prepare_ready_emission_on run e c = (Ok p, c') -> c_db c' = c_db c /\ prepared_ready p.
Proof.
  unfold prepare_ready_emission_on. intros Hp. repeat (case_match; [|done]). inv_txn.
  match goal with Hv : validate_work_item_references _ _ = _ |- _ => apply references_db in Hv end. cbn.
  unfold prepared_ready, fresh_work. cbn. split_and!; try done. by left.
Qed.

(** The row that an emission becomes, READY or waiting for its sink. *)
Definition emitted_as (run : string) (node : option string) (e : BarrierEmission) (r : string * work_item) : Prop :=
  r.1 = work_item_id run (be_token_id e) node (be_attempt e) /\ k_run_id (wi_key r.2) = run /\
  k_token_id (wi_key r.2) = be_token_id e /\ k_node_id (wi_key r.2) = node /\ wi_attempt r.2 = be_attempt e /\
  wi_row_payload r.2 = be_row_payload e.

Definition ready_row (run : string) (e : BarrierEmission) (r : string * work_item) : Prop :=
  emitted_as run (be_node_id e) e r /\ wi_status r.2 = READY /\ wi_lease_owner r.2 = None /\ wi_lease_expires_at r.2 = None.

Definition sink_row (run : string) (owner : option string) (e : BarrierEmission) (r : string * work_item) : Prop :=
  emitted_as run None e r /\ wi_status r.2 = PENDING_SINK /\ wi_bundle r.2 = be_bundle e /\ wi_lease_owner r.2 = owner /\
  wi_lease_expires_at r.2 = None.

Lemma prepare_fresh_ok run e ctx now owner c p c' :
  prepare_fresh_pending_sink_item run e ctx now owner c = (Ok p, c') ->
  c_db c' = c_db c /\ prepared_ok p /\ sink_row run owner e p.1.
Proof.
  unfold prepare_fresh_pending_sink_item. intros Hp. inv_txn. repeat (case_match; [|done]). inv_txn.
  match goal with Hv : validate_work_item_references _ _ = _ |- _ => apply references_db in Hv end. cbn. done.
Qed.

Lemma prepare_ready_ok run ctx now at_ e c p c' :
  prepare_ready_emission run ctx now at_ e c = (Ok p, c') -> c_db c' = c_db c /\ prepared_ok p /\ ready_row run e p.1.
Proof.
  unfold prepare_ready_emission. intros Hp. repeat (case_match; [|done]). inv_txn.
  match goal with Hv : validate_work_item_references _ _ = _ |- _ => apply references_db in Hv end. cbn. done.
Qed.

Lemma prepare_readies_ok run ctx now l c ps c' :
  prepare_ready_emissions run ctx now l c = (Ok ps, c') ->
  c_db c' = c_db c /\ Forall2 (fun e p => prepared_ok p /\ ready_row run e p.1) l ps.
Proof.
  revert c ps c'. induction l as [|e l IH]; intros c ps c' Hm; cbn in Hm.
  { inv_txn. done. }
  apply txn_bind_ok in Hm as (b & c1 & [Hc1 Hb]%prepare_ready_ok & Hm).
  apply txn_bind_ok in Hm as (bs' & c2 & [Hc2 Hbs]%IH & [= <- <-]). split; [congruence|by constructor].
Qed.

(** The parts of such a list. *)
Lemma prepared_split {A} (R : A -> string * work_item -> Prop) l (ps : list prepared) :
  Forall2 (fun e p => prepared_ok p /\ R e p.1) l ps -> Forall prepared_ok ps /\ Forall2 R l (map fst ps).
Proof. induction 1 as [|e p l ps [H1 H2] _ [IH1 IH2]]; cbn; split; by constructor. Qed.

(** Fresh rows with their events. *)
Lemma insert_prepared_replays ps c u c' : 
  replays (c_db c) -> Forall prepared_ok ps -> insert_work_items (map fst ps) c = (Ok u, c') ->
  forall c2 u2, record_many (map snd ps) c' = (Ok u2, c2) -> replays (c_db c2).
Proof.
  intros Hr Hps [Hins ->]%insert_items_new c2 u2 ->%record_many_ok. cbn in *.
  eapply replays_many; [exact Hr| |done]. unfold view. cbn. eapply inserts_replay; [exact Hins|].
  clear -Hps. induction Hps; cbn; constructor; done.
Qed.

(** A row offered for insertion and the event kept for its id. *)
Definition offered (e : string * work_item) (ev : string * SchedulerEventRecord) : Prop :=
  e.1 = ev.1 /\ describes ev.2 e.1 e.2 /\ wi_status e.2 = READY /\ wi_lease_owner e.2 = None /\ fresh_work e.2.

Lemma offered_replace rows evs id i ev :
  Forall2 offered rows evs -> dict_get rows id = Some i -> offered (id, i) (id, ev) -> NoDup rows.*1 ->
  Forall2 offered rows (dict_set evs id ev).
Proof.
  intros Hf. induction Hf as [|[k j] [k' ev'] rows evs Ho Hf IH]; intros Hg Hn Hnd; cbn in *; [done|].
  destruct Ho as (Hk & Ho). cbn in Hk. subst k'. apply NoDup_cons in Hnd as [_ Hnd].
  destruct (bool_decide_reflect (k = id)) as [->|Hne].
  - injection Hg as ->. constructor; [|done]. exact Hn.
  - constructor; [by split|auto].
Qed.

Lemma offered_add rows evs id i ev :
  Forall2 offered rows evs -> dict_get rows id = None -> offered (id, i) (id, ev) ->
  Forall2 offered (dict_set rows id i) (dict_set evs id ev).
Proof.
  intros Hf. induction Hf as [|[k j] [k' ev'] rows evs Ho Hf IH]; intros Hg Hn; cbn in *; [by constructor|].
  destruct Ho as (Hk & Ho). cbn in Hk. subst k'. destruct (bool_decide_reflect (k = id)) as [->|Hne]; [done|].
  constructor; [by split|auto].
Qed.

Lemma children_offered children rows evs l :
  Forall prepared_ready children -> values_by_id (map fst children) rows = Ok l -> NoDup rows.*1 ->
  Forall2 offered rows evs ->
  Forall2 offered l (foldl (fun d c => dict_set d (se_work_item_id c.2) c.2) evs children).
Proof.
  revert rows evs. induction children as [|[[id i] ev] children IH]; intros rows evs Hc Hv Hnd Hf; cbn in *; [by inv_ok|].
  apply Forall_cons in Hc as [((Ht & Hp & Hid & Hcell) & Hs & Ho & Hw) Hc]. cbn in *. subst id.
  destruct (dict_get rows _) as [j|] eqn:Eg.
  - inv_ok. eapply IH; [done..|]. eapply offered_replace; [done|exact Eg| |done].
    assert (offered_row : wi_status j = READY /\ wi_lease_owner j = None /\ fresh_work j).
    { apply dict_get_elem in Eg. clear -Hf Eg. induction Hf as [|e ev' rows evs (_ & _ & Ho) Hf IH]; [by apply elem_of_nil in Eg|].
      apply elem_of_cons in Eg as [<-|Eg]; [exact Ho|auto]. }
    destruct offered_row as (Hsj & Hoj & Hwj). unfold offered, describes. cbn. split_and!; try done.
    rewrite Hcell. unfold cell_of. unfold replay_matches in *. bool_facts. rewrite Hs, Ho, Hsj, Hoj.
    match goal with Ha : (_ =? _) = true |- _ => apply Z.eqb_eq in Ha as -> end. done.
  - eapply IH; [done|done|by apply dict_set_nodup|]. by apply offered_add.
Qed.

Lemma offered_fresh (P : string * work_item -> bool) rows evs :
  Forall2 offered rows evs -> Forall (fun e => fresh_work e.2) (filter (fun e => P e) rows).
Proof.
  intros Hf. apply Forall_forall. intros e [_ He]%list_elem_of_filter.
  induction Hf as [|e' ev rows evs (_ & _ & _ & _ & Hw) _ IH]; [by apply not_elem_of_nil in He|].
  apply elem_of_cons in He as [->|He]; auto.
Qed.

(** Inserted rows pair up with the events of their ids. *)
Lemma offered_filter (P : string * work_item -> bool) rows evs :
  Forall2 offered rows evs -> NoDup rows.*1 ->
  Forall2 (fun e ev => describes ev e.1 e.2) (filter (fun e => P e) rows)
    (map snd (filter (fun e : string * SchedulerEventRecord => bool_decide (e.1 ∈ (filter (fun e => P e) rows).*1)) evs)).
Proof.
  intros Hf Hnd.
  assert (forall e, e ∈ rows -> P e = bool_decide (e.1 ∈ (filter (fun e => P e) rows).*1)) as Hp.
  { intros e He. destruct (P e) eqn:Ep; symmetry.
    - apply bool_decide_eq_true_2, list_elem_of_fmap. exists e. split; [done|]. apply list_elem_of_filter. by rewrite Ep.
    - apply bool_decide_eq_false_2. intros (e' & Heq & [Hp' He']%list_elem_of_filter)%list_elem_of_fmap.
      assert (e = e') as ->; [|by rewrite Ep in Hp'].
      destruct e as [k a], e' as [k' a']. cbn in Heq. subst k'. f_equal.
      apply (dict_get_unique rows k) in He, He'; [congruence|done..]. }
  set (keys := (filter (fun e => P e) rows).*1) in *. rewrite (filter_iff P (fun e => bool_decide (e.1 ∈ keys))) by done.
  clearbody keys. clear -Hf. induction Hf as [|e ev rows evs (Hk & Hd & _) Hf IH]; [constructor|]. rewrite !filter_cons, <- Hk.
  destruct (decide _); cbn; [by constructor|done].
Qed.

Lemma children_replays m id emitted owner im losses rb en :
  replays (e_db en) -> replays (e_db (transition_with_ready_children m id emitted owner im losses rb en).2).
Proof.
  unfold transition_with_ready_children. do 2 (case_match; [done|]). apply member_keeps; [apply _|].
  intros c a c' Hr Hb. apply txn_bind_ok in Hb as (children & c1 & Hm & Hb).
  apply (map_txn_db _ prepared_ready) in Hm as [Hdb Hch]; [|intros; by eapply prepare_ready_on_ok].
  apply txn_bind_ok in Hb as (ids & c2 & (by_id & new & Hv & Hnd & -> & -> & Hins & ->)%insert_items_ok & Hb).
  apply txn_bind_ok in Hb as (u & c3 & Hrec & Hb). apply txn_bind_ok in Hb as (rows & c4 & Hrows & Hb).
  apply txn_bind_ok in Hb as (parent & c5 & Ht & [= <- <-]).
  apply (map_txn_db _ (fun _ => True)) in Hrows as [Hdb4 _].
  2:{ clear. intros p c b c' Hx. inv_txn. case_match; by inv_txn. }
  eapply transition_on_replays; [|exact Ht]. rewrite Hdb4. apply record_many_ok in Hrec as ->. cbn in *.
  eapply replays_many; [exact Hr| |cbn; by rewrite Hdb]. unfold view. cbn. rewrite <- Hdb.
  eapply inserts_replay; [exact Hins|]. apply offered_filter; [|done].
  eapply (children_offered children [] []); [done|exact Hv|constructor|constructor].
Qed.

Lemma park_replays run e owner : keeps replays (park_source_quarantine_on run e owner).
Proof.
  intros c a c' Hr Hb. unfold park_source_quarantine_on in Hb. inv_txn.
  match goal with Hp : prepare_fresh_pending_sink_item _ _ _ _ _ _ = _ |- _ => apply prepare_fresh_ok in Hp as (Hdb & Hok & _) end.
  match goal with Hi : insert_work_items [?p.1] ?c0 = (Ok ?u, ?c1), Hx : record_many [?p.2] ?c1 = (Ok ?u2, ?c2) |- _ =>
    pose proof (insert_prepared_replays [p] c0 u c1 ltac:(rewrite Hdb; exact Hr) (proj2 (Forall_singleton _ _) Hok) Hi c2 u2 Hx) end.
  case_match; by inv_txn.
Qed.

Lemma ingest_row_replays ins st t k payload q b owner lease en :
  Quiet ins -> Quiet st -> replays (e_db en) ->
  replays (e_db (ingest_row_with_initial_claim ins st t k payload q b owner lease en).2).
Proof.
  intros H1 H2. unfold ingest_row_with_initial_claim. case_match; [done|]. apply leader_keeps; [apply _|].
  intros c a c' Hr Hb. inv_txn. eapply enqueue_claimed_on_replays; [|exact Hb].
  repeat match goal with Hq : Quiet ?m, Hx : ?m ?c = (_, ?c') |- _ => specialize (Hq c); rewrite Hx in Hq end.
  by eapply stable; [done|]; eapply stable.
Qed.

Lemma ingest_quarantine_replays ins st t row token seq s1 s2 e en :
  Quiet ins -> Quiet st -> replays (e_db en) ->
  replays (e_db (ingest_quarantine_row_with_pending_sink ins st t row token seq s1 s2 e en).2).
Proof.
  intros H1 H2. unfold ingest_quarantine_row_with_pending_sink. do 2 (case_match; [done|]). apply leader_keeps; [apply _|].
  intros c a c' Hr Hb. inv_txn. eapply park_replays; [|exact Hb].
  repeat match goal with Hq : Quiet ?m, Hx : ?m ?c = (_, ?c') |- _ => specialize (Hq c); rewrite Hx in Hq end.
  by eapply stable; [done|]; eapply stable.
Qed.
End emitted.

(** ** Completion of a barrier *)
Section completed.
Context `{Env}.

(** A batch of updates that all hit, with its events. *)
Lemma batch_ok (p : string * work_item -> work_item -> bool) (f : string * work_item -> work_item -> work_item)
    (ev : string * work_item -> SchedulerEventRecord) rows c n c1 u c' :
  execute_many (fun e => update_item e.1 (p e) (f e)) rows c = (Ok n, c1) -> (length rows <= n)%nat ->
  NoDup rows.*1 -> (forall e, e ∈ rows -> items (c_db c) !! e.1 = Some e.2 /\ describes (ev e) e.1 (f e e.2)) ->
  record_many (map ev rows) c1 = (Ok u, c') ->
  (replays (c_db c) -> replays (c_db c')) /\
  (forall e, e ∈ rows -> items (c_db c') !! e.1 = Some (f e e.2)) /\
  (forall x, x ∉ rows.*1 -> items (c_db c') !! x = items (c_db c) !! x).
Proof.
  intros Hx Hn Hnd Hrows ->%record_many_ok. cbn.
  pose proof (execute_updates _ _ ev _ _ _ _ Hx Hn Hnd Hrows) as [Hv He].
  apply execute_updates_effect in Hx as (Heff & Hother & _); [|done|done|intros e Hin; by apply Hrows].
  split_and!; [|intros e Hin; by apply Heff|done].
  intros Hr. eapply replays_many; [exact Hr|exact Hv|cbn; by rewrite He].
Qed.

Lemma barrier_describes type run e status owner now ctx i :
  type <> LEASE_LOST -> type <> RECOVER_EXPIRED_LEASE -> type <> RESUME_REQUEUE_FAILED ->
  cell_of i = (status, owner, wi_attempt e.2) -> describes (barrier_event type run e status owner now ctx) e.1 i.
Proof. intros H1 H2 H3 Hc. unfold describes, retired_by. rewrite Hc. cbn. by destruct type. Qed.

(** Held rows as the journal lists them. *)
Definition listed (rows : list (string * work_item)) (d : landscape) : Prop :=
  NoDup rows.*1 /\ forall e, e ∈ rows -> items d !! e.1 = Some e.2.

Lemma listed_filter rows d (P : string * work_item -> bool) : listed rows d -> listed (filter (fun e => P e) rows) d.
Proof.
  intros [Hnd Hi]. split; [|by intros e [_ He]%list_elem_of_filter; auto].
  eapply sublist_NoDup; [exact Hnd|]. apply fmap_sublist, sublist_filter.
Qed.

Lemma listed_sort rows d before : listed rows d -> listed (sort_by before rows) d.
Proof.
  intros [Hnd Hi]. split; [by rewrite sort_by_perm|]. intros e He. rewrite sort_by_perm in He. auto.
Qed.

(** A row is listed at most once. *)
Lemma listed_unique rows d e id i : listed rows d -> e ∈ rows -> e.1 = id -> items d !! id = Some i -> e = (id, i).
Proof. intros [_ Hi] He <- Hd. apply Hi in He. destruct e. cbn in *. congruence. Qed.

Lemma terminalize_consumed_ok run bk consumed rows now rc c n c' :
  terminalize_consumed_barrier_rows run bk consumed rows now rc c = (Ok n, c') -> listed rows (c_db c) ->
  (forall x, x ∈ consumed -> x ∈ map token_of rows) ->
  n = length consumed /\ (replays (c_db c) -> replays (c_db c')) /\
  (forall e, e ∈ rows -> token_of e ∈ consumed -> items (c_db c') !! e.1 = Some (terminalize now bk e.2)) /\
  (forall x, (forall e, e ∈ rows -> e.1 = x -> token_of e ∉ consumed) -> items (c_db c') !! x = items (c_db c) !! x).
Proof.
  unfold terminalize_consumed_barrier_rows. intros Hb Hl Hc.
  set (candidates := sort_by by_token_and_id (filter (fun e => bool_decide (token_of e ∈ consumed)) rows)) in *. cbv zeta in Hb.
  assert (forall e, e ∈ candidates <-> e ∈ rows /\ token_of e ∈ consumed) as Hin.
  { intros e. subst candidates. rewrite sort_by_perm, list_elem_of_filter, bool_decide_spec. tauto. }
  destruct (bool_decide_reflect (candidates = [])) as [Hnil|Hne].
  { inv_txn. assert (forall e, e ∈ rows -> token_of e ∉ consumed) as Hno.
    { intros e He Ht. assert (e ∈ candidates) as Hx by (by apply Hin). rewrite Hnil in Hx. by apply elem_of_nil in Hx. }
    split_and!; [|done|intros e He Ht; by apply Hno in He|done].
    destruct consumed as [|x consumed]; [done|]. exfalso.
    destruct (proj1 (list_elem_of_fmap token_of rows x) (Hc x ltac:(by left))) as (e & -> & He). apply (Hno e He). by left. }
  pose proof (listed_sort _ _ by_token_and_id (listed_filter _ _ (fun e => bool_decide (token_of e ∈ consumed)) Hl)) as [Hnd Hi].
  fold candidates in Hnd, Hi. inv_txn. bool_facts.
  repeat match goal with Hx : (_ =? _)%nat = true |- _ => apply Nat.eqb_eq in Hx end.
  match goal with Hx : execute_many _ _ _ = _, Hr : record_many _ _ = _ |- _ =>
    eapply (batch_ok _ _ _ _ _ _ _ _ _ Hx) in Hr as (Hrep & Heff & Hother) end; [|lia|done|].
  - split_and!; [done|done|intros e He Ht; by apply Heff, Hin|]. intros x Hno. apply Hother.
    intros (e & -> & [He Ht]%Hin)%list_elem_of_fmap. by eapply Hno.
  - intros e He. split; [by apply Hi|]. by apply barrier_describes.
Qed.

(** Tokens with at most one row each are distinct among those rows. *)
Lemma tokens_nodup (T : list string) rows :
  (forall x, x ∈ T -> (length (rows_of_token rows x) <= 1)%nat) ->
  NoDup (map token_of (filter (fun e => bool_decide (token_of e ∈ T)) rows)).
Proof.
  induction rows as [|e rows IH]; intros Hone; [constructor|]. rewrite filter_cons.
  assert (forall x, x ∈ T -> (length (rows_of_token rows x) <= 1)%nat) as Hone'.
  { intros x Hx. specialize (Hone x Hx). unfold rows_of_token in *. rewrite filter_cons in Hone. destruct (decide _); cbn in *; lia. }
  destruct (decide _) as [Hd|]; [|auto]. apply bool_decide_spec in Hd. cbn [map]. constructor; [|auto].
  intros (e' & Heq & [_ He']%list_elem_of_filter)%list_elem_of_fmap. specialize (Hone (token_of e) Hd).
  unfold rows_of_token in Hone. rewrite filter_cons, decide_True in Hone by (by apply bool_decide_spec). cbn in Hone.
  assert (e' ∈ filter (fun x => token_of x == token_of e) rows) as Hx by (apply list_elem_of_filter; by rewrite bool_decide_spec).
  apply list_elem_of_lookup in Hx as (k & Hk). apply lookup_lt_Some in Hk. lia.
Qed.

Lemma emission_of_some emissions x :
  is_some (emission_of emissions x) = bool_decide (x ∈ map be_token_id emissions).
Proof.
  unfold emission_of. induction emissions as [|e emissions IH]; [done|]. rewrite filter_cons. cbn [map].
  destruct (decide (be_token_id e == x)) as [Hd|Hd]; cbn.
  - apply bool_decide_spec in Hd as <-. symmetry. apply bool_decide_eq_true_2. by left.
  - rewrite bool_decide_spec in Hd. rewrite IH. apply bool_decide_ext. rewrite elem_of_cons. naive_solver.
Qed.

Lemma emission_of_elem emissions x e : emission_of emissions x = Some e -> e ∈ emissions /\ be_token_id e = x.
Proof.
  unfold emission_of. intros He%head_Some_elem_of. apply list_elem_of_filter in He as [Ht He]. by apply bool_decide_spec in Ht.
Qed.

Lemma rejecting_ok {A} (m : txn A) c a c' : rejecting m c = (Ok a, c') -> m c = (Ok a, c').
Proof. unfold rejecting. destruct (m c) as [[|[]] ?]; by intros [=]; subst. Qed.

Lemma passthrough_ok run bk rows pass ctx now owner c u c' :
  transition_passthrough_pending_sink run bk rows pass ctx now owner c = (Ok u, c') ->
  listed (filter (fun e => is_some (emission_of pass (token_of e))) rows) (c_db c) ->
  (forall e, e ∈ pass -> (length (rows_of_token rows (be_token_id e)) <= 1)%nat) ->
  (replays (c_db c) -> replays (c_db c')) /\
  (forall e em, e ∈ rows -> emission_of pass (token_of e) = Some em ->
     items (c_db c') !! e.1 = Some (hand_off (Some em) owner now e.2)) /\
  (forall x, (forall e, e ∈ rows -> e.1 = x -> emission_of pass (token_of e) = None) ->
     items (c_db c') !! x = items (c_db c) !! x).
Proof.
  unfold transition_passthrough_pending_sink. intros Hb Hl Hone.
  destruct (bool_decide_reflect (length pass = 0%nat)) as [Hnil|Hne].
  { apply length_zero_iff_nil in Hnil as ->. inv_txn. done. }
  cbv zeta in Hb. set (candidates := filter _ rows) in Hb. inv_txn. bool_facts.
  match goal with Hx : (_ =? _)%nat = true |- _ => apply Nat.eqb_eq in Hx as -> end.
  match goal with Hx : rejecting _ _ = _ |- _ => apply rejecting_ok in Hx end.
  destruct Hl as [Hnd Hi]. fold candidates in Hnd, Hi.
  assert (forall e, e ∈ candidates <-> e ∈ rows /\ exists em, emission_of pass (token_of e) = Some em) as Hin.
  { intros e. subst candidates. rewrite list_elem_of_filter. destruct (emission_of pass (token_of e)); naive_solver. }
  match goal with Hx : execute_many _ _ _ = _, Hr : record_many _ _ = _ |- _ =>
    eapply (batch_ok _ _ _ _ _ _ _ _ _ Hx) in Hr as (Hrep & Heff & Hother) end; [|clear Hb|done|].
  - split_and!; [done| |].
    + intros e em He Hem. rewrite Heff; [by rewrite Hem|]. apply Hin. eauto.
    + intros x Hno. apply Hother. intros (e & -> & [He (em & Hem)]%Hin)%list_elem_of_fmap.
      by rewrite (Hno e He eq_refl) in Hem.
  - rewrite <- (length_map token_of candidates), <- (length_map be_token_id pass). apply submseteq_length.
    apply NoDup_submseteq.
    + subst candidates. erewrite filter_iff; [apply (tokens_nodup (map be_token_id pass))|].
      * intros x (e & -> & He)%list_elem_of_fmap. auto.
      * intros e _. apply emission_of_some.
    + intros x (e & -> & [_ (em & [Hem <-]%emission_of_elem)]%Hin)%list_elem_of_fmap. by apply list_elem_of_fmap_2.
  - intros e He. split; [by apply Hi|]. apply Hin in He as [_ (em & ->)]. by apply barrier_describes.
Qed.

Lemma split_ok exhaustive rows l pass fresh :
  split_emissions exhaustive rows l = Ok (pass, fresh) ->
  (forall e, e ∈ pass -> length (rows_of_token rows (be_token_id e)) = 1%nat) /\
  (forall x, rows_of_token rows x <> [] -> emission_of pass x = emission_of l x) /\
  fresh = filter (fun e => bool_decide (rows_of_token rows (be_token_id e) = [])) l /\ (forall e, e ∈ pass -> e ∈ l).
Proof.
  revert pass fresh. induction l as [|e l IH]; intros pass fresh Hs; cbn in Hs.
  { injection Hs as <- <-. split_and!; [by intros ? ?%elem_of_nil|done|done|done]. }
  rewrite filter_cons. destruct (rows_of_token rows (be_token_id e)) as [|r [|]] eqn:Er; [| |done].
  - destruct exhaustive; cbn in Hs; [|done]. apply bind_ok in Hs as ([pass' fresh'] & Hs & [= <- <-]).
    apply IH in Hs as (Hone & Hem & -> & Hin). split_and!; [done| |by rewrite decide_True|intros; right; auto].
    intros x Hx. rewrite Hem by done. unfold emission_of. rewrite filter_cons, decide_False; [done|].
    rewrite bool_decide_spec. congruence.
  - apply bind_ok in Hs as ([pass' fresh'] & Hs & [= <- <-]). apply IH in Hs as (Hone & Hem & -> & Hin).
    split_and!.
    + intros e' [->|He']%elem_of_cons; [by rewrite Er|auto].
    + intros x Hx. specialize (Hem x Hx). unfold emission_of in *. rewrite !filter_cons. by destruct (decide _).
    + by rewrite decide_False by (by rewrite bool_decide_spec).
    + intros e' [->|He']%elem_of_cons; [by left|right; auto].
Qed.
(** Writes of outcomes and memberships do not touch the queue. *)
#[export] Instance quiet_set_lineage f : Quiet (exec (fun d => set_lineage d (f d))).
Proof. by intros c. Qed.
#[export] Instance quiet_lift {A} (r : res A) : Quiet (lift r).
Proof. by intros c. Qed.
#[export] Instance quiet_for_each {A} (f : A -> txn unit) l : (forall a, Quiet (f a)) -> Quiet (for_each f l).
Proof. intros Hf. induction l; cbn; apply _. Qed.
#[export] Instance quiet_outcomes run l : Quiet (record_terminal_outcomes_guarded run l).
Proof.
  apply quiet_bind; [apply _|]. intros _. apply quiet_for_each. intros s. unfold insert_terminal_outcome.
  apply quiet_bind; [apply _|]. intros d. by apply quiet_if; apply _.
Qed.

(** What a completion makes of a row of the table. *)
Definition settled (run bk : string) (scope : option string) (consumed : list string) (pending : list BarrierEmission)
    (owner : option string) (now : Z) (i : work_item) : work_item :=
  if held run bk scope i then
    if bool_decide (k_token_id (wi_key i) ∈ consumed) then terminalize now bk i
    else hand_off (emission_of pending (k_token_id (wi_key i))) owner now i
  else i.

(** The rows a completion held, and whether a row of the table is one. *)
Lemma held_rows run bk scope d :
  listed (select_items sweep_before (held run bk scope) d) d /\
  forall x i, items d !! x = Some i ->
    ((x, i) ∈ select_items sweep_before (held run bk scope) d <-> held run bk scope i = true).
Proof.
  split; [split; [apply select_nodup|]; by intros e [? _]%select_rows|]. intros x i Hx.
  unfold select_items. rewrite sort_by_perm, list_elem_of_filter, elem_of_map_to_list, Is_true_true. tauto.
Qed.

Lemma token_rows_elem rows e : e ∈ rows -> rows_of_token rows (token_of e) <> [].
Proof.
  intros He Hn. assert (e ∈ rows_of_token rows (token_of e)) as Hx by (apply list_elem_of_filter; by rewrite bool_decide_spec).
  rewrite Hn in Hx. by apply not_elem_of_nil in Hx.
Qed.

Lemma emission_none pending x : x ∉ map be_token_id pending -> emission_of pending x = None.
Proof.
  intros Hx. destruct (emission_of pending x) as [e|] eqn:Ee; [|done]. apply emission_of_elem in Ee as [He <-].
  exfalso. apply Hx. by apply list_elem_of_fmap_2.
Qed.

(** The three writes to the held rows. *)
Lemma settle_ok run bk scope consumed pending pass fresh ex rc ctx owner outcomes now c n c1 u c2 v c3 :
  let rows := select_items sweep_before (held run bk scope) (c_db c) in
  (forall x, x ∈ consumed -> x ∈ map token_of rows) -> (forall x, x ∈ consumed -> x ∉ map be_token_id pending) ->
  split_emissions ex rows pending = Ok (pass, fresh) ->
  terminalize_consumed_barrier_rows run bk consumed rows now rc c = (Ok n, c1) ->
  record_terminal_outcomes_guarded run outcomes c1 = (Ok u, c2) ->
  transition_passthrough_pending_sink run bk rows pass ctx now owner c2 = (Ok v, c3) ->
  n = length consumed /\ (replays (c_db c) -> replays (c_db c3)) /\
  items (c_db c3) = settled run bk scope consumed pending owner now <$> items (c_db c).
Proof.
  intros rows Hc Hdisj (Hone & Hem & _ & _)%split_ok Ht Ho Hp. destruct (held_rows run bk scope (c_db c)) as [Hl Hheld].
  fold rows in Hl, Hheld.
  apply (terminalize_consumed_ok _ _ _ _ _ _ _ _ _ Ht) in Hc as (-> & Hr1 & Heff1 & Hother1); [|done].
  pose proof (quiet_outcomes run outcomes c1) as Hq. rewrite Ho in Hq. cbn in Hq.
  assert (forall e em, e ∈ rows -> emission_of pass (token_of e) = Some em -> token_of e ∉ consumed) as Hfree.
  { intros e em He Hs Hx. rewrite Hem in Hs by (by apply token_rows_elem). apply Hdisj, emission_none in Hx. congruence. }
  apply passthrough_ok in Hp as (Hr2 & Heff2 & Hother2).
  - split_and!; [done|by intros Hr; apply Hr2; eapply stable; [exact Hq|]; auto|]. destruct Hq as [Hq _].
    assert (forall x, (forall e, e ∈ rows -> e.1 <> x) -> items (c_db c3) !! x = items (c_db c) !! x) as Hsame.
    { intros x Hno. rewrite Hother2, Hq, Hother1; [done| |]; intros e He Hx; by apply Hno in Hx. }
    apply map_eq. intros x. rewrite lookup_fmap.
    destruct (items (c_db c) !! x) as [i|] eqn:Ex; cbn.
    + unfold settled. destruct (held run bk scope i) eqn:Eh.
      * apply (Hheld x i Ex) in Eh. rewrite <- (Hem (k_token_id (wi_key i))) by (by apply (token_rows_elem rows (x, i))).
        assert (forall e, e ∈ rows -> e.1 = x -> e = (x, i)) as Hu by eauto using listed_unique.
        case_bool_decide as Hx.
        -- rewrite Hother2, Hq; [by apply (Heff1 (x, i))|]. intros e He ->%Hu; [|done].
           destruct (emission_of pass (token_of (x, i))) eqn:Es; [|done]. by apply Hfree in Es.
        -- destruct (emission_of pass (k_token_id (wi_key i))) as [em|] eqn:Es; [by apply (Heff2 (x, i))|].
           rewrite Hother2, Hq, Hother1; [done| |]; by intros e He ->%Hu.
      * rewrite Hsame; [done|]. intros e He <-. assert (e = (e.1, i)) as Hei by (by eapply listed_unique).
        rewrite Hei in He. apply Hheld in He; [congruence|done].
    + rewrite Hsame; [done|]. intros e He <-. apply Hl in He. congruence.
  - destruct (listed_filter _ _ (fun e => is_some (emission_of pass (token_of e))) Hl) as [Hnd Hi]. split; [done|].
    intros e He. pose proof He as [Hs He']%list_elem_of_filter. destruct Hq as [-> _]. rewrite Hother1; [by apply Hi|].
    intros e' He2 Heq. assert (e' = e) as ->.
    { destruct e as [x i]. eapply listed_unique; [exact Hl|done|exact Heq|exact (Hi (x, i) He)]. }
    destruct (emission_of pass (token_of e)) as [em|] eqn:Es; [eauto|done].
  - intros e He. by rewrite (Hone e He).
Qed.
(** What the checks of a completion guarantee. *)
Lemma check_completion_ok consumed pending ready ex scope snapshot outcomes u :
  check_completion consumed pending ready ex scope snapshot outcomes = Ok u ->
  forall x, x ∈ consumed -> x ∉ map be_token_id pending.
Proof.
  unfold check_completion. intros Hc. inv_ok. intros x Hx (e & -> & He)%list_elem_of_fmap.
  repeat match goal with Hno : existsb _ pending = false |- _ => apply (existsb_none _ _ e) in Hno; [|done] end.
  by cbn beta in *; bool_facts.
Qed.

Lemma check_release_ok bk consumed ex snapshot rows pass ctx e :
  check_release bk consumed ex snapshot rows pass = Ok ctx -> ex = true -> e ∈ rows -> token_of e ∉ consumed ->
  emission_of pass (token_of e) = None -> exists snap, snapshot = Some snap /\ token_of e ∉ snap.
Proof.
  unfold check_release. intros Hc -> He Hx Hn. cbn in Hc. inv_ok.
  match goal with Hno : existsb _ (map token_of rows) = false |- _ =>
    apply (existsb_none _ _ (token_of e)) in Hno; [|by apply list_elem_of_fmap_2]; rename Hno into Hr; cbn beta in Hr end.
  pose proof (emission_of_some pass (token_of e)) as Hs. rewrite Hn in Hs. cbn in Hs.
  rewrite <- Hs, (bool_decide_eq_false_2 (_ ∈ consumed)), !andb_true_r in Hr by done.
  destruct snapshot as [snap|]; [|done]. exists snap. by bool_facts.
Qed.

(** Does a held row of the table carry the token? *)
Definition waits (run bk : string) (scope : option string) (m : gmap string work_item) (token : string) : bool :=
  existsb (fun r : string * work_item => held run bk scope r.2 && (token_of r == token)) (map_to_list m).

Lemma waits_rows run bk scope d x :
  bool_decide (rows_of_token (select_items sweep_before (held run bk scope) d) x = []) = negb (waits run bk scope (items d) x).
Proof.
  unfold waits. case_bool_decide as Hr; symmetry; [apply negb_true_iff|apply negb_false_iff].
  - apply not_true_iff_false. rewrite existsb_exists. intros (e & He%list_elem_of_In & Hh). bool_facts. subst x.
    eapply (token_rows_elem _ e); [|exact Hr]. destruct e as [x i]. apply elem_of_map_to_list in He. by apply held_rows.
  - apply existsb_exists. unfold rows_of_token, select_items in Hr. destruct (filter _ _) as [|e l] eqn:Ef; [done|].
    assert (e ∈ e :: l) as He by (by left). rewrite <- Ef, list_elem_of_filter, sort_by_perm, list_elem_of_filter in He.
    destruct He as (Ht & Hh & He). exists e. rewrite <- list_elem_of_In. split; [done|]. by apply andb_true_iff; split; apply Is_true_true.
Qed.

(** A completed barrier: the held rows are settled, every other pending-sink
    emission and every ready emission is new work. *)
Definition completes (run bk : string) (scope : option string) (consumed : list string) (pending ready : list BarrierEmission)
    (owner : option string) (m m' : gmap string work_item) : Prop :=
  exists now new_sink new_ready,
    inserts (new_sink ++ new_ready) (settled run bk scope consumed pending owner now <$> m) m' /\
    Forall2 (sink_row run owner) (filter (fun e => negb (waits run bk scope m (be_token_id e))) pending) new_sink /\
    Forall2 (ready_row run) ready new_ready.

(** The rows of a completion that are neither consumed nor handed off. *)
Definition spared (consumed : list string) (pending : list BarrierEmission) (snapshot : option (list string)) (i : work_item) : Prop :=
  k_token_id (wi_key i) ∉ consumed -> k_token_id (wi_key i) ∉ map be_token_id pending ->
  exists snap, snapshot = Some snap /\ k_token_id (wi_key i) ∉ snap.

Lemma complete_on_ok run w bk consumed pending ready ex scope snapshot rc owner losses outcomes u c n c' :
  check_completion consumed pending ready ex scope snapshot outcomes = Ok u ->
  complete_barrier_on run w bk consumed pending ready ex scope snapshot rc owner losses outcomes c = (Ok n, c') ->
  n = length consumed /\ (replays (c_db c) -> replays (c_db c')) /\
  completes run bk scope consumed pending ready owner (items (c_db c)) (items (c_db c')) /\
  (forall x, x ∈ consumed -> waits run bk scope (items (c_db c)) x = true) /\
  (ex = true -> forall id i, items (c_db c) !! id = Some i -> held run bk scope i = true -> spared consumed pending snapshot i).
Proof.
  intros Hck Hb. pose proof (check_completion_ok _ _ _ _ _ _ _ _ Hck) as Hdisj. unfold complete_barrier_on in Hb.
  apply txn_bind_ok in Hb as (now & c0 & [= <- <-] & Hb). apply txn_bind_ok in Hb as (d & c1 & [= <- <-] & Hb).
  apply txn_bind_ok in Hb as (u1 & c2 & [= _ <-] & Hb). cbv zeta in Hb. cbn [c_db] in Hb.
  set (rows := select_items _ _ _) in Hb.
  destruct (existsb _ consumed) eqn:Hc in Hb; [done|]. destruct (match snapshot with Some _ => _ | None => _ end); [done|].
  apply txn_bind_ok in Hb as ([pass fresh] & c3 & Hs & Hb). apply txn_bind_ok in Hb as (ctx & c4 & Hr & Hb).
  apply txn_bind_ok in Hb as (n' & c5 & Ht & Hb). apply txn_bind_ok in Hb as (u5 & c6 & Ho & Hb).
  apply txn_bind_ok in Hb as (u6 & c7 & Hp & Hb). apply txn_bind_ok in Hb as (fr & c8 & Hf & Hb).
  apply txn_bind_ok in Hb as (rd & c9 & Hrd & Hb). apply txn_bind_ok in Hb as (u9 & c10 & Hi & Hb).
  apply txn_bind_ok in Hb as (u10 & c11 & Hrec & Hb). apply txn_bind_ok in Hb as (u11 & c12 & Hls & [= -> ->]).
  injection Hs as Hs <-. injection Hr as Hr <-. cbn [fst snd] in *.
  assert (forall x, x ∈ consumed -> x ∈ map token_of rows) as Hcons.
  { intros x Hx. apply (existsb_none _ _ x) in Hc; [|done]. cbn beta in Hc. by bool_facts. }
  pose proof (split_ok _ _ _ _ _ Hs) as (_ & Hem & -> & _).
  destruct (settle_ok run bk scope _ _ _ _ _ _ _ _ _ _ (mkConn (c_db c) (c_issued c) (S (c_tick c))) _ _ _ _ _ _ Hcons Hdisj Hs Ht Ho Hp) as (-> & Hrep & Hset). cbn [c_db] in *.
  apply (map_txn_rel _ (fun e p => prepared_ok p /\ sink_row run owner e p.1)) in Hf as [Hd8 Hf];
    [|intros; by eapply prepare_fresh_ok].
  apply prepare_readies_ok in Hrd as [Hd9 Hrd]. apply prepared_split in Hf as [Hok1 Hf]. apply prepared_split in Hrd as [Hok2 Hrd].
  pose proof (insert_items_new _ _ _ _ Hi) as [Hins _]. apply record_losses_db in Hls as [Hit Hev].
  pose proof (record_many_ok _ _ _ _ Hrec) as Hd11.
  split_and!; [done| | | |].
  - intros Hrp%Hrep. eapply replays_same; [exact Hit|exact Hev|].
    eapply insert_prepared_replays; [|apply Forall_app_2; [exact Hok1|exact Hok2]|exact Hi|exact Hrec]. by rewrite Hd9, Hd8.
  - exists (transaction_clock (c_tick c)), (map fst fr), (map fst rd). rewrite <- map_app. split_and!; [| |exact Hrd].
    2:{ erewrite filter_iff; [exact Hf|]. intros e _. cbn beta. by rewrite <- waits_rows. }
    rewrite Hit, Hd11. cbn. rewrite <- Hset, <- Hd8, <- Hd9. exact Hins.
  - intros x Hx%Hcons. apply negb_false_iff. rewrite <- waits_rows. apply bool_decide_eq_false_2.
    apply list_elem_of_fmap in Hx as (e & -> & He). by apply token_rows_elem.
  - intros -> id i Hid Hh Hx Hn. apply (proj2 (held_rows run bk scope (c_db c)) id i Hid) in Hh.
    apply (check_release_ok _ _ _ _ _ _ _ _ Hr eq_refl Hh Hx).
    rewrite Hem by (by apply (token_rows_elem rows (id, i))). by apply emission_none.
Qed.
End completed.

(** ** The verbs of the journal *)
Section journal.
Context `{Env}.

Lemma complete_barrier_replays t bk consumed pending ready ex scope snapshot rc owner losses outcomes en :
  replays (e_db en) ->
  replays (e_db (complete_barrier t bk consumed pending ready ex scope snapshot rc owner losses outcomes en).2).
Proof.
  unfold complete_barrier. destruct (check_completion _ _ _ _ _ _ _) eqn:Ec; [|done]. apply leader_keeps; [apply _|].
  intros c n c' Hr Hb. by apply (complete_on_ok _ _ _ _ _ _ _ _ _ _ _ _ _ _ _ _ _ Ec) in Hb as (_ & Hrep & _); auto.
Qed.

Lemma pending_many_replays t bk handoffs owner en :
  replays (e_db en) -> replays (e_db (mark_blocked_barrier_pending_sink_many t bk handoffs owner en).2).
Proof.
  unfold mark_blocked_barrier_pending_sink_many. case_match; [done|]. intros Hr.
  pose proof (complete_barrier_replays t bk [] (map handoff_emission handoffs) [] false None None [] owner [] [] en Hr).
  by destruct (complete_barrier _ _ _ _ _ _ _ _ _ _ _ _ _) as [[] ?].
Qed.

Lemma blocked_terminal_replays t bk tokens rc losses en :
  replays (e_db en) -> replays (e_db (mark_blocked_barrier_terminal t bk tokens rc losses en).2).
Proof. unfold mark_blocked_barrier_terminal. case_match; [done|]. apply complete_barrier_replays. Qed.

(** Updates that the log does not report because they change no cell. *)
Lemma update_cell_replays id p f : (forall i, cell_of (f i) = cell_of i) -> keeps replays (update_item id p f).
Proof.
  intros Hf c b c' Hr Hu. apply update_item_ok in Hu as [(_ & i & Hi & _ & _ & ->)|(_ & -> & _)]; [|done].
  unfold replays, view in *. cbn. rewrite fmap_insert, Hf, insert_id; [done|]. by rewrite lookup_fmap, Hi.
Qed.

Lemma execute_keeps {A} P (f : A -> txn bool) l : (forall a, keeps P (f a)) -> keeps P (execute_many f l).
Proof.
  intros Hf. induction l as [|a l IH]; intros c n c' Hp Hx; cbn in Hx; inv_txn; [done|]. eapply IH; [|done]. by eapply Hf.
Qed.

#[export] Instance quiet_member b x o r : Quiet (add_batch_member_guarded b x o r).
Proof.
  apply quiet_bind; [apply _|]. intros d. apply quiet_option; [|apply _]. intros [r' s].
  repeat (apply quiet_if; [apply _|]). apply _.
Qed.
#[export] Instance quiet_transaction_time : Quiet read_landscape_transaction_time.
Proof. by intros c. Qed.
#[export] Instance quiet_buffered r x b at_ : Quiet (record_buffered_outcome_guarded r x b at_).
Proof.
  apply quiet_bind; [apply _|]. intros _. apply quiet_bind; [apply _|]. intros d. apply quiet_if; [apply _|].
  apply quiet_bind; apply _.
Qed.

Lemma quiet_keeps P `{!Stable P} {A} (m : txn A) : Quiet m -> keeps P m.
Proof. intros Hq c a c' Hp Hm. specialize (Hq c). rewrite Hm in Hq. by eapply stable. Qed.

Lemma adopt_replays t id token bk ms bb en :
  replays (e_db en) -> replays (e_db (adopt_blocked_barrier_item t id token bk ms bb en).2).
Proof.
  unfold adopt_blocked_barrier_item. do 2 (case_match; [done|]). apply leader_keeps; [apply _|].
  intros c a c' Hr Hb. apply txn_bind_ok in Hb as (now & c1 & [= <- <-] & Hb).
  apply txn_bind_ok in Hb as (changed & c2 & Hu & Hb). apply update_cell_replays in Hu; [|done|done].
  revert Hb Hu. generalize c2. clear. intros c2 Hb Hr. revert Hb. eapply quiet_keeps; [apply _| |exact Hr].
  apply quiet_bind; [apply _|]. intros d. apply quiet_if.
  - repeat (first [apply quiet_option | apply quiet_if | intros ?]; try apply _).
  - apply quiet_bind; [destruct ms; apply _|]. intros _. apply quiet_bind; [|apply _]. destruct bb; [|apply _].
    apply quiet_option; [|apply _]. intros at_. apply quiet_bind; apply _.
Qed.

Lemma reset_replays t ids en : replays (e_db en) -> replays (e_db (reset_adoption_marker_to_pending t ids en).2).
Proof.
  unfold reset_adoption_marker_to_pending. case_match; [done|]. apply leader_keeps; [apply _|].
  apply execute_keeps. intros id. by apply update_cell_replays.
Qed.

(** The losses of a group are kept apart from the queue. *)
Definition same_queue (d d' : landscape) : Prop :=
  items d' = items d /\ scheduler_events d' = scheduler_events d.

Lemma stage_queue t s kind roster by_ en : same_queue (e_db en) (e_db (stage_escalation_loss t s kind roster by_ en).2).
Proof.
  unfold stage_escalation_loss. destruct (fenced_leader_transaction _ _ _ _ _) as [[a|e] en'] eqn:E; cbn.
  2:{ apply leader_error in E as (? & ? & _). done. }
  apply leader_body in E as (c & c' & (Hq1 & Hq2 & _) & _ & Hb & (Hq3 & Hq4 & _)). unfold same_queue. rewrite Hq3, Hq4.
  rewrite <- Hq1, <- Hq2. clear -Hb.
  apply txn_bind_ok in Hb as (u & c1 & Ha & Hb). apply txn_bind_ok in Hb as (now & c2 & [= <- <-] & Hb).
  apply txn_bind_ok in Hb as (n & c3 & [Hi He]%record_losses_db & [= _ <-]).
  assert (Quiet (authenticate_adoption_loss (tk_run_id t) s kind roster)) as Hq.
  { unfold authenticate_adoption_loss. destruct kind; [destruct roster; apply _|]. apply quiet_bind; apply _. }
  specialize (Hq c). rewrite Ha in Hq. destruct Hq as (Hq1 & Hq2 & _). cbn in *. by rewrite Hi, He.
Qed.

Lemma adopt_losses_queue t ids en : same_queue (e_db en) (e_db (adopt_group_losses t ids en).2).
Proof.
  unfold adopt_group_losses. case_match; [done|]. destruct (fenced_leader_transaction _ _ _ _ _) as [[a|e] en'] eqn:E; cbn.
  2:{ apply leader_error in E as (? & ? & _). done. }
  apply leader_body in E as (c & c' & (Hq1 & Hq2 & _) & _ & Hb & (Hq3 & Hq4 & _)). unfold same_queue. rewrite Hq3, Hq4.
  rewrite <- Hq1, <- Hq2. clear -Hb. apply txn_bind_ok in Hb as (marked & c1 & Hm & [= _ <-]).
  revert c marked Hm. induction ids as [|id ids IH]; intros c marked Hm; cbn in Hm; inv_txn; [done|].
  match goal with Hx : map_txn _ _ _ = _ |- _ => apply IH in Hx as [-> ->] end.
  match goal with Hx : adopt_loss _ _ _ _ = _ |- _ => by injection Hx as _ <- end.
Qed.

Lemma queue_replays d d' : same_queue d d' -> replays d -> replays d'.
Proof. intros [Hi He]. by apply replays_same. Qed.
End journal.
