(* ===== verification/QueueHistory.v ===== *)
(** * QueueHistory: histories of the queue, and its event log

    Any interleaving of the verbs of the scheduler, of the barrier journal and
    of the coordination.  The event log replays to the queue after each. *)

From S2P Require Import Prelude Enums Outcomes AuditDerive Landscape Coordination CoordinationTheory Scheduler Emissions Barrier Lifecycle SchedulerFacts SchedulerRecovery SchedulerReplay BarrierReplay.
Open Scope Z_scope.

Section histories.
Context `{Env}.

(** Any verb of the scheduler, of the barrier journal or of the coordination,
    an audit write under an item fence or a leader fence, or a change of the
    lineage tables by the recorders of rows, tokens and outcomes.  The resets
    of adoption markers name only the rows [R]. *)
Inductive queue_step_within (R : string -> Prop) : engine -> engine -> Prop :=
  | q_enqueue en m k p q b a : queue_step_within R en (enqueue_ready m k p q b a en).2
  | q_enqueue_claimed en m k p q b a o l : queue_step_within R en (enqueue_ready_claimed m k p q b a o l en).2
  | q_claim en m o l : queue_step_within R en (claim_ready m o l en).2
  | q_claim_sink en t o l : queue_step_within R en (claim_pending_sink t o l en).2
  | q_heartbeat en m id o l : queue_step_within R en (heartbeat_lease m id o l en).2
  | q_recover en t g s : queue_step_within R en (recover_expired_leases t g s en).2
  | q_requeue en t : queue_step_within R en (requeue_undecided_failed_work t en).2
  | q_blocked en m id q b p o : queue_step_within R en (mark_blocked m id q b p o en).2
  | q_terminal en m id o ls : queue_step_within R en (mark_terminal m id o ls en).2
  | q_failed en m id o ls : queue_step_within R en (mark_failed m id o ls en).2
  | q_pending en m id p s o' pa h msg o ls : queue_step_within R en (mark_pending_sink m id p s o' pa h msg o ls en).2
  | q_sink_terminal en t tok o : queue_step_within R en (mark_pending_sink_terminal t tok o en).2
  | q_sink_terminal_many en t toks o : queue_step_within R en (mark_pending_sink_terminal_many t toks o en).2
  | q_repair en t o : queue_step_within R en (terminalize_pending_sinks_with_terminal_outcomes t o en).2
  | q_terminal_children en m id l o ls : queue_step_within R en (mark_terminal_with_ready_children m id l o ls en).2
  | q_failed_children en m id l o ls : queue_step_within R en (mark_failed_with_ready_children m id l o ls en).2
  | q_pending_children en m id l p s o' pa h msg o ls :
      queue_step_within R en (mark_pending_sink_with_ready_children m id l p s o' pa h msg o ls en).2
  | q_ingest ins st en t k p q b o l : Quiet ins -> Quiet st -> queue_step_within R en (ingest_row_with_initial_claim ins st t k p q b o l en).2
  | q_quarantine ins st en t row tok seq s1 s2 e : Quiet ins -> Quiet st ->
      queue_step_within R en (ingest_quarantine_row_with_pending_sink ins st t row tok seq s1 s2 e en).2
  | q_complete en t bk cs ps rs ex sc sn rc o ls os : queue_step_within R en (complete_barrier t bk cs ps rs ex sc sn rc o ls os en).2
  | q_hand_off en t bk hs o : queue_step_within R en (mark_blocked_barrier_pending_sink_many t bk hs o en).2
  | q_consume en t bk toks rc ls : queue_step_within R en (mark_blocked_barrier_terminal t bk toks rc ls en).2
  | q_adopt en t id tok bk ms bb : queue_step_within R en (adopt_blocked_barrier_item t id tok bk ms bb en).2
  | q_reset en t ids : Forall R ids -> queue_step_within R en (reset_adoption_marker_to_pending t ids en).2
  | q_stage en t s kind roster by_ : queue_step_within R en (stage_escalation_loss t s kind roster by_ en).2
  | q_adopt_losses en t ids : queue_step_within R en (adopt_group_losses t ids en).2
  | q_item {A} en m id i name (body : txn A) : Quiet body -> queue_step_within R en (fenced_item_transaction m id i name body en).2
  | q_leader {A} en t w name (body : txn A) : Quiet body -> queue_step_within R en (fenced_leader_transaction t w name body en).2
  | q_coordination en en' : coordination_step en en' -> queue_step_within R en en'
  | q_lineage en l : queue_step_within R en (mkEngine (set_lineage (e_db en) l) (e_tick en)).

(** Without that restriction. *)
Definition queue_step : engine -> engine -> Prop := queue_step_within anywhere.

(** The lemmas of [SchedulerReplay] and [BarrierReplay], one per verb. *)
Create HintDb verbs discriminated.
Hint Resolve enqueue_ready_replays enqueue_ready_claimed_replays claim_ready_replays claim_pending_sink_replays
  heartbeat_replays recover_replays requeue_replays mark_pending_sink_terminal_replays terminal_many_replays
  terminalize_decided_replays item_replays ingest_row_replays ingest_quarantine_replays complete_barrier_replays
  pending_many_replays blocked_terminal_replays adopt_replays reset_replays : verbs.

Lemma queue_step_replays R en en' : queue_step_within R en en' -> replays (e_db en) -> replays (e_db en').
Proof.
  destruct 1; eauto 2 with verbs; first [by apply transition_replays | by apply children_replays | idtac].
  - unfold mark_blocked. case_match; [done|]. apply transition_replays.
  - apply queue_replays, stage_queue.
  - apply queue_replays, adopt_losses_queue.
  - apply leader_keeps; [apply _|]. by apply quiet_keeps; [apply _|].
  - intros Hr. eapply stable; [|exact Hr]. by apply coordination_quiet.
Qed.
End histories.

(** ** The log is complete *)

(** C2. The scheduler's event log is a complete account of the work queue:
    whatever verbs run, in whatever order and with whatever outcome, folding
    the events in the order they were recorded yields exactly the status, the
    lease owner and the attempt of every work item there is, including the
    rows that recovery and resume renamed, and no other row. *)
Theorem log_replays_queue `{Env} en0 en :
  items (e_db en0) = ∅ -> scheduler_events (e_db en0) = [] -> rtc queue_step en0 en ->
  cell_of <$> items (e_db en) = replay (scheduler_events (e_db en)).
Proof.
  intros Hi He Hs. change (replays (e_db en)).
  assert (replays (e_db en0)) as Hr by (unfold replays, view; by rewrite Hi, He).
  clear Hi He. induction Hs; eauto using queue_step_replays.
Qed.

(** ** A concrete run *)
Module SchedulerExample.
(** A clock of one second per reading that jumps past every lease after the
    fortieth one. *)
Definition env : Env := {|
  database_clock n := (if (n <? 40)%nat then Z.of_nat n else 1000 + Z.of_nat n) * 1000000;
  transaction_clock n := Z.of_nat n * 1000000;
  sha256 s := s;
  clock_resolution := 1000;
  event_digest e := @event_digest CoordinationExample.env e;
  write_fault _ := false;
  process_clock n := Z.of_nat n;
  generate_id n := @generate_id CoordinationExample.env n |}.
#[export] Existing Instance env.

Definition lease : Z := 60000000.
Definition leader := mkCoordinationToken "r" "a" 1.
Definition follower := mkMembershipToken "r" "f".
Definition key (token : string) : work_key :=
  mkWorkKey "r" token "w" (Some "n") 0 7 None None "" None None None None.
Definition tables : lineage_tables :=
  mkLineage {[ ("r", "t1") := "w"; ("r", "t2") := "w" ]} {[ ("r", "w") := 7 ]} {[ ("r", "n") ]} ∅ ∅ ∅ ∅ [] ∅ ∅.

Definition started : engine := (begin_run "r" "a" "h" None CoordinationExample.en0).2.
Definition joined : engine := (admit_follower "r" "f" "h" DEFAULT_RUN_LIVENESS_WINDOW started).2.
Definition ready : engine := mkEngine (set_lineage (e_db joined) tables) (e_tick joined).
Definition enqueue (token : string) (en : engine) : engine :=
  (enqueue_ready follower (key token) (RowJson "{}") None None 0 en).2.
Definition queued : engine := enqueue "t2" (enqueue "t1" ready).
Definition claimed : engine := (claim_ready follower "f" lease queued).2.
Definition item : string := work_item_id "r" "t1" (Some "n") 0.
Definition finished : engine := (mark_terminal follower item "f" [] claimed).2.
Definition late : engine := mkEngine (e_db claimed) 40.

Lemma history : rtc queue_step CoordinationExample.en0 finished.
Proof.
  apply (rtc_l _ _ started); [exact (q_coordination _ _ _ (c_begin _ _ _ _ _))|].
  apply (rtc_l _ _ joined); [exact (q_coordination _ _ _ (c_admit _ _ _ _ _))|].
  apply (rtc_l _ _ ready); [exact (q_lineage _ _ _)|].
  apply (rtc_l _ _ (enqueue "t1" ready)); [exact (q_enqueue _ _ _ _ _ _ _ _)|].
  apply (rtc_l _ _ queued); [exact (q_enqueue _ _ _ _ _ _ _ _)|].
  apply (rtc_l _ _ claimed); [exact (q_claim _ _ _ _ _)|].
  apply rtc_once. exact (q_terminal _ _ _ _ _ _).
Qed.

Lemma remaining : rtc queue_step claimed finished.
Proof. apply rtc_once. apply q_terminal. Qed.
End SchedulerExample.

Import SchedulerExample.

Lemma log_replays_queue_witness :
  cell_of <$> items (e_db finished) = replay (scheduler_events (e_db finished)) /\
  replay (scheduler_events (e_db finished)) =
    {[ item := (TERMINAL, None, 0); work_item_id "r" "t2" (Some "n") 0 := (READY, None, 0) ]}.
Proof.
  split; [|vm_compute; reflexivity]. exact (log_replays_queue CoordinationExample.en0 finished eq_refl eq_refl history).
Defined.
