(* ===== verification/SchedulerTheory.v ===== *)
(** * SchedulerTheory: what the work queue guarantees

    Every verb refines the abstract machine of [Lifecycle], so its guarantees
    hold of every history; leases are claimed in order, by one worker, and can
    only be spent by the worker that holds them; recovery takes exactly the
    abandoned rows. *)

From S2P Require Import Prelude Enums Outcomes Landscape Coordination CoordinationTheory Scheduler Emissions Barrier Lifecycle SchedulerFacts SchedulerRecovery SchedulerReplay BarrierReplay QueueHistory.
Open Scope Z_scope.

(** ** Refinement *)

(** A transaction whose effect on the queue is a sequence of legal moves. *)
Class Moves `{Env} (R : string -> Prop) {A} (m : txn A) : Prop :=
  moves_run : forall c a c', m c = (Ok a, c') -> rtc (move_within R) (items (c_db c)) (items (c_db c')).

Section refinement.
Context `{Env} {R : string -> Prop}.

#[export] Instance moves_quiet {A} (m : txn A) : Quiet m -> Moves R m.
Proof. intros Hq c a c' Hm. specialize (Hq c). rewrite Hm in Hq. cbn in Hq. destruct Hq as [-> _]. apply rtc_refl. Qed.

#[export] Instance moves_bind {A B} (m : txn A) (f : A -> txn B) : Moves R m -> (forall a, Moves R (f a)) -> Moves R (m ≫= f).
Proof. intros Hm Hf c b c' Hb. apply txn_bind_ok in Hb as (a & c1 & H1 & H2). etrans; [by eapply Hm|by eapply Hf]. Qed.

Lemma tail_moves {A} (m : txn A) c a c' : Moves R m -> m c = (Ok a, c') -> rtc (move_within R) (items (c_db c)) (items (c_db c')).
Proof. intros Hm. apply Hm. Qed.

#[export] Instance moves_map {A B} (f : A -> txn B) l : (forall a, Moves R (f a)) -> Moves R (map_txn f l).
Proof. intros Hf. induction l; cbn; apply _. Qed.

#[export] Instance moves_if {A} (b : bool) (m m' : txn A) : Moves R m -> Moves R m' -> Moves R (if b then m else m').
Proof. by destruct b. Qed.

#[export] Instance moves_raise {A} e : Moves R (raise e : txn A).
Proof. by intros c a c'. Qed.

#[export] Instance moves_option {A B} (o : option B) (m : B -> txn A) (m' : txn A) :
  (forall b, Moves R (m b)) -> Moves R m' -> Moves R (match o with Some b => m b | None => m' end).
Proof. by destruct o. Qed.

#[export] Instance moves_transaction_time : Moves R read_landscape_transaction_time.
Proof. intros c a c' Hm. inv_txn. apply rtc_refl. Qed.

#[export] Instance moves_record e : Moves R (record e).
Proof. intros c a c' ->%record_ok. apply rtc_refl. Qed.

#[export] Instance moves_record_many l : Moves R (record_many l).
Proof. intros c a c' ->%record_many_ok. apply rtc_refl. Qed.

#[export] Instance moves_losses r s b n : Moves R (record_group_losses r s b n).
Proof. intros c a c' [-> _]%record_losses_db. apply rtc_refl. Qed.

#[export] Instance moves_references k : Moves R (validate_work_item_references k).
Proof. intros c a c' ->%references_db. apply rtc_refl. Qed.

#[export] Instance moves_lift {A} (r : res A) : Moves R (lift r).
Proof. intros c a c' [= _ ->]. apply rtc_refl. Qed.

#[export] Instance moves_for_each {A} (f : A -> txn unit) l : (forall a, Moves R (f a)) -> Moves R (for_each f l).
Proof. intros Hf. induction l; cbn; apply _. Qed.

Lemma moves_execute_listed {A} (f : A -> txn bool) l : (forall a, a ∈ l -> Moves R (f a)) -> Moves R (execute_many f l).
Proof.
  induction l as [|a l IH]; cbn; intros Hf; [apply _|].
  apply moves_bind; [apply Hf; left|intros b]. apply moves_bind; [apply IH; intros; apply Hf; by right|apply _].
Qed.

#[export] Instance moves_execute_many {A} (f : A -> txn bool) l : (forall a, Moves R (f a)) -> Moves R (execute_many f l).
Proof. intros Hf. by apply moves_execute_listed. Qed.

Lemma moves_update id p f : (forall i, p i = true -> f i = i \/ legal (R id) i (f i)) -> Moves R (update_item id p f).
Proof.
  intros Hl c a c' Hu. apply update_item_ok in Hu as [(_ & i & Hi & Hp & Hok & ->)|(_ & -> & _)]; [|apply rtc_refl].
  cbn. destruct (Hl i Hp) as [->|Hli]; [rewrite insert_id by done; apply rtc_refl|]. by eapply rtc_once, move_one.
Qed.

Lemma moves_rename prior next p f : (forall i, p i = true -> rotates i (f i)) -> Moves R (rename_item prior next p f).
Proof.
  intros Hl c a c' Hu. apply rename_item_ok in Hu as [(_ & i & Hi & Hp & Hfree & Hok & ->)|(_ & -> & _)]; [|apply rtc_refl].
  eapply rtc_once, move_rotate; eauto.
Qed.

#[export] Instance moves_insert id k p q b a now :
  Moves R (insert_work_item_idempotent id (ready_work_item_values k p q b a now)).
Proof.
  intros c x c' Hu. apply insert_idempotent_ok in Hu as [(_ & Hn & Hok & ->)|(_ & -> & _)]; [|apply rtc_refl].
  apply rtc_once, move_insert; [done| |done]. split; [done|by left].
Qed.

(** A chain of inserts of new work. *)
Lemma inserts_moves l m m' : inserts l m m' -> Forall (fun e => fresh_work e.2) l -> rtc (move_within R) m m'.
Proof.
  induction 1 as [|id i l m m' Hn Hok _ IH]; [intros _; apply rtc_refl|]. intros [Hf Hl]%Forall_cons.
  eapply rtc_l; [by apply move_insert|auto].
Qed.

Lemma ready_fresh run l rows : Forall2 (ready_row run) l rows -> Forall (fun e => fresh_work e.2) rows.
Proof. induction 1 as [|e r l rows (_ & Hs & Ho & Hx) _ IH]; constructor; [|done]. split; [done|by left]. Qed.

Lemma sink_fresh run owner l rows : Forall2 (sink_row run owner) l rows -> Forall (fun e => fresh_work e.2) rows.
Proof. induction 1 as [|e r l rows (_ & Hs & _ & _ & Hx) _ IH]; constructor; [|done]. split; [done|by right]. Qed.

(** Verbs. *)
Definition verb_moves {A} (v : verb A) : Prop := forall en, rtc (move_within R) (items (e_db en)) (items (e_db (v en).2)).

Lemma leader_moves {A} t w name (body : txn A) : Moves R body -> verb_moves (fenced_leader_transaction t w name body).
Proof.
  intros Hm en. destruct (fenced_leader_transaction t w name body en) as [[a|e] en'] eqn:E; cbn.
  - apply leader_body in E as (c & c' & [<- _] & _ & Hb & [-> _]). by eapply Hm.
  - apply leader_error in E as [-> _]. apply rtc_refl.
Qed.

Lemma member_moves {A} m name (body : txn A) : Moves R body -> verb_moves (fenced_member_transaction m name body).
Proof.
  intros Hm en. destruct (fenced_member_transaction m name body en) as [[a|e] en'] eqn:E; cbn.
  - apply member_body in E as (c & Hb & -> & _). by apply Hm in Hb.
  - apply member_error in E as [-> _]. apply rtc_refl.
Qed.

Ltac moving := repeat (first [typeclasses eauto | apply moves_bind | apply moves_if | apply moves_option
  | match goal with |- forall _, _ => intros ? | |- Moves _ (let _ := _ in _) => cbv zeta end
  | apply moves_execute_many]).

#[export] Instance moves_claim_row id run owner lease mf st : Moves R (claim_ready_row id run owner lease mf st).
Proof.
  unfold claim_ready_row. moving. apply moves_update. intros i Hp. right. apply legal_claim. by bool_facts.
Qed.

#[export] Instance moves_claimed_on run k p q b a o l w : Moves R (enqueue_ready_claimed_on run k p q b a o l w).
Proof. unfold enqueue_ready_claimed_on. moving. Qed.

#[export] Instance moves_transition_on m id im losses rb : Moves R (transition_on m id im losses rb).
Proof.
  unfold transition_on. moving.
  apply moves_update. intros i Hp. bool_facts. right. apply legal_dispose; [done|]. by destruct (b_sink_name (wi_bundle i)).
Qed.

Lemma transition_moves m id owner im losses rb : verb_moves (transition m id owner im losses rb).
Proof. intros en. unfold transition. case_match; [apply rtc_refl|]. by apply member_moves, moves_transition_on. Qed.

Lemma claim_ready_moves m owner lease : verb_moves (claim_ready m owner lease).
Proof.
  intros en. unfold claim_ready. case_match; [apply rtc_refl|]. apply member_moves. moving. destruct b. moving.
Qed.

Lemma enqueue_moves m k p q b a : verb_moves (enqueue_ready m k p q b a).
Proof. apply member_moves. moving. Qed.

Lemma enqueue_claimed_moves m k p q b a o l : verb_moves (enqueue_ready_claimed m k p q b a o l).
Proof. intros en. unfold enqueue_ready_claimed. case_match; [apply rtc_refl|]. apply member_moves. moving. Qed.

Lemma claim_pending_sink_moves t owner lease : verb_moves (claim_pending_sink t owner lease).
Proof.
  intros en. unfold claim_pending_sink. case_match; [apply rtc_refl|]. apply leader_moves. moving. destruct b. moving.
  apply moves_update. intros i Hp. right. bool_facts. by apply legal_redrive.
Qed.

Lemma heartbeat_moves m id owner lease : verb_moves (heartbeat_lease m id owner lease).
Proof.
  intros en. unfold heartbeat_lease. case_match; [apply rtc_refl|].
  match goal with |- context [fenced_member_transaction m ?n ?b en] =>
    assert (Moves R b) as Hm; [|pose proof (member_moves m n b Hm en) as Hv;
      by destruct (fenced_member_transaction m n b en) as [[[]|] ?]] end.
  moving. apply moves_update. intros i Hp. right. bool_facts. by apply legal_extend.
Qed.

Lemma recover_moves t grace stall : verb_moves (recover_expired_leases t grace stall).
Proof. apply leader_moves. intros c a c' (rows & _ & _ & _ & _ & Hm)%rotate_ok. done. Qed.

Lemma requeue_moves t : verb_moves (requeue_undecided_failed_work t).
Proof.
  apply leader_moves. moving. apply moves_rename. intros i Hp. unfold undecided_failed_work_clause in Hp. bool_facts.
  by apply rotates_failed.
Qed.

Lemma at_sink_legal reset run now anchor i : at_sink run i = true -> legal reset i (terminalize now anchor i).
Proof.
  unfold at_sink. intros Hp. bool_facts. apply legal_sink_done; [|done].
  match goal with Hx : _ || _ = true |- _ => apply orb_true_iff in Hx as [Hx|Hx]; bool_facts; auto end.
Qed.

Lemma sink_terminal_moves t token owner : verb_moves (mark_pending_sink_terminal t token owner).
Proof.
  intros en. unfold mark_pending_sink_terminal.
  match goal with |- context [fenced_leader_transaction t ?w ?n ?b en] =>
    assert (Moves R b) as Hm; [|pose proof (leader_moves t w n b Hm en) as Hv] end.
  - moving. intros c ids c' Hu. eapply rtc_once, where_moves; [done|]. intros id i _ Hp.
    cbn beta in Hp. bool_facts. by eapply at_sink_legal.
  - destruct (fenced_leader_transaction _ _ _ _ _) as [[|[]] ?]; try done. by case_match.
Qed.

Lemma terminal_many_moves t tokens owner : verb_moves (mark_pending_sink_terminal_many t tokens owner).
Proof.
  intros en. unfold mark_pending_sink_terminal_many. do 2 (case_match; [apply rtc_refl|]). apply leader_moves. moving.
  apply moves_update. intros i Hp. right. bool_facts. by eapply at_sink_legal.
Qed.

Lemma repair_moves t caller : verb_moves (terminalize_pending_sinks_with_terminal_outcomes t caller).
Proof. apply leader_moves. moving. apply moves_update. intros i Hp. right. bool_facts. apply legal_sink_done; auto. Qed.

Lemma item_moves {A} m id item name (body : txn A) : Quiet body -> verb_moves (fenced_item_transaction m id item name body).
Proof.
  intros Hq en. unfold fenced_item_transaction. do 2 (case_match; [apply rtc_refl|]). apply member_moves. moving.
  apply moves_update. by left.
Qed.

Lemma children_moves m id l owner im losses rb : verb_moves (transition_with_ready_children m id l owner im losses rb).
Proof.
  intros en. unfold transition_with_ready_children. do 2 (case_match; [apply rtc_refl|]). apply member_moves.
  intros c a c' Hb. apply txn_bind_ok in Hb as (children & c1 & Hm & Hb).
  apply (map_txn_db _ prepared_ready) in Hm as [<- Hch]; [|intros; by eapply prepare_ready_on_ok].
  apply txn_bind_ok in Hb as (ids & c2 & (by_id & new & Hv & Hnd & -> & -> & Hins & _)%insert_items_ok & Hb).
  etrans; [eapply inserts_moves; [exact Hins|]|].
  - eapply (offered_fresh (fun e => is_none (items (c_db c1) !! e.1))), (children_offered children [] []); [done|exact Hv|constructor|constructor].
  - eapply tail_moves; [|exact Hb]. moving.
Qed.

(** The barrier journal. *)
#[export] Instance moves_consume run bk consumed rows now rc : Moves R (terminalize_consumed_barrier_rows run bk consumed rows now rc).
Proof.
  unfold terminalize_consumed_barrier_rows. moving. apply moves_update. intros i Hp. unfold held_as in Hp. bool_facts.
  right. by apply legal_barrier_done.
Qed.

#[export] Instance moves_rejecting {A} (m : txn A) : Moves R m -> Moves R (rejecting m).
Proof. intros Hm c a c' Hr%rejecting_ok. by eapply Hm. Qed.

#[export] Instance moves_passthrough run bk rows pass ctx now owner :
  Moves R (transition_passthrough_pending_sink run bk rows pass ctx now owner).
Proof.
  unfold transition_passthrough_pending_sink. moving. apply moves_rejecting. moving. apply moves_update.
  intros i Hp. unfold held_as in Hp. bool_facts. destruct (emission_of _ _); [|by left]. right. by apply legal_hand_off.
Qed.

Lemma complete_moves t bk cs ps rs ex sc sn rc o ls os : verb_moves (complete_barrier t bk cs ps rs ex sc sn rc o ls os).
Proof.
  intros en. unfold complete_barrier. case_match; [|apply rtc_refl]. apply leader_moves. unfold complete_barrier_on.
  do 2 (apply moves_bind; [apply _|intros ?]). apply moves_bind; [apply _|intros _]. cbv zeta.
  do 2 (apply moves_if; [apply _|]). do 5 (apply moves_bind; [apply _|intros ?]).
  intros c n c' Hb. apply txn_bind_ok in Hb as (fr & c1 & Hf & Hb). apply txn_bind_ok in Hb as (rd & c2 & Hr & Hb).
  apply txn_bind_ok in Hb as (u & c3 & [Hins _]%insert_items_new & Hb).
  apply (map_txn_rel _ (fun e p => prepared_ok p /\ sink_row (tk_run_id t) o e p.1)) in Hf as [<- Hf];
    [|intros; by eapply prepare_fresh_ok].
  apply prepare_readies_ok in Hr as [<- Hr]. apply prepared_split in Hf as [_ Hf]. apply prepared_split in Hr as [_ Hr].
  etrans; [eapply inserts_moves; [exact Hins|]|].
  - rewrite map_app. apply Forall_app_2; [by eapply sink_fresh|by eapply ready_fresh].
  - eapply tail_moves; [|exact Hb]. moving.
Qed.

Lemma hand_off_moves t bk hs o : verb_moves (mark_blocked_barrier_pending_sink_many t bk hs o).
Proof.
  intros en. unfold mark_blocked_barrier_pending_sink_many. case_match; [apply rtc_refl|].
  pose proof (complete_moves t bk [] (map handoff_emission hs) [] false None None [] o [] [] en).
  by destruct (complete_barrier _ _ _ _ _ _ _ _ _ _ _ _ _) as [[] ?].
Qed.

Lemma consume_moves t bk toks rc ls : verb_moves (mark_blocked_barrier_terminal t bk toks rc ls).
Proof. intros en. unfold mark_blocked_barrier_terminal. case_match; [apply rtc_refl|apply complete_moves]. Qed.

Lemma adopt_moves t id tok bk ms bb : verb_moves (adopt_blocked_barrier_item t id tok bk ms bb).
Proof.
  intros en. unfold adopt_blocked_barrier_item. do 2 (case_match; [apply rtc_refl|]). apply leader_moves. moving.
  apply moves_update. intros i Hp. unfold held_as in Hp. bool_facts. right. apply legal_adopt; [done|]. by destruct (wi_barrier_adopted_epoch i).
Qed.

Lemma reset_moves t ids : Forall R ids -> verb_moves (reset_adoption_marker_to_pending t ids).
Proof.
  intros HR en. unfold reset_adoption_marker_to_pending. case_match; [apply rtc_refl|]. apply leader_moves.
  apply moves_execute_listed. intros id Hid. apply moves_update. intros i Hp. bool_facts. right. apply legal_reset; [|done].
  rewrite elem_of_remove_dups in Hid. rewrite Forall_forall in HR.
  by apply HR.
Qed.

Lemma park_moves run e owner : Moves R (park_source_quarantine_on run e owner).
Proof.
  intros c a c' Hb. unfold park_source_quarantine_on in Hb. apply txn_bind_ok in Hb as (now & c1 & [= <- <-] & Hb).
  apply txn_bind_ok in Hb as (p & c2 & (Hdb & _ & Hrow)%prepare_fresh_ok & Hb).
  apply txn_bind_ok in Hb as (u & c3 & [Hins _]%insert_items_new & Hb). cbn [c_db] in Hdb. rewrite Hdb in Hins.
  etrans; [eapply inserts_moves; [exact Hins|]|eapply tail_moves; [|exact Hb]; moving].
  eapply (sink_fresh run (Some owner) [e]). by constructor.
Qed.

Lemma ingest_moves ins st t k p q b o l : Quiet ins -> Quiet st -> verb_moves (ingest_row_with_initial_claim ins st t k p q b o l).
Proof. intros H1 H2 en. unfold ingest_row_with_initial_claim. case_match; [apply rtc_refl|]. apply leader_moves. moving. Qed.

Lemma quarantine_moves ins st t row tok seq s1 s2 e :
  Quiet ins -> Quiet st -> verb_moves (ingest_quarantine_row_with_pending_sink ins st t row tok seq s1 s2 e).
Proof.
  intros H1 H2 en. unfold ingest_quarantine_row_with_pending_sink. do 2 (case_match; [apply rtc_refl|]). apply leader_moves.
  pose proof park_moves. moving.
Qed.

Lemma step_moves en en' : queue_step_within R en en' -> rtc (move_within R) (items (e_db en)) (items (e_db en')).
Proof.
  destruct 1; first [apply enqueue_moves | apply enqueue_claimed_moves | apply claim_ready_moves | apply claim_pending_sink_moves
    | apply heartbeat_moves | apply recover_moves | apply requeue_moves | apply transition_moves
    | apply sink_terminal_moves | apply terminal_many_moves | apply repair_moves | apply children_moves | by apply ingest_moves
    | by apply quarantine_moves | apply complete_moves | apply hand_off_moves | apply consume_moves | apply adopt_moves
    | by apply reset_moves | by apply item_moves | by apply leader_moves, moves_quiet | idtac].
  - unfold mark_blocked. case_match; [apply rtc_refl|apply transition_moves].
  - destruct (stage_queue t s kind roster by_ en) as [-> _]. apply rtc_refl.
  - destruct (adopt_losses_queue t ids en) as [-> _]. apply rtc_refl.
  - match goal with Hc : coordination_step _ _ |- _ => apply coordination_quiet in Hc as [-> _] end. apply rtc_refl.
  - apply rtc_refl.
Qed.

Lemma history_moves en en' : rtc (queue_step_within R) en en' -> rtc (move_within R) (items (e_db en)) (items (e_db en')).
Proof. induction 1; [apply rtc_refl|]. etrans; [by apply step_moves|done]. Qed.
End refinement.

(** C5. The queue refines its abstract machine: the effect of every history of
    verbs on the table of work items, committed or refused, is a sequence of
    legal moves of [Lifecycle] - claims of READY and of complete PENDING_SINK
    rows, renewals and dispositions of leased rows, completions at the sink,
    adoptions, consumptions and handoffs of rows held at a barrier, rotations
    to a free id with the next attempt, and new work under a free id. *)
Theorem queue_refines_lifecycle `{Env} en en' :
  rtc queue_step en en' -> rtc move (items (e_db en)) (items (e_db en')).
Proof. apply history_moves. Qed.

(** The lease columns always fit the status: a LEASED row names a
    non-empty owner and an expiry, a PENDING_SINK row has no expiry, and a row
    in any other status has neither owner nor expiry. *)
Theorem leases_well_formed `{Env} en en' id i :
  items (e_db en) = ∅ -> rtc queue_step en en' -> items (e_db en') !! id = Some i -> lease_shape i.
Proof.
  intros He Hs%history_moves Hi. rewrite He in Hs. assert (leases_ok (items (e_db en'))) as Hok; [|by eapply Hok].
  assert (leases_ok ∅) as H0 by apply map_Forall_empty. revert H0. clear Hi He. induction Hs; eauto using move_leases.
Qed.

(** Finished work stays finished: a TERMINAL row is never changed, moved
    or removed by any verb, whatever happens later. *)
Theorem terminal_is_final `{Env} en en' id i :
  items (e_db en) !! id = Some i -> wi_status i = TERMINAL -> rtc queue_step en en' ->
  items (e_db en') !! id = Some i.
Proof. intros Hi Ht Hs%history_moves. induction Hs; eauto using move_terminal. Qed.

(** C29. Work is never lost: a row of the queue - its run, token, row, node and
    all the rest of its key - is there after any history, at the same attempt
    or a later one, even when recovery or a resume gave it another id. *)
Theorem work_is_never_lost `{Env} en en' id i :
  items (e_db en) !! id = Some i -> rtc queue_step en en' ->
  exists id' i', items (e_db en') !! id' = Some i' /\ wi_key i' = wi_key i /\ wi_attempt i <= wi_attempt i'.
Proof.
  intros Hi Hs%history_moves. assert (has_work (wi_key i) (wi_attempt i) (items (e_db en))) as Hw by (exists id, i; split_and!; [done..|lia]).
  change (has_work (wi_key i) (wi_attempt i) (items (e_db en'))). clear Hi. induction Hs; eauto using move_work.
Qed.

(** ** Claims *)

Section claims.
Context `{Env}.

(** What a claim may take at a reading of the clock. *)
Definition claimable (run : string) (now : Z) (i : work_item) : bool :=
  in_run run i && (wi_status i == READY) && (wi_available_at i <=? now).

(** The claim order, as a proposition. *)
Lemma claim_before_iff a b :
  claim_before a b = true <->
  let ka := wi_key a.2 in let kb := wi_key b.2 in
  k_ingest_sequence ka < k_ingest_sequence kb \/ (k_ingest_sequence ka = k_ingest_sequence kb /\
  (k_step_index ka < k_step_index kb \/ (k_step_index ka = k_step_index kb /\
  (wi_created_at a.2 < wi_created_at b.2 \/ (wi_created_at a.2 = wi_created_at b.2 /\ String.leb a.1 b.1 = true))))).
Proof.
  unfold claim_before. cbv zeta.
  repeat match goal with |- context [?x =? ?y] => destruct (Z.eqb_spec x y); cbn end; rewrite ?Z.ltb_lt; intuition lia.
Qed.

Lemma claim_before_total a b : claim_before a b = true \/ claim_before b a = true.
Proof. rewrite !claim_before_iff. cbv zeta. destruct (String.leb_total a.1 b.1) as [-> | ->]; lia. Qed.

Lemma claim_before_trans a b c : claim_before a b = true -> claim_before b c = true -> claim_before a c = true.
Proof.
  rewrite !claim_before_iff. cbv zeta. pose proof (string_leb_trans a.1 b.1 c.1). intuition lia.
Qed.

(** The head of a selection comes before all of it. *)
Lemma select_first p d id i :
  head (select_items claim_before p d) = Some (id, i) ->
  forall id' i', items d !! id' = Some i' -> p i' = true -> claim_before (id, i) (id', i') = true.
Proof.
  unfold select_items. intros Hh id' i' Hi' Hp.
  pose proof (sort_by_sorted claim_before claim_before_total claim_before_trans
    (filter (fun e : string * work_item => p e.2) (map_to_list (items d)))) as Hs.
  assert ((id', i') ∈ sort_by claim_before (filter (fun e : string * work_item => p e.2) (map_to_list (items d)))) as Hin.
  { rewrite sort_by_perm. apply list_elem_of_filter. split; [by apply Is_true_true|by apply elem_of_map_to_list]. }
  destruct (sort_by _ _) as [|e l]; [done|]. injection Hh as ->.
  apply elem_of_cons in Hin as [<-|Hin]; [destruct (claim_before_total (id', i') (id', i')); done|].
  apply StronglySorted_inv in Hs as [_ Hf]. rewrite Forall_forall in Hf. auto.
Qed.

Lemma select_none before p d : head (select_items before p d) = None -> forall id i, items d !! id = Some i -> p i = false.
Proof.
  unfold select_items. intros Hh id i Hi. apply not_true_iff_false. intros Hp.
  assert ((id, i) ∈ sort_by before (filter (fun e : string * work_item => p e.2) (map_to_list (items d)))) as Hin.
  { rewrite sort_by_perm. apply list_elem_of_filter. split; [by apply Is_true_true|by apply elem_of_map_to_list]. }
  destruct (sort_by _ _); [by apply not_elem_of_nil in Hin|done].
Qed.

(** Leasing one row: what the two outcomes mean. *)
Lemma claim_row_ok id run owner lease mf st i c r c' :
  items (c_db c) !! id = Some i -> in_run run i = true ->
  claim_ready_row id run owner lease mf st c = (Ok r, c') ->
  let now := database_clock (c_tick c) in
  match r with
  | Some (id', i') =>
      id' = id /\ claimable run now i = true /\ i' = set_lease LEASED (Some owner) (Some (now + lease)) now i /\
      items (c_db c') = <[id := i']> (items (c_db c)) /\ c_tick c' = S (c_tick c) /\
      dict_get (c_issued c') (ITEM_KEY id) = Some (mkDeadline (now + lease) (deadline_reserve lease))
  | None =>
      items (c_db c') = items (c_db c) /\
      claimable run now i && (if st then active_worker_fence_clause (c_db c) owner run
        else if mf then claim_verb_fence_clause (c_db c) owner run else true) = false
  end.
Proof.
  intros Hi Hrun Hc. unfold claim_ready_row, row_in_run in Hc. inv_txn. cbn in Hc. rewrite Hi in Hc. cbn in Hc.
  rewrite Hrun in Hc. inv_txn. cbn in *.
  match goal with Hu : update_item _ _ _ _ = _ |- _ => apply update_item_ok in Hu as [(-> & j & Hj & Hp & _ & ->)|(-> & -> & Hno)] end.
  - cbn in Hj. rewrite Hi in Hj. injection Hj as <-. cbn [negb] in Hc. inv_txn. quiet_steps. cbn in Hc.
    rewrite lookup_insert_eq in Hc. cbn in Hc. unfold in_run in *. cbn in Hc. rewrite Hrun in Hc. cbn in Hc.
    rewrite !bool_decide_eq_true_2 in Hc by done. cbn in Hc. inv_txn. apply andb_true_iff in Hp as [Hp _].
    split_and!; try done. cbn. by rewrite dict_get_set, bool_decide_eq_true_2.
  - cbn [negb] in Hc. inv_txn. split; [done|]. by apply (Hno i).
Qed.
End claims.

(** C22. Claims follow the queue's order and are exclusive: a claim that returns
    a row took, of all READY rows of the run that were available, the first by
    ingest sequence, step, age and id; that row and no other is now LEASED to
    the claiming member, with an expiry that had more than its reserve left
    when the transaction committed.  A claim that returns nothing changed
    nothing and left no available row behind (as long as the clock did not
    step back between its two readings). *)
Theorem claim_takes_the_first `{Env} m owner lease en r en' :
  claim_ready m owner lease en = (Ok r, en') ->
  let now := database_clock (e_tick en) in
  let leased_at := database_clock (S (e_tick en)) in
  match r with
  | Some (id, i') =>
      exists i, items (e_db en) !! id = Some i /\ claimable (m_run_id m) now i = true /\
        (forall id2 i2, items (e_db en) !! id2 = Some i2 -> claimable (m_run_id m) now i2 = true ->
           claim_before (id, i) (id2, i2) = true) /\
        i' = set_lease LEASED (Some (m_worker_id m)) (Some (leased_at + lease)) leased_at i /\
        items (e_db en') = <[id := i']> (items (e_db en)) /\
        deadline_reserve lease < leased_at + lease - database_clock (S (S (e_tick en)))
  | None =>
      items (e_db en') = items (e_db en) /\
      (now <= leased_at -> forall id i, items (e_db en) !! id = Some i -> claimable (m_run_id m) now i = false)
  end.
Proof.
  unfold claim_ready. destruct (_ == _) eqn:Eo; cbn [negb]; [|done]. bool_facts. subst owner.
  intros (c' & Hb & -> & (w & Hw & Ha) & c'' & Hcommit)%member_body. inv_txn. cbn in Hb. cbv zeta.
  destruct (head _) as [[id i]|] eqn:Eh.
  2:{ inv_txn. split; [done|]. intros _. exact (select_none _ _ _ Eh). }
  pose proof (select_head _ _ _ _ _ Eh) as [Hi Hc]. cbn in Hi.
  eapply claim_row_ok in Hb; [|exact Hi|by bool_facts]. cbv zeta in Hb. cbn in Hb. destruct r as [[id' i']|].
  - destruct Hb as (-> & _ & -> & Hitems & Htick & Hd). exists i. split_and!; try done.
    + exact (select_first _ _ _ _ Eh).
    + apply (commit_live _ _ _ _ Hcommit) in Hd as [Hd _]. cbn in Hd. rewrite Htick in Hd. lia.
  - destruct Hb as [Hitems Hno]. split; [done|]. intros Hle.
    exfalso. apply not_true_iff_false in Hno. apply Hno. unfold claimable in *.
    unfold claim_verb_fence_clause, active_worker_fence_clause. cbn. rewrite Hw, Ha. bool_facts.
    rewrite !andb_true_iff. split_and!; try done; [by apply bool_decide_eq_true_2|lia].
Qed.

(** ** Dispositions *)

Section dispositions.
Context `{Env}.

(** A disposition that returns. *)
Lemma transition_ok m id owner im losses rb en id' i' en' :
  transition m id owner im losses rb en = (Ok (id', i'), en') ->
  exists i, let now := transaction_clock (e_tick en) in
    id' = id /\ items (e_db en) !! id = Some i /\ k_run_id (wi_key i) = m_run_id m /\
    wi_status i = LEASED /\ wi_lease_owner i = Some (m_worker_id m) /\ b_sink_name (wi_bundle i) = None /\
    i' = apply_image im (token_decided (e_db en) i) now i /\
    items (e_db en') = <[id := i']> (items (e_db en)) /\
    scheduler_events (e_db en') = scheduler_events (e_db en) ++
      [transition_event (image_event im) id i (image_status im) (image_owner im) None now (m_worker_id m)].
Proof.
  unfold transition. case_match; [done|].
  intros (c' & Hb & -> & _)%member_body. unfold transition_on in Hb. inv_txn. cbn in Hb.
  match goal with Hu : update_item _ _ _ _ = _ |- _ => apply update_item_ok in Hu as [(-> & i & Hi & Hp & _ & ->)|(-> & -> & _)] end; [|done].
  cbn in Hi, Hb. rewrite Hi, lookup_insert_eq in Hb. inv_txn. quiet_steps.
  match goal with Hx : record_group_losses _ _ _ _ _ = _ |- _ => apply record_losses_db in Hx as [Hit Hev] end. cbn in *.
  unfold in_run in Hp. bool_facts. exists i. split_and!; try done.
  by destruct (b_sink_name (wi_bundle i)).
Qed.

(** A disposition that raises. *)
Lemma transition_err m id owner im losses rb en e en' :
  transition m id owner im losses rb en = (Err e, en') -> quiet (e_db en) (e_db en').
Proof. unfold transition. case_match; [by intros [= _ <-]|]. apply member_error. Qed.
End dispositions.

(** Only the holder of the lease can end it: a disposition that returns
    found the row LEASED to the calling member, in its run and before any
    sink, wrote exactly the image's columns of that row, and recorded exactly
    one event; a disposition that raises left the queue, its log and the
    group losses as they were. *)
Theorem only_the_holder_disposes `{Env} m id owner im losses rb en :
  match transition m id owner im losses rb en with
  | (Ok (id', i'), en') =>
      exists i now, id' = id /\ items (e_db en) !! id = Some i /\ k_run_id (wi_key i) = m_run_id m /\
        wi_status i = LEASED /\ wi_lease_owner i = Some (m_worker_id m) /\ b_sink_name (wi_bundle i) = None /\
        i' = apply_image im (token_decided (e_db en) i) now i /\
        items (e_db en') = <[id := i']> (items (e_db en)) /\
        scheduler_events (e_db en') = scheduler_events (e_db en) ++
          [transition_event (image_event im) id i (image_status im) (image_owner im) None now (m_worker_id m)]
  | (Err e, en') => quiet (e_db en) (e_db en')
  end.
Proof.
  destruct (transition m id owner im losses rb en) as [[[id' i']|e] en'] eqn:E; [|by eapply transition_err].
  apply transition_ok in E as (i & Hi). exists i, (transaction_clock (e_tick en)). exact Hi.
Qed.

(** ** Recovery *)
Section recovered.
Context `{Env}.

(** A row that some event touched holds what some event wrote. *)
Lemma replay_touched evs v k c :
  (forall e, e ∈ evs -> se_type e <> LEASE_LOST) ->
  (exists e, e ∈ evs /\ (se_work_item_id e = k \/ retired_by e = Some k)) ->
  foldl replay_event v evs !! k = Some c ->
  exists e, e ∈ evs /\ c = (se_to_status e, se_to_lease_owner e, se_to_attempt e).
Proof.
  induction evs as [|e evs IH] using rev_ind; intros Hl (e' & Hin & Ht) Hf; [by apply not_elem_of_nil in Hin|].
  rewrite foldl_app in Hf. cbn in Hf. unfold replay_event in Hf.
  rewrite bool_decide_eq_false_2 in Hf by (apply Hl; set_solver).
  destruct (decide (se_work_item_id e = k)) as [<-|Hk].
  { rewrite lookup_insert_eq in Hf. injection Hf as <-. exists e. set_solver. }
  rewrite lookup_insert_ne in Hf by done.
  assert (retired_by e <> Some k /\ foldl replay_event v evs !! k = Some c) as [Hp Hf'].
  { destruct (retired_by e) as [p|]; [|by split]. apply lookup_delete_Some in Hf as [Hne Hf]. split; [congruence|done]. }
  destruct IH as (x & Hx & ->); [set_solver| |done|exists x; set_solver].
  exists e'. split; [|done]. apply elem_of_app in Hin as [Hin|Hin%list_elem_of_singleton]; [done|]. subst. tauto.
Qed.

(** After a sweep, the old id of a swept row is free or names an unleased row. *)
Lemma swept_not_leased t grace stall d d' tick rows id i :
  recovers t grace stall d d' tick rows -> items d !! id = Some i -> swept t grace stall d tick i = true ->
  forall j, items d' !! id = Some j -> wi_status j <> LEASED.
Proof.
  intros (Hrows & _ & Hv & _) Hi Hs j Hj.
  assert ((id, i) ∈ rows) as Hin by (by apply (selected_elem _ _ _ _ Hrows)).
  assert (view d' !! id = Some (cell_of j)) as Hc by (unfold view; by rewrite lookup_fmap, Hj). rewrite Hv in Hc.
  apply replay_touched in Hc as (e & (x & -> & Hx)%list_elem_of_fmap & Heq).
  - injection Heq as -> _ _. cbn. unfold next_status. by destruct (sink_redrive_shaped _).
  - by intros e (x & -> & _)%list_elem_of_fmap.
  - exists (recovery_event t (database_clock (S tick)) (id, i)). split; [by apply (list_elem_of_fmap_2 (recovery_event t (database_clock (S tick))))|].
    unfold recovery_event, retired_by, previous_of. cbn. case_bool_decide; [by left|by right].
Qed.
End recovered.

(** C18. Recovery takes exactly the abandoned leases: when a sweep returns,
    every row that was LEASED in the leader's run to somebody else, with an
    expiry behind both readings of the clock, and whose owner is no longer an
    active worker within the grace period or overran its stall budget, is
    released - a sink redrive back to PENDING_SINK under its id and attempt,
    any other row to READY under the id of its next attempt - and every other
    row is as before.  From then on nobody can dispose of a swept row under
    its old id. *)
Theorem recovery_takes_the_abandoned `{Env} t grace stall en n en' :
  recover_expired_leases t grace stall en = (Ok n, en') ->
  exists tick, forall id i, items (e_db en) !! id = Some i ->
    if swept t grace stall (e_db en) tick i then
      items (e_db en') !! next_id (tk_run_id t) (id, i) = Some (recovered_item (database_clock (S tick)) i) /\
      forall m owner im losses rb, exists e en2,
        transition m id owner im losses rb en' = (Err e, en2) /\ quiet (e_db en') (e_db en2)
    else items (e_db en') !! id = Some i.
Proof.
  intros (c & c' & [Hqi _] & Hw & (rows & Hrec)%rotate_ok & [Hqi' _])%leader_body. exists (c_tick c). intros id i Hi.
  assert (forall x, swept t grace stall (c_db c) (c_tick c) x = swept t grace stall (e_db en) (c_tick c) x) as Heq.
  { intros x. unfold swept, reapable, owner_registry_dead. by rewrite Hw. }
  assert (items (c_db c) !! id = Some i) as Hic by congruence.
  pose proof Hrec as (_ & _ & _ & Heff & _). specialize (Heff id i Hic). rewrite Heq in Heff. rewrite Hqi'.
  destruct (swept t grace stall (e_db en) (c_tick c) i) eqn:Es; [|done]. split; [done|]. intros m owner im losses rb.
  destruct (transition m id owner im losses rb en') as [[[id' i']|e] en2] eqn:E; [|eauto using transition_err]. exfalso.
  apply transition_ok in E as (j & _ & Hj & _ & Hl & _). rewrite Hqi' in Hj.
  eapply (swept_not_leased t grace stall); [exact Hrec|exact Hic|by rewrite Heq|exact Hj|exact Hl].
Qed.

(** ** A concrete run *)
Import SchedulerExample.

(** The rows of the run of [SchedulerExample]. *)
Definition claimed_item : work_item :=
  set_lease LEASED (Some "f") (Some 69000000) 9000000
    (ready_work_item_values (key "t1") (RowJson "{}") None None 0 6000000).
Definition finished_item : work_item :=
  set_payload (Purged item) (set_lease TERMINAL None None 11000000 claimed_item).

Lemma queue_refines_lifecycle_witness : rtc move (items (e_db CoordinationExample.en0)) (items (e_db finished)).
Proof. exact (queue_refines_lifecycle _ _ history). Defined.

Lemma leases_well_formed_witness : items (e_db finished) !! item = Some finished_item /\ lease_shape finished_item.
Proof.
  split; [vm_compute; reflexivity|].
  apply (leases_well_formed CoordinationExample.en0 finished item _ eq_refl history). vm_compute. reflexivity.
Defined.

Lemma terminal_is_final_witness :
  items (e_db (recover_expired_leases leader 0 0 finished).2) !! item = Some finished_item.
Proof.
  apply (terminal_is_final finished _ item finished_item); [vm_compute; reflexivity|reflexivity|].
  apply rtc_once. apply q_recover.
Defined.

Lemma work_is_never_lost_witness :
  exists id' i', items (e_db finished) !! id' = Some i' /\ wi_key i' = key "t1" /\ 0 <= wi_attempt i'.
Proof.
  apply (work_is_never_lost claimed finished item claimed_item); [vm_compute; reflexivity|exact remaining].
Defined.

Lemma claim_takes_the_first_witness :
  exists i, items (e_db queued) !! item = Some i /\ claimable "r" 8000000 i = true /\
    (forall id2 i2, items (e_db queued) !! id2 = Some i2 -> claimable "r" 8000000 i2 = true ->
       claim_before (item, i) (id2, i2) = true) /\
    claimed_item = set_lease LEASED (Some "f") (Some (9000000 + lease)) 9000000 i /\
    items (e_db claimed) = <[item := claimed_item]> (items (e_db queued)) /\
    deadline_reserve lease < 9000000 + lease - 10000000.
Proof.
  exact (claim_takes_the_first follower "f" lease queued (Some (item, claimed_item)) claimed
           (CoordinationExample.by_first _ _ ltac:(vm_compute; reflexivity))).
Defined.

Lemma recovery_takes_the_abandoned_witness :
  exists tick, forall id i, items (e_db late) !! id = Some i ->
    if swept leader 1000 1000 (e_db late) tick i then
      items (e_db (recover_expired_leases leader 1000 1000 late).2) !! next_id "r" (id, i)
        = Some (recovered_item (database_clock (S tick)) i) /\
      forall m owner im losses rb, exists e en2,
        transition m id owner im losses rb (recover_expired_leases leader 1000 1000 late).2 = (Err e, en2) /\
        quiet (e_db (recover_expired_leases leader 1000 1000 late).2) (e_db en2)
    else items (e_db (recover_expired_leases leader 1000 1000 late).2) !! id = Some i.
Proof.
  exact (recovery_takes_the_abandoned leader 1000 1000 late 1 _
           (CoordinationExample.by_first _ _ ltac:(vm_compute; reflexivity))).
Defined.
