(* ===== verification/BarrierTheory.v ===== *)
(** * BarrierTheory: what the barrier journal guarantees

    A completed barrier accounts for every row it held, and a held row is
    adopted once until its marker is reset, whichever leader asks and whatever
    happens in between. *)

From S2P Require Import Prelude Enums Outcomes AuditDerive Landscape Coordination CoordinationTheory Scheduler Emissions Barrier Lifecycle SchedulerFacts SchedulerRecovery SchedulerReplay BarrierReplay QueueHistory SchedulerTheory.
Open Scope Z_scope.

(** C12. A barrier completion accounts for every row that it held.  When it
    returns, it has terminalized exactly the held rows of the consumed tokens,
    each of which had one, and handed to their sinks exactly the held rows that
    have a pending-sink emission; every other row of the table is unchanged; every pending-sink
    emission without a held row, and every ready emission, is one new row.  On
    the exhaustive arm a held row that is neither consumed nor handed off
    arrived after the intake snapshot.  When it raises, the queue, its log and
    the losses are as before. *)
Theorem complete_barrier_accounts `{Env} t bk consumed pending ready ex scope snapshot rc owner losses outcomes en r en' :
  complete_barrier t bk consumed pending ready ex scope snapshot rc owner losses outcomes en = (r, en') ->
  match r with
  | Ok n =>
      n = length consumed /\
      completes (tk_run_id t) bk scope consumed pending ready owner (items (e_db en)) (items (e_db en')) /\
      (forall x, x ∈ consumed -> waits (tk_run_id t) bk scope (items (e_db en)) x = true) /\
      (ex = true -> forall id i, items (e_db en) !! id = Some i -> held (tk_run_id t) bk scope i = true ->
         spared consumed pending snapshot i)
  | Err _ => quiet (e_db en) (e_db en')
  end.
Proof.
  unfold complete_barrier. destruct (check_completion _ _ _ _ _ _ _) eqn:Ec; [|by intros [= <- <-]].
  intros E. destruct r as [n|e]; [|by eapply leader_error].
  apply leader_body in E as (c & c' & (<- & _) & _ & Hb & (-> & _)).
  by apply (complete_on_ok _ _ _ _ _ _ _ _ _ _ _ _ _ _ _ _ _ Ec) in Hb as (-> & _ & Hb).
Qed.

(** ** Adoption *)
Section adoption.
Context `{Env}.

(** What an adoption writes beside the marker. *)
Definition adopted_lineage (run token : string) (ms : option BatchMembershipSpec) (bb : option string) (i : work_item)
    (l l' : lineage_tables) : Prop :=
  match ms, bb with
  | Some m, Some b =>
      exists arrived, wi_barrier_blocked_at i = Some arrived /\
        batch_members l' = <[(ms_batch_id m, token) := ms_ordinal m]> (batch_members l) /\
        batch_members l !! (ms_batch_id m, token) = None /\
        buffered_outcomes l' = buffered_outcomes l ++ [(run, token, b, arrived)]
  | _, _ => l' = l
  end.

Lemma add_member_ok b x o r c u c' :
  add_batch_member_guarded b x o r c = (Ok u, c') ->
  batch_members (lineage (c_db c)) !! (b, x) = None /\
  batch_members (lineage (c_db c')) = <[(b, x) := o]> (batch_members (lineage (c_db c))) /\
  buffered_outcomes (lineage (c_db c')) = buffered_outcomes (lineage (c_db c)).
Proof.
  unfold add_batch_member_guarded. intros Hb. inv_txn. destruct (batches _ !! b) as [[r' s]|]; [|done]. inv_txn.
  bool_facts. cbn in *. by destruct (batch_members _ !! _).
Qed.

Lemma buffered_ok r x b at_ c o c' :
  record_buffered_outcome_guarded r x b at_ c = (Ok o, c') ->
  batch_members (lineage (c_db c')) = batch_members (lineage (c_db c)) /\
  buffered_outcomes (lineage (c_db c')) = buffered_outcomes (lineage (c_db c)) ++ [(r, x, b, at_)].
Proof. unfold record_buffered_outcome_guarded, lift. intros Hb. inv_txn. by simplify_eq. Qed.

Lemma adopt_ok t id token bk ms bb en r en' :
  adopt_blocked_barrier_item t id token bk ms bb en = (Ok r, en') ->
  exists i now, items (e_db en) !! id = Some i /\ held_as (tk_run_id t) bk token i = true /\
    match wi_barrier_adopted_epoch i with
    | None =>
        ad_adopted r = true /\ ad_epoch r = tk_leader_epoch t /\
        items (e_db en') = <[id := set_adopted (Some (tk_leader_epoch t)) now i]> (items (e_db en)) /\
        adopted_lineage (tk_run_id t) token ms bb i (lineage (e_db en)) (lineage (e_db en'))
    | Some e =>
        r = mkAdoption false e None /\ items (e_db en') = items (e_db en) /\ lineage (e_db en') = lineage (e_db en)
    end.
Proof.
  unfold adopt_blocked_barrier_item. destruct (negb (Bool.eqb _ _)) eqn:Eb; [done|].
  case_match; [done|]. intros (c & c' & (Hi & _) & _ & (Hl & _) & Hb & (Hi' & _) & Hl' & _)%leader_body_lineage.
  rewrite <- Hi, <- Hl, Hi', Hl'. clear Hi Hl Hi' Hl'.
  apply txn_bind_ok in Hb as (now & c1 & [= <- <-] & Hb). apply txn_bind_ok in Hb as (changed & c2 & Hu & Hb).
  apply txn_bind_ok in Hb as (d & c3 & [= <- <-] & Hb).
  apply update_item_ok in Hu as [(-> & i & Hi & Hp & _ & ->)|(-> & -> & Hno)]; cbn in *.
  - bool_facts. exists i, (transaction_clock (c_tick c)). split_and!; [done..|].
    match goal with Hx : is_none _ = true |- _ => destruct (wi_barrier_adopted_epoch i) in Hx |- *; [done|] end. rewrite lookup_insert_eq in Hb.
    apply txn_bind_ok in Hb as (u & c4 & Hm & Hb). apply txn_bind_ok in Hb as (o & c5 & Ho & [= <- <-]).
    destruct ms as [m|], bb as [b|]; [|done|done|].
    + cbn in Ho. destruct (wi_barrier_blocked_at i) as [arrived|] eqn:Ea; [|done]. apply txn_bind_ok in Ho as (o' & c6 & Ho & [= <- <-]).
      pose proof (quiet_member (ms_batch_id m) token (ms_ordinal m) (tk_run_id t) (put_items (<[id := set_adopted (Some (tk_leader_epoch t)) (transaction_clock (c_tick c)) i]>) (mkConn (c_db c) (c_issued c) (S (c_tick c))))) as Hq1.
      rewrite Hm in Hq1. destruct Hq1 as [Hq1 _]. pose proof (quiet_buffered (tk_run_id t) token b arrived c4) as Hq2.
      rewrite Ho in Hq2. destruct Hq2 as [Hq2 _]. apply add_member_ok in Hm as (Hnew & Hm & Hbo). apply buffered_ok in Ho as [Hm' Ho].
      cbn in *. split_and!; [done|done|congruence|]. exists arrived. rewrite Hm', Hm, Ho, Hbo. done.
    + by injection Hm as <- <-; injection Ho as <- <-.
  - unfold row_in_run in Hb. destruct (items (c_db c) !! id) as [i|] eqn:Ei; cbn in Hb; [|done].
    destruct (in_run _ i); cbn in Hb; [|done]. destruct (wi_barrier_adopted_epoch i) as [e|] eqn:Ee; [|done].
    inv_txn. bool_facts. exists i, 0. rewrite Ee. done.
Qed.
Lemma adopt_err t id token bk ms bb en e en' :
  adopt_blocked_barrier_item t id token bk ms bb en = (Err e, en') ->
  items (e_db en') = items (e_db en) /\ lineage (e_db en') = lineage (e_db en).
Proof.
  unfold adopt_blocked_barrier_item. do 2 (case_match; [by intros [= <- <-]|]). intros Hx.
  split; [by apply leader_error in Hx as [-> _]|by eapply leader_error_lineage].
Qed.

(** The marker survives every history that does not reset it. *)
Lemma marker_stays id epoch en en' i :
  rtc (queue_step_within (fun k => k <> id)) en en' -> items (e_db en) !! id = Some i -> adopted_by epoch i ->
  exists j, items (e_db en') !! id = Some j /\ adopted_by epoch j.
Proof.
  intros Hs%history_moves. revert i. induction Hs as [m|m m1 m2 Hm _ IH]; intros i Hi Ha; [eauto|].
  eapply move_adopted in Hm as (j & Hj & Haj); [by eapply IH| |done..]. intros []. done.
Qed.

(** What an adoption leaves under its id. *)
Lemma adoption_marks t id token bk ms bb en r en' :
  adopt_blocked_barrier_item t id token bk ms bb en = (Ok r, en') ->
  exists j, items (e_db en') !! id = Some j /\ adopted_by (ad_epoch r) j.
Proof.
  intros (i & now & Hi & Hh & Hc)%adopt_ok. unfold held_as in Hh. bool_facts.
  destruct (wi_barrier_adopted_epoch i) as [e|] eqn:Ee.
  - destruct Hc as (-> & -> & _). exists i. split; [done|]. split; [done|]. by match goal with Hx : wi_status i = _ |- _ => rewrite Hx end.
  - destruct Hc as (_ & -> & -> & _). rewrite lookup_insert_eq. eexists. split; [done|]. split; [done|]. cbn.
    by match goal with Hx : wi_status i = _ |- _ => rewrite Hx end.
Qed.
End adoption.

(** C31. A held row is adopted exactly once until a reset of its marker.  An
    adoption that returns found the row held under the barrier for that token
    in the leader's run.  If its marker was clear, the row is now marked with
    the caller's epoch and, for an aggregation, the token joined the batch and
    its BUFFERED outcome was recorded at the time of its arrival; otherwise
    nothing changed and the answer names the epoch that adopted it.  After any
    later history of verbs - takeovers, other adoptions, completions, recoveries,
    and the resets a restore makes, as long as none of them names this row -
    the row is there under its id with the same marker, and an adoption of it
    by whichever leader either raises or answers that this epoch adopted it;
    in both cases the queue and the lineage tables are unchanged. *)
Theorem adoption_is_exactly_once `{Env} t id token bk ms bb en r en' :
  adopt_blocked_barrier_item t id token bk ms bb en = (Ok r, en') ->
  (exists i now, items (e_db en) !! id = Some i /\ held_as (tk_run_id t) bk token i = true /\
    match wi_barrier_adopted_epoch i with
    | None =>
        ad_adopted r = true /\ ad_epoch r = tk_leader_epoch t /\
        items (e_db en') = <[id := set_adopted (Some (tk_leader_epoch t)) now i]> (items (e_db en)) /\
        adopted_lineage (tk_run_id t) token ms bb i (lineage (e_db en)) (lineage (e_db en'))
    | Some e =>
        r = mkAdoption false e None /\ items (e_db en') = items (e_db en) /\ lineage (e_db en') = lineage (e_db en)
    end) /\
  forall later, rtc (queue_step_within (fun k => k <> id)) en' later ->
    (exists j, items (e_db later) !! id = Some j /\ wi_barrier_adopted_epoch j = Some (ad_epoch r)) /\
    forall t2 token2 bk2 ms2 bb2 r2 en2, adopt_blocked_barrier_item t2 id token2 bk2 ms2 bb2 later = (r2, en2) ->
      (forall a, r2 = Ok a -> a = mkAdoption false (ad_epoch r) None) /\
      items (e_db en2) = items (e_db later) /\ lineage (e_db en2) = lineage (e_db later).
Proof.
  intros Ha. split; [exact (adopt_ok _ _ _ _ _ _ _ _ _ Ha)|]. intros later Hs.
  apply adoption_marks in Ha as (i & Hi & Ha). destruct (marker_stays _ _ _ _ _ Hs Hi Ha) as (j & Hj & [He _]).
  split; [by exists j|]. intros t2 token2 bk2 ms2 bb2 [a|x] en2 H2; [|by apply adopt_err in H2].
  apply adopt_ok in H2 as (j' & now & Hj' & _ & Hc). rewrite Hj in Hj'. injection Hj' as <-. rewrite He in Hc.
  destruct Hc as (-> & -> & ->). split; [by intros ? [= <-]|done].
Qed.

(** ** A concrete run *)
Import SchedulerExample.

(** The follower holds token [t1] at the barrier [b]; the leader adopts it and
    completes the barrier with new work for token [t2]. *)
Definition held_run : engine := (mark_blocked follower item None (Some "b") (RowJson "{}") "f" claimed).2.
Definition adopted_run : engine := (adopt_blocked_barrier_item leader item "t1" "b" None None held_run).2.
Definition merged : BarrierEmission :=
  mkEmission "t2" (RowJson "{}") no_bundle (Some "w") (Some "n") (Some 1) (Some 7) None None None None "" None None None None 1.
(** The follower claims the row of token [t2] meanwhile. *)
Definition late_start (en : engine) : engine := (claim_ready follower "f" lease en).2.
Definition completed_run : engine :=
  (complete_barrier leader "b" ["t1"] [] [merged] true None (Some ["t1"]) [] None [] [] adopted_run).2.

Lemma complete_barrier_accounts_witness :
  (complete_barrier leader "b" ["t1"] [] [merged] true None (Some ["t1"]) [] None [] [] adopted_run).1 = Ok 1%nat /\
  completes "r" "b" None ["t1"] [] [merged] None (items (e_db adopted_run)) (items (e_db completed_run)) /\
  (wi_status <$> items (e_db completed_run) !! item) = Some TERMINAL.
Proof.
  split_and!; [vm_compute; reflexivity| |vm_compute; reflexivity].
  refine (proj1 (proj2 (complete_barrier_accounts leader "b" ["t1"] [] [merged] true None (Some ["t1"]) [] None [] []
    adopted_run (Ok 1%nat) completed_run (CoordinationExample.by_first _ _ _)))). vm_compute. reflexivity.
Defined.

Lemma afterwards : rtc (queue_step_within (fun k => k <> item)) adopted_run (late_start adopted_run).
Proof. apply rtc_once, q_claim. Qed.

Lemma adoption_is_exactly_once_witness :
  (adopt_blocked_barrier_item leader item "t1" "b" None None held_run).1 = Ok (mkAdoption true 1 None) /\
  (adopt_blocked_barrier_item leader item "t1" "b" None None (late_start adopted_run)).1 = Ok (mkAdoption false 1 None) /\
  items (e_db (adopt_blocked_barrier_item leader item "t1" "b" None None (late_start adopted_run)).2) =
    items (e_db (late_start adopted_run)).
Proof.
  split_and!; [vm_compute; reflexivity..|].
  refine (proj1 (proj2 (proj2 (proj2 (adoption_is_exactly_once leader item "t1" "b" None None held_run (mkAdoption true 1 None)
    adopted_run (CoordinationExample.by_first _ _ _)) _ afterwards) leader "t1" "b" None None (Ok (mkAdoption false 1 None)) _
    (CoordinationExample.by_first _ _ _))));
    vm_compute; reflexivity.
Defined.

