(* ===== verification/ReadModel.v ===== *)
(** * ReadModel: what the queue's readers see

    [core/landscape/scheduler/read_model.py]: the counts on which draining and
    quiescence decide, in chunks of bound parameters; and
    [verify_resume_coverage] of [leases.py], the one check that lets a run
    resume.  Theorems: the counts are exact and partition the open work, and
    the coverage check names exactly the tokens that nothing will process. *)

From S2P Require Import Prelude Enums Outcomes Landscape Coordination CoordinationTheory Scheduler Emissions Barrier Lifecycle SchedulerFacts SchedulerRecovery SchedulerReplay BarrierReplay QueueHistory SchedulerTheory.
Open Scope Z_scope.

(** ** Predicates *)

(** [unresolved_work_predicate] and [unquiesced_work_predicate]. *)
Definition leased_before_sink (i : work_item) : bool :=
  (wi_status i == LEASED) && is_none (b_sink_name (wi_bundle i)).

Definition unresolved_work_predicate (i : work_item) : bool :=
  (wi_status i == READY) || (wi_status i == BLOCKED) || leased_before_sink i.

Definition unquiesced_work_predicate (i : work_item) : bool := (wi_status i == READY) || leased_before_sink i.

Definition active_status (s : TokenWorkStatus) : bool :=
  (s == READY) || (s == LEASED) || (s == BLOCKED) || (s == PENDING_SINK).

(** ** Counts *)
Definition count_where (p : string * work_item -> bool) (d : landscape) : nat :=
  length (filter (fun e => p e) (map_to_list (items d))).

(** The slices [ids[start : start + size]] of [range(0, len(ids), size)]. *)
Fixpoint slices (fuel size : nat) (ids : list string) : list (list string) :=
  match fuel, ids with
  | O, _ | _, [] => []
  | S fuel, _ => take size ids :: slices fuel size (drop size ids)
  end.

Definition chunks (ids : list string) : list (list string) := slices (length ids) 900 ids.

Definition in_set (run_id : string) (s : TokenWorkStatus) (ids : list string) (e : string * work_item) : bool :=
  in_run run_id e.2 && bool_decide (e.1 ∈ ids) && (wi_status e.2 == s).

Definition count_in_chunks (run_id : string) (s : TokenWorkStatus) (ids : list string) (d : landscape) : nat :=
  foldl (fun total chunk => (total + count_where (in_set run_id s chunk) d)%nat) 0%nat (chunks ids).

Section reads.
Context `{Env}.

(** [count_ready_in_set] and [count_failed_in_set]. *)
Definition count_ready_in_set (run_id : string) (ids : list string) : verb nat := fun en =>
  if bool_decide (ids = []) then (Ok 0%nat, en) else read_only (query (count_in_chunks run_id READY ids)) en.

Definition count_failed_in_set (run_id : string) (ids : list string) : verb nat := fun en =>
  if bool_decide (ids = []) then (Ok 0%nat, en) else read_only (query (count_in_chunks run_id WORK_FAILED ids)) en.

(** [has_peer_owned_work]. *)
Definition peer_owned (run_id caller : string) (e : string * work_item) : bool :=
  in_run run_id e.2 && ((wi_status e.2 == LEASED) || (wi_status e.2 == PENDING_SINK))
  && match wi_lease_owner e.2 with Some o => negb (o == "") && negb (o == caller) | None => false end.

Definition has_peer_owned_work (run_id caller : string) (ids : option (list string)) : verb bool := fun en =>
  match ids with
  | Some [] => (Ok false, en)
  | None => read_only (query (fun d => existsb (peer_owned run_id caller) (map_to_list (items d)))) en
  | Some ids =>
      read_only (query (fun d => existsb (fun chunk =>
        existsb (fun e => peer_owned run_id caller e && bool_decide (e.1 ∈ chunk)) (map_to_list (items d))) (chunks ids))) en
  end.

(** [count_active_work], [count_unquiesced_work] and [count_unresolved_work]. *)
Definition count_active_work (run_id : string) : verb nat :=
  read_only (query (count_where (fun e => in_run run_id e.2 && active_status (wi_status e.2)))).

Definition count_unquiesced_work (run_id : string) : verb nat :=
  read_only (query (count_where (fun e => in_run run_id e.2 && unquiesced_work_predicate e.2))).

Definition count_unresolved_work (run_id : string) : verb nat :=
  read_only (query (count_where (fun e => in_run run_id e.2 && unresolved_work_predicate e.2))).

(** ** Resume coverage *)
Definition RESUME_REFUSAL_TOKEN_ID_LIMIT : nat := 10.

Record ResumeCoverageRefusal := mkRefusal { rf_token_count : nat; rf_first_token_ids : list string }.

(** [ResumeCoverageRefusal.__post_init__]. *)
Definition resume_coverage_refusal (token_count : nat) (first_token_ids : list string) : res ResumeCoverageRefusal :=
  reject (token_count <? 1)%nat with ValueError "token_count" ;;
  reject existsb (fun x => x == "") first_token_ids with ValueError "first_token_ids entries must be non-empty strings" ;;
  reject negb (length first_token_ids =? Nat.min token_count RESUME_REFUSAL_TOKEN_ID_LIMIT)%nat
    with ValueError "first_token_ids must name min(token_count, limit) tokens" ;;
  reject negb (first_token_ids == sort_by String.leb (remove_dups first_token_ids))
    with ValueError "first_token_ids must be sorted and distinct" ;;
  Ok (mkRefusal token_count first_token_ids).

(** The three ways in which a token is accounted for. *)
Definition decided_or_abandoned (d : landscape) (run_id token_id : string) : bool :=
  bool_decide ((run_id, token_id) ∈ decided_tokens (lineage d)) || bool_decide ((run_id, token_id) ∈ abandoned_tokens (lineage d)).

Definition has_item (d : landscape) (run_id token_id : string) (p : TokenWorkStatus -> bool) : bool :=
  existsb (fun e : string * work_item => in_run run_id e.2 && (k_token_id (wi_key e.2) == token_id) && p (wi_status e.2))
    (map_to_list (items d)).

Definition covered (d : landscape) (run_id token_id : string) : bool := has_item d run_id token_id active_status.

Definition producer_open (d : landscape) (run_id token_id : string) : bool :=
  existsb (fun e : string * string * string => (e.1.1 == run_id) && (e.1.2 == token_id)
      && has_item d run_id e.2 (fun s => (s == READY) || (s == LEASED) || (s == BLOCKED)))
    (elements (token_parents (lineage d))).

Definition uncovered (d : landscape) (run_id : string) : list string :=
  sort_by String.leb
    (map (fun e : (string * string) * string => e.1.2)
       (filter (fun e : (string * string) * string =>
          (e.1.1 == run_id) && negb (decided_or_abandoned d run_id e.1.2) && negb (covered d run_id e.1.2)
          && negb (producer_open d run_id e.1.2))
        (map_to_list (token_rows (lineage d))))).

(** [verify_resume_coverage]. *)
Definition resume_refused (t : CoordinationToken) (r : ResumeCoverageRefusal) (now : Z) : coordination_event :=
  mkEvent (tk_run_id t) "resume_refused" (tk_worker_id t) (Some (tk_leader_epoch t)) now
    [("cause", CtxStr "uncovered_undecided_tokens"); ("token_count", CtxInt (Z.of_nat (rf_token_count r)));
     ("first_token_ids", CtxList (rf_first_token_ids r))].

Definition verify_resume_coverage (t : CoordinationToken) : verb (option ResumeCoverageRefusal) :=
  fenced_write t "verify_resume_coverage"
    (missing ← query (fun d => uncovered d (tk_run_id t));
     if bool_decide (length missing = 0%nat) then mret None
     else
       r ← lift (resume_coverage_refusal (length missing) (take RESUME_REFUSAL_TOKEN_ID_LIMIT missing));
       now ← read_landscape_decision_time;
       _ ← record_coordination_event (resume_refused t r now);
       mret (Some r)).
End reads.

(** ** The counts are exact *)
Section counts.
Context `{Env}.

Lemma slices_concat fuel size ids : (0 < size)%nat -> (length ids <= fuel)%nat -> concat (slices fuel size ids) = ids.
Proof.
  intros Hs. revert ids. induction fuel as [|fuel IH]; intros [|x ids] Hl; cbn; try done; [cbn in Hl; lia|].
  destruct size as [|size]; [lia|]. cbn in *. f_equal. rewrite IH by (rewrite length_drop; lia). by rewrite take_drop.
Qed.

Lemma chunks_concat ids : concat (chunks ids) = ids.
Proof. apply slices_concat; lia. Qed.

(** Counting a disjunction of exclusive conditions. *)
Lemma filter_split {A} (p q r : A -> bool) l :
  (forall x, r x = p x || q x) -> (forall x, p x && q x = false) ->
  length (filter (fun x => r x) l) = (length (filter (fun x => p x) l) + length (filter (fun x => q x) l))%nat.
Proof.
  intros Hr Hd. induction l as [|x l IH]; [done|]. rewrite !filter_cons. specialize (Hr x). specialize (Hd x).
  destruct (p x), (q x); rewrite Hr; cbn in *; repeat case_decide; cbn; try done; try lia.
Qed.

Lemma count_app run s l1 l2 d :
  NoDup (l1 ++ l2) ->
  count_where (in_set run s (l1 ++ l2)) d = (count_where (in_set run s l1) d + count_where (in_set run s l2) d)%nat.
Proof.
  intros (_ & Hd & _)%NoDup_app. apply filter_split; intros [x i]; unfold in_set; cbn.
  - rewrite (bool_decide_ext (x ∈ l1 ++ l2) (x ∈ l1 \/ x ∈ l2)) by apply elem_of_app. rewrite bool_decide_or.
    by destruct (in_run run i), (bool_decide (x ∈ l1)), (bool_decide (x ∈ l2)), (wi_status i == s).
  - destruct (bool_decide_reflect (x ∈ l1)) as [H1|], (bool_decide_reflect (x ∈ l2)) as [H2|]; [by apply Hd in H1|..];
      by destruct (in_run run i), (wi_status i == s).
Qed.

Lemma count_chunks run s cs n d :
  NoDup (concat cs) ->
  foldl (fun total chunk => (total + count_where (in_set run s chunk) d)%nat) n cs
    = (n + count_where (in_set run s (concat cs)) d)%nat.
Proof.
  revert n. induction cs as [|c cs IH]; intros n Hnd; cbn in *.
  - unfold count_where. induction (map_to_list (items d)) as [|e l IH]; [cbn; lia|]. rewrite filter_cons.
    rewrite decide_False; [done|]. unfold in_set. rewrite bool_decide_eq_false_2 by apply not_elem_of_nil.
    rewrite andb_false_r. auto.
  - pose proof Hnd as (_ & _ & Hnd')%NoDup_app. rewrite IH, (count_app run s c) by done. lia.
Qed.

Lemma chunked_exists {A B} (p : A -> bool) (f : A -> B) `{!EqDecision B} (l : list A) cs :
  existsb (fun chunk => existsb (fun e => p e && bool_decide (f e ∈ chunk)) l) cs
    = existsb (fun e => p e && bool_decide (f e ∈ concat cs)) l.
Proof.
  apply eq_true_iff_eq. rewrite !existsb_exists. split.
  - intros (c & Hc & (e & He & Hp)%existsb_exists). exists e. split; [done|]. bool_facts. rewrite andb_true_iff, bool_decide_eq_true.
    split; [done|]. apply list_elem_of_In, in_concat. exists c. split; [done|by apply list_elem_of_In].
  - intros (e & He & Hp). bool_facts. match goal with Hx : _ ∈ concat cs |- _ => apply list_elem_of_In, in_concat in Hx as (c & Hc & Hx) end.
    exists c. split; [done|]. apply existsb_exists. exists e. split; [done|]. rewrite andb_true_iff, bool_decide_eq_true.
    by rewrite list_elem_of_In.
Qed.

(** A count is zero when nothing satisfies the condition. *)
Lemma count_zero p d : count_where p d = 0%nat -> forall id i, items d !! id = Some i -> p (id, i) = false.
Proof.
  unfold count_where. intros Hz%length_zero_iff_nil id i Hi. apply not_true_iff_false. intros Hp.
  assert ((id, i) ∈ filter (fun e => p e) (map_to_list (items d))) as Hx.
  { apply list_elem_of_filter. split; [by apply Is_true_true|by apply elem_of_map_to_list]. }
  rewrite Hz in Hx. by apply not_elem_of_nil in Hx.
Qed.
End counts.

(** The chunked reads are exact: for a set of work item ids of any size,
    without repetitions, the READY and FAILED counts that are added up over
    slices of 900 ids are the counts of one query over the whole set, and the
    peer-ownership probe is the probe over the whole set. *)
Theorem chunked_reads_exact `{Env} run ids caller en :
  NoDup ids ->
  (count_ready_in_set run ids en).1 = Ok (count_where (in_set run READY ids) (e_db en)) /\
  (count_failed_in_set run ids en).1 = Ok (count_where (in_set run WORK_FAILED ids) (e_db en)) /\
  (has_peer_owned_work run caller (Some ids) en).1
    = Ok (existsb (fun e => peer_owned run caller e && bool_decide (e.1 ∈ ids)) (map_to_list (items (e_db en)))).
Proof.
  intros Hnd.
  assert (forall s, count_in_chunks run s ids (e_db en) = count_where (in_set run s ids) (e_db en)) as Hc.
  { intros s. unfold count_in_chunks. by rewrite count_chunks, chunks_concat by (by rewrite chunks_concat). }
  unfold count_ready_in_set, count_failed_in_set, has_peer_owned_work. cbn. rewrite !Hc.
  assert (ids = [] -> existsb (fun e => peer_owned run caller e && bool_decide (e.1 ∈ ids)) (map_to_list (items (e_db en))) = false) as Hnil.
  { intros ->. apply not_true_iff_false. intros (e & _ & Hp)%existsb_exists. bool_facts. by eapply not_elem_of_nil. }
  case_bool_decide as Hids; cbn.
  - rewrite Hnil by done. rewrite <- !(Hc _). by subst ids.
  - split_and!; [done..|]. destruct ids as [|x ids]; [done|]. by rewrite chunked_exists, chunks_concat.
Qed.

(** A quiescent run is still: while the count of unquiesced work of a run
    is zero, no member can claim any of its rows and no disposition of a leased
    row returns, whoever calls; and what is still open in the run is held at a
    barrier or a queue, or is on its way through a sink. *)
Theorem quiescent_run_is_still `{Env} run en en1 :
  count_unquiesced_work run en = (Ok 0%nat, en1) ->
  (forall m owner lease r en2, m_run_id m = run -> claim_ready m owner lease en = (Ok r, en2) -> r = None) /\
  (forall m id owner im losses rb, m_run_id m = run -> exists e, (transition m id owner im losses rb en).1 = Err e) /\
  (forall id i, items (e_db en) !! id = Some i -> in_run run i = true -> active_status (wi_status i) = true ->
     wi_status i = BLOCKED \/ wi_status i = PENDING_SINK \/ wi_status i = LEASED /\ is_some (b_sink_name (wi_bundle i)) = true).
Proof.
  intros [= Hz _]. pose proof (count_zero _ _ Hz) as Hno. clear Hz. cbn beta in Hno.
  assert (forall id i, items (e_db en) !! id = Some i -> in_run run i = true -> unquiesced_work_predicate i = false) as Hq.
  { intros id i Hi Hr. specialize (Hno id i Hi). cbn in Hno. by rewrite Hr in Hno. }
  split_and!.
  - intros m owner lease r en2 <-. unfold claim_ready. case_match; [done|]. intros (c & Hb & _)%member_body. inv_txn. cbn in Hb.
    destruct (head _) as [[id i]|] eqn:Eh; [|by inv_txn]. apply select_head in Eh as [Hi Hp]. cbn in Hi. bool_facts.
    specialize (Hq id i Hi). unfold unquiesced_work_predicate in Hq. rewrite bool_decide_eq_true_2 in Hq by done. by apply Hq in H1.
  - intros m id owner im losses rb <-. destruct (transition _ _ _ _ _ _ _) as [[[id' i']|e] en2] eqn:E; [|by exists e].
    apply transition_ok in E as (i & _ & Hi & Hr & Hs & _ & Hb & _). specialize (Hq id i Hi).
    unfold unquiesced_work_predicate, leased_before_sink, in_run in Hq. rewrite Hs, Hb in Hq.
    rewrite Hr, !bool_decide_eq_true_2 in Hq by done. by specialize (Hq eq_refl).
  - intros id i Hi Hr Ha. specialize (Hq id i Hi Hr). unfold unquiesced_work_predicate, leased_before_sink in Hq.
    destruct (wi_status i); try done; auto. right. right. by destruct (b_sink_name (wi_bundle i)).
Qed.

(** ** Resume *)
Section resume.
Context `{Env}.

(** The ways in which a token is accounted for, read off the tables: it has a
    completed outcome, or was abandoned, or some work item of it is READY,
    LEASED, BLOCKED or PENDING_SINK, or one of its parents has a work item that
    is READY, LEASED or BLOCKED and so is still to emit it. *)
Inductive accounted_for (d : landscape) (run x : string) : Prop :=
| accounted_decided : (run, x) ∈ decided_tokens (lineage d) -> accounted_for d run x
| accounted_abandoned : (run, x) ∈ abandoned_tokens (lineage d) -> accounted_for d run x
| accounted_open id i : items d !! id = Some i -> k_run_id (wi_key i) = run -> k_token_id (wi_key i) = x ->
    wi_status i ∈ [READY; LEASED; BLOCKED; PENDING_SINK] -> accounted_for d run x
| accounted_producer p id i : (run, x, p) ∈ token_parents (lineage d) -> items d !! id = Some i -> k_run_id (wi_key i) = run ->
    k_token_id (wi_key i) = p -> wi_status i ∈ [READY; LEASED; BLOCKED] -> accounted_for d run x.

Definition is_token (d : landscape) (run x : string) : Prop := is_Some (token_rows (lineage d) !! (run, x)).

Lemma has_item_iff d run x p :
  has_item d run x p = true <-> exists id i, items d !! id = Some i /\ k_run_id (wi_key i) = run /\ k_token_id (wi_key i) = x /\ p (wi_status i) = true.
Proof.
  unfold has_item, in_run. rewrite existsb_exists. split.
  - intros ([id i] & Hin%list_elem_of_In%elem_of_map_to_list & Hp). cbn in Hp. bool_facts. by exists id, i.
  - intros (id & i & Hi & Hr & Hx & Hp). exists (id, i). split; [by apply list_elem_of_In, elem_of_map_to_list|]. cbn.
    by rewrite !bool_decide_eq_true_2, Hp.
Qed.

Lemma producer_open_iff d run x :
  producer_open d run x = true <->
  exists p, (run, x, p) ∈ token_parents (lineage d) /\ has_item d run p (fun s => (s == READY) || (s == LEASED) || (s == BLOCKED)) = true.
Proof.
  unfold producer_open. rewrite existsb_exists. split.
  - intros ([[r y] p] & Hin%list_elem_of_In%elem_of_elements & Hp). cbn in Hp. bool_facts. subst. by exists p.
  - intros (p & Hin & Hp). exists (run, x, p). split; [by apply list_elem_of_In, elem_of_elements|]. cbn. by rewrite !bool_decide_eq_true_2, Hp.
Qed.

(** The filter of the query lets through exactly the tokens that are not. *)
Lemma accounted_iff d run x :
  decided_or_abandoned d run x || covered d run x || producer_open d run x = true <-> accounted_for d run x.
Proof.
  unfold decided_or_abandoned, covered. rewrite !orb_true_iff, !bool_decide_eq_true, producer_open_iff. setoid_rewrite has_item_iff. split.
  - intros [[[?|?]|(id & i & Hi & Hr & Hx & Hs)]|(p & Hp & id & i & Hi & Hr & Hx & Hs)]; [by apply accounted_decided|by apply accounted_abandoned|..].
    + apply (accounted_open d run x id i); [done..|]. destruct (wi_status i); done || set_solver.
    + apply (accounted_producer d run x p id i); [done..|]. destruct (wi_status i); done || set_solver.
  - intros [?|?|id i Hi Hr Hx Hs|p id i Hp Hi Hr Hx Hs]; [by left; left; left|by left; left; right|left; right|right].
    + exists id, i. split_and!; [done..|]. destruct (wi_status i); done || (exfalso; set_solver).
    + exists p. split; [done|]. exists id, i. split_and!; [done..|]. destruct (wi_status i); done || (exfalso; set_solver).
Qed.

Lemma uncovered_elem d run x : x ∈ uncovered d run <-> is_token d run x /\ ~ accounted_for d run x.
Proof.
  rewrite <- accounted_iff, not_true_iff_false. unfold uncovered, is_token. rewrite sort_by_perm, list_elem_of_fmap. split.
  - intros ([[r y] row] & -> & [Hp Hin%elem_of_map_to_list]%list_elem_of_filter). apply Is_true_true in Hp. cbn in *. bool_facts.
    subst r. split; [by exists row|]. by rewrite !orb_false_iff.
  - intros [[row Hrow] Ha]. bool_facts. exists ((run, x), row). split; [done|]. apply list_elem_of_filter.
    split; [|by apply elem_of_map_to_list]. apply Is_true_true. cbn.
    rewrite !andb_true_iff, !negb_true_iff, bool_decide_eq_true. done.
Qed.

Lemma uncovered_sorted d run : StronglySorted (fun a b => String.leb a b = true) (uncovered d run).
Proof. apply sort_by_sorted; [apply String.leb_total|apply string_leb_trans]. Qed.

Lemma uncovered_nodup d run : NoDup (uncovered d run).
Proof.
  unfold uncovered. rewrite sort_by_perm.
  pose proof (NoDup_fst_map_to_list (token_rows (lineage d))) as Hnd.
  induction (map_to_list (token_rows (lineage d))) as [|[[r y] row] l IH]; [constructor|]. cbn in Hnd.
  apply NoDup_cons in Hnd as [Hnin Hnd]. rewrite filter_cons. case_decide as Hp; [|auto]. cbn [map]. constructor; [|auto].
  intros ([[r' y'] row'] & Heq & [Hp' Hin]%list_elem_of_filter)%list_elem_of_fmap. cbn in Heq. subst y'.
  apply Is_true_true in Hp, Hp'. cbn in Hp, Hp'. bool_facts. subst. apply Hnin. by apply (list_elem_of_fmap_2 fst _ (run, y, row')).
Qed.

Lemma sorted_take n l : StronglySorted (fun a b => String.leb a b = true) l -> StronglySorted (fun a b => String.leb a b = true) (take n l).
Proof.
  revert n. induction l as [|x l IH]; intros [|n] Hs; cbn; try constructor; apply StronglySorted_inv in Hs as [Hs Hf]; auto.
  apply Forall_take, Hf.
Qed.

Lemma sorted_dups l :
  StronglySorted (fun a b => String.leb a b = true) l -> NoDup l -> sort_by String.leb (remove_dups l) = l.
Proof.
  intros Hs Hnd. apply (sorted_perm_eq String.leb); [apply String.leb_total|apply string_leb_trans|apply String.leb_antisym|..].
  - apply sort_by_sorted; [apply String.leb_total|apply string_leb_trans].
  - done.
  - rewrite sort_by_perm. apply NoDup_Permutation; [apply NoDup_remove_dups|done|]. intros x. apply elem_of_remove_dups.
Qed.

(** The refusal always passes its own checks: whatever tokens are
    unaccounted for, as long as no token has an empty id, the count and the
    first ten ids that the query yields are accepted by the constructor of
    [ResumeCoverageRefusal]. *)
Theorem resume_refusal_well_formed d run :
  uncovered d run <> [] -> ~ is_token d run "" ->
  resume_coverage_refusal (length (uncovered d run)) (take RESUME_REFUSAL_TOKEN_ID_LIMIT (uncovered d run))
    = Ok (mkRefusal (length (uncovered d run)) (take RESUME_REFUSAL_TOKEN_ID_LIMIT (uncovered d run))).
Proof.
  intros Hne Hempty. unfold resume_coverage_refusal. pose proof (uncovered_sorted d run) as Hs. pose proof (uncovered_nodup d run) as Hnd.
  assert (forall x, x ∈ uncovered d run -> x <> "") as Hx by (intros x [Ht _]%uncovered_elem ->; done).
  generalize dependent (uncovered d run). intros l Hne Hs Hnd Hx.
  destruct (Nat.ltb_spec (length l) 1) as [Hl|_]; [destruct l; cbn in Hl; [done|lia]|].
  assert (existsb (fun x => x == "") (take RESUME_REFUSAL_TOKEN_ID_LIMIT l) = false) as ->.
  { apply not_true_iff_false. intros (x & Hin & He)%existsb_exists. bool_facts. apply list_elem_of_In in Hin.
    apply elem_of_take in Hin as (k & Hk & _). by eapply Hx, He; apply list_elem_of_lookup; eauto. }
  rewrite length_take, Nat.min_comm, Nat.eqb_refl. cbn [negb].
  rewrite sorted_dups by (eauto using sorted_take, sublist_NoDup, sublist_take). by rewrite bool_decide_eq_true_2.
Qed.

(** A check that returns. *)
Lemma coverage_ok t en r en' :
  verify_resume_coverage t en = (Ok r, en') ->
  quiet (e_db en) (e_db en') /\ lineage (e_db en') = lineage (e_db en) /\
  let missing := uncovered (e_db en) (tk_run_id t) in
  match r with
  | None => missing = [] /\ events (e_db en') = events (e_db en)
  | Some ref => missing <> [] /\ ref = mkRefusal (length missing) (take RESUME_REFUSAL_TOKEN_ID_LIMIT missing) /\
      exists now, events (e_db en') = events (e_db en) ++ [resume_refused t ref now]
  end.
Proof.
  intros (c & c' & Hq & _ & [Hl He] & Hb & Hq' & Hl' & He')%leader_body_lineage.
  assert (uncovered (c_db c) (tk_run_id t) = uncovered (e_db en) (tk_run_id t)) as Hu.
  { destruct Hq as [Hi _]. unfold uncovered, decided_or_abandoned, covered, producer_open, has_item. by rewrite Hl, Hi. }
  rewrite Hl', He', <- Hl, <- He. rewrite <- Hu. clear Hu.
  apply txn_bind_ok in Hb as (missing & c1 & [= <- <-] & Hb). cbv zeta.
  destruct (bool_decide_reflect (length (uncovered (c_db c) (tk_run_id t)) = 0%nat)) as [Hz|Hnz].
  - injection Hb as <- <-. split_and!; [by etrans|done|by apply length_zero_iff_nil|done].
  - apply txn_bind_ok in Hb as (ref & c2 & [= Hr <-] & Hb). apply txn_bind_ok in Hb as (now & c3 & [= <- <-] & Hb).
    apply txn_bind_ok in Hb as (u & c4 & Hrec & [= <- <-]). unfold record_coordination_event in Hrec.
    do 2 (case_match; [done|]). injection Hrec as _ <-. cbn in *.
    split_and!; [etrans; [exact Hq|]; by etrans|done|by intros Hn; rewrite Hn in Hnz| |by eexists].
    unfold resume_coverage_refusal in Hr. by inv_ok.
Qed.
End resume.

(** C30. Resume starts only when every token is accounted for, and names the
    others: a coverage check that returns changes neither the queue nor the
    lineage.  It returns no refusal exactly when every token of the run is
    accounted for in the tables: has a completed outcome or was abandoned, has a
    work item that is READY, LEASED, BLOCKED or PENDING_SINK, or has a parent
    with a work item that is READY, LEASED or BLOCKED; it then records nothing.
    Otherwise the refusal counts the unaccounted tokens,
    lists the first ten of them in order, and is recorded as one event. *)
Theorem resume_coverage_exact `{Env} t en r en' :
  verify_resume_coverage t en = (Ok r, en') ->
  quiet (e_db en) (e_db en') /\ lineage (e_db en') = lineage (e_db en) /\
  match r with
  | None => events (e_db en') = events (e_db en) /\
      forall x, is_token (e_db en) (tk_run_id t) x -> accounted_for (e_db en) (tk_run_id t) x
  | Some ref =>
      exists missing now, missing <> [] /\ NoDup missing /\ StronglySorted (fun a b => String.leb a b = true) missing /\
        (forall x, x ∈ missing <-> is_token (e_db en) (tk_run_id t) x /\ ~ accounted_for (e_db en) (tk_run_id t) x) /\
        ref = mkRefusal (length missing) (take 10 missing) /\
        events (e_db en') = events (e_db en) ++ [resume_refused t ref now]
  end.
Proof.
  intros (Hq & Hl & Hr)%coverage_ok. split_and!; [done..|]. cbv zeta in Hr. destruct r as [ref|].
  - destruct Hr as (Hne & -> & now & He). exists (uncovered (e_db en) (tk_run_id t)), now.
    split_and!; [done|apply uncovered_nodup|apply uncovered_sorted|intros x; apply uncovered_elem|done|done].
  - destruct Hr as [Hnil He]. split; [done|]. intros x Hx. apply accounted_iff, not_false_iff_true. intros Ha%not_true_iff_false.
    rewrite accounted_iff in Ha. assert (x ∈ uncovered (e_db en) (tk_run_id t)) as Hin by (by apply uncovered_elem). rewrite Hnil in Hin.
    by apply not_elem_of_nil in Hin.
Qed.

(** ** A concrete run *)
Import SchedulerExample.

(** Both tokens held at the barrier; and a run whose second token has no work. *)
Definition second : string := work_item_id "r" "t2" (Some "n") 0.
Definition park (id : string) (en : engine) : engine := (mark_blocked follower id None (Some "b") (RowJson "{}") "f" en).2.
Definition parked : engine := park second (claim_ready follower "f" lease (park item claimed)).2.
Definition half : engine := enqueue "t1" ready.

Lemma chunked_reads_exact_witness :
  (count_ready_in_set "r" [item; second] queued).1 = Ok 2%nat /\
  (count_ready_in_set "r" [item; second] queued).1 = Ok (count_where (in_set "r" READY [item; second]) (e_db queued)).
Proof.
  split; [vm_compute; reflexivity|]. apply (chunked_reads_exact "r" [item; second] "f" queued).
  repeat constructor; rewrite ?elem_of_cons, elem_of_nil; [intros [Hx|[]]; by apply (f_equal (String.eqb second)) in Hx|tauto].
Defined.

Lemma quiescent_run_is_still_witness :
  (wi_status <$> items (e_db parked) !! second) = Some BLOCKED /\
  forall m owner lease r en2, m_run_id m = "r" -> claim_ready m owner lease parked = (Ok r, en2) -> r = None.
Proof.
  split; [vm_compute; reflexivity|]. refine (proj1 (quiescent_run_is_still "r" parked _ (CoordinationExample.by_first _ _ _))).
  vm_compute. reflexivity.
Defined.

Lemma resume_coverage_exact_witness :
  (verify_resume_coverage SchedulerExample.leader parked).1 = Ok None /\
  (forall x, is_token (e_db parked) "r" x -> accounted_for (e_db parked) "r" x) /\
  (verify_resume_coverage SchedulerExample.leader half).1 = Ok (Some (mkRefusal 1 ["t2"])).
Proof.
  split_and!; [vm_compute; reflexivity| |vm_compute; reflexivity].
  refine (proj2 (proj2 (proj2 (resume_coverage_exact SchedulerExample.leader parked None _ (CoordinationExample.by_first _ _ _))))).
  vm_compute. reflexivity.
Defined.

Lemma resume_refusal_well_formed_witness :
  resume_coverage_refusal 1 ["t2"] = Ok (mkRefusal 1 ["t2"]).
Proof.
  refine (resume_refusal_well_formed (e_db half) "r" _ _); [vm_compute; discriminate|]. intros [row Hrow].
  vm_compute in Hrow. discriminate.
Defined.
