(* ===== verification/Expressions.v ===== *)
(** * Expressions: the expression language of gates and transforms

    [core/expression_parser.py]: the security validator over Python's AST, the
    evaluator, and the static questions that configuration asks of an
    expression.  The AST is an inductive type with the node classes of [ast];
    parsing a string into it is Python's.  Values are Python's scalars and
    containers; what the evaluator defers to Python (arithmetic, comparison,
    item access, string methods) is the class [PyOps], whose operations answer
    or raise. *)

From Stdlib Require Import QArith Qabs.
From S2P Require Import Prelude.
Open Scope Z_scope.

(** ** Values *)

(** Floats, as far as the code looks at them. *)
Class Floats := {
  float : Type;
  isfinite : float -> bool;
  is_zero : float -> bool;
}.

(** [VRow] is the dict that the caller passed as the row; [VBuiltin] and [VGet]
    are the functions that a name or [name.get] denotes; [VOther] is a value of
    a constant that the validator refuses. *)
Inductive value `{Floats} :=
  | VNone
  | VBool (b : bool)
  | VInt (n : Z)
  | VFloat (f : float)
  | VStr (s : string)
  | VList (l : list value)
  | VTuple (l : list value)
  | VDict (l : list (value * value))
  | VSet (l : list value)
  | VRow (fields : list (string * value))
  | VBuiltin (name : string)
  | VGet (receiver : value)
  | VOther.

(** ** Syntax *)
Inductive constant `{Floats} :=
  | CNone | CBool (b : bool) | CInt (n : Z) | CFloat (f : float) | CStr (s : string) | CComplex | CBytes | CEllipsis.

Inductive cmpop := CmpEq | CmpNotEq | CmpLt | CmpLtE | CmpGt | CmpGtE | CmpIs | CmpIsNot | CmpIn | CmpNotIn.
Inductive boolop := And | Or.
(** Binary operators outside [_BINARY_OPS] are [OtherOp]. *)
Inductive operator := Add | Sub | Mult | Div | FloorDiv | Mod | OtherOp (name : string).
Inductive unaryop := Not | USub | UAdd | Invert.

#[export] Instance cmpop_eq_dec : EqDecision cmpop.
Proof. solve_decision. Defined.
#[export] Instance operator_eq_dec : EqDecision operator.
Proof. solve_decision. Defined.

(** [_FORBIDDEN_EXPR_TYPES] other than [Slice]. *)
Inductive forbidden_type :=
  | Lambda | ListComp | DictComp | SetComp | GeneratorExp | Await | Yield | YieldFrom | NamedExpr | JoinedStr
  | FormattedValue | Starred.

(** [ast.expr].  A dict item without a key is a spread; a keyword argument
    without a name is one too.  [Unsupported] is a node class that the parser
    does not know. *)
Inductive expr `{Floats} :=
  | Name (id : string)
  | Subscript (v slice : expr)
  | Slice (parts : list expr)
  | Attribute (v : expr) (attr : string)
  | Call (func : expr) (args : list expr) (keywords : list (option string * expr))
  | Compare (lhs : expr) (rest : list (cmpop * expr))
  | BoolOp (op : boolop) (vs : list expr)
  | BinOp (lhs : expr) (op : operator) (rhs : expr)
  | UnaryOp (op : unaryop) (operand : expr)
  | Constant (c : constant)
  | ListE (elts : list expr)
  | DictE (items : list (option expr * expr))
  | TupleE (elts : list expr)
  | SetE (elts : list expr)
  | IfExp (test body orelse : expr)
  | Forbidden (t : forbidden_type) (children : list expr)
  | Unsupported (name : string) (children : list expr).

(** The expressions directly below a node, in the order of its fields. *)
Definition subexprs `{Floats} (e : expr) : list expr :=
  match e with
  | Name _ | Constant _ => []
  | Subscript v k => [v; k]
  | Attribute v _ => [v]
  | Call f args kws => f :: args ++ map snd kws
  | Compare l rest => l :: map snd rest
  | BoolOp _ vs => vs
  | BinOp l _ r => [l; r]
  | UnaryOp _ x => [x]
  | ListE l | TupleE l | SetE l | Slice l | Forbidden _ l | Unsupported _ l => l
  | DictE items => omap fst items ++ map snd items
  | IfExp t b o => [t; b; o]
  end.

(** ** Tables *)
Definition SAFE_BUILTIN_ARITIES : list (string * (nat * nat)) :=
  [("len", (1, 1)); ("abs", (1, 1)); ("lower", (1, 1)); ("upper", (1, 1)); ("strip", (1, 2)); ("casefold", (1, 1));
   ("starts_with", (2, 2)); ("word_count", (1, 1)); ("decimal_within", (3, 3))]%nat.

Definition SAFE_BUILTINS : list string := SAFE_BUILTIN_ARITIES.*1.
Definition SAFE_CONSTANTS : list string := ["True"; "False"; "None"].
Definition ALWAYS_NUMERIC_BUILTINS : list string := ["len"; "abs"; "word_count"].
Definition ALWAYS_BOOLEAN_BUILTINS : list string := ["starts_with"; "decimal_within"].

Definition mem (x : string) (l : list string) : bool := bool_decide (x ∈ l).

Definition is_binary_op (op : operator) : bool := match op with OtherOp _ => false | _ => true end.
Definition is_unary_op (op : unaryop) : bool := match op with Invert => false | _ => true end.

Definition arity_ok (id : string) (n : nat) : bool :=
  match dict_get SAFE_BUILTIN_ARITIES id with
  | Some (minimum, maximum) => (minimum <=? n)%nat && (n <=? maximum)%nat
  | None => true
  end.

(** ** The validator *)
Section validator.
Context `{Floats} (names : list string).

(** [_is_none_constant]. *)
Definition is_none_constant (e : expr) : bool := match e with Constant CNone => true | _ => false end.

(** [name.get] of an allowed name. *)
Definition is_get (f : expr) : bool :=
  match f with Attribute (Name id) attr => mem id names && (attr == "get") | _ => false end.

(** [_is_allowed_derived]. *)
Fixpoint is_allowed_derived (e : expr) : bool :=
  match e with
  | Name id => mem id names
  | Subscript v _ => is_allowed_derived v
  | Call f _ _ => is_get f
  | _ => false
  end.

Definition errors_if (b : bool) (e : string) : list string := if b then [e] else [].

(** The operators of a comparison chain against their operands. *)
Fixpoint compare_errors (lhs : expr) (rest : list (cmpop * expr)) : list string :=
  match rest with
  | [] => []
  | (op, rhs) :: rest =>
      errors_if (((op == CmpIs) || (op == CmpIsNot)) && negb (is_none_constant lhs || is_none_constant rhs))
        "'is' and 'is not' operators are only allowed for None checks"
      ++ compare_errors rhs rest
  end.

Definition constant_errors (c : constant) : list string :=
  match c with
  | CFloat f => errors_if (negb (isfinite f)) "Non-finite float literal is forbidden in expressions"
  | CComplex | CBytes | CEllipsis => ["Forbidden constant type"]
  | _ => []
  end.

Definition forbidden_error (t : forbidden_type) : string :=
  match t with
  | Lambda => "Lambda expressions are forbidden"
  | ListComp => "List comprehensions are forbidden"
  | DictComp => "Dict comprehensions are forbidden"
  | SetComp => "Set comprehensions are forbidden"
  | GeneratorExp => "Generator expressions are forbidden"
  | Await => "Await expressions are forbidden"
  | Yield => "Yield expressions are forbidden"
  | YieldFrom => "Yield from expressions are forbidden"
  | NamedExpr => "Assignment expressions (:=) are forbidden"
  | JoinedStr => "F-strings are forbidden"
  | FormattedValue => "F-string expressions are forbidden"
  | Starred => "Starred expressions (*) are forbidden"
  end.

(** [visit]: the errors that a visit appends.  [allow] and [builtin] say whether
    the counters [_allow_allowed_name_reference] and
    [_allow_safe_builtin_reference] are positive, [in_call] is
    [_in_call_func]; the counters are raised around a child and lowered again. *)
Fixpoint validate (allow builtin in_call : bool) (e : expr) : list string :=
  match e with
  | Name id =>
      if mem id SAFE_CONSTANTS then []
      else if mem id SAFE_BUILTINS then errors_if (negb builtin) "Bare builtin name"
      else if mem id names then errors_if (negb allow) "Bare allowed name"
      else ["Forbidden name"]
  | Subscript v slice =>
      errors_if (match slice with Slice _ => true | _ => false end) "Slice syntax (e.g., [1:3]) is forbidden"
      ++ errors_if (negb (is_allowed_derived v)) "Subscript access is only allowed on allowed names"
      ++ validate true builtin in_call v ++ validate allow builtin in_call slice
  | Slice _ => ["Slice syntax (e.g., [1:3]) is forbidden"]
  | Attribute v attr =>
      if match v with Name id => mem id names | _ => false end then
        validate true builtin in_call v
        ++ (if negb (attr == "get") then ["Forbidden attribute"] else errors_if (negb in_call) "Bare get is forbidden")
      else "Forbidden attribute access" :: validate allow builtin in_call v
  | Call func args keywords =>
      if is_get func then
        errors_if (negb (length args =? 1)%nat) "get() requires exactly 1 argument (key only)"
        ++ errors_if (negb (length keywords =? 0)%nat) "get() does not accept keyword arguments"
        ++ validate allow builtin true func ++ flat_map (fun a => validate allow builtin false a) args
      else if match func with Name id => mem id SAFE_BUILTINS | _ => false end then
        errors_if (negb (length keywords =? 0)%nat) "builtin does not accept keyword arguments"
        ++ errors_if (negb (match func with Name id => arity_ok id (length args) | _ => true end)) "builtin requires other arguments"
        ++ validate allow true in_call func ++ flat_map (fun a => validate allow builtin in_call a) args
      else
        "Forbidden function call" :: validate allow builtin in_call func
        ++ flat_map (fun a => validate allow builtin in_call a) args
        ++ flat_map (fun kw => validate allow builtin in_call kw.2) keywords
  | Compare lhs rest =>
      compare_errors lhs rest ++ validate allow builtin in_call lhs
      ++ flat_map (fun r => validate allow builtin in_call r.2) rest
  | BoolOp _ vs => flat_map (fun v => validate allow builtin in_call v) vs
  | BinOp l op r =>
      errors_if (negb (is_binary_op op)) "Forbidden binary operator"
      ++ validate allow builtin in_call l ++ validate allow builtin in_call r
  | UnaryOp op x => errors_if (negb (is_unary_op op)) "Forbidden unary operator" ++ validate allow builtin in_call x
  | Constant c => constant_errors c
  | ListE l | TupleE l | SetE l => flat_map (fun x => validate allow builtin in_call x) l
  | DictE items =>
      flat_map (fun kv => errors_if (is_none kv.1) "Dict spread (**) is forbidden") items
      ++ flat_map (fun kv => match kv.1 with Some k => validate allow builtin in_call k | None => [] end) items
      ++ flat_map (fun kv => validate allow builtin in_call kv.2) items
  | IfExp t b o => validate allow builtin in_call t ++ validate allow builtin in_call b ++ validate allow builtin in_call o
  | Forbidden t _ => [forbidden_error t]
  | Unsupported _ _ => ["Unsupported expression construct"]
  end.
End validator.

(** ** What the evaluator takes from Python *)

(** The exceptions of Python's operations; [PyCrash] stands for the classes
    that [evaluate] lets through as programming errors, apart from TypeError and
    KeyError. *)
Inductive py_exc :=
  | PyTypeError | PyKeyError | PyIndexError | PyZeroDivisionError | PyOverflowError | PyValueError | PyCrash | PyOther.

Inductive pyres (A : Type) := Return (a : A) | Throw (x : py_exc).
Arguments Return {A} a.
Arguments Throw {A} x.

(** Arithmetic, comparison, item access to sequences, the string and numeric
    builtins, equality of dict keys, the words of a string and the fraction
    that the shortest decimal of a finite float denotes. *)
Class PyOps `{Floats} := {
  py_binop : operator -> value -> value -> pyres value;
  py_compare : cmpop -> value -> value -> pyres bool;
  py_neg : value -> pyres value;
  py_pos : value -> pyres value;
  py_getitem : value -> value -> pyres value;
  py_call : string -> list value -> pyres value;
  py_same_key : value -> value -> bool;
  py_words : string -> nat;
  py_decimal : float -> Q;
}.

Section python.
Context `{PyOps}.

(** [bool(value)]. *)
Definition truth (v : value) : bool :=
  match v with
  | VNone => false
  | VBool b => b
  | VInt n => negb (n =? 0)
  | VFloat f => negb (is_zero f)
  | VStr s => negb (s == "")
  | VList l | VTuple l | VSet l => negb (length l =? 0)%nat
  | VDict l => negb (length l =? 0)%nat
  | VRow l => negb (length l =? 0)%nat
  | VBuiltin _ | VGet _ | VOther => true
  end.

Fixpoint hashable (v : value) : bool :=
  match v with
  | VList _ | VDict _ | VSet _ | VRow _ => false
  | VTuple l => forallb hashable l
  | VGet r => true
  | _ => true
  end.

(** Item access and [get] of the row, whose keys are strings, and of a dict. *)
Definition row_lookup (fields : list (string * value)) (k : value) : pyres (option value) :=
  match k with
  | VStr s => Return (dict_get fields s)
  | _ => if hashable k then Return None else Throw PyTypeError
  end.

Definition dict_lookup (l : list (value * value)) (k : value) : pyres (option value) :=
  if hashable k then Return (snd <$> list_find (fun kv => py_same_key kv.1 k = true) l ≫= fun x => Some x.2)
  else Throw PyTypeError.

Definition or_key_error (r : pyres (option value)) : pyres value :=
  match r with
  | Return (Some v) => Return v
  | Return None => Throw PyKeyError
  | Throw x => Throw x
  end.

Definition or_none (r : pyres (option value)) : pyres value :=
  match r with
  | Return o => Return (default VNone o)
  | Throw x => Throw x
  end.

Definition getitem (v k : value) : pyres value :=
  match v with
  | VRow fields => or_key_error (row_lookup fields k)
  | VDict l => or_key_error (dict_lookup l k)
  | _ => py_getitem v k
  end.

(** [_starts_with], [_word_count], [_numeric_decimal_fraction] and [_decimal_within]. *)
Definition starts_with (v p : value) : pyres value :=
  match v, p with
  | VStr v, VStr p => Return (VBool (String.prefix p v))
  | _, _ => Throw PyTypeError
  end.

Definition word_count (v : value) : pyres value :=
  match v with VStr s => Return (VInt (Z.of_nat (py_words s))) | _ => Throw PyTypeError end.

Definition numeric_decimal_fraction (v : value) : pyres Q :=
  match v with
  | VInt n => Return (inject_Z n)
  | VFloat f => if isfinite f then Return (py_decimal f) else Throw PyValueError
  | _ => Throw PyTypeError
  end.

Definition decimal_within (l r t : value) : pyres value :=
  match numeric_decimal_fraction l with
  | Throw x => Throw x
  | Return lv =>
      match numeric_decimal_fraction r with
      | Throw x => Throw x
      | Return rv =>
          match numeric_decimal_fraction t with
          | Throw x => Throw x
          | Return bound =>
              if negb (Qle_bool 0 bound) then Throw PyValueError else Return (VBool (Qle_bool (Qabs (lv - rv)) bound))
          end
      end
  end.

(** [func( *args)]. *)
Definition call (f : value) (args : list value) : pyres value :=
  match f with
  | VBuiltin "starts_with" => match args with [v; p] => starts_with v p | _ => Throw PyTypeError end
  | VBuiltin "word_count" => match args with [v] => word_count v | _ => Throw PyTypeError end
  | VBuiltin "decimal_within" => match args with [l; r; t] => decimal_within l r t | _ => Throw PyTypeError end
  | VBuiltin name => py_call name args
  | VGet (VRow fields) => match args with [k] => or_none (row_lookup fields k) | _ => Throw PyTypeError end
  | VGet (VDict l) => match args with [k] => or_none (dict_lookup l k) | _ => Throw PyTypeError end
  | _ => Throw PyTypeError
  end.

(** Insertion into a dict and a set under construction. *)
Fixpoint dict_put (l : list (value * value)) (k v : value) : list (value * value) :=
  match l with
  | [] => [(k, v)]
  | (k', v') :: l => if py_same_key k' k then (k', v) :: l else (k', v') :: dict_put l k v
  end.

Definition set_put (l : list value) (x : value) : list value := if existsb (fun y => py_same_key y x) l then l else l ++ [x].
End python.

(** ** The evaluator *)
Inductive evaluation_kind :=
  | missing_key | index_out_of_range | incompatible_types | division_by_zero | arithmetic_overflow | invalid_value
  | non_finite_result | unexpected_error.

(** What an evaluation raises: the two classes of the module, or an exception
    of Python that no handler turned into one. *)
Inductive raised := ExpressionSecurityError (site : string) | ExpressionEvaluationError (kind : evaluation_kind) | Uncaught (x : py_exc).

Inductive eres (A : Type) := Val (a : A) | Raise (x : raised).
Arguments Val {A} a.
Arguments Raise {A} x.

#[export] Instance eres_ret : MRet eres := fun A a => Val a.
#[export] Instance eres_bind : MBind eres := fun A B f m => match m with Val a => f a | Raise x => Raise x end.

Section evaluator.
Context `{PyOps}.

(** The row of single-name mode, or the namespaces of the allowed names. *)
Inductive context := SingleName (fields : list (string * value)) | Namespaces (ns : list (string * value)).

Context (names : list string) (ctx : context).

Definition single_name_mode : bool := match ctx with SingleName _ => true | Namespaces _ => false end.

(** Exceptions turned into evaluation errors by a [try] block. *)
Definition handle {A} (handlers : py_exc -> option evaluation_kind) (r : pyres A) : eres A :=
  match r with
  | Return a => Val a
  | Throw x => match handlers x with Some k => Raise (ExpressionEvaluationError k) | None => Raise (Uncaught x) end
  end.

Definition on_type_error (x : py_exc) : option evaluation_kind :=
  match x with PyTypeError => Some incompatible_types | _ => None end.

(** [_ensure_finite_float]. *)
Definition ensure_finite_float (v : value) : eres value :=
  match v with
  | VFloat f => if isfinite f then Val v else Raise (ExpressionEvaluationError non_finite_result)
  | _ => Val v
  end.

Definition visit_Name (id : string) : eres value :=
  if mem id names then
    match ctx with
    | SingleName fields => Val (VRow fields)
    | Namespaces ns => match dict_get ns id with Some v => Val v | None => Raise (Uncaught PyKeyError) end
    end
  else if id == "True" then Val (VBool true)
  else if id == "False" then Val (VBool false)
  else if id == "None" then Val VNone
  else if mem id SAFE_BUILTINS then Val (VBuiltin id)
  else Raise (ExpressionSecurityError "Unknown name").

Definition constant_value (c : constant) : value :=
  match c with
  | CNone => VNone | CBool b => VBool b | CInt n => VInt n | CFloat f => VFloat f | CStr s => VStr s
  | CComplex | CBytes | CEllipsis => VOther
  end.

Definition subscript (v k : value) : eres value :=
  handle (fun x => match x with
                   | PyKeyError => Some missing_key
                   | PyIndexError => Some index_out_of_range
                   | PyTypeError => Some incompatible_types
                   | _ => None
                   end) (getitem v k).

(** [visit_Attribute], on the value of its receiver: in single-name mode that
    value is the context itself. *)
Definition get_attribute (v : value) : eres value :=
  match v with VRow _ | VDict _ => Val (VGet v) | _ => Raise (Uncaught PyCrash) end.

Definition visit_attribute (receiver : expr) (v : value) (attr : string) : eres value :=
  if (attr == "get")
     && (if single_name_mode then match v with VRow _ => true | _ => false end
         else match receiver with Name id => mem id names | _ => false end)
  then get_attribute v
  else Raise (ExpressionSecurityError "Forbidden attribute access").

Definition apply_function (f : value) (args : list value) : eres value :=
  handle (fun x => match x with
                   | PyTypeError => Some incompatible_types
                   | PyOverflowError => Some arithmetic_overflow
                   | PyValueError => Some invalid_value
                   | _ => None
                   end) (call f args).

Definition apply_binop (op : operator) (l r : value) : eres value :=
  if negb (is_binary_op op) then Raise (Uncaught PyKeyError)
  else
    v ← handle (fun x => match x with
                         | PyZeroDivisionError => Some division_by_zero
                         | PyTypeError => Some incompatible_types
                         | PyKeyError => Some missing_key
                         | _ => None
                         end) (py_binop op l r);
    ensure_finite_float v.

Definition apply_unop (op : unaryop) (v : value) : eres value :=
  match op with
  | Invert => Raise (Uncaught PyKeyError)
  | Not => ensure_finite_float (VBool (negb (truth v)))
  | USub => r ← handle on_type_error (py_neg v); ensure_finite_float r
  | UAdd => r ← handle on_type_error (py_pos v); ensure_finite_float r
  end.

(** [except TypeError] around the construction of a dict or set literal. *)
Definition catching_type_error (r : eres value) : eres value :=
  match r with
  | Raise (Uncaught PyTypeError) => Raise (ExpressionEvaluationError incompatible_types)
  | r => r
  end.

(** The loops over operands, given how one of them is evaluated. *)
Section loops.
Variable ev : expr -> eres value.

Fixpoint eval_list (l : list expr) : eres (list value) :=
  match l with
  | [] => Val []
  | x :: l => v ← ev x; vs ← eval_list l; Val (v :: vs)
  end.

(** [visit_Compare] after its left operand. *)
Fixpoint compare_chain (l : value) (rest : list (cmpop * expr)) {struct rest} : eres value :=
  match rest with
  | [] => Val (VBool true)
  | (op, x) :: rest =>
      r ← ev x;
      b ← handle on_type_error (py_compare op l r);
      if negb b then Val (VBool false) else compare_chain r rest
  end.

(** [visit_BoolOp]. *)
Fixpoint bool_chain (op : boolop) (vs : list expr) : eres value :=
  match vs with
  | [] => Raise (Uncaught PyCrash)
  | x :: vs =>
      v ← ev x;
      if match op with And => negb (truth v) | Or => truth v end then Val v
      else match vs with [] => Val v | _ => bool_chain op vs end
  end.

(** The comprehensions of [visit_Dict] and [visit_Set]. *)
Fixpoint build_dict (items : list (option expr * expr)) (d : list (value * value)) : eres value :=
  match items with
  | [] => Val (VDict d)
  | (Some k, x) :: items =>
      kv ← ev k;
      v ← ev x;
      if hashable kv then build_dict items (dict_put d kv v) else Raise (Uncaught PyTypeError)
  | (None, _) :: items => Raise (ExpressionSecurityError "Dict spread (**) reached evaluator")
  end.

Fixpoint build_set (l : list expr) (s : list value) : eres value :=
  match l with
  | [] => Val (VSet s)
  | x :: l => v ← ev x; if hashable v then build_set l (set_put s v) else Raise (Uncaught PyTypeError)
  end.
End loops.

(** [visit]. *)
Fixpoint visit (e : expr) : eres value :=
  match e with
  | Name id => visit_Name id
  | Constant c => ensure_finite_float (constant_value c)
  | Subscript v slice =>
      value ← visit v;
      key ← visit slice;
      subscript value key
  | Attribute v attr =>
      value ← visit v;
      visit_attribute v value attr
  | Call func args _ =>
      if match func with Name id => negb (arity_ok id (length args)) | _ => false end
      then Raise (ExpressionSecurityError "Invalid argument count reached evaluator")
      else
        f ← visit func;
        vs ← eval_list visit args;
        apply_function f vs
  | Compare lhs rest =>
      l ← visit lhs;
      compare_chain visit l rest
  | BoolOp op vs => bool_chain visit op vs
  | BinOp l op r =>
      lv ← visit l;
      rv ← visit r;
      apply_binop op lv rv
  | UnaryOp op x =>
      v ← visit x;
      apply_unop op v
  | ListE l => vs ← eval_list visit l; Val (VList vs)
  | TupleE l => vs ← eval_list visit l; Val (VTuple vs)
  | DictE items =>
      catching_type_error
        (if existsb (fun kv => is_none kv.1) items then Raise (ExpressionSecurityError "Dict spread (**) reached evaluator")
         else build_dict visit items [])
  | SetE l => catching_type_error (build_set visit l [])
  | IfExp t b o =>
      v ← visit t;
      if truth v then visit b else visit o
  | Slice _ | Forbidden _ _ | Unsupported _ _ => Raise (ExpressionSecurityError "Evaluator has no handler for nodes")
  end.

(** [ExpressionParser.evaluate]. *)
Definition evaluate (e : expr) : eres value :=
  match visit e with
  | Raise (Uncaught (PyTypeError | PyKeyError | PyCrash) as x) => Raise x
  | Raise (Uncaught PyOverflowError) => Raise (ExpressionEvaluationError arithmetic_overflow)
  | Raise (Uncaught PyValueError) => Raise (ExpressionEvaluationError invalid_value)
  | Raise (Uncaught _) => Raise (ExpressionEvaluationError unexpected_error)
  | r => r
  end.
End evaluator.

(** ** Construction *)
Section parser.
Context `{Floats}.

(** The nodes that [ast.iter_child_nodes] yields: expressions, keyword
    arguments, and the operators and contexts, which have no children.  (Of the
    forbidden constructs only the expressions are kept.) *)
Inductive node := NExpression (e : expr) | NExpr (e : expr) | NKeyword (e : expr) | NLeaf.

Definition iter_child_nodes (n : node) : list node :=
  match n with
  | NExpression e | NKeyword e => [NExpr e]
  | NLeaf => []
  | NExpr e =>
      match e with
      | Name _ => [NLeaf]
      | Constant _ => []
      | Subscript v k => [NExpr v; NExpr k; NLeaf]
      | Attribute v _ => [NExpr v; NLeaf]
      | Call f args kws => NExpr f :: map NExpr args ++ map (fun kw => NKeyword kw.2) kws
      | Compare l rest => NExpr l :: map (fun _ => NLeaf) rest ++ map (fun r => NExpr r.2) rest
      | BoolOp _ vs => NLeaf :: map NExpr vs
      | BinOp l _ r => [NExpr l; NLeaf; NExpr r]
      | UnaryOp _ x => [NLeaf; NExpr x]
      | ListE l | TupleE l => map NExpr l ++ [NLeaf]
      | SetE l | Slice l | Forbidden _ l | Unsupported _ l => map NExpr l
      | DictE items => map NExpr (omap fst items) ++ map (fun kv => NExpr kv.2) items
      | IfExp t b o => [NExpr t; NExpr b; NExpr o]
      end
  end.

(** The number of nodes of a tree. *)
Definition total (l : list nat) : nat := foldr Nat.add 0%nat l.

Fixpoint expr_nodes (e : expr) : nat :=
  match e with
  | Name _ => 2
  | Constant _ => 1
  | Subscript v k => 2 + expr_nodes v + expr_nodes k
  | Attribute v _ => 2 + expr_nodes v
  | Call f args kws => 1 + expr_nodes f + total (map expr_nodes args) + total (map (fun kw => S (expr_nodes kw.2)) kws)
  | Compare l rest => 1 + expr_nodes l + total (map (fun r => S (expr_nodes r.2)) rest)
  | BoolOp _ vs => 2 + total (map expr_nodes vs)
  | BinOp l _ r => 2 + expr_nodes l + expr_nodes r
  | UnaryOp _ x => 2 + expr_nodes x
  | ListE l | TupleE l => 2 + total (map expr_nodes l)
  | SetE l | Slice l | Forbidden _ l | Unsupported _ l => 1 + total (map expr_nodes l)
  | DictE items =>
      1 + total (map (fun kv => match kv.1 with Some k => expr_nodes k | None => 0 end + expr_nodes kv.2) items)
  | IfExp t b o => 1 + expr_nodes t + expr_nodes b + expr_nodes o
  end%nat.

Definition node_nodes (n : node) : nat :=
  match n with NExpression e | NKeyword e => S (expr_nodes e) | NExpr e => expr_nodes e | NLeaf => 1%nat end.

(** The loop of the constructor: a stack of nodes with their depth.  The fuel
    is the number of nodes on the stack with all that is below them. *)
Fixpoint depth_loop (fuel : nat) (pending : list (node * nat)) : bool :=
  match fuel with
  | O => true
  | S fuel =>
      match pending with
      | [] => true
      | (n, depth) :: pending =>
          if (64 <? depth)%nat then false
          else depth_loop fuel (rev (map (fun c => (c, S depth)) (iter_child_nodes n)) ++ pending)
      end
  end.

Definition check_depth (e : expr) : bool := depth_loop (node_nodes (NExpression e)) [(NExpression e, 0%nat)].

(** [ExpressionParser.__init__]: the allowed names, and the tree that Python
    parsed; [None] is a syntax error. *)
Inductive construction_error := EmptyAllowedNames | InvalidSyntax | NestingExceeds64 | SecurityErrors (errors : list string).

Definition init (allowed_names : option (list string)) (parsed : option expr) : construction_error + list string * expr :=
  match allowed_names with
  | Some [] => inl EmptyAllowedNames
  | _ =>
      let names := default ["row"] allowed_names in
      match parsed with
      | None => inl InvalidSyntax
      | Some e =>
          if negb (check_depth e) then inl NestingExceeds64
          else match validate names false false false e with
               | [] => inr (names, e)
               | errors => inl (SecurityErrors errors)
               end
      end
  end.
End parser.

(** ** Static questions *)
Section static.
Context `{Floats}.

(** [ast.walk]: the expressions of a tree, the root first. *)
Fixpoint walk (e : expr) : list expr :=
  e :: match e with
       | Name _ | Constant _ => []
       | Subscript v k => walk v ++ walk k
       | Attribute v _ => walk v
       | Call f args kws => walk f ++ flat_map walk args ++ flat_map (fun kw => walk kw.2) kws
       | Compare l rest => walk l ++ flat_map (fun r => walk r.2) rest
       | BoolOp _ vs => flat_map walk vs
       | BinOp l _ r => walk l ++ walk r
       | UnaryOp _ x => walk x
       | ListE l | TupleE l | SetE l | Slice l | Forbidden _ l | Unsupported _ l => flat_map walk l
       | DictE items =>
           flat_map (fun kv => match kv.1 with Some k => walk k | None => [] end) items ++ flat_map (fun kv => walk kv.2) items
       | IfExp t b o => walk t ++ walk b ++ walk o
       end.

(** [_key_is_spelled_out]: no allowed name below the key. *)
Definition key_is_spelled_out (names : list string) (key : expr) : bool :=
  forallb (fun c => match c with Name id => negb (mem id names) | _ => true end) (walk key).

(** [_is_boolean_node]. *)
Fixpoint is_boolean_node (e : expr) : bool :=
  match e with
  | Compare _ _ => true
  | Call (Name id) _ _ => mem id ALWAYS_BOOLEAN_BUILTINS
  | BoolOp _ vs => forallb is_boolean_node vs
  | UnaryOp Not _ => true
  | Constant (CBool _) => true
  | IfExp _ b o => is_boolean_node b && is_boolean_node o
  | _ => false
  end.

Definition is_constant_expression (e : expr) : bool := match e with Constant _ => true | _ => false end.

(** [_is_numeric_constant] and [_is_non_routable_node]. *)
Definition is_numeric_constant (e : expr) : bool :=
  match e with Constant (CInt _ | CFloat _ | CComplex) => true | _ => false end.

Definition is_non_routable_node (e : expr) : bool :=
  is_numeric_constant e ||
  match e with
  | Call (Name id) _ _ => mem id ALWAYS_NUMERIC_BUILTINS
  | UnaryOp (USub | UAdd) _ => true
  | BinOp _ (Sub | Div | FloorDiv) _ => true
  | BinOp l Add r => is_numeric_constant l || is_numeric_constant r
  | _ => false
  end.

(** [_node_has_string_amplification] and [has_string_concatenation_risk]. *)
Definition has_string_amplification_risk (e : expr) : bool :=
  existsb (fun c => match c with
                    | BinOp l (Mult | Mod) r => negb (is_non_routable_node l) || negb (is_non_routable_node r)
                    | _ => false
                    end) (walk e).

Definition has_string_concatenation_risk (e : expr) : bool :=
  existsb (fun c => match c with
                    | BinOp l Add r => negb (is_non_routable_node l) || negb (is_non_routable_node r)
                    | _ => false
                    end) (walk e).

(** Calls of the builtins that copy a string. *)
Definition string_copying_call (e : expr) : bool :=
  match e with
  | Call (Name id) _ _ =>
      mem id SAFE_BUILTINS && negb (mem id ALWAYS_NUMERIC_BUILTINS) && negb (mem id ALWAYS_BOOLEAN_BUILTINS)
  | _ => false
  end.

Definition has_eager_container_string_allocation_risk (e : expr) : bool :=
  existsb (fun c => match c with
                    | ListE _ | TupleE _ | DictE _ => existsb string_copying_call (walk c)
                    | _ => false
                    end) (walk e).

Definition has_repeated_string_copying_calls (e : expr) : bool :=
  (1 <? length (filter (fun c => string_copying_call c) (walk e)))%nat.

(** [_set_reaches_value]. *)
Fixpoint set_reaches_value (e : expr) : bool :=
  match e with
  | SetE _ => true
  | Compare _ _ | Call _ _ _ | UnaryOp _ _ => false
  | IfExp _ b o => set_reaches_value b || set_reaches_value o
  | Name _ | Constant _ => false
  | Subscript v k => set_reaches_value v || set_reaches_value k
  | Attribute v _ => set_reaches_value v
  | BoolOp _ vs => existsb set_reaches_value vs
  | BinOp l _ r => set_reaches_value l || set_reaches_value r
  | ListE l | TupleE l | Slice l | Forbidden _ l | Unsupported _ l => existsb set_reaches_value l
  | DictE items =>
      existsb (fun kv => match kv.1 with Some k => set_reaches_value k | None => false end) items
      || existsb (fun kv => set_reaches_value kv.2) items
  end.

(** [static_field_reads]: the fields that a node reads from [name] directly,
    [None] when the key is not a string literal. *)
Record StaticFieldReads := mkReads { fields : list string; complete : bool }.

Definition field_read (name : string) (e : expr) : list (option string) :=
  match e with
  | Subscript (Name id) k =>
      if id == name then [match k with Constant (CStr s) => Some s | _ => None end] else []
  | Call (Attribute (Name id) attr) args _ =>
      if (attr == "get") && (id == name)
      then [match args with [Constant (CStr s)] => Some s | _ => None end] else []
  | _ => []
  end.

Definition static_field_reads (name : string) (e : expr) : StaticFieldReads :=
  let reads := flat_map (field_read name) (walk e) in
  mkReads (omap id reads) (forallb is_some reads).
End static.
