(* ===== verification/ExpressionTheory.v ===== *)
(** * ExpressionTheory: what validation and the static questions guarantee

    A validated expression never reaches the evaluator's security errors and,
    on a row, fails only with evaluation errors; the depth guard is exact; an
    expression classified as boolean yields booleans, and one that the set
    question clears yields no set; and the fields that [static_field_reads]
    enumerates decide the value, unless a computed key sits inside the receiver
    of a subscript. *)

From Stdlib Require Import QArith.
From S2P Require Import Prelude Expressions.
Open Scope Z_scope.

(** ** Induction on expressions *)
Section induction.
Context `{Floats}.

Lemma total_app l1 l2 : total (l1 ++ l2) = (total l1 + total l2)%nat.
Proof. unfold total. induction l1 as [|x l1 IH]; cbn; [done|]. rewrite IH. lia. Qed.

Lemma total_elem {A} (f : A -> nat) l x : x ∈ l -> (f x <= total (map f l))%nat.
Proof.
  unfold total. induction l as [|y l IH]; [by intros ?%not_elem_of_nil|].
  intros [->|Hx]%elem_of_cons; cbn; [|specialize (IH Hx)]; lia.
Qed.

Lemma total_map_add {A} (f g : A -> nat) l : total (map (fun x => f x + g x)%nat l) = (total (map f l) + total (map g l))%nat.
Proof. unfold total. induction l as [|x l IH]; cbn; [done|]. rewrite IH. lia. Qed.

Lemma total_map_ext {A} (f g : A -> nat) l : (forall x, f x = g x) -> total (map f l) = total (map g l).
Proof. intros E. unfold total. induction l as [|x l IH]; cbn; [done|]. by rewrite E, IH. Qed.

Lemma total_cons x l : total (x :: l) = (x + total l)%nat.
Proof. done. Qed.

Local Ltac sum := cbn -[total]; repeat (rewrite ?total_cons, ?total_app, ?map_app, ?map_map; cbn -[total]).

(** A tree has one node more than the trees below it. *)
Lemma nodes_children n : node_nodes n = S (total (map node_nodes (iter_child_nodes n))).
Proof.
  destruct n as [e|e|e|]; [sum; cbn; lia| |sum; cbn; lia|done].
  destruct e; sum; rewrite ?(Nat.add_comm _ (S (total []))); try done; try (unfold total; cbn; lia).
  - by rewrite Nat.add_assoc.
  - rewrite (total_map_ext _ (fun r : cmpop * expr => 1 + expr_nodes r.2)%nat), total_map_add by done. lia.
  - rewrite total_map_add. do 2 f_equal. induction items as [|[[k|] x] l IH]; sum; [done| |done]. by rewrite IH.
Qed.

Lemma sub_smaller e x : x ∈ subexprs e -> (expr_nodes x < expr_nodes e)%nat.
Proof.
  destruct e; cbn -[total]; rewrite ?elem_of_cons, ?elem_of_nil, ?elem_of_app, ?list_elem_of_fmap; intros Hx;
    try (by intuition (subst; lia)); try (apply (total_elem expr_nodes) in Hx; lia).
  - destruct Hx as [->|[Hx|([k y] & -> & Hx)]]; [lia| |].
    + apply (total_elem expr_nodes) in Hx. lia.
    + apply (total_elem (fun kw => S (expr_nodes kw.2))) in Hx. cbn -[total] in *. lia.
  - destruct Hx as [->|([op y] & -> & Hx)]; [lia|].
    apply (total_elem (fun r => S (expr_nodes r.2))) in Hx. cbn -[total] in *. lia.
  - destruct Hx as [([k y] & Hx & Hk)%list_elem_of_omap|([k y] & -> & Hx)];
      apply (total_elem (fun kv => match kv.1 with Some k => expr_nodes k | None => 0 end + expr_nodes kv.2)%nat) in Hx;
      cbn -[total] in *; subst; lia.
Qed.

Lemma expr_children_ind (P : expr -> Prop) :
  (forall e, (forall x, x ∈ subexprs e -> P x) -> P e) -> forall e, P e.
Proof.
  intros Hstep e. remember (expr_nodes e) as n eqn:En. revert e En.
  induction n as [n IH] using lt_wf_ind. intros e ->. apply Hstep. intros x Hx. eapply IH; [|done]. by apply sub_smaller.
Qed.

(** The nodes below a child are nodes below its parent. *)
Lemma walk_eq e : walk e = e :: flat_map walk (subexprs e).
Proof.
  assert (Esnd : forall {K} (l : list (K * expr)), flat_map (fun kv => walk kv.2) l = flat_map walk (map snd l)).
  { intros K l. induction l as [|kv l IH]; cbn; [done|]. by rewrite IH. }
  destruct e; cbn; rewrite ?flat_map_app, ?app_nil_r, <- ?Esnd; try done.
  do 2 f_equal. induction items as [|[[k|] x] l IH]; cbn; rewrite ?IH; done.
Qed.

Lemma walk_self e : e ∈ walk e.
Proof. rewrite walk_eq. by left. Qed.

Lemma walk_sub e x y : x ∈ subexprs e -> y ∈ walk x -> y ∈ walk e.
Proof.
  intros Hx Hy. rewrite walk_eq. right. apply list_elem_of_In, in_flat_map. exists x. by rewrite <- !list_elem_of_In.
Qed.

Lemma walk_forallb p e x : forallb p (walk e) = true -> x ∈ subexprs e -> forallb p (walk x) = true.
Proof.
  rewrite !forallb_forall. intros Hp Hx y Hy. apply Hp, list_elem_of_In. eapply walk_sub; [done|]. by apply list_elem_of_In.
Qed.
End induction.

(** ** The depth guard *)
Section depth.
Context `{Floats}.

(** [below n d m]: [m] lies [d] levels under [n]. *)
Inductive below (n : node) : nat -> node -> Prop :=
  | below_self : below n 0 n
  | below_child c d m : c ∈ iter_child_nodes n -> below c d m -> below n (S d) m.

Lemma total_rev l : total (rev l) = total l.
Proof. induction l as [|x l IH]; [done|]. cbn [rev]. rewrite total_app, IH, !total_cons. cbn. lia. Qed.

(** With enough fuel the loop accepts exactly the stacks on which nothing lies deeper than 64. *)
Lemma depth_loop_spec fuel pending :
  (total (map (fun p => node_nodes p.1) pending) <= fuel)%nat ->
  depth_loop fuel pending = true <-> forall n k d m, (n, k) ∈ pending -> below n d m -> (k + d <= 64)%nat.
Proof.
  revert pending. induction fuel as [|fuel IH]; intros [|[n k] pending]; cbn -[total Nat.ltb]; intros Hf;
    try (split; [intros _ n' k' d m []%not_elem_of_nil|done]).
  - rewrite total_cons, nodes_children in Hf. lia.
  - rewrite total_cons, nodes_children in Hf. destruct (Nat.ltb_spec 64 k) as [Hk|Hk].
    + split; [done|]. intros Hall. specialize (Hall n k 0%nat n ltac:(by left) (below_self n)). lia.
    + rewrite IH; [|rewrite map_app, total_app, map_rev, total_rev, map_map; cbn -[total]; etransitivity; [|apply le_S_n, Hf]; done].
      split.
      * intros Hall n' k' d m [[= -> ->]|Hin]%elem_of_cons Hb; [|eapply (Hall n' k'); [apply elem_of_app; by right|done]].
        destruct Hb as [|c d m Hc Hb]; [lia|].
        enough (S k + d <= 64)%nat by lia. apply (Hall c (S k) d m); [|done]. apply elem_of_app. left.
        apply list_elem_of_In. rewrite <- in_rev. apply in_map_iff. exists c. by rewrite <- list_elem_of_In.
      * intros Hall n' k' d m [Hin|Hin]%elem_of_app Hb; [|apply (Hall n' k' d m); [by right|done]].
        apply list_elem_of_In in Hin. rewrite <- in_rev in Hin. apply in_map_iff in Hin as (c & [= -> <-] & Hc%list_elem_of_In).
        enough (k + S d <= 64)%nat by lia. apply (Hall n k (S d) m); [by left|]. by econstructor.
Qed.

(** The constructor accepts the nesting of an expression exactly when no
    node of its tree, operators and contexts included, lies more than 64 levels
    below the root: the explicit stack visits every node and never runs out. *)
Theorem depth_guard_exact e : check_depth e = true <-> forall d m, below (NExpression e) d m -> (d <= 64)%nat.
Proof.
  unfold check_depth. rewrite depth_loop_spec by (cbn; lia).
  split; [intros Hall d m; apply (Hall _ 0%nat); by left|]. intros Hall n k d m [= -> ->]%list_elem_of_singleton. apply Hall.
Qed.
End depth.

(** ** Which exceptions an evaluation can raise *)

(** [calm Q r]: what [r] raises satisfies [Q]. *)
Definition calm {A} (Q : raised -> Prop) (r : eres A) : Prop := match r with Val _ => True | Raise x => Q x end.

Lemma calm_bind {A B} Q (m : eres A) (f : A -> eres B) :
  calm Q m -> (forall a, m = Val a -> calm Q (f a)) -> calm Q (m ≫= f).
Proof. destruct m; cbn; [|done]. intros _ Hf. by apply Hf. Qed.

Lemma calm_handle {A} Q h (r : pyres A) :
  (forall k, Q (ExpressionEvaluationError k)) -> (forall x, r = Throw x -> h x = None -> Q (Uncaught x)) -> calm Q (handle h r).
Proof. destruct r as [|x]; cbn; [done|]. intros Hk Hx. destruct (h x) eqn:E; [apply Hk|by apply Hx]. Qed.

Section validated.
Context `{Floats} (names : list string).

Lemma errors_if_nil b e : errors_if b e = [] -> b = false.
Proof. by destruct b. Qed.

Lemma flat_map_nil {A B} (f : A -> list B) l x : flat_map f l = [] -> x ∈ l -> f x = [].
Proof.
  induction l as [|y l IH]; [by intros _ ?%not_elem_of_nil|]. cbn. intros [Hy Hl]%app_eq_nil [->|Hx]%elem_of_cons; auto.
Qed.

Lemma negb_length_nil {A} (l : list A) : negb (length l =? 0)%nat = false -> l = [].
Proof. by destruct l. Qed.
End validated.

(** A validation without errors, taken apart. *)
Ltac validated :=
  repeat match goal with
  | H : _ ++ _ = [] |- _ => apply app_eq_nil in H as [? ?]
  | H : errors_if _ _ = [] |- _ => apply errors_if_nil in H
  | H : negb _ = false |- _ => apply negb_false_iff in H
  end.

Section validated_children.
Context `{Floats} (names : list string).

Lemma validate_sub_same a b c e x :
  validate names a b c e = [] -> x ∈ subexprs e -> match e with Subscript _ _ | Attribute _ _ | Call _ _ _ => False | _ => True end ->
  validate names a b c x = [].
Proof.
  destruct e; cbn; rewrite ?elem_of_cons, ?elem_of_nil, ?elem_of_app, ?list_elem_of_fmap; intros Hv Hx Hc; validated;
    try done; try (by eapply flat_map_nil); try (by intuition (subst; eauto)).
  - destruct Hx as [->|(r & -> & Hx)]; [done|]. by eapply (flat_map_nil (fun r => validate names _ _ _ r.2)).
  - destruct Hx as [([k v] & Hx & Hk)%list_elem_of_omap|(kv & -> & Hx)].
    + cbn in Hk. subst k. by eapply (flat_map_nil _ _ _ H1 Hx).
    + by eapply (flat_map_nil (fun kv => validate names _ _ _ kv.2)).
Qed.

(** Everything below a validated expression was validated. *)
Lemma validate_sub a b c e x :
  validate names a b c e = [] -> x ∈ subexprs e -> exists a' b' c', validate names a' b' c' x = [].
Proof.
  intros Hv Hx. destruct e; try (do 3 eexists; by eapply validate_sub_same); cbn in Hv, Hx; validated;
    rewrite ?elem_of_cons, ?elem_of_nil, ?elem_of_app in Hx.
  - intuition (subst; eauto).
  - case_match; [|discriminate]. validated. destruct Hx as [->|[]]. eauto.
  - case_match; [|case_match]; [| |discriminate]; validated; rewrite (negb_length_nil keywords) in Hx by (by apply negb_false_iff);
      (destruct Hx as [->|[Hx|[]%not_elem_of_nil]]; [by eauto|]);
      do 3 eexists; by eapply (flat_map_nil (fun x => validate names _ _ _ x)).
Qed.
End validated_children.

(** ** Evaluating what was validated *)
Section raising.
Context `{PyOps} (names : list string) (ctx : context) (Q : raised -> Prop).

(** What the operations of Python, and the contexts, contribute to [Q]: an
    exception that the enclosing [try] does not handle satisfies it. *)
Record contained : Prop := {
  contained_kind : forall k, Q (ExpressionEvaluationError k);
  contained_binop : forall op l r x,
    py_binop op l r = Throw x -> x ∉ [PyZeroDivisionError; PyTypeError; PyKeyError] -> Q (Uncaught x);
  contained_compare : forall op l r x, py_compare op l r = Throw x -> x <> PyTypeError -> Q (Uncaught x);
  contained_neg : forall v x, py_neg v = Throw x -> x <> PyTypeError -> Q (Uncaught x);
  contained_pos : forall v x, py_pos v = Throw x -> x <> PyTypeError -> Q (Uncaught x);
  contained_getitem : forall v k x,
    py_getitem v k = Throw x -> x ∉ [PyKeyError; PyIndexError; PyTypeError] -> Q (Uncaught x);
  contained_call : forall f args x,
    py_call f args = Throw x -> x ∉ [PyTypeError; PyOverflowError; PyValueError] -> Q (Uncaught x);
  contained_names : single_name_mode ctx = true \/ Q (Uncaught PyKeyError) /\ Q (Uncaught PyCrash);
}.

(** Python's grammar gives every boolean operation an operand. *)
Definition has_operands (e : expr) : bool := match e with BoolOp _ [] => false | _ => true end.
Definition well_formed (e : expr) : bool := forallb has_operands (walk e).

Context (Hops : contained).

Lemma calm_finite v : calm Q (ensure_finite_float v).
Proof. destruct v; cbn; try done. case_match; [done|apply Hops]. Qed.

Lemma calm_name id a b c : validate names a b c (Name id) = [] -> calm Q (visit_Name names ctx id).
Proof.
  unfold visit_Name. cbn -[mem SAFE_BUILTINS SAFE_CONSTANTS]. intros Hv. destruct (mem id names).
  { pose proof (contained_names Hops) as Hn. destruct ctx; [done|]. destruct (dict_get ns id); [done|]. by destruct Hn as [?|[]]. }
  destruct (mem id SAFE_BUILTINS); [by repeat case_match|].
  destruct (mem id SAFE_CONSTANTS) eqn:Ec; [|done]. apply bool_decide_eq_true in Ec.
  repeat (apply elem_of_cons in Ec as [->|Ec]; [done|]). by apply not_elem_of_nil in Ec.
Qed.

Lemma calm_subscript v k : calm Q (subscript v k).
Proof.
  apply calm_handle; [apply Hops|]. intros x Ex Hx.
  destruct v; cbn in Ex; try (eapply (contained_getitem Hops); [exact Ex|set_unfold; by destruct x; naive_solver]).
  - unfold dict_lookup, or_key_error in Ex. by repeat case_match; simplify_eq.
  - unfold row_lookup, or_key_error in Ex. by repeat case_match; simplify_eq.
Qed.

Lemma calm_attribute id v attr :
  mem id names = true -> attr = "get" -> visit_Name names ctx id = Val v -> calm Q (visit_attribute names ctx (Name id) v attr).
Proof.
  pose proof (contained_names Hops) as Hn. unfold visit_attribute, visit_Name. intros Hid -> Hv. rewrite Hid in *.
  destruct ctx; cbn in *; [by simplify_eq|]. destruct Hn as [?|[_ Hc]]; [done|]. clear Hv. by destruct v.
Qed.

Lemma decimal_throws l r t x : decimal_within l r t = Throw x -> x = PyTypeError \/ x = PyValueError.
Proof. unfold decimal_within, numeric_decimal_fraction. intros E. repeat case_match; simplify_eq; auto. Qed.

Lemma call_throws f args x :
  call f args = Throw x ->
  x = PyTypeError \/ x = PyValueError \/ exists name, py_call name args = Throw x.
Proof.
  unfold call, starts_with, word_count, or_none, row_lookup, dict_lookup. intros E.
  repeat case_match; simplify_eq; eauto; apply decimal_throws in E as [-> | ->]; auto.
Qed.

Lemma calm_apply f args : calm Q (apply_function f args).
Proof.
  apply calm_handle; [apply Hops|]. intros x Ex Hx. apply call_throws in Ex as [->|[->|[name Ex]]]; try done.
  eapply (contained_call Hops); [exact Ex|]. set_unfold. by destruct x; naive_solver.
Qed.

Lemma calm_binop op l r : is_binary_op op = true -> calm Q (apply_binop op l r).
Proof.
  unfold apply_binop. intros ->. cbn [negb]. apply calm_bind; [|intros; apply calm_finite].
  apply calm_handle; [apply Hops|]. intros x Ex Hx. eapply (contained_binop Hops); [exact Ex|].
  set_unfold. by destruct x; naive_solver.
Qed.

Lemma calm_unop op v : is_unary_op op = true -> calm Q (apply_unop op v).
Proof.
  destruct op; cbn; intros Hop; try done; (apply calm_bind; [|intros; apply calm_finite]); apply calm_handle; try apply Hops.
  - intros x Ex Hx. eapply (contained_neg Hops); [exact Ex|]. by intros ->.
  - intros x Ex Hx. eapply (contained_pos Hops); [exact Ex|]. by intros ->.
Qed.

(** The loops raise what their operands raise. *)
Section loops.
Variable ev : expr -> eres value.

Lemma calm_list l : (forall x, x ∈ l -> calm Q (ev x)) -> calm Q (eval_list ev l).
Proof.
  induction l as [|x l IH]; cbn; [done|]. intros Hl. apply calm_bind; [apply Hl; by left|]. intros v _.
  apply calm_bind; [|done]. apply IH. intros y Hy. apply Hl. by right.
Qed.

Lemma calm_compare l rest : (forall x, x ∈ map snd rest -> calm Q (ev x)) -> calm Q (compare_chain ev l rest).
Proof.
  revert l. induction rest as [|[op x] rest IH]; cbn; intros l Hl; [done|]. apply calm_bind; [apply Hl; by left|]. intros v _.
  apply calm_bind.
  - apply calm_handle; [apply Hops|]. intros y Ey Hy. eapply (contained_compare Hops); [exact Ey|]. by intros ->.
  - intros [] _; cbn; [|done]. apply IH. intros y Hy. apply Hl. by right.
Qed.

Lemma calm_bool op vs : vs <> [] -> (forall x, x ∈ vs -> calm Q (ev x)) -> calm Q (bool_chain ev op vs).
Proof.
  induction vs as [|x vs IH]; intros Hne Hl; [done|]. cbn. apply calm_bind; [apply Hl; by left|]. intros v _.
  case_match; [done|]. destruct vs as [|y vs]; [done|]. apply IH; [done|]. intros z Hz. apply Hl. by right.
Qed.

(** A TypeError may escape the construction of a dict or set, to be caught around it. *)
Definition Q' (x : raised) : Prop := Q x \/ x = Uncaught PyTypeError.

Lemma calm_weaken {A} (r : eres A) : calm Q r -> calm Q' r.
Proof. destruct r; cbn; [done|by left]. Qed.

Lemma calm_catching r : calm Q' r -> calm Q (catching_type_error r).
Proof.
  unfold catching_type_error. destruct r as [|[| |[]]]; cbn; try done; try (intros [?|?]; [done|discriminate]).
  intros _. apply Hops.
Qed.

Lemma calm_dict items d :
  existsb (fun kv => is_none kv.1) items = false -> (forall x, x ∈ omap fst items ++ map snd items -> calm Q (ev x)) ->
  calm Q' (build_dict ev items d).
Proof.
  revert d. induction items as [|[[k|] x] items IH]; cbn; intros d Hk Hl; [done| |done].
  apply calm_bind; [apply calm_weaken, Hl; by left|]. intros kv _.
  apply calm_bind; [apply calm_weaken, Hl; right; apply elem_of_app; right; by left|]. intros v _.
  case_match; [|by right]. apply IH; [done|]. intros y Hy. apply Hl. set_solver.
Qed.

Lemma calm_set l s : (forall x, x ∈ l -> calm Q (ev x)) -> calm Q' (build_set ev l s).
Proof.
  revert s. induction l as [|x l IH]; cbn; intros s Hl; [done|].
  apply calm_bind; [apply calm_weaken, Hl; by left|]. intros v _.
  case_match; [|by right]. apply IH. intros y Hy. apply Hl. by right.
Qed.
End loops.

Lemma spreads_none items :
  flat_map (fun kv : option expr * expr => errors_if (is_none kv.1) "Dict spread (**) is forbidden") items = [] <->
  existsb (fun kv => is_none kv.1) items = false.
Proof. induction items as [|[[k|] x] items IH]; cbn; [done|exact IH|done]. Qed.

(** What a validated expression raises satisfies [Q]. *)
Lemma validated_calm e a b c :
  validate names a b c e = [] -> well_formed e = true \/ Q (Uncaught PyCrash) -> calm Q (visit names ctx e).
Proof.
  revert a b c. induction e as [e IH] using expr_children_ind. intros a b c Hv Hwf.
  assert (Hsub : forall x, x ∈ subexprs e -> calm Q (visit names ctx x)).
  { intros x Hx. destruct (validate_sub _ _ _ _ _ _ Hv Hx) as (a' & b' & c' & Hx'). eapply IH; [done|done|].
    destruct Hwf as [Hwf|?]; [left|by right]. by eapply walk_forallb. }
  destruct e; cbn in Hsub; cbn -[arity_ok visit_attribute apply_unop];
    try (apply calm_bind; [apply Hsub; set_solver|intros v' Ev]); try done.
  - by eapply calm_name.
  - apply calm_bind; [apply Hsub; set_solver|]. intros k _. apply calm_subscript.
  - cbn in Hv. destruct e; try discriminate. case_match; [|discriminate]. validated.
    apply calm_attribute; [done| |done]. destruct (attr == "get") eqn:Ea; [|discriminate]. by apply bool_decide_eq_true in Ea.
  - destruct (match e with Name id => negb (arity_ok id (length args)) | _ => false end) eqn:Ear.
    + exfalso. destruct e; try discriminate. cbn -[arity_ok mem SAFE_BUILTINS] in Hv.
      destruct (mem id SAFE_BUILTINS); [|discriminate]. validated. by rewrite negb_true_iff in Ear; congruence.
    + apply calm_bind; [apply Hsub; by left|]. intros f _.
      apply calm_bind; [|intros; apply calm_apply]. apply calm_list. intros x Hx. apply Hsub. set_solver.
  - apply calm_compare. intros x Hx. apply Hsub. by right.
  - destruct vs as [|x vs].
    + destruct Hwf as [Hwf|Hq]; [discriminate|exact Hq].
    + by apply calm_bool.
  - apply calm_bind; [apply Hsub; set_solver|]. intros r _. apply calm_binop. cbn in Hv. by validated.
  - apply calm_unop. cbn in Hv. by validated.
  - apply calm_finite.
  - apply calm_bind; [|done]. by apply calm_list.
  - apply calm_catching. cbn in Hv. validated. rewrite (proj1 (spreads_none items)) by done.
    apply calm_dict; [by apply spreads_none|done].
  - apply calm_bind; [|done]. by apply calm_list.
  - apply calm_catching, calm_set. done.
  - case_match; apply Hsub; set_solver.
Qed.
End raising.

(** An expression is validated when its validation, started at the root, finds no error. *)
Definition validates `{Floats} (names : list string) (e : expr) : Prop := validate names false false false e = [].

(** A parser that was constructed holds a validated expression. *)
Lemma init_validates `{Floats} allowed parsed names e : init allowed parsed = inr (names, e) -> validates names e.
Proof.
  unfold init, validates. destruct allowed as [[|n ns]|]; [done| |]; cbn; intros E; repeat (case_match; simplify_eq; try done).
Qed.

(** C35. A parser that was constructed, for a row or for namespaces, never reaches one of the
    evaluator's security errors, whatever the context, the namespaces and the
    operations of Python are: the validator's grammar is inside the evaluator's. *)
Theorem validated_is_secure `{PyOps} allowed parsed names ctx e site :
  init allowed parsed = inr (names, e) -> evaluate names ctx e <> Raise (ExpressionSecurityError site).
Proof.
  intros Hv%init_validates. unfold evaluate.
  assert (Hc : calm (fun x => match x with ExpressionSecurityError _ => False | _ => True end) (visit names ctx e)).
  { eapply validated_calm; [|exact Hv|by right]. split; try done. by right. }
  destruct (visit names ctx e) as [|[| |[]]]; done.
Qed.

(** What the operations of Python raise on values: TypeError for operands they
    do not take, KeyError only from formatting and item access, IndexError,
    ZeroDivisionError, OverflowError, ValueError, and nothing of the classes
    that stand for a broken program. *)
Class PyRaises `{PyOps} : Prop := {
  raises_binop op l r : py_binop op l r <> Throw PyCrash;
  raises_compare op l r x : py_compare op l r = Throw x -> x <> PyKeyError /\ x <> PyCrash;
  raises_neg v x : py_neg v = Throw x -> x <> PyKeyError /\ x <> PyCrash;
  raises_pos v x : py_pos v = Throw x -> x <> PyKeyError /\ x <> PyCrash;
  raises_getitem v k : py_getitem v k <> Throw PyCrash;
  raises_call f args x : py_call f args = Throw x -> x <> PyKeyError /\ x <> PyCrash;
}.

(** C36. On a row, a constructed parser whose boolean operations have operands
    yields a value or an evaluation error with its kind: no TypeError, KeyError
    or other exception of Python leaves [evaluate]. *)
Theorem validated_fails_cleanly `{PyRaises} parsed names row e :
  init None parsed = inr (names, e) -> well_formed e = true ->
  (exists v, evaluate names (SingleName row) e = Val v) \/
  (exists k, evaluate names (SingleName row) e = Raise (ExpressionEvaluationError k)).
Proof.
  intros Hv%init_validates Hwf. unfold evaluate.
  assert (Hc : calm (fun x => match x with
                              | ExpressionEvaluationError _ => True
                              | Uncaught x => x ∉ [PyTypeError; PyKeyError; PyCrash]
                              | _ => False
                              end) (visit names (SingleName row) e)).
  { eapply validated_calm; [|exact Hv|by left]. split; try done; [..|by left].
    - intros op l r x Ex Hx. set_unfold. intros [?|[?|[->|[]]]]; [naive_solver..|]. by apply (raises_binop op l r).
    - intros op l r x Ex Hx. apply raises_compare in Ex. set_unfold. naive_solver.
    - intros v x Ex Hx. apply raises_neg in Ex. set_unfold. naive_solver.
    - intros v x Ex Hx. apply raises_pos in Ex. set_unfold. naive_solver.
    - intros v k x Ex Hx. set_unfold. intros [?|[?|[->|[]]]]; [naive_solver..|]. by apply (raises_getitem v k).
    - intros f args x Ex Hx. apply raises_call in Ex. set_unfold. naive_solver. }
  destruct (visit names _ e) as [v|[| |[]]]; cbn in Hc; eauto; try done; exfalso; apply Hc; set_solver.
Qed.

(** ** What the classifications promise *)
Lemma bind_val {A B} (m : eres A) (f : A -> eres B) b : m ≫= f = Val b -> exists a, m = Val a /\ f a = Val b.
Proof. destruct m; cbn; [eauto|done]. Qed.

Lemma handle_val {A} h (r : pyres A) a : handle h r = Val a -> r = Return a.
Proof. destruct r as [|x]; cbn; [congruence|by destruct (h x)]. Qed.

Lemma finite_val `{Floats} v w : ensure_finite_float v = Val w -> w = v.
Proof. destruct v; cbn; try case_match; congruence. Qed.

Lemma catching_val `{Floats} r (v : value) : catching_type_error r = Val v -> r = Val v.
Proof. by destruct r as [|[| |[]]]. Qed.

(** Invert a run that returned a value. *)
Ltac returned :=
  repeat match goal with
  | H : _ ≫= _ = Val _ |- _ => apply bind_val in H as (? & ? & ?)
  | H : handle _ _ = Val _ |- _ => apply handle_val in H
  | H : ensure_finite_float _ = Val _ |- _ => apply finite_val in H
  | H : catching_type_error _ = Val _ |- _ => apply catching_val in H
  end.

Section boolean.
Context `{PyOps} (names : list string) (ctx : context).

(** A boolean helper is not shadowed by an allowed name. *)
Definition helpers_unshadowed : bool := forallb (fun id => negb (mem id names)) ALWAYS_BOOLEAN_BUILTINS.

Lemma compare_boolean ev l rest v : compare_chain ev l rest = Val v -> exists b, v = VBool b.
Proof.
  revert l. induction rest as [|[op x] rest IH]; cbn; intros l Hv; [simplify_eq; eauto|]. returned.
  case_match; [simplify_eq; eauto|]. by eapply IH.
Qed.

Lemma bool_chain_result ev op vs v : bool_chain ev op vs = Val v -> exists x, x ∈ vs /\ ev x = Val v.
Proof.
  induction vs as [|x vs IH]; cbn; [done|]. intros Hv. returned.
  case_match; [simplify_eq; exists x; split; [by left|done]|]. destruct vs as [|y vs].
  - simplify_eq. exists x. split; [by left|done].
  - destruct (IH ltac:(done)) as (z & Hz & Ez). exists z. split; [by right|done].
Qed.

Lemma helper_boolean id args v : mem id ALWAYS_BOOLEAN_BUILTINS = true -> call (VBuiltin id) args = Return v -> exists b, v = VBool b.
Proof.
  unfold mem. rewrite bool_decide_eq_true. intros [->|[->|[]%not_elem_of_nil]%elem_of_cons]%elem_of_cons; cbn;
    unfold starts_with, decimal_within; intros E; repeat case_match; simplify_eq; eauto.
Qed.

Lemma helper_name id : helpers_unshadowed = true -> mem id ALWAYS_BOOLEAN_BUILTINS = true -> visit_Name names ctx id = Val (VBuiltin id).
Proof.
  unfold helpers_unshadowed. intros [H1 [H2 _]%andb_true_iff]%andb_true_iff. unfold mem at 1. rewrite bool_decide_eq_true.
  intros [->|[->|[]%not_elem_of_nil]%elem_of_cons]%elem_of_cons; unfold visit_Name.
  - apply negb_true_iff in H1. by rewrite H1.
  - apply negb_true_iff in H2. by rewrite H2.
Qed.

(** An expression that is classified as boolean, and evaluates, yields a
    boolean, on every context: gates may demand the route labels true and false
    for it. *)
Theorem boolean_expression_yields_bool e v :
  helpers_unshadowed = true -> is_boolean_node e = true -> evaluate names ctx e = Val v -> exists b, v = VBool b.
Proof.
  intros Hn Hb Hv. assert (Ev : visit names ctx e = Val v) by (unfold evaluate in Hv; by repeat case_match). clear Hv.
  revert v Hb Ev. induction e as [e IH] using expr_children_ind. intros v Hb Ev. destruct e; cbn in Hb; try done; cbn -[arity_ok] in Ev.
  - destruct e; try done. destruct (negb _); [done|]. returned.
    match goal with E : visit _ _ (Name _) = _ |- _ => cbn in E; rewrite helper_name in E by done; simplify_eq end.
    unfold apply_function in *. returned. by eapply helper_boolean.
  - returned. by eapply compare_boolean.
  - apply bool_chain_result in Ev as (x & Hx & Ex). eapply IH; [by cbn| |done].
    rewrite forallb_forall in Hb. by apply Hb, list_elem_of_In.
  - destruct op; try done. returned. unfold apply_unop in *. returned. subst. eauto.
  - destruct c; try done. cbn in Ev. simplify_eq. eauto.
  - apply andb_true_iff in Hb as [Hb1 Hb2]. returned.
    case_match; (eapply IH; [| |eassumption]; [set_unfold; cbn; tauto|done]).
Qed.
End boolean.

(** ** Sets *)
Section sets.
Context `{PyOps} (names : list string).

(** No set inside a value. *)
Fixpoint set_free (v : value) : bool :=
  match v with
  | VSet _ => false
  | VList l | VTuple l => forallb set_free l
  | VDict l => forallb (fun kv => set_free kv.1 && set_free kv.2) l
  | VRow l => forallb (fun kv => set_free kv.2) l
  | VGet r => set_free r
  | _ => true
  end.

(** Python's operations make no set of operands that have none; unary
    operators and the string and numeric builtins never yield one. *)
Class PySets : Prop := {
  sets_binop op l r v : py_binop op l r = Return v -> set_free l = true -> set_free r = true -> set_free v = true;
  sets_neg w v : py_neg w = Return v -> set_free v = true;
  sets_pos w v : py_pos w = Return v -> set_free v = true;
  sets_getitem w k v : py_getitem w k = Return v -> set_free w = true -> set_free v = true;
  sets_call f args v : py_call f args = Return v -> set_free v = true;
}.

Context `{PySets}.

Lemma row_get_free row k v : set_free (VRow row) = true -> dict_get row k = Some v -> set_free v = true.
Proof.
  cbn. induction row as [|[k' w] l IH]; cbn; [done|]. intros [Hw Hl]%andb_true_iff. case_bool_decide; [congruence|]. by apply IH.
Qed.

Lemma dict_lookup_free l k v : dict_lookup l k = Return (Some v) -> set_free (VDict l) = true -> set_free v = true.
Proof.
  unfold dict_lookup. case_match; [|done]. intros [= E] Hl. cbn in Hl. rewrite forallb_forall in Hl.
  apply fmap_Some in E as ([a b] & E & ->). apply bind_Some in E as ([i [a' b']] & Hf & [= <- <-]).
  apply list_find_Some in Hf as (Hi & _ & _). apply list_elem_of_lookup_2, list_elem_of_In, Hl, andb_true_iff in Hi. by destruct Hi.
Qed.

Lemma row_lookup_free row k v : set_free (VRow row) = true -> row_lookup row k = Return (Some v) -> set_free v = true.
Proof. unfold row_lookup. intros Hr E. destruct k; try (by case_match). simplify_eq. by eapply row_get_free. Qed.

Lemma getitem_free w k v : getitem w k = Return v -> set_free w = true -> set_free v = true.
Proof.
  intros E Hw. destruct w; cbn in E; try (by eapply sets_getitem); unfold or_key_error in E;
    repeat case_match; simplify_eq; eauto using dict_lookup_free, row_lookup_free.
Qed.

Lemma call_free f args v : call f args = Return v -> set_free f = true -> set_free v = true.
Proof.
  intros E Hf. destruct f as [| | | | | | | | | |name|r|]; cbn in E; try done.
  - repeat (case_match; try done; simplify_eq); try (by eapply sets_call);
      unfold starts_with, word_count, decimal_within in E; repeat case_match; by simplify_eq.
  - unfold or_none in E. repeat (case_match; try done; simplify_eq); cbn in *;
      match goal with |- context [default _ ?o] => destruct o eqn:? end; cbn; eauto using dict_lookup_free, row_lookup_free.
Qed.

Lemma eval_list_free ev l vs :
  eval_list ev l = Val vs -> (forall x v, x ∈ l -> ev x = Val v -> set_free v = true) -> forallb set_free vs = true.
Proof.
  revert vs. induction l as [|x l IH]; cbn; intros vs E Hl; [by simplify_eq|]. returned. simplify_eq. cbn.
  rewrite (Hl x) by (done || by left). cbn. eapply IH; [done|]. intros y v Hy. apply Hl. by right.
Qed.

Lemma dict_put_free d k v :
  set_free (VDict d) = true -> set_free k = true -> set_free v = true -> set_free (VDict (dict_put d k v)) = true.
Proof.
  cbn. intros Hd Hk Hv. induction d as [|[k' v'] d IH]; cbn in *; [by rewrite Hk, Hv|].
  apply andb_true_iff in Hd as [[Hk' Hv']%andb_true_iff Hd]. case_match; cbn; rewrite ?Hk', ?Hv', ?Hv, ?IH, ?Hd; done.
Qed.

Lemma build_dict_free ev items d v :
  build_dict ev items d = Val v -> set_free (VDict d) = true ->
  (forall x v, x ∈ omap fst items ++ map snd items -> ev x = Val v -> set_free v = true) -> set_free v = true.
Proof.
  revert d. induction items as [|[[k|] x] items IH]; cbn [build_dict]; intros d E Hd Hl; [congruence| |done].
  returned. case_match; [|done]. eapply IH; [done| |].
  - apply dict_put_free; [done| |]; (eapply Hl; [|eassumption]); cbn; set_solver.
  - intros y w Hy. apply Hl. cbn. set_solver.
Qed.

Lemma existsb_false {A} (p : A -> bool) l : existsb p l = false <-> forall x, x ∈ l -> p x = false.
Proof.
  induction l as [|y l IH]; cbn; [split; [by intros _ x []%not_elem_of_nil|done]|]. rewrite orb_false_iff, IH.
  split; [by intros [Hy Hl] x [->|Hx]%elem_of_cons; auto|]. intros Hl. split; [apply Hl; by left|]. intros x Hx. apply Hl. by right.
Qed.

Lemma visit_name_free row id v : set_free (VRow row) = true -> visit_Name names (SingleName row) id = Val v -> set_free v = true.
Proof. unfold visit_Name. intros Hr E. repeat (case_match; simplify_eq; try done). Qed.

Lemma attribute_free row e w attr v : visit_attribute names (SingleName row) e w attr = Val v -> set_free w = true -> set_free v = true.
Proof. unfold visit_attribute, get_attribute. intros E Hw. case_match; [|done]. destruct w; simplify_eq; done. Qed.

Lemma binop_free op l r v : apply_binop op l r = Val v -> set_free l = true -> set_free r = true -> set_free v = true.
Proof. unfold apply_binop. intros E Hl Hr. case_match; [done|]. returned. subst. by eapply sets_binop. Qed.

Lemma unop_free op w v : apply_unop op w = Val v -> set_free v = true.
Proof. destruct op; cbn; intros E; returned; subst; simplify_eq; eauto using sets_neg, sets_pos. Qed.

(** The function of a validated call is a name, or [get] of one. *)
Lemma call_function_set a b c f args kws : validate names a b c (Call f args kws) = [] -> set_reaches_value f = false.
Proof.
  cbn -[mem]. intros Hv. destruct f; try done; try discriminate. unfold is_get in Hv. by destruct f.
Qed.

(** Where a set cannot reach the value of a validated expression, evaluating
    it on a row without sets yields a value without sets, however deeply one
    looks: a stored result has a canonical order. *)
Theorem cleared_value_has_no_set allowed parsed row e v :
  set_free (VRow row) = true -> init allowed parsed = inr (names, e) -> set_reaches_value e = false ->
  evaluate names (SingleName row) e = Val v -> set_free v = true.
Proof.
  intros Hrow Hval%init_validates Hs Hv. unfold validates in Hval.
  assert (Ev : visit names (SingleName row) e = Val v) by (unfold evaluate in Hv; by repeat case_match). clear Hv.
  revert Hval. generalize false at 1 as a. generalize false at 1 as b. generalize false at 1 as c. intros c b a Hval.
  revert a b c v Hval Hs Ev. induction e as [e IH] using expr_children_ind. intros a b c v Hval Hs Ev.
  assert (Hsub : forall x w, x ∈ subexprs e -> set_reaches_value x = false -> visit names (SingleName row) x = Val w -> set_free w = true).
  { intros x w Hx Hsx Ex. destruct (validate_sub _ _ _ _ _ _ Hval Hx) as (a' & b' & c' & Hx'). by eapply IH. }
  clear IH. destruct e; cbn in Hsub; cbn -[arity_ok visit_attribute apply_unop apply_binop] in Ev; cbn in Hs; try done;
    rewrite ?orb_false_iff, ?existsb_false in Hs; returned.
  - by eapply visit_name_free.
  - unfold subscript in *. returned. eapply getitem_free; [eassumption|]. eapply Hsub; [by left|tauto|done].
  - eapply attribute_free; [eassumption|]. eapply Hsub; [by left|done|done].
  - destruct (match e with Name _ => _ | _ => _ end); [done|]. returned. unfold apply_function in *. returned.
    eapply call_free; [eassumption|]. eapply Hsub; [by left| |eassumption]. by eapply call_function_set.
  - by match goal with E : compare_chain _ _ _ = _ |- _ => apply compare_boolean in E as [? ->] end.
  - apply bool_chain_result in Ev as (x & Hx & Ex). by eapply Hsub; [|apply Hs|].
  - eapply binop_free; [eassumption|eapply Hsub; [| |eassumption]; [set_unfold; tauto|tauto]..].
  - by eapply unop_free.
  - subst. by destruct c0.
  - simplify_eq. eapply eval_list_free; [eassumption|]. intros y w Hy. apply Hsub; auto.
  - destruct (existsb _ _); [done|]. eapply build_dict_free; [eassumption|done|]. intros x w Hx. apply Hsub; [done|].
    destruct Hs as [Hk Hx']. apply elem_of_app in Hx as [([k y] & Hx & E)%list_elem_of_omap|([k y] & -> & Hx)%list_elem_of_fmap].
    + specialize (Hk _ Hx). cbn in *. by subst.
    + by apply (Hx' (k, y)).
  - simplify_eq. eapply eval_list_free; [eassumption|]. intros y w Hy. apply Hsub; auto.
  - case_match; (eapply Hsub; [| |eassumption]; [set_unfold; tauto|tauto]).
Qed.
End sets.

(** ** The fields that an expression reads *)
Section reads.
Context `{PyOps}.

(** The keys inside the receiver of a subscript are constants: no name hides in
    [row['a'][KEY]['x']] or [row.get(KEY)['x']]. *)
Fixpoint plain_receiver (e : expr) : bool :=
  match e with
  | Name _ => true
  | Subscript v k => is_constant_expression k && plain_receiver v
  | Call _ args _ => forallb is_constant_expression args
  | _ => true
  end.

Definition plain_receivers (e : expr) : bool :=
  forallb (fun x => match x with Subscript v _ => plain_receiver v | _ => true end) (walk e).

(** The loops agree where their operands do. *)
Section agree.
Variables ev1 ev2 : expr -> eres value.

Lemma eval_list_agree l : (forall x, x ∈ l -> ev1 x = ev2 x) -> eval_list ev1 l = eval_list ev2 l.
Proof.
  induction l as [|x l IH]; cbn; [done|]. intros Hl. rewrite (Hl x), IH; [done| |by left]. intros y Hy. apply Hl. by right.
Qed.

Lemma compare_agree l rest : (forall x, x ∈ map snd rest -> ev1 x = ev2 x) -> compare_chain ev1 l rest = compare_chain ev2 l rest.
Proof.
  revert l. induction rest as [|[op x] rest IH]; cbn; intros l Hl; [done|]. rewrite (Hl x) by (by left).
  destruct (ev2 x) as [r|]; cbn; [|done]. destruct (handle _ _) as [[]|]; cbn; try done. apply IH. intros y Hy. apply Hl. by right.
Qed.

Lemma bool_agree op vs : (forall x, x ∈ vs -> ev1 x = ev2 x) -> bool_chain ev1 op vs = bool_chain ev2 op vs.
Proof.
  induction vs as [|x vs IH]; cbn; [done|]. intros Hl. rewrite (Hl x) by (by left). destruct (ev2 x); cbn; [|done].
  destruct vs; [done|]. rewrite IH; [done|]. intros z Hz. apply Hl. by right.
Qed.

Lemma dict_agree items d :
  (forall x, x ∈ omap fst items ++ map snd items -> ev1 x = ev2 x) -> build_dict ev1 items d = build_dict ev2 items d.
Proof.
  revert d. induction items as [|[[k|] x] items IH]; intros d Hl; [done| |done]. cbn [build_dict].
  rewrite (Hl k), (Hl x) by (cbn; set_solver). destruct (ev2 k); cbn; [|done]. destruct (ev2 x); cbn; [|done].
  case_match; [|done]. apply IH. intros y Hy. apply Hl. cbn. set_solver.
Qed.

Lemma set_agree l s : (forall x, x ∈ l -> ev1 x = ev2 x) -> build_set ev1 l s = build_set ev2 l s.
Proof.
  revert s. induction l as [|x l IH]; cbn; intros s Hl; [done|]. rewrite (Hl x) by (by left). destruct (ev2 x); cbn; [|done].
  case_match; [|done]. apply IH. intros y Hy. apply Hl. by right.
Qed.
End agree.

(** Evaluation on two contexts of the same mode agrees where it agrees on the
    names and on what lies below. *)
Lemma visit_congruence names c1 c2 e :
  single_name_mode c1 = single_name_mode c2 -> (forall id, e = Name id -> visit_Name names c1 id = visit_Name names c2 id) ->
  (forall x, x ∈ subexprs e -> visit names c1 x = visit names c2 x) -> visit names c1 e = visit names c2 e.
Proof.
  intros Hm Hn Hsub. destruct e; cbn in Hsub; cbn [visit]; try done.
  - by apply Hn.
  - by rewrite (Hsub e1), (Hsub e2) by set_solver.
  - rewrite (Hsub e) by (by left). unfold visit_attribute. by rewrite Hm.
  - rewrite (Hsub e), (eval_list_agree (visit names c1) (visit names c2) args); [done| |by left]. intros x Hx. apply Hsub. set_solver.
  - rewrite (Hsub e) by (by left). destruct (visit names c2 e); cbn; [|done]. apply compare_agree. intros x Hx. apply Hsub. by right.
  - by apply bool_agree.
  - by rewrite (Hsub e1), (Hsub e2) by set_solver.
  - by rewrite (Hsub e) by (by left).
  - by rewrite (eval_list_agree (visit names c1) (visit names c2) elts).
  - f_equal. destruct (existsb _ _); [done|]. by apply dict_agree.
  - by rewrite (eval_list_agree (visit names c1) (visit names c2) elts).
  - f_equal. by apply set_agree.
  - by rewrite (Hsub e1), (Hsub e2), (Hsub e3) by set_solver.
Qed.

(** A key that an error message may name is config text: an expression that
    reads no allowed name evaluates to the same value, or the same error, on
    every row and in every namespace. *)
Theorem spelled_out_key_is_config names c1 c2 e :
  single_name_mode c1 = single_name_mode c2 -> key_is_spelled_out names e = true -> visit names c1 e = visit names c2 e.
Proof.
  intros Hm. unfold key_is_spelled_out. induction e as [e IH] using expr_children_ind. intros Hk.
  apply visit_congruence; [done| |by eauto using walk_forallb]. intros id ->. cbn -[mem] in Hk. unfold visit_Name.
  by destruct (mem id names).
Qed.

(** Two rows with the same values in the fields that a complete enumeration lists. *)
Context (r1 r2 : list (string * value)) (fs : list string).
Context (Hagree : forall f, f ∈ fs -> dict_get r1 f = dict_get r2 f).

Notation names := ["row"].
Notation ev1 := (visit names (SingleName r1)).
Notation ev2 := (visit names (SingleName r2)).

(** The direct reads of an expression are literal and listed. *)
Definition listed (e : expr) : Prop :=
  forall x f, x ∈ walk e -> f ∈ field_read "row" x -> exists s, f = Some s /\ s ∈ fs.

Lemma listed_sub e x : listed e -> x ∈ subexprs e -> listed x.
Proof. intros He Hx y f Hy. apply He. by eapply walk_sub. Qed.

Lemma listed_self e f : listed e -> f ∈ field_read "row" e -> exists s, f = Some s /\ s ∈ fs.
Proof. intros He. apply He, walk_self. Qed.

(** A direct read finds the same value in both rows. *)
Lemma read_subscript k : listed (Subscript (Name "row") k) -> ev1 (Subscript (Name "row") k) = ev2 (Subscript (Name "row") k).
Proof.
  intros He. destruct (listed_self _ (match k with Constant (CStr s) => Some s | _ => None end) He) as (s & Es & Hs); [cbn; by left|].
  destruct k as [| | | | | | | | |c| | | | | | |]; try done. destruct c; try done. injection Es as ->.
  change (subscript (VRow r1) (VStr s) = subscript (VRow r2) (VStr s)). unfold subscript, getitem, row_lookup.
  by rewrite (Hagree _ Hs).
Qed.

Lemma read_get args kws :
  listed (Call (Attribute (Name "row") "get") args kws) ->
  ev1 (Call (Attribute (Name "row") "get") args kws) = ev2 (Call (Attribute (Name "row") "get") args kws).
Proof.
  intros He.
  destruct (listed_self _ (match args with [Constant (CStr s)] => Some s | _ => None end) He) as (s & Es & Hs); [cbn; by left|].
  destruct args as [|[| | | | | | | | |c| | | | | | |] [|]]; try done; destruct c; try done. injection Es as ->.
  change (apply_function (VGet (VRow r1)) [VStr s] = apply_function (VGet (VRow r2)) [VStr s]).
  unfold apply_function, call, row_lookup. by rewrite (Hagree _ Hs).
Qed.

Lemma row_only id : mem id names = true -> id = "row".
Proof. unfold mem. rewrite bool_decide_eq_true. by intros ?%list_elem_of_singleton. Qed.

Lemma constant_agree e : is_constant_expression e = true -> ev1 e = ev2 e.
Proof. by destruct e. Qed.

Lemma get_row f : is_get names f = true -> f = Attribute (Name "row") "get".
Proof.
  destruct f as [| | |f attr| | | | | | | | | | | | |]; cbn -[mem]; try done. destruct f; try done.
  intros [->%row_only ->%bool_decide_eq_true]%andb_true_iff. done.
Qed.

Lemma name_or_not (e : expr) : {exists id, e = Name id} + {forall id, e <> Name id}.
Proof. destruct e; [left; by eexists|right; congruence..]. Qed.

(** A receiver other than the bare name has the same value on both rows. *)
Lemma receiver_agree v :
  is_allowed_derived names v = true -> plain_receiver v = true -> listed v -> (forall id, v <> Name id) -> ev1 v = ev2 v.
Proof.
  induction v as [v IH] using expr_children_ind. intros Hd Hp Hl Hn. destruct v as [id|v k| | |f args kws| | | | | | | | | | | |]; try done.
  - by destruct (Hn id).
  - cbn -[mem] in Hd, Hp. apply andb_true_iff in Hp as [Hk Hp].
    destruct (name_or_not v) as [[id ->]|Hv].
    + apply row_only in Hd as ->. by apply read_subscript.
    + cbn [visit]. rewrite (constant_agree k) by done. rewrite IH; [done|cbn; set_solver|done|done| |done].
      eapply listed_sub; [done|cbn; set_solver].
  - apply get_row in Hd as ->. by apply read_get.
Qed.

(** Validated under [row], an expression has the same value on both rows. *)
Lemma visit_agree e b :
  validate names false b false e = [] -> plain_receivers e = true -> listed e -> ev1 e = ev2 e.
Proof.
  revert b. induction e as [e IH] using expr_children_ind. intros b Hv Hp Hl.
  assert (Hsub : forall x b, x ∈ subexprs e -> validate names false b false x = [] -> ev1 x = ev2 x).
  { intros x b' Hx Hvx. eapply IH; [done|done|by eapply walk_forallb|by eapply listed_sub]. }
  clear IH. assert (Hcon : (forall x, x ∈ subexprs e -> exists b, validate names false b false x = []) -> (forall id, e <> Name id) ->
    ev1 e = ev2 e).
  { intros Hx Hn. apply visit_congruence; [done|by intros id ->; destruct (Hn id)|]. intros x Hin.
    destruct (Hx x Hin) as [b' ?]. by eapply Hsub. }
  destruct e; try (apply Hcon; [|done]; intros x Hx; exists b; by eapply validate_sub_same).
  - cbn -[mem SAFE_BUILTINS SAFE_CONSTANTS] in Hv. unfold visit, visit_Name.
    destruct (mem id names) eqn:Ei; [|done]. by apply row_only in Ei as ->.
  - cbn -[mem] in Hv. validated. destruct (name_or_not e1) as [[id ->]|Hn].
    { cbn -[mem] in *. rewrite (row_only id) in * by done. by apply read_subscript. }
    cbn in Hsub. cbn [visit]. rewrite (Hsub e2 b), (receiver_agree e1); try done; [| |set_solver].
    + unfold plain_receivers in Hp. cbn in Hp. by apply andb_true_iff in Hp as [? _].
    + eapply listed_sub; [done|]. cbn. set_solver.
  - cbn -[mem] in Hv. destruct (match e with Name id => _ | _ => _ end); validated; [|done].
    destruct (negb (attr == "get")); discriminate.
  - cbn -[mem SAFE_BUILTINS arity_ok is_get] in Hv. destruct (is_get names e) eqn:Eg; [apply get_row in Eg as ->; by apply read_get|].
    destruct (match e with Name id => _ | _ => _ end); [|done]. validated.
    apply Hcon; [|done]. cbn. intros x [->|[Hx|Hx]%elem_of_app]%elem_of_cons; [by exists true| |].
    + exists b. by eapply (flat_map_nil (fun x => validate names _ _ _ x)).
    + rewrite (negb_length_nil keywords) in Hx by (by apply negb_false_iff). by apply not_elem_of_nil in Hx.
Qed.

(** The enumeration of the fields that a validated expression reads is
    complete when it says so: two rows that agree on the listed fields give the
    same result, value or error, provided that the keys inside the receivers of
    subscripts are constants. *)
Theorem listed_fields_decide parsed e :
  init None parsed = inr (names, e) -> plain_receivers e = true -> static_field_reads "row" e = mkReads fs true ->
  evaluate names (SingleName r1) e = evaluate names (SingleName r2) e.
Proof.
  intros Hv%init_validates Hp Hr. unfold evaluate. rewrite (visit_agree e false); [done..|].
  unfold static_field_reads in Hr. injection Hr as Hf Hc. intros x f Hx Hf'. rewrite forallb_forall in Hc.
  assert (Hin : f ∈ flat_map (field_read "row") (walk e)).
  { apply list_elem_of_In, in_flat_map. exists x. by rewrite <- !list_elem_of_In. }
  destruct f as [s|]; [|by specialize (Hc None (proj1 (list_elem_of_In _ _) Hin))].
  exists s. split; [done|]. rewrite <- Hf. apply list_elem_of_omap. by exists (Some s).
Qed.
End reads.

(** ** Concrete operations and expressions *)
Module Concrete.

#[local] Instance rational_floats : Floats := { float := Q; isfinite _ := true; is_zero q := Qeq_bool q 0 }.

Definition binop (op : operator) (l r : value) : pyres value :=
  match op, l, r with
  | Add, VInt a, VInt b => Return (VInt (a + b))
  | Sub, VInt a, VInt b => Return (VInt (a - b))
  | Mult, VInt a, VInt b => Return (VInt (a * b))
  | FloorDiv, VInt a, VInt b => if b =? 0 then Throw PyZeroDivisionError else Return (VInt (a / b))
  | _, _, _ => Throw PyTypeError
  end.

Definition compare (op : cmpop) (l r : value) : pyres bool :=
  match op, l, r with
  | CmpEq, VInt a, VInt b => Return (a =? b)
  | CmpGt, VInt a, VInt b => Return (b <? a)
  | CmpEq, VStr a, VStr b => Return (a == b)
  | CmpIsNot, VNone, VNone => Return false
  | CmpIsNot, _, VNone => Return true
  | _, _, _ => Throw PyTypeError
  end.

Definition negate (v : value) : pyres value := match v with VInt n => Return (VInt (- n)) | _ => Throw PyTypeError end.

Definition keep (v : value) : pyres value := match v with VInt n => Return v | _ => Throw PyTypeError end.

Definition item (v k : value) : pyres value :=
  match v, k with
  | VList l, VInt n => match l !! Z.to_nat n with Some x => Return x | None => Throw PyIndexError end
  | _, _ => Throw PyTypeError
  end.

Definition builtin (f : string) (args : list value) : pyres value :=
  match args with
  | [VStr s] => if f == "len" then Return (VInt (Z.of_nat (String.length s))) else Throw PyTypeError
  | [VList l] => if f == "len" then Return (VInt (Z.of_nat (length l))) else Throw PyTypeError
  | [VRow l] => if f == "len" then Return (VInt (Z.of_nat (length l))) else Throw PyTypeError
  | _ => Throw PyTypeError
  end.

#[local] Instance integer_ops : PyOps := {
  py_binop := binop; py_compare := compare; py_neg := negate; py_pos := keep; py_getitem := item; py_call := builtin;
  py_same_key a b := match a, b with VStr a, VStr b => a == b | VInt a, VInt b => a =? b | _, _ => false end;
  py_words s := length (String.words s); py_decimal q := q }.

#[local] Instance integer_raises : PyRaises.
Proof.
  split; cbn; unfold binop, compare, negate, keep, item, builtin; intros; intros; repeat (case_match; try done); simplify_eq; done.
Qed.

#[local] Instance integer_sets : PySets.
Proof.
  split; cbn; unfold binop, negate, keep, item, builtin; intros; repeat (case_match; try done); simplify_eq; try done.
  match goal with Hf : set_free (VList _) = true |- _ => cbn in Hf; rewrite forallb_forall in Hf; apply Hf end.
  by eapply list_elem_of_In, list_elem_of_lookup_2.
Qed.

(** [row['n'] + len(row['items']) > 2 and not row.get('done')] *)
Definition field (s : string) : expr := Subscript (Name "row") (Constant (CStr s)).
Definition gate : expr :=
  BoolOp And [Compare (BinOp (field "n") Add (Call (Name "len") [field "items"] [])) [(CmpGt, Constant (CInt 2))];
              UnaryOp Not (Call (Attribute (Name "row") "get") [Constant (CStr "done")] [])].
Definition some_row (n : Z) (rest : list (string * value)) : list (string * value) :=
  [("n", VInt n); ("items", VList [VInt 7; VInt 8])] ++ rest.

Lemma validated_is_secure_witness :
  init None (Some gate) = inr (["row"], gate) /\
  evaluate ["row"] (SingleName (some_row 1 [])) gate <> Raise (ExpressionSecurityError "Unknown name").
Proof. split; [by vm_compute|]. apply (validated_is_secure None (Some gate)). by vm_compute. Defined.

Lemma validated_fails_cleanly_witness :
  well_formed gate = true /\ evaluate ["row"] (SingleName [("n", VInt 1)]) gate = Raise (ExpressionEvaluationError missing_key) /\
  ((exists v, evaluate ["row"] (SingleName (some_row 1 [])) gate = Val v) \/
   (exists k, evaluate ["row"] (SingleName (some_row 1 [])) gate = Raise (ExpressionEvaluationError k))).
Proof.
  split; [by vm_compute|]. split; [by vm_compute|]. by apply (validated_fails_cleanly (Some gate)); vm_compute.
Defined.

Lemma boolean_expression_yields_bool_witness : exists b, VBool true = VBool b :> value.
Proof. apply (boolean_expression_yields_bool ["row"] (SingleName (some_row 1 [])) gate); by vm_compute. Defined.

Lemma cleared_value_has_no_set_witness :
  set_reaches_value (ListE [field "n"; Call (Name "len") [field "items"] []]) = false /\ set_free (VList [VInt 1; VInt 2]) = true.
Proof.
  split; [by vm_compute|].
  apply (cleared_value_has_no_set ["row"] None (Some (ListE [field "n"; Call (Name "len") [field "items"] []]))
           (some_row 1 []) (ListE [field "n"; Call (Name "len") [field "items"] []])); by vm_compute.
Defined.

Lemma spelled_out_key_is_config_witness :
  visit ["row"] (SingleName (some_row 1 [])) (UnaryOp USub (Constant (CInt 1))) =
  visit ["row"] (SingleName []) (UnaryOp USub (Constant (CInt 1))).
Proof. apply spelled_out_key_is_config; by vm_compute. Defined.

Lemma listed_fields_decide_witness :
  evaluate ["row"] (SingleName (some_row 1 [])) gate = evaluate ["row"] (SingleName (some_row 1 [("other", VNone)])) gate.
Proof.
  apply (listed_fields_decide (some_row 1 []) (some_row 1 [("other", VNone)]) ["n"; "items"; "done"]) with (parsed := Some gate);
    try by vm_compute.
  intros f Hf. repeat (apply elem_of_cons in Hf as [->|Hf]; [by vm_compute|]). by apply not_elem_of_nil in Hf.
Defined.

(** [row['a'][len(row) - 1][0]]: the row escapes through a key inside a receiver. *)
Definition escaping : expr :=
  Subscript (Subscript (field "a") (BinOp (Call (Name "len") [Name "row"] []) Sub (Constant (CInt 1)))) (Constant (CInt 0)).

(** C39. The validator refuses a bare [row], but not inside the key of a
    receiver: there the reference that the outer subscript allows is still
    allowed.  Such an expression is constructed, its enumeration of fields says
    complete with the field [a] alone, and yet its value depends on the number
    of fields of the row. *)
Theorem bare_row_escapes :
  init None (Some escaping) = inr (["row"], escaping) /\
  static_field_reads "row" escaping = mkReads ["a"] true /\
  let a := VList [VList [VInt 5]; VList [VInt 6]] in
  evaluate ["row"] (SingleName [("a", a)]) escaping = Val (VInt 5) /\
  evaluate ["row"] (SingleName [("a", a); ("b", VNone)]) escaping = Val (VInt 6).
Proof. by vm_compute. Qed.
End Concrete.
