(* ===== verification/Contracts.v ===== *)
(** * Contracts: schema contracts and the rows that carry them

    [contracts/type_normalization.py], [schema_contract.py], [freeze.py],
    [contract_builder.py], [contract_propagation.py],
    [schema_contract_factory.py]: the types that a field may have, the contract
    of a node as an ordered list of fields with two name indices, the check of a
    row against it, inference and locking on the first row, propagation through
    transforms, checkpoints, and the row wrapper with access by either name. *)

From S2P Require Import Prelude.
Open Scope Z_scope.

(** ** Types and values *)

(** Python classes: those of [CONTRACT_TYPE_MAP], and any other by name. *)
Inductive pytype := Tint | Tstr | Tfloat | Tbool | TNone | Tdatetime | Tobject | Tother (name : string).

#[export] Instance pytype_eq_dec : EqDecision pytype.
Proof. solve_decision. Defined.

Definition CONTRACT_TYPE_MAP : list (string * pytype) :=
  [("int", Tint); ("str", Tstr); ("float", Tfloat); ("bool", Tbool); ("NoneType", TNone); ("datetime", Tdatetime);
   ("object", Tobject)].

Definition ALLOWED_CONTRACT_TYPES : list pytype := CONTRACT_TYPE_MAP.*2.

Definition allowed (t : pytype) : bool := bool_decide (t ∈ ALLOWED_CONTRACT_TYPES).

(** [t.__name__]. *)
Definition type_name (t : pytype) : string :=
  match t with
  | Tint => "int" | Tstr => "str" | Tfloat => "float" | Tbool => "bool" | TNone => "NoneType"
  | Tdatetime => "datetime" | Tobject => "object" | Tother name => name
  end.

(** A float is a dyadic number or one of the non-finite values. *)
Inductive pyfloat := Finite (mantissa exponent : Z) | PosInf | NegInf | NaN.

Definition is_finite (f : pyfloat) : bool := match f with Finite _ _ => true | _ => false end.

(** Values of a row: Python's scalars, the scalars of numpy and pandas that the
    code recognises, containers with their frozen counterparts, and instances
    of other classes. *)
Inductive pvalue :=
  | PNone | PInt (n : Z) | PStr (s : string) | PFloat (f : pyfloat) | PBool (b : bool) | PDatetime (t : Z) | PObject
  | PdNA | PdNaT | PdTimestamp (t : Z)
  | NpInteger (n : Z) | NpFloating (f : pyfloat) | NpBool (b : bool) | NpDatetime64 (t : option Z) | NpStr (s : string)
  | PDict (l : list (pvalue * pvalue)) | PList (l : list pvalue) | PSet (l : list pvalue)
  | PMappingProxy (l : list (pvalue * pvalue)) | PTuple (l : list pvalue) | PFrozenset (l : list pvalue)
  | PFrozenJsonArray (l : list pvalue)
  | POther (cls : string).

(** [type(value)].  The classes of numpy and pandas are none of Python's. *)
Definition py_type (v : pvalue) : pytype :=
  match v with
  | PNone => TNone | PInt _ => Tint | PStr _ => Tstr | PFloat _ => Tfloat | PBool _ => Tbool | PDatetime _ => Tdatetime
  | PObject => Tobject
  | PdNA => Tother "NAType" | PdNaT => Tother "NaTType" | PdTimestamp _ => Tother "Timestamp"
  | NpInteger _ => Tother "int64" | NpFloating _ => Tother "float64" | NpBool _ => Tother "bool_"
  | NpDatetime64 _ => Tother "datetime64" | NpStr _ => Tother "str_"
  | PDict _ => Tother "dict" | PList _ => Tother "list" | PSet _ => Tother "set"
  | PMappingProxy _ => Tother "mappingproxy" | PTuple _ => Tother "tuple" | PFrozenset _ => Tother "frozenset"
  | PFrozenJsonArray _ => Tother "FrozenJsonArray"
  | POther cls => Tother cls
  end.

(** The wrappers of numpy and pandas, as both classifiers treat them. *)
Definition unwrapped_type (v : pvalue) : option pytype :=
  match v with
  | PdNA | PdNaT | NpDatetime64 None => Some TNone
  | NpInteger _ => Some Tint
  | NpFloating _ => Some Tfloat
  | NpBool _ => Some Tbool
  | PdTimestamp _ | NpDatetime64 (Some _) => Some Tdatetime
  | NpStr _ => Some Tstr
  | _ => None
  end.

(** [None] in the result stands for [UNSUPPORTED_CONTRACT_TYPE]. *)
Definition normalize_type_for_contract (v : pvalue) : res (option pytype) :=
  match v with
  | PNone => Ok (Some TNone)
  | _ =>
      if negb (py_type v == Tfloat) && allowed (py_type v) then Ok (Some (py_type v))
      else
        reject match v with PFloat f | NpFloating f => negb (is_finite f) | _ => false end
          with ValueError "Cannot infer type from non-finite float" ;;
        match unwrapped_type v with
        | Some t => Ok (Some t)
        | None => if allowed (py_type v) then Ok (Some (py_type v)) else Ok None
        end
  end.

Definition infer_field_type (v : pvalue) : res (pytype * bool) :=
  t ← normalize_type_for_contract v;
  match t with
  | None => Ok (Tobject, false)
  | Some TNone => Ok (Tobject, true)
  | Some t => Ok (t, false)
  end.

Definition classify_runtime_type (v : pvalue) : pytype :=
  match v with
  | PNone => TNone
  | _ => if allowed (py_type v) then py_type v else default (py_type v) (unwrapped_type v)
  end.

Definition declared_type_admits (declared actual : pytype) : bool :=
  (actual == declared) || ((declared == Tfloat) && (actual == Tint)).

Definition declared_type_name_admits (declared actual : string) : res bool :=
  match dict_get CONTRACT_TYPE_MAP declared, dict_get CONTRACT_TYPE_MAP actual with
  | Some d, Some a => Ok (declared_type_admits d a)
  | _, _ => Err (KeyError "contract type name")
  end.

(** ** Freezing *)
Fixpoint deep_freeze (v : pvalue) : pvalue :=
  match v with
  | PDict l | PMappingProxy l => PMappingProxy (map (fun kv => (kv.1, deep_freeze kv.2)) l)
  | PList l | PTuple l => PTuple (map deep_freeze l)
  | PFrozenJsonArray l => PFrozenJsonArray (map deep_freeze l)
  | PSet l | PFrozenset l => PFrozenset (map deep_freeze l)
  | v => v
  end.

Fixpoint deep_thaw (v : pvalue) : pvalue :=
  match v with
  | PMappingProxy l | PDict l => PDict (map (fun kv => (kv.1, deep_thaw kv.2)) l)
  | PTuple l | PFrozenJsonArray l | PFrozenset l | PList l => PList (map deep_thaw l)
  | v => v
  end.

(** ** Fields *)

(** The literals of the source are not enforced when a record is built. *)
Inductive field_source := declared | inferred | other_source (name : string).
Inductive schema_mode := FIXED | FLEXIBLE | OBSERVED | other_mode (name : string).

#[export] Instance field_source_eq_dec : EqDecision field_source.
Proof. solve_decision. Defined.
#[export] Instance schema_mode_eq_dec : EqDecision schema_mode.
Proof. solve_decision. Defined.

Record FieldContract := mkField {
  normalized_name : string;
  original_name : string;
  python_type : pytype;
  required : bool;
  source : field_source;
  nullable : bool;
}.

#[export] Instance FieldContract_eq_dec : EqDecision FieldContract.
Proof. solve_decision. Defined.

(** [FieldContract.__post_init__]. *)
Definition field_contract (f : FieldContract) : res FieldContract :=
  reject negb (allowed (python_type f)) with TypeError "Invalid python_type for FieldContract" ;; Ok f.

(** [FieldContract.inferred]. *)
Definition inferred_field (normalized original : string) (v : pvalue) : res FieldContract :=
  t ← infer_field_type v;
  field_contract (mkField normalized original t.1 false inferred t.2).

(** ** Contracts *)
Record SchemaContract := mkContract {
  mode : schema_mode;
  fields : list FieldContract;
  locked : bool;
}.

#[export] Instance SchemaContract_eq_dec : EqDecision SchemaContract.
Proof. solve_decision. Defined.

Definition names (fs : list FieldContract) : list string := map normalized_name fs.
Definition originals (fs : list FieldContract) : list string := map original_name fs.

(** [SchemaContract.__post_init__]: both kinds of name are unique. *)
Definition schema_contract (m : schema_mode) (fs : list FieldContract) (l : bool) : res SchemaContract :=
  reject negb (bool_decide (NoDup (names fs))) with ValueError "Duplicate normalized_name in fields" ;;
  reject negb (bool_decide (NoDup (originals fs))) with ValueError "Duplicate original_name in fields" ;;
  Ok (mkContract m fs l).

Section contract.
Context (c : SchemaContract).

Definition by_normalized : list (string * FieldContract) := map (fun f => (normalized_name f, f)) (fields c).
Definition by_original : list (string * string) := map (fun f => (original_name f, normalized_name f)) (fields c).

Definition find_name (key : string) : option string :=
  if dict_mem by_normalized key then Some key else dict_get by_original key.

Definition resolve_name (key : string) : res string :=
  match find_name key with Some n => Ok n | None => Err (KeyError "not found in schema contract") end.

Definition find_field (n : string) : option FieldContract := dict_get by_normalized n.

Definition get_field (n : string) : res FieldContract :=
  match find_field n with Some f => Ok f | None => Err (KeyError "not found in schema contract") end.

Definition required_field_names : list string := names (filter required (fields c)).

Definition with_locked : res SchemaContract := schema_contract (mode c) (fields c) true.

Definition with_field (normalized original : string) (v : pvalue) : res SchemaContract :=
  reject dict_mem by_normalized normalized with TypeError "Field already exists in contract" ;;
  f ← inferred_field normalized original v;
  schema_contract (mode c) (fields c ++ [f]) (locked c).
End contract.

(** ** Validation *)
Notation rowdata := (list (string * pvalue)).

Inductive ContractViolation :=
  | MissingFieldViolation (normalized original : string)
  | TypeMismatchViolation (normalized original : string) (expected actual : pytype) (v : pvalue)
  | ExtraFieldViolation (normalized original : string).

Definition validate_field (r : rowdata) (f : FieldContract) : list ContractViolation :=
  match dict_get r (normalized_name f) with
  | None => if required f then [MissingFieldViolation (normalized_name f) (original_name f)] else []
  | Some v =>
      if python_type f == Tobject then []
      else if match v with PNone => true | _ => false end && (negb (required f) || nullable f) then []
      else
        let actual := classify_runtime_type v in
        if declared_type_admits (python_type f) actual then []
        else [TypeMismatchViolation (normalized_name f) (original_name f) (python_type f) actual v]
  end.

Definition extra_fields (c : SchemaContract) (r : rowdata) : list ContractViolation :=
  if mode c == FIXED then
    flat_map (fun kv => if bool_decide (kv.1 ∈ names (fields c)) then [] else [ExtraFieldViolation kv.1 kv.1]) r
  else [].

Definition validate (c : SchemaContract) (r : rowdata) : list ContractViolation :=
  flat_map (validate_field r) (fields c) ++ extra_fields c r.

(** ** Hashes and checkpoints *)

(** What a hash covers, field by field in the order of the names. *)
Definition hash_row : Type := string * string * string * bool * field_source * bool.
Definition hash_content : Type := schema_mode * bool * list hash_row.

Definition by_name (f g : FieldContract) : bool := String.leb (normalized_name f) (normalized_name g).

Definition field_def (f : FieldContract) : hash_row :=
  (normalized_name f, original_name f, type_name (python_type f), required f, source f, nullable f).

(** [canonical_json], SHA-256 and the cut to 32 digits. *)
Class Digest := { digest : hash_content -> string }.

Section checkpoint.
Context `{Digest}.

Definition version_hash (c : SchemaContract) : string :=
  digest (mode c, locked c, map field_def (sort_by by_name (fields c))).

(** The dict of a checkpoint: every key may be missing, but the values have the
    JSON types that the writer gives them. *)
Record field_checkpoint := mkFieldCk {
  k_normalized_name : option string; k_original_name : option string; k_python_type : option string;
  k_required : option bool; k_source : option field_source; k_nullable : option bool }.
Record checkpoint := mkCk {
  k_mode : option schema_mode; k_locked : option bool; k_version_hash : option string;
  k_fields : option (list field_checkpoint) }.

Definition field_to_checkpoint (f : FieldContract) : field_checkpoint :=
  mkFieldCk (Some (normalized_name f)) (Some (original_name f)) (Some (type_name (python_type f))) (Some (required f))
    (Some (source f)) (Some (nullable f)).

Definition to_checkpoint_format (c : SchemaContract) : checkpoint :=
  mkCk (Some (mode c)) (Some (locked c)) (Some (version_hash c)) (Some (map field_to_checkpoint (fields c))).

Definition corrupt {A} (o : option A) : res A :=
  match o with Some a => Ok a | None => Err (AuditIntegrityError "Corrupt SchemaContract checkpoint: missing key") end.

Definition restore_field (f : field_checkpoint) : res FieldContract :=
  t ← corrupt (k_python_type f);
  match dict_get CONTRACT_TYPE_MAP t with
  | None => Err (AuditIntegrityError "Corrupt SchemaContract checkpoint: unknown python_type")
  | Some ty =>
      n ← corrupt (k_normalized_name f);
      o ← corrupt (k_original_name f);
      r ← corrupt (k_required f);
      s ← corrupt (k_source f);
      nl ← corrupt (k_nullable f);
      field_contract (mkField n o ty r s nl)
  end.

Fixpoint mapM_res {A B} (g : A -> res B) (l : list A) : res (list B) :=
  match l with
  | [] => Ok []
  | x :: l => y ← g x; ys ← mapM_res g l; Ok (y :: ys)
  end.

Definition from_checkpoint (k : checkpoint) : res SchemaContract :=
  raw ← corrupt (k_fields k);
  fs ← mapM_res restore_field raw;
  m ← corrupt (k_mode k);
  l ← corrupt (k_locked k);
  c ← schema_contract m fs l;
  expected ← corrupt (k_version_hash k);
  reject negb (version_hash c == expected) with AuditIntegrityError "Contract integrity violation: hash mismatch" ;;
  Ok c.
End checkpoint.

(** ** Rows with contracts *)
Record PipelineRow := mkRow { data : rowdata; contract : SchemaContract }.

(** [PipelineRow.__init__]: the values are frozen. *)
Definition freeze_row (r : rowdata) : rowdata := map (fun kv => (kv.1, deep_freeze kv.2)) r.
Definition thaw_row (r : rowdata) : rowdata := map (fun kv => (kv.1, deep_thaw kv.2)) r.

Definition pipeline_row (r : rowdata) (c : SchemaContract) : PipelineRow := mkRow (freeze_row r) c.

Section pipeline_row.
Context (p : PipelineRow).

Definition extras_readable : bool := (mode (contract p) == FLEXIBLE) || (mode (contract p) == OBSERVED).

Definition getitem (key : string) : res pvalue :=
  let fallback :=
    if extras_readable then
      match dict_get (data p) key with Some v => Ok v | None => Err (KeyError "row") end
    else Err (KeyError "row") in
  match find_name (contract p) key with
  | Some n => match dict_get (data p) n with Some v => Ok v | None => fallback end
  | None => fallback
  end.

(** [__getattr__]; [None] is an AttributeError. *)
Definition getattr_row (key : string) : option pvalue :=
  if String.prefix "_" key then None else match getitem key with Ok v => Some v | Err _ => None end.

Definition contains (key : string) : bool :=
  match find_name (contract p) key with
  | Some n => dict_mem (data p) n
  | None => extras_readable && dict_mem (data p) key
  end.

Definition get (key : string) (dflt : pvalue) : pvalue := match getitem key with Ok v => v | Err _ => dflt end.

Definition name_index : list (string * string) :=
  let candidates := flat_map (fun f => [normalized_name f; original_name f]) (fields (contract p)) ++ map fst (data p) in
  fold_left (fun index key =>
    match find_name (contract p) key with
    | Some n =>
        if dict_mem (data p) n then dict_set index key n
        else if extras_readable && dict_mem (data p) key then dict_set index key key else index
    | None => if extras_readable && dict_mem (data p) key then dict_set index key key else index
    end) candidates [].

Definition to_dict : rowdata := thaw_row (data p).

(** [__copy__] and [__deepcopy__]. *)
Definition copy : PipelineRow := pipeline_row to_dict (contract p).
End pipeline_row.

Section row_checkpoint.
Context `{Digest}.

Record row_ck := mkRowCk { r_data : option rowdata; r_contract_version : option string }.

Definition row_to_checkpoint (p : PipelineRow) : row_ck := mkRowCk (Some (to_dict p)) (Some (version_hash (contract p))).

Definition row_from_checkpoint (k : row_ck) (registry : list (string * SchemaContract)) : res PipelineRow :=
  match r_contract_version k with
  | None => Err (AuditIntegrityError "Corrupt PipelineRow checkpoint: missing 'contract_version'")
  | Some version =>
      match dict_get registry version with
      | None => Err (AuditIntegrityError "Contract version not in registry")
      | Some c =>
          match r_data k with
          | None => Err (AuditIntegrityError "Corrupt PipelineRow checkpoint: missing 'data'")
          | Some d => Ok (pipeline_row d c)
          end
      end
  end.
End row_checkpoint.

(** What a loop that may raise returns. *)
Lemma mapM_res_ok {A B} (g : A -> res B) l ys : mapM_res g l = Ok ys <-> Forall2 (fun x y => g x = Ok y) l ys.
Proof.
  revert ys. induction l as [|x l IH]; intros ys; cbn.
  - split; [intros [= <-]; constructor|]. by inversion 1.
  - rewrite bind_ok. setoid_rewrite bind_ok. split.
    + intros (y & Hy & zs & Hz & [= <-]). constructor; [done|]. by apply IH.
    + inversion 1; subst. eexists. split; [done|]. eexists. rewrite IH. by split.
Qed.
