(* ===== verification/ContractFlow.v ===== *)
(** * ContractFlow: how contracts arise and travel

    [contracts/contract_builder.py]: inference and locking on the first row,
    and sparse fields after it; [schema_contract_factory.py]: contracts from
    configuration; [contract_propagation.py]: contracts through transforms;
    [contract_records.py]: the audit record of a contract as JSON. *)

From S2P Require Import Prelude Contracts.
Open Scope Z_scope.

(** ** The builder *)
Definition MAX_INFERRED_CONTRACT_FIELDS : nat := 1024.

(** [_normalized_to_original]. *)
Fixpoint normalized_to_original_loop (resolution acc : list (string * string)) : res (list (string * string)) :=
  match resolution with
  | [] => Ok acc
  | (orig, norm) :: rest =>
      reject dict_mem acc norm with ValueError "field_resolution collision" ;;
      normalized_to_original_loop rest (dict_set acc norm orig)
  end.

Definition normalized_to_original (resolution : list (string * string)) : res (list (string * string)) :=
  normalized_to_original_loop resolution [].

(** The loop of [_infer_missing_fields] over the row. *)
Fixpoint infer_loop (to_original : list (string * string)) (c : SchemaContract) (r : rowdata) : res SchemaContract :=
  match r with
  | [] => Ok c
  | (n, v) :: r =>
      if bool_decide (n ∈ names (fields c)) then infer_loop to_original c r
      else
        match dict_get to_original n with
        | None => Err (KeyError "field_resolution")
        | Some original =>
            f ← inferred_field n original v;
            c ← schema_contract (mode c) (fields c ++ [f]) (locked c);
            infer_loop to_original c r
        end
  end.

Definition infer_missing_fields (c : SchemaContract) (r : rowdata) (resolution : list (string * string)) (enforce_field_cap : bool)
  : res SchemaContract :=
  to_original ← normalized_to_original resolution;
  let missing := filter (fun n => n ∉ names (fields c)) (map fst r) in
  reject enforce_field_cap && (MAX_INFERRED_CONTRACT_FIELDS <? length (remove_dups (names (fields c))) + length missing)%nat
    with ValueError "row exceeds maximum inferred schema fields" ;;
  infer_loop to_original c r.

Definition refuse_uninferable_width (c : SchemaContract) (field_names : list string) : res unit :=
  if locked c then Ok tt
  else
    let width := length (remove_dups (names (fields c) ++ field_names)) in
    reject (MAX_INFERRED_CONTRACT_FIELDS <? width)%nat with ValueError "observed and flexible schemas infer at most" ;; Ok tt.

Definition process_first_row (c : SchemaContract) (r : rowdata) (resolution : list (string * string)) : res SchemaContract :=
  if locked c then Ok c
  else
    c ← infer_missing_fields c r resolution true;
    with_locked c.

Definition process_sparse_fields (c : SchemaContract) (r : rowdata) (resolution : list (string * string)) : res SchemaContract :=
  if mode c == FIXED then Ok c else infer_missing_fields c r resolution true.

(** ** From configuration *)
Definition FIELD_TYPE_MAP : list (string * pytype) :=
  [("int", Tint); ("str", Tstr); ("float", Tfloat); ("bool", Tbool); ("any", Tobject)].

(** [FieldDefinition] and the parts of [SchemaConfig] that contracts use. *)
Record FieldDefinition := mkDef { fd_name : string; fd_type : string; fd_required : bool; fd_nullable : bool }.
Record SchemaConfig := mkConfig {
  cfg_mode : string;
  cfg_fields : option (list FieldDefinition);
  cfg_guaranteed_fields : option (list string);
  cfg_audit_fields : option (list string);
}.

#[export] Instance FieldDefinition_eq_dec : EqDecision FieldDefinition.
Proof. solve_decision. Defined.

Definition field_definition_python_type (fd : FieldDefinition) : res pytype :=
  match dict_get FIELD_TYPE_MAP (fd_type fd) with Some t => Ok t | None => Err (KeyError "field_type") end.

Definition field_type_name (t : pytype) : res string :=
  match dict_get (map (fun p => (p.2, p.1)) FIELD_TYPE_MAP) t with Some n => Ok n | None => Err (KeyError "python_type") end.

(** [mode.upper()]. *)
Definition upper_ascii (a : Ascii.ascii) : Ascii.ascii :=
  let n := Ascii.nat_of_ascii a in if ((97 <=? n) && (n <=? 122))%nat then Ascii.ascii_of_nat (n - 32) else a.
Fixpoint upper (s : string) : string :=
  match s with EmptyString => EmptyString | String a s => String (upper_ascii a) (upper s) end.

Definition map_schema_mode (m : string) : schema_mode :=
  match upper m with "FIXED" => FIXED | "FLEXIBLE" => FLEXIBLE | "OBSERVED" => OBSERVED | other => other_mode other end.

Definition field_of_definition (to_original : list (string * string)) (fd : FieldDefinition) : res FieldContract :=
  t ← field_definition_python_type fd;
  field_contract (mkField (fd_name fd) (default (fd_name fd) (dict_get to_original (fd_name fd))) t (fd_required fd) declared
                    (fd_nullable fd)).

Definition create_contract_from_config (cfg : SchemaConfig) (resolution : option (list (string * string))) : res SchemaContract :=
  let m := map_schema_mode (cfg_mode cfg) in
  reject match m with other_mode _ => true | _ => false end with ValueError "Invalid schema mode" ;;
  reject negb (m == OBSERVED) && is_none (cfg_fields cfg) with ValueError "Schema mode requires explicit field definitions" ;;
  to_original ← match resolution with
                | Some (x :: rest) => normalized_to_original (x :: rest)
                | _ => Ok []
                end;
  fs ← match cfg_fields cfg with
       | Some fds => mapM_res (field_of_definition to_original) fds
       | None => Ok []
       end;
  schema_contract m fs (m == FIXED).

(** ** Through transforms *)
Definition propagate_contract (c : SchemaContract) (output : rowdata) (transform_adds_fields : bool) : res SchemaContract :=
  if negb transform_adds_fields then Ok c
  else
    new ← mapM_res (fun kv => inferred_field kv.1 kv.1 kv.2) (filter (fun kv => kv.1 ∉ names (fields c)) output);
    match new with
    | [] => Ok c
    | _ => schema_contract (mode c) (fields c ++ new) true
    end.

(** [renamed_field_from_source]: the field under its new name. *)
Definition renamed_field (c : SchemaContract) (target source_name : string) : res FieldContract :=
  match find_name c source_name with
  | None => Err (ValueError "Renamed field target refers to unknown source field")
  | Some n =>
      match find_field c n with
      | None => Err (ValueError "Renamed field target refers to unresolved source field")
      | Some f => field_contract (mkField target (original_name f) (python_type f) (required f) (source f) (nullable f))
      end
  end.

Definition narrow_field (c : SchemaContract) (source_by_target : list (string * string)) (kv : string * pvalue) : res FieldContract :=
  match dict_get source_by_target kv.1 with
  | Some s => renamed_field c kv.1 s
  | None =>
      match find_field c kv.1 with
      | Some f => Ok f
      | None => inferred_field kv.1 kv.1 kv.2
      end
  end.

Definition narrow_contract_to_output (c : SchemaContract) (output : rowdata) (renamed : option (list (string * string)))
  : res SchemaContract :=
  let source_by_target := fold_left (fun d st => dict_set d st.2 st.1) (default [] renamed) [] in
  fs ← mapM_res (narrow_field c source_by_target) output;
  schema_contract (mode c) fs true.

(** [mode_order] and [min] with it: the first of the most restrictive modes. *)
Definition mode_order (m : schema_mode) : option nat :=
  match m with FIXED => Some 0%nat | FLEXIBLE => Some 1%nat | OBSERVED => Some 2%nat | other_mode _ => None end.

Fixpoint most_restrictive (m : schema_mode) (ms : list schema_mode) : res schema_mode :=
  match mode_order m with
  | None => Err (KeyError "mode_order")
  | Some i =>
      match ms with
      | [] => Ok m
      | m' :: ms =>
          match mode_order m' with
          | None => Err (KeyError "mode_order")
          | Some j => most_restrictive (if (j <? i)%nat then m' else m) ms
          end
      end
  end.

Definition merge_contract_with_output (input output : SchemaContract) : res SchemaContract :=
  let input_originals := map (fun f => (normalized_name f, original_name f)) (fields input) in
  fs ← mapM_res (fun f => field_contract (mkField (normalized_name f)
                                            (default (original_name f) (dict_get input_originals (normalized_name f)))
                                            (python_type f) (required f) (source f) (nullable f))) (fields output);
  m ← most_restrictive (mode input) [mode output];
  schema_contract m fs true.

(** ** The audit record *)
Inductive json :=
  | JNull | JBool (b : bool) | JNumber (n : Z) | JString (s : string) | JArray (l : list json)
  | JObject (l : list (string * json)).

Record FieldAuditRecord := mkFieldRecord {
  a_normalized_name : string; a_original_name : string; a_python_type : string;
  a_required : bool; a_source : string; a_nullable : bool }.
Record ContractAuditRecord := mkRecord {
  a_mode : string; a_locked : bool; a_version_hash : string; a_fields : list FieldAuditRecord }.

Definition source_name (s : field_source) : string :=
  match s with declared => "declared" | inferred => "inferred" | other_source n => n end.
Definition source_of_name (s : string) : field_source :=
  match s with "declared" => declared | "inferred" => inferred | n => other_source n end.
Definition mode_name (m : schema_mode) : string :=
  match m with FIXED => "FIXED" | FLEXIBLE => "FLEXIBLE" | OBSERVED => "OBSERVED" | other_mode n => n end.
Definition mode_of_name (s : string) : schema_mode :=
  match s with "FIXED" => FIXED | "FLEXIBLE" => FLEXIBLE | "OBSERVED" => OBSERVED | n => other_mode n end.

Definition VALID_MODES : list string := ["FIXED"; "FLEXIBLE"; "OBSERVED"].
Definition VALID_SOURCES : list string := ["declared"; "inferred"].

Definition from_field_contract (f : FieldContract) : FieldAuditRecord :=
  mkFieldRecord (normalized_name f) (original_name f) (type_name (python_type f)) (required f) (source_name (source f)) (nullable f).

Definition from_contract `{Digest} (c : SchemaContract) : ContractAuditRecord :=
  mkRecord (mode_name (mode c)) (locked c) (version_hash c) (map from_field_contract (sort_by by_name (fields c))).

Definition record_by_name (f g : FieldAuditRecord) : bool := String.leb (a_normalized_name f) (a_normalized_name g).

(** [FieldAuditRecord.to_dict], and [to_json] before it is written out. *)
Definition field_to_dict (f : FieldAuditRecord) : json :=
  JObject [("normalized_name", JString (a_normalized_name f)); ("original_name", JString (a_original_name f));
           ("python_type", JString (a_python_type f)); ("required", JBool (a_required f)); ("source", JString (a_source f));
           ("nullable", JBool (a_nullable f))].

Definition to_json (r : ContractAuditRecord) : json :=
  JObject [("mode", JString (a_mode r)); ("locked", JBool (a_locked r)); ("version_hash", JString (a_version_hash r));
           ("fields", JArray (map field_to_dict (sort_by record_by_name (a_fields r))))].

Definition lookup_key (l : list (string * json)) (k : string) : res json :=
  match dict_get l k with Some j => Ok j | None => Err (KeyError k) end.

(** A member of a set of strings; anything else raises the error. *)
Definition json_member (allowed : list string) (e : exc) (j : json) : res string :=
  match j with JString s => if bool_decide (s ∈ allowed) then Ok s else Err e | _ => Err e end.

Definition json_bool (e : exc) (j : json) : res bool := match j with JBool b => Ok b | _ => Err e end.

(** Names and hashes are taken as they are; only strings are modelled. *)
Definition json_string (j : json) : res string := match j with JString s => Ok s | _ => Err (TypeError "not a string") end.

Definition field_from_json (j : json) : res FieldAuditRecord :=
  match j with
  | JObject f =>
      s ← lookup_key f "source" ≫= json_member VALID_SOURCES (AuditIntegrityError "Invalid field source");
      t ← lookup_key f "python_type" ≫= json_member (map fst CONTRACT_TYPE_MAP) (AuditIntegrityError "Invalid python_type");
      required ← lookup_key f "required";
      nullable ← lookup_key f "nullable";
      r ← json_bool (AuditIntegrityError "Field 'required' must be bool") required;
      nl ← json_bool (AuditIntegrityError "Field 'nullable' must be bool") nullable;
      n ← lookup_key f "normalized_name" ≫= json_string;
      o ← lookup_key f "original_name" ≫= json_string;
      Ok (mkFieldRecord n o t r s nl)
  | _ => Err (AuditIntegrityError "Contract audit record field must be a JSON object")
  end.

Definition is_object (j : json) : bool := match j with JObject _ => true | _ => false end.

(** [from_json], on the value that [json.loads] returns. *)
Definition from_json (j : json) : res ContractAuditRecord :=
  match j with
  | JObject d =>
      match dict_get d "fields" with
      | Some (JArray fs) =>
          reject negb (forallb is_object fs) with AuditIntegrityError "Contract audit record field must be a JSON object" ;;
          m ← lookup_key d "mode" ≫= json_member VALID_MODES (AuditIntegrityError "Invalid contract mode");
          l ← lookup_key d "locked" ≫= json_bool (AuditIntegrityError "Contract 'locked' must be bool");
          rs ← mapM_res field_from_json fs;
          h ← lookup_key d "version_hash" ≫= json_string;
          Ok (mkRecord m l h rs)
      | _ => Err (AuditIntegrityError "Contract audit record missing or malformed 'fields'")
      end
  | _ => Err (AuditIntegrityError "Contract audit record must be a JSON object")
  end.

Definition record_field_ok (f : FieldAuditRecord) : res unit :=
  reject negb (bool_decide (a_source f ∈ VALID_SOURCES)) with AuditIntegrityError "Invalid field source" ;;
  reject negb (dict_mem CONTRACT_TYPE_MAP (a_python_type f)) with AuditIntegrityError "Invalid python_type" ;;
  Ok tt.

Definition field_of_record (f : FieldAuditRecord) : res FieldContract :=
  match dict_get CONTRACT_TYPE_MAP (a_python_type f) with
  | Some t =>
      field_contract (mkField (a_normalized_name f) (a_original_name f) t (a_required f) (source_of_name (a_source f)) (a_nullable f))
  | None => Err (KeyError "python_type")
  end.

Definition to_schema_contract `{Digest} (r : ContractAuditRecord) : res SchemaContract :=
  reject negb (bool_decide (a_mode r ∈ VALID_MODES)) with AuditIntegrityError "Invalid contract mode" ;;
  _ ← mapM_res record_field_ok (a_fields r);
  fs ← mapM_res field_of_record (a_fields r);
  c ← schema_contract (mode_of_name (a_mode r)) fs (a_locked r);
  reject negb (version_hash c == a_version_hash r) with AuditIntegrityError "Contract integrity violation: hash mismatch" ;;
  Ok c.

(** [ValidationErrorWithContract.from_violation]. *)
Record ValidationErrorWithContract := mkViolationRecord {
  violation_type : string; normalized_field_name : string; original_field_name : string;
  expected_type : option string; actual_type : option string }.

Definition from_violation (v : ContractViolation) : ValidationErrorWithContract :=
  match v with
  | TypeMismatchViolation n o e a _ => mkViolationRecord "type_mismatch" n o (Some (type_name e)) (Some (type_name a))
  | MissingFieldViolation n o => mkViolationRecord "missing_field" n o None None
  | ExtraFieldViolation n o => mkViolationRecord "extra_field" n o None None
  end.
