(* ===== verification/SchemaCompat.v ===== *)
(** * SchemaCompat: schemas of plugins, checked at build time

    [contracts/transform_contract.py]: the contract of a plugin's output schema;
    [contracts/data.py]: whether what a producer emits fits what a consumer
    takes. *)

From S2P Require Import Prelude Contracts ContractFlow.
Open Scope Z_scope.

(** ** Annotations *)

(** A class, [typing.Any], a union, an annotated type, or a parameterised
    generic by its printed form. *)
Inductive annotation :=
  | AType (t : pytype)
  | AAny
  | AUnion (members : list annotation)
  | AAnnotated (a : annotation)
  | AGeneric (repr : string).

(** [_unwrap_annotated]. *)
Fixpoint unwrap_annotated (a : annotation) : annotation := match a with AAnnotated a => unwrap_annotated a | a => a end.

(** Equality of annotations; unions compare as sets. *)
Fixpoint ann_eqb (a b : annotation) {struct a} : bool :=
  match a, b with
  | AType s, AType t => s == t
  | AAny, AAny => true
  | AGeneric s, AGeneric t => s == t
  | AAnnotated a, AAnnotated b => ann_eqb a b
  | AUnion l, AUnion m =>
      forallb (fun x => existsb (fun y => ann_eqb x y) m) l && forallb (fun y => existsb (fun x => ann_eqb x y) l) m
  | _, _ => false
  end.

Definition is_none_type (a : annotation) : bool := match a with AType TNone => true | _ => false end.

(** [_get_python_type]: the contract type and whether None is admitted. *)
Fixpoint get_python_type (a : annotation) : res (pytype * bool) :=
  match a with
  | AAnnotated a => get_python_type a
  | AUnion members =>
      let get_one := fix get_one l :=
        match l with
        | [] => Ok (TNone, false)
        | x :: l => if is_none_type x then get_one l else (t ← get_python_type x; Ok (t.1, existsb is_none_type members))
        end in
      reject (1 <? length (filter (fun x => is_none_type x = false) members))%nat with TypeError "Multi-type union not supported" ;;
      get_one members
  | AAny => Ok (Tobject, false)
  | AType t => if allowed t then Ok (t, false) else Err (TypeError "Unsupported type annotation")
  | AGeneric _ => Err (TypeError "Unsupported type annotation")
  end.

(** ** Schemas *)
Inductive extra_policy := allow | forbid | ignore.

#[export] Instance extra_policy_eq_dec : EqDecision extra_policy.
Proof. solve_decision. Defined.

(** One entry of [model_fields]; [allow_inf_nan] is the constraint found in its
    metadata, if any. *)
Record FieldInfo := mkInfo { annotation_of : annotation; is_required : bool; allow_inf_nan : option bool }.
Record PluginSchema := mkSchema { extra : extra_policy; model_fields : list (string * FieldInfo) }.

Definition output_field (nf : string * FieldInfo) : res FieldContract :=
  t ← get_python_type (annotation_of nf.2);
  field_contract (mkField nf.1 nf.1 t.1 (is_required nf.2) declared t.2).

Definition create_output_contract_from_schema (s : PluginSchema) : res SchemaContract :=
  fs ← mapM_res output_field (filter (fun nf => String.prefix "_" nf.1 = false) (model_fields s));
  schema_contract (if extra s == forbid then FIXED else FLEXIBLE) fs true.

(** ** Compatibility *)

(** [_types_compatible]. *)
Fixpoint types_compatible (actual expected : annotation) {struct expected} : bool :=
  match expected with
  | AAnnotated e => types_compatible actual e
  | _ =>
      let actual := unwrap_annotated actual in
      ann_eqb actual expected
      || match expected with
         | AAny => true
         | AType e => match actual with AType a => declared_type_admits e a | _ => false end
         | AUnion members =>
             existsb (fun e => types_compatible actual e) members
             || match actual with
                | AUnion actuals => forallb (fun a => existsb (fun e => types_compatible a e) members) actuals
                | _ => false
                end
         | _ => false
         end
  end.

Definition check_field_constraints (producer consumer : FieldInfo) : bool :=
  negb ((allow_inf_nan consumer == Some false) && negb (allow_inf_nan producer == Some false)
        && negb (match unwrap_annotated (annotation_of producer) with AType Tint => true | _ => false end)).

Record CompatibilityResult := mkCompat {
  missing_fields : list string;
  type_mismatches : list string;
  constraint_mismatches : list string;
  extra_fields_of : list string;
}.

Definition compatible (r : CompatibilityResult) : bool :=
  match missing_fields r, type_mismatches r, constraint_mismatches r, extra_fields_of r with
  | [], [], [], [] => true
  | _, _, _, _ => false
  end.

Definition check_compatibility (producer consumer : PluginSchema) (producer_guaranteed : list string) : CompatibilityResult :=
  let p := model_fields producer in
  let c := model_fields consumer in
  let present f := dict_get p f.1 in
  mkCompat
    (flat_map (fun f => match present f with
                        | None =>
                            if is_required f.2 && negb ((extra producer == allow) && bool_decide (f.1 ∈ producer_guaranteed))
                            then [f.1] else []
                        | Some _ => []
                        end) c)
    (flat_map (fun f => match present f with
                        | Some q => if types_compatible (annotation_of q) (annotation_of f.2) then [] else [f.1]
                        | None => []
                        end) c)
    (flat_map (fun f => match present f with
                        | Some q =>
                            if types_compatible (annotation_of q) (annotation_of f.2) && negb (check_field_constraints q f.2)
                            then [f.1] else []
                        | None => []
                        end) c)
    (if extra consumer == forbid then sort_by String.leb (filter (fun n => n ∉ map fst c) (map fst p)) else []).

(** [resolved_guarantee_type_mismatch]: whether a type declared upstream
    provably conflicts with the consumer's annotation. *)
Definition resolved_guarantee_type_mismatch (field_type : string) (consumer : annotation) : res bool :=
  if field_type == "any" then Ok false
  else
    match dict_get FIELD_TYPE_MAP field_type with
    | Some t => Ok (negb (types_compatible (AType t) consumer))
    | None => Err (KeyError "field_type")
    end.
