(* ===== verification/UnionMerge.v ===== *)
(** * UnionMerge: merging the contracts of several branches

    [contracts/union_merge.py]: the per-field union that build time and run
    time share, the merge of contracts at a union coalesce, the join that
    describes a batch of rows of several producers, and the conflicts that are
    certain from configuration; [engine/executors/sink.py]: the contract of a
    batch, folded over its tokens. *)

From S2P Require Import Prelude Contracts ContractFlow.
Open Scope Z_scope.

Inductive collision_policy := last_wins | first_wins | fail_on_collision.

#[export] Instance collision_policy_eq_dec : EqDecision collision_policy.
Proof. solve_decision. Defined.

(** ** The per-field union *)
Section flags.
Context {K : Type} `{EqDecision K}.

(** (name, type_key, required, nullable), and the merged entry with its first branch. *)
Definition entry : Type := string * K * bool * bool.
Record flags := mkFlags { f_type : K; f_required : bool; f_nullable : bool; f_branch : string }.

(** [UnionTypeConflictError]. *)
Record conflict := mkConflict { x_field : string; x_type_a : K; x_type_b : K; x_branch_a : string; x_branch_b : string }.

(** [seen_types] and [branches_with_field]. *)
Definition seen : Type := list (string * flags).
Definition carried : Type := list (string * list string).

Context (require_all : bool) (policy : collision_policy).

Definition merge_shared (prior : flags) (req nul : bool) : flags :=
  if require_all then
    mkFlags (f_type prior) (f_required prior || req)
      (match policy with first_wins => f_nullable prior | last_wins => nul | fail_on_collision => f_nullable prior || nul end)
      (f_branch prior)
  else mkFlags (f_type prior) (f_required prior && req) (f_nullable prior || nul) (f_branch prior).

Definition merge_entry (branch : string) (st : seen * carried) (e : entry) : conflict + seen * carried :=
  let '(name, type_key, req, nul) := e in
  let carried := dict_set st.2 name (default [] (dict_get st.2 name) ++ [branch]) in
  match dict_get st.1 name with
  | Some prior =>
      if f_type prior == type_key then inr (dict_set st.1 name (merge_shared prior req nul), carried)
      else inl (mkConflict name (f_type prior) type_key (f_branch prior) branch)
  | None => inr (dict_set st.1 name (mkFlags type_key req nul branch), carried)
  end.

Fixpoint merge_entries (branch : string) (st : seen * carried) (es : list entry) : conflict + seen * carried :=
  match es with
  | [] => inr st
  | e :: es => match merge_entry branch st e with inl x => inl x | inr st => merge_entries branch st es end
  end.

Fixpoint merge_branches (branch_fields : list (string * list entry)) (order : list string) (st : seen * carried)
  : conflict + seen * carried :=
  match order with
  | [] => inr st
  | b :: order =>
      match dict_get branch_fields b with
      | None => merge_branches branch_fields order st
      | Some es => match merge_entries b st es with inl x => inl x | inr st => merge_branches branch_fields order st end
      end
  end.

(** [a != b] on sets. *)
Definition same_set (a b : list string) : bool :=
  forallb (fun x => bool_decide (x ∈ b)) a && forallb (fun x => bool_decide (x ∈ a)) b.

Definition merge_union_field_flags (branch_fields : list (string * list entry)) (branch_order : option (list string))
  : conflict + seen :=
  let order := default (map fst branch_fields) branch_order in
  match merge_branches branch_fields order ([], []) with
  | inl x => inl x
  | inr (s, carried) =>
      let contributing := filter (fun b => dict_mem branch_fields b = true) order in
      inr (if require_all then s
           else map (fun nf => if same_set (default [] (dict_get carried nf.1)) contributing then nf
                               else (nf.1, mkFlags (f_type nf.2) false true (f_branch nf.2))) s)
  end.
End flags.

Arguments entry : clear implicits.
Arguments flags : clear implicits.
Arguments conflict : clear implicits.

(** ** Original names *)
Definition with_original (f : FieldContract) (o : string) : FieldContract :=
  mkField (normalized_name f) o (python_type f) (required f) (source f) (nullable f).

(** [original_name] occurs more than once. *)
Definition colliding (fs : list FieldContract) (o : string) : bool :=
  (1 <? length (filter (fun f => original_name f = o) fs))%nat.

Definition resolve_pass (fs : list FieldContract) : list FieldContract :=
  map (fun f => if colliding fs (original_name f) then with_original f (normalized_name f) else f) fs.

Fixpoint resolve_loop (fuel : nat) (fs : list FieldContract) : list FieldContract :=
  if existsb (fun f => colliding fs (original_name f)) fs then
    match fuel with O => fs | S fuel => resolve_loop fuel (resolve_pass fs) end
  else fs.

Definition resolve_original_name_collisions (fs : list FieldContract) : list FieldContract := resolve_loop (length fs) fs.

(** ** Union of contracts *)
Definition union_type_label (t : pytype) : string := if t == Tobject then "any" else type_name t.

Definition any_declared (carriers : list FieldContract) : field_source :=
  if existsb (fun f => source f == declared) carriers then declared else inferred.

Definition contract_entries (c : SchemaContract) : list (entry pytype) :=
  map (fun f => (normalized_name f, python_type f, required f, nullable f)) (fields c).

Definition merged_field (contracts : list SchemaContract) (nf : string * flags pytype) : res FieldContract :=
  match omap (fun c => find_field c nf.1) contracts with
  | [] => Err (KeyError "carriers")
  | (first :: _) as carriers =>
      field_contract (mkField nf.1 (original_name first) (f_type nf.2) (f_required nf.2) (any_declared carriers) (f_nullable nf.2))
  end.

Definition flags_by_name {K} (a b : string * flags K) : bool := String.leb a.1 b.1.

Definition merge_union_contracts (branch_contracts : list (string * SchemaContract)) (require_all : bool) (policy : collision_policy)
    (branch_order : option (list string)) : res SchemaContract :=
  reject (length branch_contracts =? 0)%nat with ValueError "merge_union_contracts requires at least one branch contract" ;;
  let order := filter (fun b => dict_mem branch_contracts b = true) (default (map fst branch_contracts) branch_order) in
  let contracts := omap (dict_get branch_contracts) order in
  match contracts with
  | [c] => Ok c
  | _ =>
      match merge_union_field_flags require_all policy (map (fun bc => (bc.1, contract_entries bc.2)) branch_contracts) (Some order) with
      | inl x => Err (ContractMergeError (x_field x) (union_type_label (x_type_a x)) (union_type_label (x_type_b x)))
      | inr merged =>
          match contracts with
          | [] => Err (ValueError "min() arg is an empty sequence")
          | c :: cs =>
              m ← most_restrictive (mode c) (map mode cs);
              fs ← mapM_res (merged_field contracts) (sort_by flags_by_name merged);
              schema_contract m (resolve_original_name_collisions fs) (existsb locked contracts)
          end
      end
  end.

(** [SchemaContract.merge_for_node_evolution]. *)
Definition merge_for_node_evolution (self other : SchemaContract) : res SchemaContract :=
  merge_union_contracts [("recorded", self); ("emitted", other)] false last_wins (Some ["recorded"; "emitted"]).

(** ** The join of a batch *)
Definition carriers_of (contracts : list SchemaContract) (n : string) : list FieldContract :=
  flat_map (fun c => filter (fun f => normalized_name f = n) (fields c)) contracts.

(** The one element of a set, or a default. *)
Definition the_only {A} `{EqDecision A} (l : list A) (dflt : A) : A :=
  match remove_dups l with [x] => x | _ => dflt end.

Definition join_field (contracts : list SchemaContract) (n : string) : res FieldContract :=
  let carriers := carriers_of contracts n in
  let carried_by_all := (length carriers =? length contracts)%nat in
  field_contract
    (mkField n (the_only (map original_name carriers) n) (the_only (map python_type carriers) Tobject)
       (carried_by_all && forallb required carriers) (any_declared carriers) (negb carried_by_all || existsb nullable carriers)).

Definition join_batch_contracts (contracts : list SchemaContract) : res SchemaContract :=
  match contracts with
  | [] => Err (ValueError "join_batch_contracts requires at least one contract")
  | [c] => Ok c
  | c :: cs =>
      fs ← mapM_res (join_field contracts) (sort_by String.leb (remove_dups (flat_map (fun c => names (fields c)) contracts)));
      m ← most_restrictive (mode c) (map mode cs);
      schema_contract m (resolve_original_name_collisions fs) (existsb locked contracts)
  end.

(** [SchemaContract.merge_for_batch], and the fold of the sink executor over
    the tokens of a batch. *)
Definition merge_for_batch (self other : SchemaContract) : res SchemaContract := join_batch_contracts [self; other].

Fixpoint merge_batch_contract (acc : SchemaContract) (rest : list SchemaContract) : res SchemaContract :=
  match rest with
  | [] => Ok acc
  | c :: rest =>
      match merge_for_batch acc c with
      | Ok acc => merge_batch_contract acc rest
      | Err _ => Err (FrameworkBugError "Contract merge failed")
      end
  end.

(** ** Conflicts that are certain *)
Record KnownBranchFieldType := mkKnown { field_type : string; declared_by : list string }.

Record UnionFieldTypeConflict := mkUnionConflict {
  u_field : string; u_branch_a : string; u_type_a : KnownBranchFieldType; u_branch_b : string; u_type_b : KnownBranchFieldType }.

(** The inner loop: the first branch that types the field, then the first that
    types it differently. *)
Fixpoint conflict_on (f : string) (first : option (string * KnownBranchFieldType))
    (branches : list (string * list (string * KnownBranchFieldType))) : option UnionFieldTypeConflict :=
  match branches with
  | [] => None
  | (b, known_fields) :: branches =>
      match dict_get known_fields f with
      | None => conflict_on f first branches
      | Some known =>
          match first with
          | None => conflict_on f (Some (b, known)) branches
          | Some (a, ka) =>
              if field_type known == field_type ka then conflict_on f first branches
              else Some (mkUnionConflict f a ka b known)
          end
      end
  end.

Fixpoint first_some {A B} (g : A -> option B) (l : list A) : option B :=
  match l with [] => None | x :: l => match g x with Some y => Some y | None => first_some g l end end.

Definition certain_union_type_conflict (branch_fields : list (string * list (string * KnownBranchFieldType)))
    (all_branches_merge : bool) (branch_order : list string) : option UnionFieldTypeConflict :=
  if negb all_branches_merge then None
  else
    let ordered := omap (fun b => (fun fs => (b, fs)) <$> dict_get branch_fields b) branch_order in
    let field_names := sort_by String.leb (remove_dups (flat_map (fun bf => map fst bf.2) ordered)) in
    first_some (fun f => conflict_on f None ordered) field_names.
