(* ===== verification/CoalesceMerge.v ===== *)
(** * CoalesceMerge: what a coalesce point makes of its branches

    [core/dag/coalesce_merge.py]: the schema of the node at build time, its
    guarantees, and the collisions that are certain; [engine/coalesce_executor.py]:
    [build_coalesce_merge] and its helpers, which merge the rows that arrived and
    the contracts they carry. *)

From S2P Require Import Prelude Contracts ContractFlow UnionMerge.
Open Scope Z_scope.

(** ** Build time *)
Definition is_observed (s : SchemaConfig) : bool := cfg_mode s == "observed".

Definition has_effective_guarantees (s : SchemaConfig) : bool := is_some (cfg_guaranteed_fields s) || is_some (cfg_fields s).

Definition effective_guaranteed_fields (s : SchemaConfig) : list string :=
  default [] (cfg_guaranteed_fields s)
  ++ match cfg_fields s with Some fds => map fd_name (filter (fun fd => fd_required fd = true) fds) | None => [] end.

Definition sorted_set (l : list string) : list string := sort_by String.leb (remove_dups l).

(** [set.intersection] of a non-empty list of sets. *)
Definition intersection_all (s : list string) (ss : list (list string)) : list string :=
  filter (fun x => Forall (fun t => x ∈ t) ss) s.

Definition merge_guaranteed_fields (branch_schemas : list (string * SchemaConfig)) (require_all : bool) : option (list string) :=
  let schemas := map snd branch_schemas in
  let any_branch_abstains := existsb (fun s => negb (has_effective_guarantees s)) schemas in
  match map effective_guaranteed_fields (filter (fun s => has_effective_guarantees s = true) schemas) with
  | [] => None
  | s :: ss =>
      if require_all then Some (sorted_set (s ++ concat ss))
      else if any_branch_abstains then None
      else Some (sorted_set (intersection_all s ss))
  end.

Definition merge_audit_fields (branch_schemas : list (string * SchemaConfig)) : option (list string) :=
  match omap (fun bs => cfg_audit_fields bs.2) branch_schemas with
  | [] => None
  | sets => Some (sorted_set (concat sets))
  end.

Definition ordered_branch_names {A} (branch_schemas : list (string * A)) (branch_order : option (list string)) : list string :=
  match branch_order with
  | None => map fst branch_schemas
  | Some order =>
      let ordered := filter (fun b => dict_mem branch_schemas b = true) order in
      ordered ++ filter (fun b => b ∉ ordered) (map fst branch_schemas)
  end.

Definition definition_entries (fds : list FieldDefinition) : list (entry string) :=
  map (fun fd => (fd_name fd, fd_type fd, fd_required fd, fd_nullable fd)) fds.

Definition typed_branches (branch_schemas : list (string * SchemaConfig)) : list (string * list (entry string)) :=
  omap (fun bs => if is_observed bs.2 then None else (fun fds => (bs.1, definition_entries fds)) <$> cfg_fields bs.2) branch_schemas.

Definition merge_union_fields (branch_schemas : list (string * SchemaConfig)) (require_all : bool) (policy : collision_policy)
    (branch_order : option (list string)) (guaranteed audit : option (list string)) : res SchemaConfig :=
  let observed := mkConfig "observed" None guaranteed audit in
  if forallb (fun bs => is_observed bs.2) branch_schemas then Ok observed
  else
    let typed := typed_branches branch_schemas in
    reject existsb (fun bs => is_observed bs.2) branch_schemas && negb (length typed =? 0)%nat
      with GraphValidationError "mixed observed/explicit schemas" ;;
    match merge_union_field_flags require_all policy typed branch_order with
    | inl _ => Err (GraphValidationError "incompatible types for field in union merge")
    | inr [] => Ok observed
    | inr merged =>
        Ok (mkConfig "flexible"
              (Some (map (fun nf => mkDef nf.1 (f_type nf.2) (f_required nf.2) (f_nullable nf.2)) merged)) guaranteed audit)
    end.

Inductive merge_strategy := union | nested | select | other_strategy (name : string).

Definition merge_coalesce_schema (branch_schemas : list (string * SchemaConfig)) (strategy : merge_strategy) (require_all : bool)
    (policy : collision_policy) (branch_order : option (list string)) (select_branch : option string)
    (guarantee_branch_schemas : option (list (string * SchemaConfig))) : res SchemaConfig :=
  match strategy with
  | union =>
      merge_union_fields branch_schemas require_all policy branch_order
        (merge_guaranteed_fields (default branch_schemas guarantee_branch_schemas) require_all)
        (merge_audit_fields branch_schemas)
  | select =>
      match select_branch with
      | None => Err (GraphValidationError "uses select merge without select_branch")
      | Some b =>
          match dict_get branch_schemas b with
          | None => Err (GraphValidationError "select_branch has no schema mapping")
          | Some s => Ok s
          end
      end
  | nested =>
      Ok (mkConfig "flexible"
            (Some (map (fun b => mkDef b "any" require_all false) (ordered_branch_names branch_schemas branch_order))) None None)
  | other_strategy _ => Err (GraphValidationError "unsupported merge strategy")
  end.

(** [itertools.combinations]. *)
Fixpoint combinations {A} (l : list A) (k : nat) : list (list A) :=
  match k, l with
  | O, _ => [[]]
  | S _, [] => []
  | S k', x :: l => map (cons x) (combinations l k') ++ combinations l k
  end.

Inductive arrival_policy := ap_require_all | ap_quorum | ap_best_effort | ap_first.

Definition has_shared_guarantee (branch_guarantees : list (string * list string)) (arrived : list string) : bool :=
  existsb (fun pair => match pair with
                       | [l; r] =>
                           existsb (fun f => bool_decide (f ∈ default [] (dict_get branch_guarantees r)))
                             (default [] (dict_get branch_guarantees l))
                       | _ => false
                       end) (combinations arrived 2).

(** The branches that guarantee a field; each set of guarantees lists a field once. *)
Definition guarantors (branch_guarantees : list (string * list string)) (f : string) : list string :=
  map fst (filter (fun bg => f ∈ bg.2) branch_guarantees).

Definition colliding_fields (branch_guarantees : list (string * list string)) : list (string * list string) :=
  filter (fun fb => (1 <? length fb.2)%nat = true)
    (map (fun f => (f, guarantors branch_guarantees f)) (sorted_set (flat_map snd branch_guarantees))).

Definition certain_union_collisions (branch_guarantees : list (string * list string)) (require_all : bool) (policy : arrival_policy)
    (quorum_count : option nat) : res (list (string * list string)) :=
  match colliding_fields branch_guarantees with
  | [] => Ok []
  | found =>
      if require_all then Ok found
      else
        match policy with
        | ap_quorum =>
            match quorum_count with
            | None => Err (RuntimeError "A quorum coalesce reached certain_union_collisions without a quorum_count")
            | Some k =>
                Ok (if forallb (has_shared_guarantee branch_guarantees) (combinations (map fst branch_guarantees) k) then found else [])
            end
        | _ => Ok []
        end
  end.

(** ** Run time *)
Record MergeSettings := mkMerge {
  ms_branches : list string;
  ms_merge : merge_strategy;
  ms_select_branch : option string;
  ms_collision_policy : collision_policy;
  ms_all_branch_semantics : bool;
}.

(** The branches that arrived, in arrival order, each with its row. *)
Notation arrivals := (list (string * PipelineRow)).

(** [merged], [field_origins], [collisions] with their values. *)
Record merged_rows := mkMerged {
  m_data : rowdata;
  m_origins : list (string * string);
  m_collisions : list (string * list (string * pvalue));
}.

Definition merge_value (branch : string) (m : merged_rows) (kv : string * pvalue) : merged_rows :=
  let '(k, v) := kv in
  let collisions :=
    match dict_get (m_origins m) k with
    | None => m_collisions m
    | Some prior_branch =>
        let entries :=
          match dict_get (m_collisions m) k with
          | Some entries => entries
          | None => [(prior_branch, default PNone (dict_get (m_data m) k))]
          end in
        dict_set (m_collisions m) k (entries ++ [(branch, v)])
    end in
  mkMerged (dict_set (m_data m) k v) (dict_set (m_origins m) k branch) collisions.

Definition merge_union_rows (order : list string) (arrived : arrivals) : merged_rows :=
  fold_left (fun m b => match dict_get arrived b with
                        | Some p => fold_left (merge_value b) (to_dict p) m
                        | None => m
                        end) order (mkMerged [] [] []).

(** [_merge_data]. *)
Definition merge_data (s : MergeSettings) (arrived : arrivals) : res merged_rows :=
  match ms_merge s with
  | union => Ok (merge_union_rows (ms_branches s) arrived)
  | nested =>
      Ok (mkMerged (omap (fun b => (fun p => (b, PDict (map (fun kv => (PStr kv.1, kv.2)) (to_dict p)))) <$> dict_get arrived b)
                      (ms_branches s)) [] [])
  | select =>
      match ms_select_branch s with
      | None => Err (RuntimeError "select_branch is None for select merge strategy")
      | Some b =>
          match dict_get arrived b with
          | None => Err (RuntimeError "select_branch not in arrived branches")
          | Some p => Ok (mkMerged (to_dict p) [] [])
          end
      end
  | other_strategy _ => Err (RuntimeError "Unknown merge strategy")
  end.

(** [_resolve_first_wins]. *)
Fixpoint resolve_first_wins (collisions : list (string * list (string * pvalue))) (d : rowdata) (origins : list (string * string))
  : res (rowdata * list (string * string)) :=
  match collisions with
  | [] => Ok (d, origins)
  | (f, entries) :: rest =>
      match entries with
      | (b, v) :: _ :: _ => resolve_first_wins rest (dict_set d f v) (dict_set origins f b)
      | _ => Err (OrchestrationInvariantError "_resolve_first_wins: expected >=2 entries")
      end
  end.

(** [_merge_with_original_names]. *)
Definition original_of (contracts : list (string * SchemaContract)) (n branch : string) : option string :=
  c ← dict_get contracts branch;
  f ← find_field c n;
  Some (original_name f).

Definition fallback_original (contracts : list (string * SchemaContract)) (n : string) : option string :=
  first_some (fun bc => original_name <$> find_field bc.2 n) contracts.

Definition merge_with_original_names (precomputed : SchemaContract) (contracts : list (string * SchemaContract))
    (origins : list (string * string)) : res SchemaContract :=
  fs ← mapM_res (fun f =>
         match dict_get origins (normalized_name f) with
         | Some b =>
             match original_of contracts (normalized_name f) b with
             | Some o => field_contract (with_original f o)
             | None => Err (KeyError "branch_original_names")
             end
         | None => field_contract (with_original f (default (normalized_name f) (fallback_original contracts (normalized_name f))))
         end) (fields precomputed);
  schema_contract (mode precomputed) (resolve_original_name_collisions fs) (locked precomputed).

(** [build_coalesce_merge]: the merged row, and the origins and collisions of
    its audit metadata. *)
Record merge_plan := mkPlan {
  merged_row : PipelineRow;
  union_field_origins : list (string * string);
  union_field_collisions : list (string * list string);
}.

Definition merged_contract (s : MergeSettings) (arrived : arrivals) (output_schema : option SchemaContract)
    (origins : list (string * string)) : res SchemaContract :=
  let contracts := map (fun bp => (bp.1, contract bp.2)) arrived in
  match ms_merge s with
  | union =>
      reject is_none output_schema && negb (forallb (fun bc => mode bc.2 == OBSERVED) contracts)
        with OrchestrationInvariantError "typed branch contracts but no output_schema" ;;
      match output_schema with
      | Some precomputed =>
          if mode precomputed == OBSERVED
          then merge_union_contracts contracts (ms_all_branch_semantics s) (ms_collision_policy s) (Some (ms_branches s))
          else merge_with_original_names precomputed contracts origins
      | None => merge_union_contracts contracts (ms_all_branch_semantics s) (ms_collision_policy s) (Some (ms_branches s))
      end
  | nested =>
      fs ← mapM_res (fun b => field_contract (mkField b b Tobject (dict_mem arrived b) declared false)) (ms_branches s);
      schema_contract FIXED fs true
  | select =>
      match ms_select_branch s with
      | None => Err (RuntimeError "select_branch is None for select merge strategy")
      | Some b => match dict_get contracts b with Some c => Ok c | None => Err (KeyError "select_branch") end
      end
  | other_strategy _ => Err (RuntimeError "Unknown merge strategy")
  end.

Definition uses_precomputed (output_schema : option SchemaContract) : bool :=
  match output_schema with Some c => negb (mode c == OBSERVED) | None => false end.

Definition build_coalesce_merge (s : MergeSettings) (arrived : arrivals) (output_schema : option SchemaContract) : res merge_plan :=
  m ← merge_data s arrived;
  c ← merged_contract s arrived output_schema (m_origins m);
  match ms_merge s with
  | union =>
      let collisions := map (fun fe => (fe.1, map fst fe.2)) (m_collisions m) in
      match m_collisions m with
      | [] => Ok (mkPlan (pipeline_row (m_data m) c) (m_origins m) collisions)
      | _ =>
          match ms_collision_policy s with
          | fail_on_collision => Err (CoalesceCollisionError (sort_by String.leb (map fst (m_collisions m))))
          | last_wins => Ok (mkPlan (pipeline_row (m_data m) c) (m_origins m) collisions)
          | first_wins =>
              do ← resolve_first_wins (m_collisions m) (m_data m) (m_origins m);
              c ← (if uses_precomputed output_schema
                   then merged_contract s arrived output_schema do.2
                   else Ok c);
              Ok (mkPlan (pipeline_row do.1 c) do.2 collisions)
          end
      end
  | _ => Ok (mkPlan (pipeline_row (m_data m) c) [] [])
  end.
