(* ===== verification/ContractTheory.v ===== *)
(** * ContractTheory: what contracts, rows and their records promise

    Access to a row by either name agrees with the test for presence and with
    the index; freezing is undone by thawing on JSON-like data; the first row
    fits the contract that it locks, within the bound on fields; checkpoints and
    audit records restore the contract they were written from, and a record
    that restores under a contract's hash is that contract. *)

From S2P Require Import Prelude Contracts ContractFlow.
Open Scope Z_scope.

(** ** Names and lookups *)

(** A contract that the constructor accepted, with types that it accepts. *)
Record well_formed (c : SchemaContract) : Prop := {
  wf_names : NoDup (names (fields c));
  wf_originals : NoDup (originals (fields c));
  wf_types : Forall (fun f => allowed (python_type f) = true) (fields c);
}.

Lemma schema_contract_ok m fs l c :
  schema_contract m fs l = Ok c <-> NoDup (names fs) /\ NoDup (originals fs) /\ c = mkContract m fs l.
Proof.
  unfold schema_contract. do 2 case_bool_decide; cbn; split; naive_solver.
Qed.

Lemma field_contract_ok f g : field_contract f = Ok g <-> allowed (python_type f) = true /\ g = f.
Proof. unfold field_contract. destruct (allowed (python_type f)); cbn; split; naive_solver. Qed.

Lemma find_field_elem c n f : find_field c n = Some f -> f ∈ fields c /\ normalized_name f = n.
Proof.
  unfold find_field. intros Hf%dict_get_elem. unfold by_normalized in Hf.
  apply list_elem_of_fmap in Hf as (g & [= -> ->] & Hg). done.
Qed.

Lemma by_normalized_keys c : (by_normalized c).*1 = names (fields c).
Proof. unfold by_normalized, names. rewrite <- list_fmap_compose. done. Qed.

Lemma find_field_unique c f : NoDup (names (fields c)) -> f ∈ fields c -> find_field c (normalized_name f) = Some f.
Proof.
  intros Hn Hf. apply dict_get_unique; [by rewrite by_normalized_keys|]. unfold by_normalized.
  apply list_elem_of_fmap. by exists f.
Qed.

Lemma find_field_none c n : find_field c n = None <-> n ∉ names (fields c).
Proof. unfold find_field. by rewrite dict_get_None, by_normalized_keys. Qed.

(** ** Rows *)
Section rows.
Context (p : PipelineRow).

(** The key of the data that an access reads. *)
Definition reads (key : string) : option string :=
  let fallback := if extras_readable p && dict_mem (data p) key then Some key else None in
  match find_name (contract p) key with
  | Some n => if dict_mem (data p) n then Some n else fallback
  | None => fallback
  end.

Lemma getitem_reads key v : getitem p key = Ok v <-> exists n, reads key = Some n /\ dict_get (data p) n = Some v.
Proof.
  unfold getitem, reads, dict_mem. destruct (find_name (contract p) key) as [n|].
  - destruct (dict_get (data p) n) eqn:En; cbn; [naive_solver|].
    destruct (extras_readable p); cbn; [|naive_solver]. destruct (dict_get (data p) key) eqn:Ek; cbn; naive_solver.
  - destruct (extras_readable p); cbn; [|naive_solver]. destruct (dict_get (data p) key) eqn:Ek; cbn; naive_solver.
Qed.

(** The index of a list of candidates sends each to what it reads. *)
Definition index_step (index : list (string * string)) (key : string) : list (string * string) :=
  match reads key with Some n => dict_set index key n | None => index end.

Lemma name_index_fold :
  name_index p = fold_left index_step (flat_map (fun f => [normalized_name f; original_name f]) (fields (contract p)) ++ map fst (data p)) [].
Proof.
  unfold name_index. generalize (flat_map (fun f => [normalized_name f; original_name f]) (fields (contract p)) ++ map fst (data p)).
  generalize (@nil (string * string)). intros d l. revert d. induction l as [|k l IH]; intros d; [done|]. cbn. rewrite <- IH. f_equal.
  unfold index_step, reads. destruct (find_name (contract p) k) as [n|]; [destruct (dict_mem (data p) n); [done|]|];
    by destruct (extras_readable p && dict_mem (data p) k).
Qed.

Lemma index_get keys d key :
  dict_get (fold_left index_step keys d) key = if bool_decide (key ∈ keys) then
    match reads key with Some n => Some n | None => dict_get d key end else dict_get d key.
Proof.
  revert d. induction keys as [|k keys IH]; intros d; cbn; [done|]. rewrite IH. unfold index_step.
  destruct (decide (k = key)) as [->|Hne].
  - rewrite (bool_decide_eq_true_2 (key ∈ key :: keys)) by (by left).
    destruct (reads key) as [n|]; [|by case_bool_decide]. rewrite dict_get_set, (bool_decide_eq_true_2 (key = key)) by done. by case_bool_decide.
  - assert (Hd : dict_get match reads k with Some n => dict_set d k n | None => d end key = dict_get d key).
    { destruct (reads k); [|done]. by rewrite dict_get_set, bool_decide_eq_false_2. }
    rewrite Hd. rewrite (bool_decide_ext (key ∈ k :: keys) (key ∈ keys)); [done|]. rewrite elem_of_cons. naive_solver.
Qed.

(** Whatever an access reads is a candidate. *)
Lemma reads_candidate key n :
  reads key = Some n -> key ∈ flat_map (fun f => [normalized_name f; original_name f]) (fields (contract p)) ++ map fst (data p).
Proof.
  intros Hr. rewrite elem_of_app. destruct (find_name (contract p) key) as [m|] eqn:Ef.
  - left. apply list_elem_of_In, in_flat_map. unfold find_name in Ef.
    destruct (dict_mem (by_normalized (contract p)) key) eqn:En.
    + apply dict_mem_keys in En. rewrite by_normalized_keys in En. apply list_elem_of_fmap in En as (f & -> & Hf).
      exists f. split; [by apply list_elem_of_In|by left].
    + apply dict_get_elem in Ef. apply list_elem_of_fmap in Ef as (f & [= -> ->] & Hf).
      exists f. split; [by apply list_elem_of_In|right; by left].
  - right. unfold reads in Hr. rewrite Ef in Hr. destruct (extras_readable p && dict_mem (data p) key) eqn:Ek; [|done].
    apply andb_true_iff in Ek as [_ Hk]. by apply dict_mem_keys in Hk.
Qed.

(** A key that is in a row can be read, and the index that templates use in
    place of the contract resolves exactly the keys that can be read, each to
    the value that reading it yields; for a key that the test denies, reading
    fails or falls back to an undeclared field of that very name. *)
Theorem row_access_agrees key :
  (contains p key = true -> exists v, getitem p key = Ok v) /\
  (contains p key = false -> forall v, getitem p key = Ok v -> dict_get (data p) key = Some v /\ extras_readable p = true) /\
  (forall v, getitem p key = Ok v <-> exists n, dict_get (name_index p) key = Some n /\ dict_get (data p) n = Some v).
Proof.
  split_and!.
  - intros Hc. unfold contains, dict_mem, getitem in *. destruct (find_name (contract p) key) as [n|].
    + destruct (dict_get (data p) n); [eauto|done].
    + apply andb_true_iff in Hc as [-> Hc]. destruct (dict_get (data p) key); [eauto|done].
  - unfold contains, dict_mem, getitem. intros Hc v Hv. destruct (find_name (contract p) key) as [n|].
    + destruct (dict_get (data p) n); [done|]. destruct (extras_readable p); [|done]. by destruct (dict_get (data p) key); simplify_eq.
    + destruct (extras_readable p); [|done]. by destruct (dict_get (data p) key); simplify_eq.
  - intros v. rewrite getitem_reads, name_index_fold. split; intros (n & Hn & Hv); exists n; (split; [|done]).
    + rewrite index_get, bool_decide_eq_true_2 by (by eapply reads_candidate). by rewrite Hn.
    + rewrite index_get in Hn. case_bool_decide; [|done]. by destruct (reads key).
Qed.
End rows.

(** ** Freezing *)

(** Dicts, lists and scalars, as JSON has them. *)
Fixpoint json_like (v : pvalue) : bool :=
  match v with
  | PDict l => forallb (fun kv => json_like kv.2) l
  | PList l => forallb json_like l
  | PSet _ | PMappingProxy _ | PTuple _ | PFrozenset _ | PFrozenJsonArray _ => false
  | _ => true
  end.

(** No container that can be changed, at any depth below the keys. *)
Fixpoint frozen (v : pvalue) : bool :=
  match v with
  | PDict _ | PList _ | PSet _ => false
  | PMappingProxy l => forallb (fun kv => frozen kv.2) l
  | PTuple l | PFrozenset l | PFrozenJsonArray l => forallb frozen l
  | _ => true
  end.

(** Induction over nested values. *)
Section pvalue_ind.
Context (P : pvalue -> Prop).
Context (Hscalar : forall v, match v with PDict _ | PList _ | PSet _ | PMappingProxy _ | PTuple _ | PFrozenset _ | PFrozenJsonArray _ => False
                             | _ => True end -> P v).
Context (Hdict : forall l, Forall (fun kv => P kv.2) l -> P (PDict l)).
Context (Hproxy : forall l, Forall (fun kv => P kv.2) l -> P (PMappingProxy l)).
Context (Hlist : forall l, Forall P l -> P (PList l)).
Context (Hset : forall l, Forall P l -> P (PSet l)).
Context (Htuple : forall l, Forall P l -> P (PTuple l)).
Context (Hfrozenset : forall l, Forall P l -> P (PFrozenset l)).
Context (Harray : forall l, Forall P l -> P (PFrozenJsonArray l)).

Fixpoint pvalue_nested_ind (v : pvalue) : P v.
Proof.
  pose (map_ind := fix go (l : list (pvalue * pvalue)) : Forall (fun kv => P kv.2) l :=
    match l with [] => Forall_nil_2 _ | kv :: l => Forall_cons_2 _ kv l (pvalue_nested_ind kv.2) (go l) end).
  pose (list_ind := fix go (l : list pvalue) : Forall P l :=
    match l with [] => Forall_nil_2 _ | x :: l => Forall_cons_2 _ x l (pvalue_nested_ind x) (go l) end).
  destruct v; try (by apply Hscalar);
    first [apply Hdict|apply Hproxy|apply Hlist|apply Hset|apply Htuple|apply Hfrozenset|apply Harray];
    first [exact (map_ind _)|exact (list_ind _)].
Defined.
End pvalue_ind.

Lemma map_id_forall {A} (g : A -> A) l : Forall (fun x => g x = x) l -> map g l = l.
Proof. induction 1 as [|x l Hx _ IH]; cbn; [done|]. by rewrite Hx, IH. Qed.

Lemma forallb_Forall {A} (b : A -> bool) l : forallb b l = true <-> Forall (fun x => b x = true) l.
Proof. rewrite forallb_forall, Forall_forall. by setoid_rewrite list_elem_of_In. Qed.

Lemma thaw_freeze v : json_like v = true -> deep_thaw (deep_freeze v) = v.
Proof.
  induction v as [v Hv|l IH|l IH|l IH|l IH|l IH|l IH|l IH] using pvalue_nested_ind; [by destruct v|..]; cbn; try done.
  - rewrite forallb_Forall, map_map. cbn. intros Hl. f_equal. apply map_id_forall.
    rewrite Forall_forall in *. intros [k x] Hx. cbn. f_equal. by apply (IH (k, x)), (Hl (k, x)).
  - rewrite forallb_Forall, map_map. intros Hl. f_equal. apply map_id_forall.
    rewrite Forall_forall in *. intros x Hx. by apply IH, Hl.
Qed.

Lemma freeze_frozen v : frozen (deep_freeze v) = true.
Proof.
  induction v as [v Hv|l IH|l IH|l IH|l IH|l IH|l IH|l IH] using pvalue_nested_ind; [by destruct v|..]; cbn;
    rewrite forallb_Forall, Forall_fmap; by eapply Forall_impl.
Qed.

Lemma freeze_idempotent v : frozen v = true -> deep_freeze v = v.
Proof.
  induction v as [v Hv|l IH|l IH|l IH|l IH|l IH|l IH|l IH] using pvalue_nested_ind; [by destruct v|..]; cbn; try done;
    rewrite forallb_Forall; intros Hl; f_equal; apply map_id_forall; rewrite Forall_forall in *;
    try (by intros x Hx; apply IH, Hl).
  intros [k x] Hx. cbn. f_equal. by apply (IH (k, x)), (Hl (k, x)).
Qed.

(** A row built from JSON-like data holds no container that can be changed,
    gives back exactly that data, and equals its copies and what its
    checkpoint restores. *)
Theorem row_round_trip `{Digest} (r : rowdata) c registry :
  Forall (fun kv => json_like kv.2 = true) r -> dict_get registry (version_hash c) = Some c ->
  let p := pipeline_row r c in
  Forall (fun kv => frozen kv.2 = true) (data p) /\ to_dict p = r /\ copy p = p /\
  row_from_checkpoint (row_to_checkpoint p) registry = Ok p.
Proof.
  intros Hr Hreg p. assert (Ed : to_dict p = r).
  { unfold to_dict, p, pipeline_row, thaw_row, freeze_row. cbn. rewrite map_map. apply map_id_forall.
    rewrite Forall_forall in *. intros [k v] Hkv. cbn. f_equal. by apply thaw_freeze, (Hr (k, v)). }
  split_and!; [|done|change (copy p) with (pipeline_row (to_dict p) c); by rewrite Ed|].
  - unfold p, pipeline_row, freeze_row. cbn. rewrite Forall_fmap. apply Forall_true. intros [k v]. cbn. apply freeze_frozen.
  - unfold row_from_checkpoint, row_to_checkpoint. cbn [r_contract_version r_data contract p pipeline_row].
    change (contract p) with c. rewrite Hreg. by rewrite Ed.
Qed.

(** ** Records that restore *)
Lemma type_of_name t : allowed t = true -> dict_get CONTRACT_TYPE_MAP (type_name t) = Some t.
Proof. destruct t; intros Ht; [by vm_compute..|]. exfalso. apply bool_decide_eq_true in Ht. by repeat (apply elem_of_cons in Ht as [Ht|Ht]; [done|]); apply not_elem_of_nil in Ht. Qed.

Lemma allowed_named t n : dict_get CONTRACT_TYPE_MAP n = Some t -> allowed t = true /\ type_name t = n.
Proof.
  intros E%dict_get_elem. unfold CONTRACT_TYPE_MAP in E.
  repeat (apply elem_of_cons in E as [[= -> ->]|E]; [by vm_compute|]). by apply not_elem_of_nil in E.
Qed.

Lemma mapM_res_map {A B} (g : A -> res B) (h : B -> A) l : Forall (fun y => g (h y) = Ok y) l -> mapM_res g (map h l) = Ok l.
Proof. induction 1 as [|y l Hy _ IH]; cbn; [done|]. by rewrite Hy, IH. Qed.

Section hashes.
Context `{Digest}.

(** What is hashed of a contract, and two contents that the hash does not tell apart. *)
Definition hashed (c : SchemaContract) : hash_content := (mode c, locked c, map field_def (sort_by by_name (fields c))).

Definition collision : Prop := exists a b, a <> b /\ digest a = digest b.

Lemma field_def_inj f g : allowed (python_type f) = true -> allowed (python_type g) = true -> field_def f = field_def g -> f = g.
Proof.
  destruct f, g. unfold field_def. cbn. intros Hf Hg [= -> -> Et -> -> ->].
  apply type_of_name in Hf, Hg. rewrite Et, Hg in Hf. by injection Hf as ->.
Qed.

Lemma map_field_def_inj fs gs :
  Forall (fun f => allowed (python_type f) = true) fs -> Forall (fun f => allowed (python_type f) = true) gs ->
  map field_def fs = map field_def gs -> fs = gs.
Proof.
  intros Hf. revert gs. induction Hf as [|f fs Hf _ IH]; intros [|g gs] Hg E; try done.
  apply Forall_cons in Hg as [Hg Hgs]. cbn [map] in E.
  assert (field_def f = field_def g /\ map field_def fs = map field_def gs) as [E1 E2] by (clear -E; split; congruence).
  f_equal; [by apply field_def_inj|by apply IH].
Qed.

(** One hash, one contract, up to the order of its fields, or a collision. *)
Lemma version_hash_inj c c' :
  Forall (fun f => allowed (python_type f) = true) (fields c) -> Forall (fun f => allowed (python_type f) = true) (fields c') ->
  version_hash c = version_hash c' -> (mode c = mode c' /\ locked c = locked c' /\ fields c ≡ₚ fields c') \/ collision.
Proof.
  intros Hc Hc' E. destruct (decide (hashed c = hashed c')) as [Eh|Hne]; [left|right; by exists (hashed c), (hashed c')].
  injection Eh as Em El Ef. split_and!; [done..|].
  rewrite <- (sort_by_perm by_name (fields c)), <- (sort_by_perm by_name (fields c')).
  apply map_field_def_inj in Ef; [by rewrite Ef|by rewrite sort_by_perm..].
Qed.

Lemma restore_field_type f g : restore_field f = Ok g -> allowed (python_type g) = true.
Proof. unfold restore_field. intros E. inv_ok. case_match; [|done]. inv_ok. by apply field_contract_ok in E as [? ->]. Qed.

Lemma restored_types raw fs : mapM_res restore_field raw = Ok fs -> Forall (fun f => allowed (python_type f) = true) fs.
Proof. rewrite mapM_res_ok. induction 1; constructor; [by eapply restore_field_type|done]. Qed.

(** C32. A checkpoint restores the contract it was written from; and a checkpoint
    that restores at all under the hash of a contract restores that contract,
    up to the order of its fields: no tampered mode, lock, name, type or flag
    passes without a collision of the hash. *)
Theorem checkpoint_restores c :
  well_formed c ->
  from_checkpoint (to_checkpoint_format c) = Ok c /\
  (forall k c', from_checkpoint k = Ok c' -> k_version_hash k = Some (version_hash c) ->
   (mode c' = mode c /\ locked c' = locked c /\ fields c' ≡ₚ fields c) \/ collision).
Proof.
  intros [Hn Ho Ht]. split.
  - unfold from_checkpoint, to_checkpoint_format. cbn. rewrite mapM_res_map.
    + cbn. rewrite (proj2 (schema_contract_ok _ _ _ _) (conj Hn (conj Ho eq_refl))). cbn. destruct c. by rewrite bool_decide_eq_true_2.
    + eapply Forall_impl; [exact Ht|]. intros f Hf. unfold restore_field. cbn [k_python_type field_to_checkpoint corrupt].
      cbn [mbind res_bind]. rewrite type_of_name by done. cbn. apply field_contract_ok. by destruct f.
  - intros k c' E Hk. unfold from_checkpoint in E. inv_ok. rewrite Hk in *. cbn in *. inv_ok. bool_facts.
    apply version_hash_inj; [|done|done].
    repeat match goal with
           | E : mapM_res restore_field _ = _ |- _ => apply restored_types in E
           | E : schema_contract _ _ _ = _ |- _ => apply schema_contract_ok in E as (_ & _ & ->)
           end. done.
Qed.

(** ** The audit record *)
Lemma mode_round_trip m : match m with other_mode _ => False | _ => True end -> mode_of_name (mode_name m) = m /\ mode_name m ∈ VALID_MODES.
Proof. destruct m; [..|done]; intros _; (split; [done|]); unfold VALID_MODES; set_solver. Qed.

Lemma source_round_trip s :
  match s with other_source _ => False | _ => True end -> source_of_name (source_name s) = s /\ source_name s ∈ VALID_SOURCES.
Proof. destruct s; [..|done]; intros _; (split; [done|]); unfold VALID_SOURCES; set_solver. Qed.

(** The literals that the type checker admits. *)
Definition literal_mode (c : SchemaContract) : Prop := match mode c with other_mode _ => False | _ => True end.
Definition literal_sources (c : SchemaContract) : Prop :=
  Forall (fun f => match source f with other_source _ => False | _ => True end) (fields c).

Definition sorted_fields (c : SchemaContract) : SchemaContract := mkContract (mode c) (sort_by by_name (fields c)) (locked c).

Lemma by_name_total f g : by_name f g = true \/ by_name g f = true.
Proof. apply String.leb_total. Qed.
Lemma by_name_trans f g h : by_name f g = true -> by_name g h = true -> by_name f h = true.
Proof. apply string_leb_trans. Qed.

(** Sorting what is sorted changes nothing. *)
Lemma insert_least {A} (leb : A -> A -> bool) x l : Forall (fun y => leb x y = true) l -> insert_sorted leb x l = x :: l.
Proof. destruct 1 as [|y l Hy _]; cbn; [done|]. by rewrite Hy. Qed.

Lemma sort_sorted {A} (leb : A -> A -> bool) l : StronglySorted (fun a b => leb a b = true) l -> sort_by leb l = l.
Proof. induction 1 as [|x l _ IH Hx]; cbn; [done|]. by rewrite IH, insert_least. Qed.

Lemma sort_by_map {A B} (la : A -> A -> bool) (lb : B -> B -> bool) (g : A -> B) l :
  (forall x y, lb (g x) (g y) = la x y) -> sort_by lb (map g l) = map g (sort_by la l).
Proof.
  intros E. assert (Hi : forall x l, insert_sorted lb (g x) (map g l) = map g (insert_sorted la x l)).
  { intros x l'. induction l' as [|y l' IH]; cbn; [done|]. rewrite E. destruct (la x y); cbn; [done|]. by rewrite IH. }
  induction l as [|x l IH]; cbn; [done|]. by rewrite IH, Hi.
Qed.

Lemma lookup_here k j l : lookup_key ((k, j) :: l) k = Ok j.
Proof. unfold lookup_key. cbn. by rewrite bool_decide_eq_true_2. Qed.

Lemma lookup_next k k' j l : k' <> k -> lookup_key ((k', j) :: l) k = lookup_key l k.
Proof. intros Hk. unfold lookup_key. cbn. by rewrite bool_decide_eq_false_2. Qed.

Local Ltac look_up := repeat first [rewrite lookup_here | rewrite lookup_next by discriminate].

Lemma json_member_ok l e s : s ∈ l -> json_member l e (JString s) = Ok s.
Proof. intros Hs. unfold json_member. by rewrite bool_decide_eq_true_2. Qed.

Lemma fields_here a b c d : dict_get [("mode", a); ("locked", b); ("version_hash", c); ("fields", d)] "fields" = Some d :> option json.
Proof. done. Qed.

Lemma field_record_round_trip f :
  allowed (python_type f) = true -> match source f with other_source _ => False | _ => True end ->
  field_from_json (field_to_dict (from_field_contract f)) = Ok (from_field_contract f) /\
  record_field_ok (from_field_contract f) = Ok tt /\ field_of_record (from_field_contract f) = Ok f.
Proof.
  intros Ht [Es Hs]%source_round_trip. pose proof (type_of_name _ Ht) as Hd.
  assert (Hm : type_name (python_type f) ∈ map fst CONTRACT_TYPE_MAP).
  { apply dict_mem_keys. unfold dict_mem. by rewrite Hd. }
  split_and!.
  - unfold field_from_json, from_field_contract, field_to_dict. look_up.
    cbn -[CONTRACT_TYPE_MAP VALID_SOURCES json_member].
    rewrite json_member_ok by done. cbn -[CONTRACT_TYPE_MAP json_member]. by rewrite json_member_ok.
  - unfold record_field_ok, from_field_contract, dict_mem. cbn -[CONTRACT_TYPE_MAP VALID_SOURCES bool_decide].
    rewrite (bool_decide_eq_true_2 _ Hs). cbn -[CONTRACT_TYPE_MAP]. by rewrite Hd.
  - unfold field_of_record, from_field_contract. cbn -[CONTRACT_TYPE_MAP]. rewrite Hd. apply field_contract_ok. cbn. rewrite Es.
    by destruct f.
Qed.

(** The audit record of a contract, written as JSON and read back, restores
    the contract with its fields in the order of their names, under the hash
    that the contract had. *)
Theorem audit_record_restores c :
  well_formed c -> literal_mode c -> literal_sources c ->
  (r ← from_json (to_json (from_contract c)); to_schema_contract r) = Ok (sorted_fields c) /\
  version_hash (sorted_fields c) = version_hash c.
Proof.
  intros [Hn Ho Ht] Hm Hs. destruct (mode_round_trip _ Hm) as [Em Hv].
  set (fs := sort_by by_name (fields c)).
  assert (Hsort : sort_by by_name fs = fs).
  { apply sort_sorted, sort_by_sorted; [apply by_name_total|apply by_name_trans]. }
  assert (Hf : Forall (fun f => allowed (python_type f) = true /\ match source f with other_source _ => False | _ => True end) fs).
  { unfold fs. rewrite sort_by_perm. by apply Forall_and. }
  assert (Eh : version_hash (sorted_fields c) = version_hash c).
  { unfold version_hash, sorted_fields. cbn. fold fs. by rewrite Hsort. }
  assert (Ej : from_json (to_json (from_contract c)) = Ok (mkRecord (mode_name (mode c)) (locked c) (version_hash c) (map from_field_contract fs))).
  { unfold to_json, from_contract. cbn [a_mode a_locked a_version_hash a_fields]. fold fs.
    rewrite (sort_by_map by_name record_by_name), Hsort, map_map by done.
    assert (Eo : forallb is_object (map (fun f => field_to_dict (from_field_contract f)) fs) = true).
    { apply forallb_Forall, Forall_fmap, Forall_true. done. }
    assert (E1 : mapM_res field_from_json (map (fun f => field_to_dict (from_field_contract f)) fs) = Ok (map from_field_contract fs)).
    { clear -Hf. induction Hf as [|f fs [? ?] _ IH]; [done|]. cbn [map mapM_res].
      destruct (field_record_round_trip f) as [-> _]; [done..|]. cbn [mbind res_bind]. by rewrite IH. }
    unfold from_json. look_up. rewrite fields_here, Eo. cbn -[mapM_res json_member VALID_MODES].
    rewrite json_member_ok by done. cbn -[mapM_res]. by rewrite E1. }
  split; [|done]. rewrite Ej. cbn [mbind res_bind]. unfold to_schema_contract. cbn [a_mode a_locked a_version_hash a_fields].
  rewrite (bool_decide_eq_true_2 _ Hv). cbn [negb].
  assert (mapM_res record_field_ok (map from_field_contract fs) = Ok (map (fun _ => tt) fs) /\
               mapM_res field_of_record (map from_field_contract fs) = Ok fs) as [-> ->].
  { clear -Hf. induction Hf as [|f fs [? ?] _ [IH1 IH2]]; [done|]. cbn [map mapM_res].
    destruct (field_record_round_trip f) as (_ & -> & ->); [done..|]. cbn [mbind res_bind]. by rewrite IH1, IH2. }
  cbn [mbind res_bind]. rewrite Em.
  rewrite (proj2 (schema_contract_ok (mode c) fs (locked c) (sorted_fields c))).
  - cbn [mbind res_bind]. by rewrite bool_decide_eq_true_2.
  - unfold fs, names, originals. by rewrite !(Permutation_map _ (sort_by_perm by_name (fields c))).
Qed.
End hashes.

(** ** Validation *)
Definition is_null (v : pvalue) : bool := match v with PNone => true | _ => false end.

(** A value that a field accepts. *)
Definition admits (f : FieldContract) (v : pvalue) : bool :=
  (python_type f == Tobject) || (is_null v && (negb (required f) || nullable f))
  || declared_type_admits (python_type f) (classify_runtime_type v).

Definition field_ok (r : rowdata) (f : FieldContract) : Prop :=
  match dict_get r (normalized_name f) with None => required f = false | Some v => admits f v = true end.

Lemma validate_field_nil r f : validate_field r f = [] <-> field_ok r f.
Proof.
  unfold validate_field, field_ok, admits, is_null. destruct (dict_get r (normalized_name f)) as [v|]; [|by destruct (required f)].
  destruct (python_type f == Tobject); cbn; [done|].
  destruct (match v with PNone => true | _ => false end && (negb (required f) || nullable f)); cbn; [done|].
  by destruct (declared_type_admits (python_type f) (classify_runtime_type v)).
Qed.

Lemma flat_map_nil_iff {A B} (g : A -> list B) l : flat_map g l = [] <-> Forall (fun x => g x = []) l.
Proof.
  induction l as [|x l IH]; cbn; [by split|]. rewrite Forall_cons, <- IH. split; [apply app_eq_nil|by intros [-> ->]].
Qed.

(** The keys of a row are fields of its contract. *)
Definition described (c : SchemaContract) (r : rowdata) : Prop := Forall (fun k => k ∈ names (fields c)) (map fst r).

Lemma extra_fields_nil c r : extra_fields c r = [] <-> (mode c = FIXED -> described c r).
Proof.
  unfold extra_fields, described. case_bool_decide as Hm; [|by split]. rewrite flat_map_nil_iff, Forall_fmap.
  split; [intros Hr _|intros Hr; specialize (Hr Hm)]; (eapply Forall_impl; [exact Hr|]); intros [k v]; cbn;
    by case_bool_decide.
Qed.

Lemma validate_nil c r :
  validate c r = [] <-> Forall (field_ok r) (fields c) /\ (mode c = FIXED -> described c r).
Proof.
  unfold validate. rewrite <- extra_fields_nil. split.
  - intros [Hf He]%app_eq_nil. split; [|done]. apply flat_map_nil_iff in Hf. eapply Forall_impl; [exact Hf|]. apply validate_field_nil.
  - intros [Hf ->]. rewrite app_nil_r. apply flat_map_nil_iff. eapply Forall_impl; [exact Hf|]. apply validate_field_nil.
Qed.

(** A row that a contract describes and accepts. *)
Definition conforms (r : rowdata) (c : SchemaContract) : Prop := validate c r = [] /\ described c r.

Lemma conforms_iff r c : conforms r c <-> Forall (field_ok r) (fields c) /\ described c r.
Proof. unfold conforms. rewrite validate_nil. tauto. Qed.

Lemma described_elem c r n v : described c r -> dict_get r n = Some v -> exists f, f ∈ fields c /\ normalized_name f = n.
Proof.
  intros Hd Hg%dict_get_elem. unfold described in Hd. rewrite Forall_forall in Hd.
  assert (Hn : n ∈ names (fields c)) by (apply Hd; apply list_elem_of_fmap; by exists (n, v)).
  apply list_elem_of_fmap in Hn as (f & -> & Hf). eauto.
Qed.

(** ** Inference *)

Lemma admits_same t : declared_type_admits t t = true.
Proof. unfold declared_type_admits. by rewrite bool_decide_eq_true_2. Qed.

(** A value is accepted by the field inferred from it. *)
Lemma inferred_admits n o v f :
  inferred_field n o v = Ok f -> normalized_name f = n /\ original_name f = o /\ required f = false /\ admits f v = true.
Proof.
  unfold inferred_field, infer_field_type. intros E. inv_ok. apply field_contract_ok in E as [_ ->]. cbn.
  split_and!; [done..|]. unfold admits. cbn.
  assert (Hc : forall t, x0 = Some t -> classify_runtime_type v = t).
  { intros t ->. destruct v; cbn -[allowed] in *; simplify_eq; try done;
      repeat match goal with H : context [allowed ?t] |- _ => change (allowed t) with true in H || change (allowed t) with false in H end;
      cbn in *; repeat (case_match; simplify_eq; try done). }
  assert (Ho : forall b, (Tobject == Tobject) || b = true) by (intros; by rewrite bool_decide_eq_true_2).
  destruct x0 as [t|]; [specialize (Hc t eq_refl); destruct t|]; simplify_eq; cbn -[classify_runtime_type];
    rewrite <- ?orb_assoc; try apply Ho; by rewrite Hc, admits_same, ?orb_true_r.
Qed.

Lemma filter_ext_elem {A} (P Q : A -> Prop) `{forall x, Decision (P x), forall x, Decision (Q x)} (l : list A) :
  (forall x, x ∈ l -> P x <-> Q x) -> filter P l = filter Q l.
Proof.
  induction l as [|x l IH]; intros Hl; [done|]. rewrite !filter_cons.
  assert (Hx : P x <-> Q x) by (apply Hl; by left). rewrite IH by (intros y Hy; apply Hl; by right).
  destruct (decide (P x)), (decide (Q x)); naive_solver.
Qed.

(** The loop keeps what is there and adds one accepted field per missing key. *)
Lemma infer_loop_spec to_original r c c' :
  NoDup (map fst r) -> infer_loop to_original c r = Ok c' ->
  exists new, mode c' = mode c /\ locked c' = locked c /\ fields c' = fields c ++ new /\
    names new = filter (fun n => n ∉ names (fields c)) (map fst r) /\
    Forall (fun f => required f = false /\ exists v, (normalized_name f, v) ∈ r /\ admits f v = true) new.
Proof.
  revert c. induction r as [|[n v] r IH]; cbn -[filter]; intros c Hd E.
  { injection E as <-. exists []. by rewrite app_nil_r. }
  apply NoDup_cons in Hd as [Hn Hd]. rewrite filter_cons. case_bool_decide as Hin.
  - rewrite decide_False by (intros Hx; by apply Hx). destruct (IH c Hd E) as (new & ? & ? & ? & ? & Hnew). exists new. split_and!; [done..|].
    eapply Forall_impl; [exact Hnew|]. intros f (? & w & ? & ?). split; [done|]. exists w. split; [by right|done].
  - rewrite decide_True by done. case_match; [|done]. inv_ok.
    match goal with E : inferred_field _ _ _ = Ok ?g |- _ => rename g into f; apply inferred_admits in E as (En & Eo & Er & Ea) end.
    match goal with E : schema_contract _ _ _ = Ok _ |- _ => apply schema_contract_ok in E as (Hn1 & _ & ->) end.
    destruct (IH _ Hd E) as (new & Em & El & Ef & Enew & Hnew). cbn in *. exists (f :: new). split_and!; [done..| | |].
    + by rewrite Ef, <- app_assoc.
    + change (names (f :: new)) with (normalized_name f :: names new). rewrite En, Enew. f_equal. apply filter_ext_elem. intros x Hx. unfold names. rewrite map_app, elem_of_app. cbn.
      rewrite En, list_elem_of_singleton. split; [naive_solver|]. intros Hx' [?| ->]; done.
    + constructor; [split; [done|]; exists v; rewrite En; split; [by left|done]|].
      eapply Forall_impl; [exact Hnew|]. intros g (? & w & ? & ?). split; [done|]. exists w. split; [by right|done].
Qed.

(** A locked copy, or an extension, of a contract that describes the row has
    the violations of its fields only. *)
Lemma described_violations c r : described c r -> validate c r = flat_map (validate_field r) (fields c).
Proof.
  intros Hd. unfold validate. rewrite (proj2 (extra_fields_nil c r)); [apply app_nil_r|done].
Qed.

(** What [_infer_missing_fields] establishes. *)
Lemma infer_missing_spec c r resolution c' :
  NoDup (map fst r) -> NoDup (names (fields c)) -> infer_missing_fields c r resolution true = Ok c' ->
  locked c' = locked c /\ (exists new, fields c' = fields c ++ new) /\ described c' r /\
  flat_map (validate_field r) (fields c') = flat_map (validate_field r) (fields c) /\
  (length (fields c') <= MAX_INFERRED_CONTRACT_FIELDS)%nat.
Proof.
  intros Hd Hn E. unfold infer_missing_fields in E. inv_ok.
  destruct (infer_loop_spec _ _ _ _ Hd E) as (new & Em & El & Ef & Enew & Hnew). split_and!; [done|by exists new| | |].
  - apply Forall_forall. intros k Hk. unfold names. rewrite Ef, map_app, elem_of_app. fold (names (fields c)) (names new).
    destruct (decide (k ∈ names (fields c))); [by left|]. right. rewrite Enew. by apply list_elem_of_filter.
  - rewrite Ef, flat_map_app, (proj2 (flat_map_nil_iff _ new)), app_nil_r; [done|].
    eapply Forall_impl; [exact Hnew|]. intros f (Hr & v & Hv & Ha). apply validate_field_nil. unfold field_ok.
    by rewrite (dict_get_unique r (normalized_name f) v).
  - rewrite Ef, length_app. rewrite <- (length_map normalized_name new). fold (names new). rewrite Enew.
    match goal with H : true && _ = false |- _ => cbn [andb] in H; apply Nat.ltb_ge in H; rewrite remove_dups_id in H by done; rename H into Hc end.
    by rewrite <- (length_map normalized_name (fields c)).
Qed.

(** C33. The contract that a first row locks describes that row and adds no
    violation: when [process_first_row] accepts the row of an unlocked contract,
    whatever its mode, the result is locked, keeps every declared field first,
    describes every key of the row, has at most 1024 fields, and its validation
    of the row reports exactly the violations of the fields declared before, so
    the row validates if it satisfied what was declared.  The sparse
    fields of a later row extend the contract in the same way, except that a
    FIXED contract is returned unchanged.  The row, a dict, and the contract
    name no field twice. *)
Theorem observed_row_fits c r resolution :
  NoDup (map fst r) -> NoDup (names (fields c)) ->
  (forall c', locked c = false -> process_first_row c r resolution = Ok c' ->
   locked c' = true /\ (exists new, fields c' = fields c ++ new) /\ described c' r /\
   validate c' r = flat_map (validate_field r) (fields c) /\ (length (fields c') <= MAX_INFERRED_CONTRACT_FIELDS)%nat) /\
  (forall c', process_sparse_fields c r resolution = Ok c' ->
   if decide (mode c = FIXED) then c' = c
   else locked c' = locked c /\ (exists new, fields c' = fields c ++ new) /\ described c' r /\
     validate c' r = flat_map (validate_field r) (fields c) /\ (length (fields c') <= MAX_INFERRED_CONTRACT_FIELDS)%nat).
Proof.
  intros Hd Hn. split.
  - intros c' Hl E. unfold process_first_row in E. rewrite Hl in E. inv_ok.
    match goal with H : infer_missing_fields _ _ _ _ = _ |- _ =>
      destruct (infer_missing_spec _ _ _ _ Hd Hn H) as (_ & Hx & Hdesc & Hval & Hlen) end.
    apply schema_contract_ok in E as (_ & _ & ->). split_and!; [done..| |done]. by rewrite described_violations.
  - intros c' E. unfold process_sparse_fields in E. destruct (decide (mode c = FIXED)) as [Hm|Hm].
    + rewrite bool_decide_eq_true_2 in E by done. by injection E as <-.
    + rewrite bool_decide_eq_false_2 in E by done.
      destruct (infer_missing_spec _ _ _ _ Hd Hn E) as (? & ? & ? & ? & ?). split_and!; [done..| |done]. by rewrite described_violations.
Qed.

(** ** Concrete contracts and rows *)
Module ContractExamples.

(** A hash that spells out the names of the fields. *)
#[local] Instance spelled : Digest := {| digest := fun h => String.concat "," (map (fun r => r.1.1.1.1.1) h.2) |}.

Definition order : SchemaContract :=
  mkContract FLEXIBLE [mkField "order_id" "Order ID" Tint true declared false; mkField "amount_usd" "Amount USD" Tfloat false inferred true] true.

Lemma order_well_formed : well_formed order.
Proof. repeat constructor; cbn; set_solver. Qed.

Definition order_row : rowdata := [("order_id", PInt 7); ("amount_usd", PFloat (Finite 3 0)); ("lines", PList [PDict [(PStr "sku", PStr "a")]])].

Lemma row_round_trip_witness :
  to_dict (pipeline_row order_row order) = order_row /\
  row_from_checkpoint (row_to_checkpoint (pipeline_row order_row order)) [(version_hash order, order)] = Ok (pipeline_row order_row order).
Proof.
  destruct (row_round_trip order_row order [(version_hash order, order)]) as (_ & H1 & _ & H2).
  - repeat constructor.
  - vm_compute. reflexivity.
  - split; [exact H1|exact H2].
Defined.

Lemma checkpoint_restores_witness : from_checkpoint (to_checkpoint_format order) = Ok order.
Proof. exact (proj1 (checkpoint_restores order order_well_formed)). Defined.

Lemma audit_record_restores_witness :
  (r ← from_json (to_json (from_contract order)); to_schema_contract r) = Ok (sorted_fields order) /\ fields (sorted_fields order) <> fields order.
Proof.
  split; [|by vm_compute]. refine (proj1 (audit_record_restores order order_well_formed _ _)); [exact I|repeat constructor].
Defined.

Definition observed : SchemaContract := mkContract OBSERVED [mkField "id" "ID" Tint true declared false] false.

Lemma observed_row_fits_witness :
  exists c', process_first_row observed [("id", PInt 1); ("name", PStr "x")] [("ID", "id"); ("Name", "name")] = Ok c' /\
    locked c' = true /\ described c' [("id", PInt 1); ("name", PStr "x")] /\ validate c' [("id", PInt 1); ("name", PStr "x")] = [].
Proof.
  eexists. split; [vm_compute; reflexivity|].
  match goal with |- locked ?c = true /\ _ =>
    destruct (observed_row_fits observed [("id", PInt 1); ("name", PStr "x")] [("ID", "id"); ("Name", "name")]) as [H _];
      [repeat (constructor; [vm_compute; set_solver|]); constructor..|];
      destruct (H c eq_refl) as (H1 & _ & H2 & H3 & _); [vm_compute; reflexivity|]
  end.
  split_and!; [exact H1|exact H2|exact H3].
Defined.
End ContractExamples.
