(* ===== verification/UnionTheory.v ===== *)
(** * UnionTheory: what a merge of contracts describes

    Breaking collisions of original names ends and leaves none; the join of a
    batch is defined on every batch, does not depend on the order of its
    arguments and describes every row of every member, also when it is folded
    pairwise; but the pairwise fold does depend on the order of arrival. *)

From S2P Require Import Prelude Contracts ContractFlow UnionMerge ContractTheory.
Open Scope Z_scope.

(** ** Original names *)

(** A field without its original name. *)
Definition erase (f : FieldContract) : FieldContract := with_original f "".

Definition renamed (f : FieldContract) : Prop := original_name f <> normalized_name f.
#[export] Instance renamed_dec f : Decision (renamed f).
Proof. unfold renamed. apply _. Defined.

Definition collision_free (fs : list FieldContract) : Prop := Forall (fun f => colliding fs (original_name f) = false) fs.

Lemma no_collision_iff fs : existsb (fun f => colliding fs (original_name f)) fs = false <-> collision_free fs.
Proof.
  unfold collision_free. rewrite <- not_true_iff_false, existsb_exists, Forall_forall. split.
  - intros Hn f Hf. apply not_true_iff_false. intros Hc. apply Hn. exists f. by rewrite <- list_elem_of_In.
  - intros Hall (f & Hf%list_elem_of_In & Hc). rewrite (Hall f Hf) in Hc. done.
Qed.

Lemma collision_free_nodup fs : collision_free fs -> NoDup (originals fs).
Proof.
  unfold collision_free, colliding. induction fs as [|f fs IH]; [constructor|]. intros [Hf Hfs]%Forall_cons. cbn. apply NoDup_cons. split.
  - intros (g & Hg & Hin)%list_elem_of_fmap. apply Nat.ltb_ge in Hf. rewrite filter_cons_True in Hf by done. cbn in Hf.
    assert (Hn : filter (fun h => original_name h = original_name f) fs = []) by (apply nil_length_inv; lia).
    assert (Hx : g ∈ filter (fun h => original_name h = original_name f) fs) by (by apply list_elem_of_filter).
    rewrite Hn in Hx. by apply not_elem_of_nil in Hx.
  - apply IH. eapply Forall_impl; [exact Hfs|]. cbv beta. intros g Hg%Nat.ltb_ge. apply Nat.ltb_ge.
    rewrite filter_cons in Hg. destruct (decide _); cbn in Hg; lia.
Qed.

Lemma resolve_pass_names fs : names (resolve_pass fs) = names fs.
Proof. unfold names, resolve_pass. rewrite map_map. apply map_ext. intros f. by destruct (colliding fs (original_name f)). Qed.

(** A field as it was, or under its own name as the original one. *)
Definition resolved (f g : FieldContract) : Prop := g = f \/ g = with_original f (normalized_name f).

Lemma resolve_pass_resolved fs : Forall2 resolved fs (resolve_pass fs).
Proof.
  unfold resolve_pass. generalize (colliding fs) as b. intros b. induction fs as [|f fs IH]; constructor; [|done].
  unfold resolved. destruct (b (original_name f)); auto.
Qed.

Lemma resolved_trans fs gs hs : Forall2 resolved fs gs -> Forall2 resolved gs hs -> Forall2 resolved fs hs.
Proof.
  intros H1. revert hs. induction H1 as [|f g fs gs Hf _ IH]; inversion 1; subst; constructor; [|by apply IH].
  destruct Hf as [->| ->]; [done|]. match goal with H : resolved (with_original _ _) _ |- _ => destruct H as [->| ->]; by right end.
Qed.

Lemma resolved_erase fs gs : Forall2 resolved fs gs -> map erase gs = map erase fs.
Proof. induction 1 as [|f g fs gs [->| ->] _ IH]; cbn; [done|by rewrite IH..]. Qed.

(** Where all fields of one original name are under that very name, there is one. *)
Lemma identity_group fs o :
  NoDup (names fs) -> Forall (fun f => original_name f = o -> normalized_name f = o) fs ->
  (length (filter (fun f => original_name f = o) fs) <= 1)%nat.
Proof.
  induction fs as [|f fs IH]; cbn -[filter]; [cbn; lia|]. intros [Hn Hd]%NoDup_cons [Hf Hfs]%Forall_cons.
  rewrite filter_cons. destruct (decide (original_name f = o)) as [E|]; [|by apply IH]. cbn.
  assert (Hno : filter (fun g => original_name g = o) fs = []); [|rewrite Hno; cbn; lia].
  destruct (filter (fun g => original_name g = o) fs) as [|g gs] eqn:Eg; [done|]. exfalso.
  assert (Hg : g ∈ filter (fun g => original_name g = o) fs) by (rewrite Eg; by left).
  apply list_elem_of_filter in Hg as [Ho Hg]. rewrite Forall_forall in Hfs. apply Hn. rewrite (Hf E), <- (Hfs g Hg Ho).
  by apply list_elem_of_fmap_2.
Qed.

(** A pass over a collision renames at least one field back to itself. *)
Lemma resolve_pass_decreases fs :
  NoDup (names fs) -> ~ collision_free fs -> (length (filter renamed (resolve_pass fs)) < length (filter renamed fs))%nat.
Proof.
  intros Hd Hc.
  assert (exists f, f ∈ fs /\ renamed f /\ colliding fs (original_name f) = true) as (f & Hf & Hr & Hcf).
  { rewrite <- no_collision_iff, not_false_iff_true, existsb_exists in Hc.
    destruct Hc as (g & Hg & Hc). apply Nat.ltb_lt in Hc as Hlen.
    destruct (decide (Exists (fun f => original_name f = original_name g /\ renamed f) fs)) as [Hx|Hx].
    - apply Exists_exists in Hx as (f & Hf & Ho & Hr). exists f. by rewrite Ho.
    - exfalso. apply not_Exists_Forall in Hx; [|apply _].
      enough (length (filter (fun f => original_name f = original_name g) fs) <= 1)%nat by lia.
      apply identity_group; [done|]. eapply Forall_impl; [exact Hx|]. cbn. unfold renamed. intros h Hh Ho.
      destruct (decide (original_name h = normalized_name h)); [congruence|tauto]. }
  assert (Hle : forall gs, (length (filter renamed (map (fun g => if colliding fs (original_name g) then with_original g (normalized_name g) else g) gs))
                  <= length (filter renamed gs))%nat).
  { intros gs. induction gs as [|g gs IH]; [done|]. cbn [map]. rewrite !filter_cons.
    destruct (colliding fs (original_name g));
      [rewrite (decide_False (P := renamed (with_original g (normalized_name g)))) by (intros Hx; by apply Hx)|];
      destruct (decide (renamed g)); cbn [length]; lia. }
  apply list_elem_of_split in Hf as (l1 & l2 & Efs). unfold resolve_pass. pose proof (Hle l1) as H1. pose proof (Hle l2) as H2.
  set (b := colliding fs) in *. clearbody b. rewrite Efs, map_app, !filter_app, !length_app. cbn [map]. rewrite !filter_cons, Hcf.
  rewrite (decide_False (P := renamed (with_original f (normalized_name f)))) by (intros Hx; by apply Hx).
  rewrite decide_True by done. cbn [length]. lia.
Qed.

Lemma resolve_loop_spec fuel fs :
  NoDup (names fs) -> (length (filter renamed fs) <= fuel)%nat ->
  collision_free (resolve_loop fuel fs) /\ names (resolve_loop fuel fs) = names fs /\
  Forall2 resolved fs (resolve_loop fuel fs).
Proof.
  revert fs. induction fuel as [|fuel IH]; intros fs Hd Hf; cbn [resolve_loop];
    destruct (existsb (fun f => colliding fs (original_name f)) fs) eqn:Ec; 
    try (apply no_collision_iff in Ec; split_and!; [done|done|]; apply Forall_Forall2_diag, Forall_true; intros ?; by left).
  - exfalso. enough (~ collision_free fs) as Hc by (apply resolve_pass_decreases in Hc; [lia|done]).
    rewrite <- no_collision_iff. congruence.
  - destruct (IH (resolve_pass fs)) as (H1 & H2 & H3).
    + by rewrite resolve_pass_names.
    + enough (~ collision_free fs) as Hc by (apply resolve_pass_decreases in Hc; [lia|done]). rewrite <- no_collision_iff. congruence.
    + split_and!; [done|by rewrite H2, resolve_pass_names|]. eapply resolved_trans; [apply resolve_pass_resolved|done].
Qed.

(** Breaking the collisions of original names ends: with unique normalized
    names the passes reach a list without collisions, in which both kinds of
    name are unique and nothing but original names changed; each changed one
    is the field's own name. *)
Theorem collisions_resolved fs :
  NoDup (names fs) ->
  let gs := resolve_original_name_collisions fs in
  collision_free gs /\ NoDup (originals gs) /\ names gs = names fs /\ Forall2 resolved fs gs.
Proof.
  intros Hd gs. destruct (resolve_loop_spec (length fs) fs Hd) as (H1 & H2 & H3); [apply length_filter|].
  split_and!; [done|by apply collision_free_nodup|done|done].
Qed.

(** ** Permutations *)
Lemma existsb_perm {A} (b : A -> bool) l1 l2 : l1 ≡ₚ l2 -> existsb b l1 = existsb b l2.
Proof. intros E. apply eq_true_iff_eq. rewrite !existsb_exists. setoid_rewrite <- list_elem_of_In. by setoid_rewrite E. Qed.

Lemma forallb_perm {A} (b : A -> bool) l1 l2 : l1 ≡ₚ l2 -> forallb b l1 = forallb b l2.
Proof. intros E. apply eq_true_iff_eq. rewrite !forallb_forall. setoid_rewrite <- list_elem_of_In. by setoid_rewrite E. Qed.

Lemma remove_dups_perm {A} `{EqDecision A} (l1 l2 : list A) : l1 ≡ₚ l2 -> remove_dups l1 ≡ₚ remove_dups l2.
Proof.
  intros E. apply NoDup_Permutation; [apply NoDup_remove_dups..|]. intros x. by rewrite !elem_of_remove_dups, E.
Qed.

Lemma flat_map_perm {A B} (g : A -> list B) l1 l2 : l1 ≡ₚ l2 -> flat_map g l1 ≡ₚ flat_map g l2.
Proof.
  induction 1; cbn; [done|by f_equiv| |by etrans]. rewrite !app_assoc. f_equiv. apply Permutation_app_comm.
Qed.

Lemma the_only_perm {A} `{EqDecision A} (l1 l2 : list A) d : l1 ≡ₚ l2 -> the_only l1 d = the_only l2 d.
Proof.
  intros E%remove_dups_perm. unfold the_only. pose proof (Permutation_length E) as Hl.
  destruct (remove_dups l1) as [|x [|??]], (remove_dups l2) as [|y [|??]]; try done.
  by apply Permutation_singleton_inj in E.
Qed.

(** The one element is every element. *)
Lemma the_only_elem {A} `{EqDecision A} (l : list A) d x : x ∈ l -> the_only l d = x \/ the_only l d = d.
Proof.
  unfold the_only. rewrite <- elem_of_remove_dups. destruct (remove_dups l) as [|y [|??]]; auto.
  intros ->%list_elem_of_singleton. by left.
Qed.

Lemma the_only_cases {A} `{EqDecision A} (l : list A) d : the_only l d ∈ l \/ the_only l d = d.
Proof.
  unfold the_only. destruct (remove_dups l) as [|y [|??]] eqn:E; auto. left. rewrite <- elem_of_remove_dups, E. by left.
Qed.

(** ** Modes *)
Definition other (m : schema_mode) : bool := match m with other_mode _ => true | _ => false end.

Definition strictest (ms : list schema_mode) : schema_mode :=
  if existsb (fun m => m == FIXED) ms then FIXED else if existsb (fun m => m == FLEXIBLE) ms then FLEXIBLE else OBSERVED.

Lemma most_restrictive_spec m ms :
  most_restrictive m ms = if existsb other (m :: ms) then Err (KeyError "mode_order") else Ok (strictest (m :: ms)).
Proof.
  revert m. induction ms as [|m' ms IH]; intros m; [by destruct m|].
  destruct m, m'; cbn [most_restrictive mode_order]; try done; cbn [Nat.ltb Nat.leb]; rewrite ?IH; unfold strictest; cbn;
    repeat (destruct (existsb _ ms); try done).
Qed.

Lemma most_restrictive_perm m ms m' ms' : m :: ms ≡ₚ m' :: ms' -> most_restrictive m ms = most_restrictive m' ms'.
Proof. intros E. rewrite !most_restrictive_spec. unfold strictest. by rewrite !(existsb_perm _ _ _ E). Qed.

(** ** The join of a batch *)
Lemma carriers_elem cs n f : f ∈ carriers_of cs n <-> normalized_name f = n /\ exists c, c ∈ cs /\ f ∈ fields c.
Proof.
  unfold carriers_of. rewrite list_elem_of_In, in_flat_map. setoid_rewrite <- list_elem_of_In.
  setoid_rewrite list_elem_of_filter. naive_solver.
Qed.

(** A contract has at most one field of a name; when all have it, each has. *)
Lemma carriers_each cs n :
  Forall well_formed cs ->
  (length (carriers_of cs n) <= length cs)%nat /\
  (length (carriers_of cs n) = length cs -> forall c, c ∈ cs -> exists f, f ∈ fields c /\ normalized_name f = n).
Proof.
  induction 1 as [|c cs Hc _ [IH1 IH2]]; [cbn; split; [done|]; intros _ c Hc; by apply not_elem_of_nil in Hc|].
  change (carriers_of (c :: cs) n) with (filter (fun f => normalized_name f = n) (fields c) ++ carriers_of cs n).
  rewrite length_app. cbn [length].
  assert (Hle : (length (filter (fun f => normalized_name f = n) (fields c)) <= 1)%nat).
  { generalize (wf_names _ Hc). induction (fields c) as [|f fs IHf]; [cbn; lia|]. cbn [names map]. intros [Hf Hd]%NoDup_cons.
    rewrite filter_cons. destruct (decide (normalized_name f = n)) as [E|]; [|by apply IHf].
    enough (filter (fun g => normalized_name g = n) fs = []) as -> by (cbn; lia).
    destruct (filter (fun g => normalized_name g = n) fs) as [|g gs] eqn:Eg; [done|].
    assert (g ∈ filter (fun g => normalized_name g = n) fs) as [Hn Hg]%list_elem_of_filter by (rewrite Eg; by left).
    destruct Hf. rewrite E, <- Hn. by apply list_elem_of_fmap_2. }
  split; [lia|]. intros El c' [->|Hc']%elem_of_cons; [|apply IH2; [lia|done]].
  destruct (filter (fun f => normalized_name f = n) (fields c)) as [|f fs] eqn:Ef; [cbn in El; lia|].
  assert (f ∈ filter (fun f => normalized_name f = n) (fields c)) as [Hn Hf]%list_elem_of_filter by (rewrite Ef; by left). eauto.
Qed.

(** The joined field, before original names are resolved. *)
Definition joined (cs : list SchemaContract) (n : string) : FieldContract :=
  let carriers := carriers_of cs n in
  let carried_by_all := (length carriers =? length cs)%nat in
  mkField n (the_only (map original_name carriers) n) (the_only (map python_type carriers) Tobject)
    (carried_by_all && forallb required carriers) (any_declared carriers) (negb carried_by_all || existsb nullable carriers).

Definition joined_names (cs : list SchemaContract) : list string :=
  sort_by String.leb (remove_dups (flat_map (fun c => names (fields c)) cs)).

Lemma joined_names_elem cs n : n ∈ joined_names cs <-> exists c, c ∈ cs /\ n ∈ names (fields c).
Proof.
  unfold joined_names. rewrite sort_by_perm, elem_of_remove_dups, list_elem_of_In, in_flat_map.
  by setoid_rewrite <- list_elem_of_In.
Qed.

Lemma joined_perm cs cs' n : cs ≡ₚ cs' -> joined cs n = joined cs' n.
Proof.
  intros E. unfold joined, any_declared. assert (Ec : carriers_of cs n ≡ₚ carriers_of cs' n) by (by apply flat_map_perm).
  rewrite (Permutation_length E), (Permutation_length Ec), (forallb_perm _ _ _ Ec), !(existsb_perm _ _ _ Ec).
  by rewrite (the_only_perm _ _ _ (Permutation_map original_name Ec)), (the_only_perm _ _ _ (Permutation_map python_type Ec)).
Qed.

Lemma joined_names_perm cs cs' : cs ≡ₚ cs' -> joined_names cs = joined_names cs'.
Proof. intros E. by apply sort_strings_perm, remove_dups_perm, flat_map_perm. Qed.

Lemma join_batch_perm cs cs' : cs ≡ₚ cs' -> join_batch_contracts cs = join_batch_contracts cs'.
Proof.
  intros E. pose proof (Permutation_length E) as Hl.
  destruct cs as [|c [|c2 cs]], cs' as [|c' [|c2' cs']]; try done; [by apply Permutation_singleton_inj in E as ->|].
  unfold join_batch_contracts. fold (joined_names (c :: c2 :: cs)) (joined_names (c' :: c2' :: cs')).
  rewrite <- (joined_names_perm _ _ E), <- (existsb_perm _ _ _ E).
  rewrite (most_restrictive_perm _ _ (mode c') (map mode (c2' :: cs'))) by (by apply (Permutation_map mode) in E).
  enough (forall l, mapM_res (join_field (c :: c2 :: cs)) l = mapM_res (join_field (c' :: c2' :: cs')) l) as -> by done.
  induction l as [|n l IH]; [done|]. cbn [mapM_res]. rewrite IH.
  change (join_field (c :: c2 :: cs) n) with (field_contract (joined (c :: c2 :: cs) n)). by rewrite (joined_perm _ _ _ E).
Qed.

Lemma resolved_field_ok r fs gs : Forall2 resolved fs gs -> Forall (field_ok r) fs -> Forall (field_ok r) gs.
Proof. induction 1 as [|f g fs gs [->| ->] _ IH]; [done|..]; intros [Hf Hfs]%Forall_cons; constructor; auto. Qed.

Lemma resolved_types fs gs :
  Forall2 resolved fs gs -> Forall (fun f => allowed (python_type f) = true) fs -> Forall (fun f => allowed (python_type f) = true) gs.
Proof. induction 1 as [|f g fs gs [->| ->] _ IH]; [done|..]; intros [Hf Hfs]%Forall_cons; constructor; auto. Qed.

(** A contract built from fields of distinct names, with their collisions resolved. *)
Lemma resolved_contract m fs l :
  NoDup (names fs) -> Forall (fun f => allowed (python_type f) = true) fs ->
  let j := mkContract m (resolve_original_name_collisions fs) l in
  schema_contract m (resolve_original_name_collisions fs) l = Ok j /\ well_formed j /\ names (fields j) = names fs /\
  forall r, Forall (field_ok r) fs -> Forall (field_ok r) (fields j).
Proof.
  intros Hd Ht j. destruct (resolve_loop_spec (length fs) fs Hd) as (Hc & Hn & Hr); [apply length_filter|].
  apply collision_free_nodup in Hc. split_and!; [|constructor|done|].
  - apply schema_contract_ok. unfold resolve_original_name_collisions. split_and!; [by rewrite Hn|done|done].
  - unfold j, resolve_original_name_collisions. cbn [fields]. by rewrite Hn.
  - done.
  - by eapply resolved_types.
  - intros r. by eapply resolved_field_ok.
Qed.

(** A weaker field accepts what a stronger one accepts. *)
Definition weaker (g f : FieldContract) : Prop :=
  (python_type g = python_type f \/ python_type g = Tobject) /\ (required g = true -> required f = true) /\
  (nullable f = true -> nullable g = true).

Lemma weaker_admits g f v : weaker g f -> admits f v = true -> admits g v = true.
Proof.
  intros ([Et|Et] & Hr & Hn); unfold admits; rewrite Et; [|intros _; by rewrite bool_decide_eq_true_2].
  rewrite !orb_true_iff, !andb_true_iff, !orb_true_iff, !negb_true_iff. intros [[?|[? Hv]]|?]; [tauto| |tauto].
  left. right. split; [done|]. destruct (required g), (required f), (nullable f); naive_solver.
Qed.

(** Under a field that is weaker than the one the row was accepted with, or
    that is optional where the row has no such field, the row is accepted. *)
Lemma weaker_field_ok r c g :
  Forall (field_ok r) (fields c) -> described c r ->
  (forall f, f ∈ fields c -> normalized_name f = normalized_name g -> weaker g f) ->
  (required g = true -> exists f, f ∈ fields c /\ normalized_name f = normalized_name g) -> field_ok r g.
Proof.
  rewrite Forall_forall. intros Hok Hd Hw Hreq. unfold field_ok. destruct (dict_get r (normalized_name g)) as [v|] eqn:Ev.
  - destruct (described_elem _ _ _ _ Hd Ev) as (f & Hf & En). apply (weaker_admits _ f); [by apply Hw|].
    specialize (Hok f Hf). unfold field_ok in Hok. by rewrite En, Ev in Hok.
  - destruct (required g) eqn:Er; [|done]. destruct (Hreq eq_refl) as (f & Hf & En). specialize (Hok f Hf).
    unfold field_ok in Hok. rewrite En, Ev in Hok. destruct (Hw f Hf En) as (_ & Hr & _). rewrite <- Hok. symmetry. by apply Hr.
Qed.

Lemma joined_weaker cs c f : c ∈ cs -> f ∈ fields c -> weaker (joined cs (normalized_name f)) f.
Proof.
  intros Hc Hf. assert (Hin : f ∈ carriers_of cs (normalized_name f)) by (apply carriers_elem; eauto).
  unfold weaker, joined. cbn. split_and!.
  - apply the_only_elem. by apply list_elem_of_fmap_2.
  - rewrite andb_true_iff, forallb_Forall, Forall_forall. intros [_ Hr]. by apply Hr.
  - intros Hn. apply orb_true_iff. right. apply existsb_exists. exists f. by rewrite <- list_elem_of_In.
Qed.

Lemma joined_allowed cs n : Forall well_formed cs -> allowed (python_type (joined cs n)) = true.
Proof.
  intros Hw. unfold joined. cbn. destruct (the_only_cases (map python_type (carriers_of cs n)) Tobject) as [Hin| ->]; [|done].
  apply list_elem_of_fmap in Hin as (f & -> & (_ & c & Hc & Hf)%carriers_elem). rewrite Forall_forall in Hw.
  pose proof (wf_types _ (Hw c Hc)) as Ht. rewrite Forall_forall in Ht. by apply Ht.
Qed.

Lemma joined_field_names cs : names (map (joined cs) (joined_names cs)) = joined_names cs.
Proof. unfold names. rewrite map_map. apply map_id. Qed.

Lemma strictest_literal ms : other (strictest ms) = false.
Proof. unfold strictest. by repeat destruct (existsb _ ms). Qed.

Lemma join_spec cs :
  Forall well_formed cs -> Forall literal_mode cs -> cs <> [] ->
  exists j, join_batch_contracts cs = Ok j /\ well_formed j /\ literal_mode j /\
    forall c r, c ∈ cs -> conforms r c -> conforms r j.
Proof.
  intros Hw Hm Hne. destruct cs as [|c [|c2 cs]]; [done| |].
  { exists c. apply Forall_cons in Hw as [Hw _], Hm as [Hm _]. repeat (split; [done|]). by intros ?? ->%list_elem_of_singleton. }
  set (all := c :: c2 :: cs) in *.
  set (fs := map (joined all) (joined_names all)).
  assert (Hmap : mapM_res (join_field all) (joined_names all) = Ok fs).
  { apply mapM_res_ok. unfold fs. apply Forall2_fmap_r, Forall_Forall2_diag, Forall_true. intros n.
    apply field_contract_ok. split; [by apply joined_allowed|done]. }
  assert (Hnd : NoDup (names fs)).
  { unfold fs. rewrite joined_field_names. unfold joined_names. rewrite sort_by_perm. apply NoDup_remove_dups. }
  destruct (resolved_contract (strictest (map mode all)) fs (existsb locked all)) as (Hj & Hwf & Hnames & Hok); [done|..].
  { apply Forall_fmap, Forall_true. intros n. by apply joined_allowed. }
  eexists. split_and!; [|exact Hwf| |].
  - unfold join_batch_contracts. cbn [all]. fold all. fold (joined_names all). rewrite Hmap. cbn [mbind res_bind].
    rewrite most_restrictive_spec. change (mode c :: map mode (c2 :: cs)) with (map mode all).
    replace (existsb other (map mode all)) with false; [done|]. symmetry. apply not_true_iff_false. rewrite existsb_exists.
    intros (m & Hin%list_elem_of_In & Ho). apply list_elem_of_fmap in Hin as (d & -> & Hd). rewrite Forall_forall in Hm. specialize (Hm d Hd).
    unfold literal_mode in Hm. by destruct (mode d).
  - unfold literal_mode. cbn. pose proof (strictest_literal (map mode all)). by destruct (strictest _).
  - intros d r Hd [Hf Hdesc]%conforms_iff. apply conforms_iff. split.
    + apply Hok. apply Forall_fmap, Forall_true. intros n. apply (weaker_field_ok r d); [done..| |].
      * intros f Hf' En. change (normalized_name f = n) in En. subst n. by apply joined_weaker with d.
      * cbn [joined required normalized_name]. rewrite andb_true_iff, Nat.eqb_eq. intros [Hl _].
        by apply (proj2 (carriers_each all n Hw)).
    + unfold described in *. rewrite Hnames. unfold fs. rewrite joined_field_names. eapply Forall_impl; [exact Hdesc|]. cbv beta.
      intros k Hk. apply joined_names_elem. eauto.
Qed.

(** C17. The join of a batch describes every row of every member: for
    well-formed contracts it is defined, well formed, independent of the order
    of the members, and a row that one member describes and accepts is
    described and accepted by the join. *)
Theorem join_describes_members cs :
  Forall well_formed cs -> Forall literal_mode cs -> cs <> [] ->
  exists j, join_batch_contracts cs = Ok j /\ well_formed j /\
    (forall cs', cs ≡ₚ cs' -> join_batch_contracts cs' = Ok j) /\
    (forall c r, c ∈ cs -> conforms r c -> conforms r j).
Proof.
  intros Hw Hm Hne. destruct (join_spec cs Hw Hm Hne) as (j & Hj & Hwf & _ & Hr). exists j. split_and!; [done..| |done].
  intros cs' E. by rewrite <- (join_batch_perm _ _ E).
Qed.

(** The contract of a sink batch, folded pairwise over its tokens, is
    defined and describes the rows of every token, whatever producers they
    come from. *)
Theorem batch_contract_describes c cs :
  Forall well_formed (c :: cs) -> Forall literal_mode (c :: cs) ->
  exists j, merge_batch_contract c cs = Ok j /\ well_formed j /\ forall d r, d ∈ c :: cs -> conforms r d -> conforms r j.
Proof.
  revert c. induction cs as [|c2 cs IH]; intros c Hw Hm.
  - apply Forall_cons in Hw as [Hw _]. exists c. repeat (split; [done|]). by intros d r ->%list_elem_of_singleton.
  - apply Forall_cons in Hw as [Hw [Hw2 Hws]%Forall_cons]. apply Forall_cons in Hm as [Hm [Hm2 Hms]%Forall_cons].
    destruct (join_spec [c; c2]) as (j & Hj & Hwj & Hmj & Hrj); [apply Forall_cons_2; [done|by apply Forall_singleton]..|done|].
    destruct (IH j) as (k & Hk & Hwk & Hrk); [by apply Forall_cons_2..|]. exists k. cbn [merge_batch_contract]. unfold merge_for_batch.
    rewrite Hj. repeat (split; [done|]). intros d r Hd Hc. rewrite !elem_of_cons in Hd.
    assert (Hfirst : d = c \/ d = c2 -> conforms r k).
    { intros Hcase. apply (Hrk j); [by left|]. apply (Hrj d); [|done]. rewrite elem_of_cons, list_elem_of_singleton. tauto. }
    destruct Hd as [Hd|[Hd|Hd]]; [tauto..|]. apply (Hrk d); [by right|done].
Qed.

(** ** Where the order shows *)
Definition plain (n o : string) : FieldContract := mkField n o Tstr true inferred false.

Definition observed_of (fs : list FieldContract) : SchemaContract := mkContract OBSERVED fs true.

(** The batch contract depends on the order in which the tokens arrive:
    joining one source name under two fields drops it, and dropping it early or
    late decides whether a field of a third producer keeps its own. *)
Theorem batch_contract_depends_on_order :
  exists a b c, Forall well_formed [a; b; c] /\ Forall literal_mode [a; b; c] /\ merge_batch_contract a [b; c] <> merge_batch_contract b [c; a].
Proof.
  exists (observed_of [plain "a" "o"]), (observed_of [plain "b" "o"]), (observed_of [plain "b" "z"]). split_and!.
  - repeat constructor; cbn; set_solver.
  - repeat constructor.
  - by vm_compute.
Qed.

(** A row that a contract accepts without describing all of it can be
    refused by the join: next to a fixed contract the join is fixed, and a
    field that an open contract merely tolerated is an extra field of it. *)
Theorem join_refuses_undescribed :
  exists a b r j, well_formed a /\ well_formed b /\ validate a r = [] /\ merge_for_batch a b = Ok j /\ validate j r <> [].
Proof.
  exists (mkContract FLEXIBLE [plain "a" "a"] true), (mkContract FIXED [plain "a" "a"] true), [("a", PStr "x"); ("e", PInt 1)].
  eexists. split_and!; [repeat constructor; cbn; set_solver..|done|done|by vm_compute].
Qed.

(** ** Concrete batches *)
Module UnionExamples.

(** Two branches that renamed one source column, and a third field that bears its name. *)
Definition renames : list FieldContract := [plain "amount" "Amount"; plain "total" "Amount"; plain "fee" "total"].

Lemma collisions_resolved_witness :
  collision_free (resolve_original_name_collisions renames) /\
  originals (resolve_original_name_collisions renames) = ["amount"; "total"; "fee"].
Proof.
  split; [|vm_compute; reflexivity].
  refine (proj1 (collisions_resolved renames _)). repeat (constructor; [vm_compute; set_solver|]); constructor.
Defined.

Definition orders : SchemaContract := mkContract OBSERVED [mkField "id" "ID" Tint true inferred false] true.
Definition refunds : SchemaContract :=
  mkContract FLEXIBLE [mkField "id" "ID" Tstr true declared false; mkField "reason" "Reason" Tstr false inferred true] true.

Lemma batch_well_formed : Forall well_formed [orders; refunds].
Proof. repeat constructor; cbn; set_solver. Qed.

Lemma batch_literal : Forall literal_mode [orders; refunds].
Proof. repeat constructor. Qed.

Lemma order_conforms : conforms [("id", PInt 7)] orders.
Proof. split; [vm_compute; reflexivity|]. constructor; [cbn; set_solver|constructor]. Qed.

Lemma join_describes_members_witness :
  exists j, join_batch_contracts [orders; refunds] = Ok j /\ map python_type (fields j) = [Tobject; Tstr] /\ conforms [("id", PInt 7)] j.
Proof.
  destruct (join_describes_members [orders; refunds] batch_well_formed batch_literal) as (j & Hj & _ & _ & Hc); [discriminate|].
  exists j. split; [exact Hj|]. split; [|apply (Hc orders); [left|exact order_conforms]].
  vm_compute in Hj. injection Hj as <-. reflexivity.
Defined.

Lemma batch_contract_describes_witness :
  exists j, merge_batch_contract orders [refunds; orders] = Ok j /\ conforms [("id", PInt 7)] j.
Proof.
  destruct (batch_contract_describes orders [refunds; orders]) as (j & Hj & _ & Hc);
    [repeat constructor; cbn; set_solver|repeat constructor|].
  exists j. split; [exact Hj|]. apply (Hc orders); [left|exact order_conforms].
Defined.
End UnionExamples.
