(* ===== verification/CompatTheory.v ===== *)
(** * CompatTheory: what the build admits, the rows pass

    Two schemas that the build finds compatible, and the contracts made from
    them: a row that the producer's contract describes and accepts is accepted
    by the consumer's. *)

From S2P Require Import Prelude Contracts ContractFlow SchemaCompat ContractTheory.
Open Scope Z_scope.

(** ** Annotations as the schemas use them *)

(** A class other than that of None, or anything; metadata aside. *)
Fixpoint single (a : annotation) : bool :=
  match a with
  | AType t => negb (t == TNone)
  | AAny => true
  | AAnnotated a => single a
  | _ => false
  end.

(** A single type, or the union of one with None. *)
Definition one_type (a : annotation) : bool :=
  single a || match unwrap_annotated a with
              | AUnion ms => forallb (fun x => is_none_type x || single x) ms && existsb single ms
              | _ => false
              end.

(** A value that a type with its flag for None accepts. *)
Definition takes (tn : pytype * bool) (v : pvalue) : Prop :=
  tn.1 = Tobject \/ is_null v = true /\ tn.2 = true \/ declared_type_admits tn.1 (classify_runtime_type v) = true.

Lemma single_none a : single a = true -> is_none_type a = false.
Proof. destruct a as [[]| | | |]; done. Qed.

Lemma unwrap_single a : single (unwrap_annotated a) = single a.
Proof. by induction a. Qed.

Lemma unwrap_type a : get_python_type (unwrap_annotated a) = get_python_type a.
Proof. by induction a. Qed.

(** The type of a single annotation, and what it takes. *)
Definition single_type (a : annotation) : pytype := match unwrap_annotated a with AType t => t | _ => Tobject end.

Lemma single_get a tn : single a = true -> get_python_type a = Ok tn -> tn = (single_type a, false).
Proof.
  unfold single_type. induction a as [t| | |a IH|]; cbn [single get_python_type unwrap_annotated]; try done.
  - intros _. destruct (allowed t); [by intros [= <-]|done].
  - by intros _ [= <-].
Qed.

Lemma admits_cases e a : declared_type_admits e a = true <-> e = a \/ e = Tfloat /\ a = Tint.
Proof.
  unfold declared_type_admits. rewrite orb_true_iff, andb_true_iff, !bool_decide_eq_true. naive_solver.
Qed.

(** What is compatible with a single type is a class that it admits. *)
Lemma compat_single a e :
  single e = true -> types_compatible a e = true ->
  single_type e = Tobject \/ exists t, unwrap_annotated a = AType t /\ declared_type_admits (single_type e) t = true.
Proof.
  unfold single_type. induction e as [s| | |e IH|]; cbn [single types_compatible unwrap_annotated]; try done; [|by left].
  intros _ E. right. destruct (unwrap_annotated a) as [t| | | |]; try done. exists t. split; [done|]. cbn [ann_eqb] in E.
  apply orb_true_iff in E as [E|E]; [|done]. apply bool_decide_eq_true in E as ->. apply admits_cases. by left.
Qed.

Lemma single_takes a e n v :
  single a = true -> single e = true -> types_compatible a e = true -> takes (single_type a, false) v -> takes (single_type e, n) v.
Proof.
  intros Ha He [E|(t & Et & E)]%compat_single; [by left| |done]. unfold takes, single_type in *. rewrite Et. cbn.
  destruct (unwrap_annotated e) as [s| | | |]; cbn in *; try (intros _; by left). rewrite admits_cases in *. intros [->|[[_ ?]|H]]; [|done|].
  - destruct E as [->|[_ ?]]; [by left|done].
  - right. right. rewrite admits_cases in *. destruct E as [->|[-> ->]]; [done|]. destruct H as [<-|[? _]]; [by right|done].
Qed.

(** The types of a union, and of the union's members in turn. *)
Definition first_type (nullable : bool) : list annotation -> res (pytype * bool) :=
  fix get_one l :=
    match l with
    | [] => Ok (TNone, false)
    | x :: l => if is_none_type x then get_one l else (t ← get_python_type x; Ok (t.1, nullable))
    end.

Lemma union_get ms tn :
  get_python_type (AUnion ms) = Ok tn -> forallb (fun x => is_none_type x || single x) ms = true -> existsb single ms = true ->
  exists x, x ∈ ms /\ single x = true /\ tn = (single_type x, existsb is_none_type ms) /\ forall y, y ∈ ms -> is_none_type y = true \/ y = x.
Proof.
  change (get_python_type (AUnion ms)) with
    (reject (1 <? length (filter (fun x => is_none_type x = false) ms))%nat with TypeError "Multi-type union not supported" ;;
     first_type (existsb is_none_type ms) ms).
  intros E Hall Hsome. inv_ok. match goal with H : (1 <? _)%nat = false |- _ => apply Nat.ltb_ge in H; rename H into Hl end.
  rewrite forallb_Forall in Hall.
  assert (exists x, x ∈ ms /\ single x = true /\ tn = (single_type x, existsb is_none_type ms)) as (x & Hx & Hs & ->).
  { clear Hl. revert E. generalize (existsb is_none_type ms) as b. intros b. induction Hall as [|x l Hx _ IH]; cbn; [done|].
    destruct (is_none_type x) eqn:En; cbn in Hx.
    - intros E. destruct IH as (y & ? & ? & ?); [|done|exists y; split; [by right|done]].
      cbn in Hsome. destruct (single x) eqn:Ex; [by apply single_none in Ex; congruence|done].
    - intros E. inv_ok. match goal with H : get_python_type x = Ok _ |- _ => apply single_get in H as ->; [|done] end.
      exists x. split; [by left|done]. }
  exists x. split_and!; [done..|]. intros y Hy. destruct (is_none_type y) eqn:En; [by left|right].
  assert (Hyf : y ∈ filter (fun z => is_none_type z = false) ms) by (by apply list_elem_of_filter).
  assert (Hxf : x ∈ filter (fun z => is_none_type z = false) ms) by (apply list_elem_of_filter; split; [by apply single_none|done]).
  destruct (filter _ ms) as [|z [|??]]; [by apply not_elem_of_nil in Hyf| |cbn in Hl; lia].
  apply list_elem_of_singleton in Hyf, Hxf. congruence.
Qed.

Lemma unwrap_idem a : unwrap_annotated (unwrap_annotated a) = unwrap_annotated a.
Proof. by induction a. Qed.

Lemma compat_unwrap_l a e : types_compatible (unwrap_annotated a) e = types_compatible a e.
Proof. induction e; cbn [types_compatible]; rewrite ?unwrap_idem; done. Qed.

Lemma compat_unwrap_r a e : types_compatible a (unwrap_annotated e) = types_compatible a e.
Proof. by induction e. Qed.

Lemma eqb_compat x y : ann_eqb x y = true -> types_compatible x y = true.
Proof.
  revert x. induction y as [t| |ms|y IH|r]; intros [s| |ns|x|q] E; try done; cbn [types_compatible unwrap_annotated].
  all: try (by rewrite E). rewrite <- compat_unwrap_l. cbn [unwrap_annotated]. rewrite compat_unwrap_l. by apply IH.
Qed.

Definition optional_of (ms : list annotation) : Prop :=
  forallb (fun x => is_none_type x || single x) ms = true /\ existsb single ms = true.

Lemma one_type_cases a : one_type a = true -> single a = true \/ exists ms, unwrap_annotated a = AUnion ms /\ optional_of ms.
Proof.
  unfold one_type. intros [?|H]%orb_true_iff; [by left|right]. destruct (unwrap_annotated a); try done. eexists. split; [done|].
  by apply andb_true_iff in H.
Qed.

Lemma none_compat x : is_none_type x || single x = true -> types_compatible (AType TNone) x = true -> is_none_type x = true \/ single_type x = Tobject.
Proof.
  destruct (is_none_type x) eqn:En; [by left|]. cbn. intros Hs Hc. right. destruct (compat_single _ _ Hs Hc) as [|(t & [= <-] & Ht)]; [done|].
  apply admits_cases in Ht as [Ht|[_ ?]]; [|done]. rewrite <- unwrap_single in Hs. unfold single_type in Ht. exfalso. revert Hs Ht.
  destruct (unwrap_annotated x); try done. by intros Hs ->.
Qed.

Lemma union_compat_single ms e : single e = true -> types_compatible (AUnion ms) e = true -> single_type e = Tobject.
Proof. intros Hs Hc. by destruct (compat_single _ _ Hs Hc) as [|(t & [=] & _)]. Qed.

Lemma union_compat a es :
  types_compatible a (AUnion es) =
    ann_eqb (unwrap_annotated a) (AUnion es) || (existsb (fun e => types_compatible (unwrap_annotated a) e) es
      || match unwrap_annotated a with AUnion us => forallb (fun u => existsb (fun e => types_compatible u e) es) us | _ => false end).
Proof. done. Qed.

Lemma single_not_none a : single a = true -> types_compatible a (AType TNone) = false.
Proof.
  rewrite <- unwrap_single. cbn [types_compatible]. intros Hs. destruct (unwrap_annotated a) as [t| | | |]; try done. by destruct t.
Qed.

(** Compatible annotations: what the actual type takes, the expected type takes. *)
Lemma compatible_takes a e ta te v :
  one_type a = true -> one_type e = true -> get_python_type a = Ok ta -> get_python_type e = Ok te ->
  types_compatible a e = true -> takes ta v -> takes te v.
Proof.
  intros Ha He Ga Ge Hc Hv. apply one_type_cases in Ha, He.
  destruct He as [He|(es & Ee & Hes)].
  - apply single_get in Ge as ->; [|done]. destruct Ha as [Ha|(us & Ea & Hus)].
    + apply single_get in Ga as ->; [|done]. by apply single_takes with a.
    + left. cbn. rewrite <- compat_unwrap_l, Ea in Hc. by apply (union_compat_single us).
  - rewrite <- unwrap_type, Ee in Ge. apply union_get in Ge as (x & Hx & Hsx & -> & Honly); [|apply Hes..].
    assert (Hmember : forall y, y ∈ es -> is_none_type y || single y = true).
    { destruct Hes as [Hall _]. rewrite forallb_Forall, Forall_forall in Hall. done. }
    rewrite <- compat_unwrap_r, Ee, <- compat_unwrap_l in Hc. destruct Ha as [Ha|(us & Ea & Hus)].
    + apply single_get in Ga as ->; [|done]. rewrite <- unwrap_single in Ha.
      assert (Hex : existsb (fun e => types_compatible (unwrap_annotated a) e) es = true).
      { rewrite union_compat, unwrap_idem in Hc. destruct (unwrap_annotated a); try done; by rewrite orb_false_r in Hc. }
      apply existsb_exists in Hex as (y & Hy%list_elem_of_In & Hcy). rewrite compat_unwrap_l in Hcy.
      rewrite unwrap_single in Ha. destruct (Honly y Hy) as [Hn| ->]; [|by apply single_takes with a].
      destruct y as [[]| | | |]; try done. by rewrite single_not_none in Hcy.
    + rewrite <- unwrap_type, Ea in Ga. apply union_get in Ga as (u & Hu & Hsu & -> & _); [|apply Hus..]. rewrite Ea in Hc.
      assert (Hall : (single_type x = Tobject) \/ Forall (fun a => existsb (fun e => types_compatible a e) es = true) us).
      { rewrite union_compat in Hc. cbn [unwrap_annotated] in Hc. apply orb_true_iff in Hc as [Hc|[Hc|Hc]%orb_true_iff]; [right| |right; by apply forallb_Forall].
        - cbn [ann_eqb] in Hc. apply andb_true_iff in Hc as [Hc _]. rewrite forallb_Forall in Hc. eapply Forall_impl; [exact Hc|].
          cbv beta. intros z (y & Hy & Hz)%existsb_exists. apply existsb_exists. exists y. split; [done|]. by apply eqb_compat.
        - left. apply existsb_exists in Hc as (y & Hy%list_elem_of_In & Hcy). destruct (Honly y Hy) as [Hn| ->]; [|by apply (union_compat_single us)].
          by destruct y as [[]| | | |]. }
      destruct Hall as [Ho|Hall]; [by left|]. rewrite Forall_forall in Hall.
      assert (Hto : forall z, z ∈ us -> exists y, y ∈ es /\ types_compatible z y = true).
      { intros z (y & Hy%list_elem_of_In & Hzy)%Hall%existsb_exists. eauto. }
      assert (Hsingle : takes (single_type u, false) v -> takes (single_type x, existsb is_none_type es) v).
      { intros Ht. destruct (Hto u Hu) as (y & Hy & Huy). destruct (Honly y Hy) as [Hn| ->]; [|by apply single_takes with u].
        destruct y as [[]| | | |]; try done. by rewrite single_not_none in Huy. }
      destruct Hv as [Hv|[[Hv1 Hv2]|Hv]]; [apply Hsingle; by left| |apply Hsingle; right; by right].
      apply existsb_exists in Hv2 as (z & Hz%list_elem_of_In & Hzn). destruct (Hto z Hz) as (y & Hy & Hzy).
      destruct z as [[]| | | |]; try done. destruct (none_compat y (Hmember y Hy) Hzy) as [Hn|Ho].
      * right. left. split; [done|]. apply existsb_exists. exists y. by rewrite <- list_elem_of_In.
      * destruct (Honly y Hy) as [Hn| ->]; [|by left]. by destruct y as [[]| | | |].
Qed.

(** ** Schemas *)
Definition public (n : string) : Prop := String.prefix "_" n = false.

Lemma output_contract_fields s c :
  create_output_contract_from_schema s = Ok c ->
  (mode c = if extra s == forbid then FIXED else FLEXIBLE) /\
  Forall2 (fun nf f => output_field nf = Ok f) (filter (fun nf => public nf.1) (model_fields s)) (fields c).
Proof. unfold create_output_contract_from_schema. intros E. inv_ok. apply schema_contract_ok in E as (_ & _ & ->). split; [done|]. by apply mapM_res_ok. Qed.

Lemma output_field_ok nf f :
  output_field nf = Ok f -> exists t, get_python_type (annotation_of nf.2) = Ok t /\ f = mkField nf.1 nf.1 t.1 (is_required nf.2) declared t.2.
Proof. unfold output_field. intros E. inv_ok. apply field_contract_ok in E as [_ ->]. eauto. Qed.

(** The field of a schema's contract for a public entry, and the entry for a field. *)
Lemma entry_field s c n i :
  create_output_contract_from_schema s = Ok c -> (n, i) ∈ model_fields s -> public n ->
  exists t, get_python_type (annotation_of i) = Ok t /\ mkField n n t.1 (is_required i) declared t.2 ∈ fields c.
Proof.
  intros [_ H2]%output_contract_fields Hin Hp. assert (Hf : (n, i) ∈ filter (fun nf => public nf.1) (model_fields s)) by (by apply list_elem_of_filter).
  induction H2 as [|nf f nfs fs Ho _ IH]; [by apply not_elem_of_nil in Hf|]. apply elem_of_cons in Hf as [<-|Hf].
  - apply output_field_ok in Ho as (t & ? & ->). exists t. split; [done|by left].
  - destruct (IH Hf) as (t & ? & ?). exists t. split; [done|by right].
Qed.

Lemma field_entry s c f :
  create_output_contract_from_schema s = Ok c -> f ∈ fields c ->
  exists i t, (normalized_name f, i) ∈ model_fields s /\ public (normalized_name f) /\ get_python_type (annotation_of i) = Ok t /\
    f = mkField (normalized_name f) (normalized_name f) t.1 (is_required i) declared t.2.
Proof.
  intros [_ H2]%output_contract_fields Hin.
  assert (exists nf, nf ∈ filter (fun nf => public nf.1) (model_fields s) /\ output_field nf = Ok f) as ([n i] & Hf & Ho).
  { induction H2 as [|nf g nfs fs Ho _ IH]; [by apply not_elem_of_nil in Hin|]. apply elem_of_cons in Hin as [->|Hin].
    - exists nf. split; [by left|done].
    - destruct (IH Hin) as (m & ? & ?). exists m. split; [by right|done]. }
  apply list_elem_of_filter in Hf as [Hp Hm]. apply output_field_ok in Ho as (t & Et & ->). by exists i, t.
Qed.

(** The types of a schema's public fields are single or optional, and it lists
    each field once. *)
Definition simple_schema (s : PluginSchema) : Prop :=
  NoDup (model_fields s).*1 /\ Forall (fun nf => one_type (annotation_of nf.2) = true) (model_fields s).

(** What compatibility says of one field of the consumer. *)
Lemma compatible_field producer consumer n i :
  compatible (check_compatibility producer consumer []) = true -> (n, i) ∈ model_fields consumer ->
  match dict_get (model_fields producer) n with
  | Some q => types_compatible (annotation_of q) (annotation_of i) = true
  | None => is_required i = false
  end.
Proof.
  unfold compatible, check_compatibility. cbn [missing_fields type_mismatches constraint_mismatches extra_fields_of]. intros Hc Hin.
  destruct (flat_map _ (model_fields consumer)) eqn:E1 in Hc; [|done].
  destruct (flat_map _ (model_fields consumer)) eqn:E2 in Hc; [|done]. clear Hc.
  rewrite flat_map_nil_iff, Forall_forall in E1, E2. specialize (E1 _ Hin). specialize (E2 _ Hin). cbn [fst snd] in E1, E2.
  destruct (dict_get (model_fields producer) n) as [q|].
  - by destruct (types_compatible _ _).
  - rewrite andb_false_r in E1. by destruct (is_required i).
Qed.

Lemma compatible_extra producer consumer n :
  compatible (check_compatibility producer consumer []) = true -> extra consumer = forbid ->
  n ∈ (model_fields producer).*1 -> n ∈ (model_fields consumer).*1.
Proof.
  unfold compatible, check_compatibility. cbn [missing_fields type_mismatches constraint_mismatches extra_fields_of]. intros Hc He Hn.
  repeat (destruct (flat_map _ (model_fields consumer)) in Hc; [|done]). rewrite bool_decide_eq_true_2 in Hc by done.
  destruct (decide (n ∈ (model_fields consumer).*1)) as [|Hno]; [done|exfalso].
  destruct (sort_by _ _) eqn:Es; [|done].
  assert (Hf : n ∈ filter (fun n => n ∉ map fst (model_fields consumer)) (map fst (model_fields producer))) by (by apply list_elem_of_filter).
  rewrite <- (sort_by_perm String.leb), Es in Hf. by apply not_elem_of_nil in Hf.
Qed.

(** C19. What the build admits, every row passes: if a producer's schema requires
    all its fields and is compatible with a consumer's, a row that the
    producer's contract describes and accepts has no violation under the
    consumer's: nothing is missing, mistyped or extra. *)
Theorem compatible_rows_pass producer consumer pc cc r :
  simple_schema producer -> simple_schema consumer -> Forall (fun nf => is_required nf.2 = true) (model_fields producer) ->
  compatible (check_compatibility producer consumer []) = true ->
  create_output_contract_from_schema producer = Ok pc -> create_output_contract_from_schema consumer = Ok cc ->
  validate pc r = [] -> described pc r -> validate cc r = [].
Proof.
  intros [Hpn Hps] [Hcn Hcs] Hreq Hc Hpc Hcc [Hok _]%validate_nil Hdesc. rewrite Forall_forall in Hok. rewrite Forall_forall in Hps. rewrite Forall_forall in Hcs. rewrite Forall_forall in Hreq.
  apply validate_nil. split.
  - apply Forall_forall. intros g Hg. destruct (field_entry _ _ _ Hcc Hg) as (i & t & Hi & Hpub & Et & Eg).
    pose proof (compatible_field _ _ _ _ Hc Hi) as Hf. unfold field_ok.
    destruct (dict_get (model_fields producer) (normalized_name g)) as [q|] eqn:Eq.
    + apply dict_get_elem in Eq. destruct (entry_field _ _ _ _ Hpc Eq Hpub) as (u & Eu & Hu). specialize (Hok _ Hu).
      unfold field_ok in Hok. cbn [normalized_name required] in Hok. rewrite (Hreq _ Eq : is_required q = true) in Hok.
      destruct (dict_get r (normalized_name g)) as [v|]; [|done].
      assert (Ht : takes t v).
      { eapply (compatible_takes (annotation_of q)); [apply (Hps _ Eq)|apply (Hcs _ Hi)|done..|]. unfold takes. unfold admits in Hok. cbn in Hok.
        rewrite !orb_true_iff, andb_true_iff, bool_decide_eq_true in Hok. tauto. }
      rewrite Eg. unfold admits. cbn. rewrite !orb_true_iff, andb_true_iff, orb_true_iff, bool_decide_eq_true. unfold takes in Ht. tauto.
    + destruct (dict_get r (normalized_name g)) as [v|] eqn:Ev; [|by rewrite Eg].
      exfalso. destruct (described_elem _ _ _ _ Hdesc Ev) as (f & Hf' & En). destruct (field_entry _ _ _ Hpc Hf') as (j & _ & Hj & _).
      rewrite En in Hj. apply dict_get_None in Eq. apply Eq. apply list_elem_of_fmap. by exists (normalized_name g, j).
  - intros Hm. pose proof (output_contract_fields _ _ Hcc) as [Em _]. rewrite Em in Hm. case_bool_decide as He; [|done].
    eapply Forall_impl; [exact Hdesc|]. cbv beta. intros k Hk. apply list_elem_of_fmap in Hk as (f & -> & Hf).
    destruct (field_entry _ _ _ Hpc Hf) as (j & _ & Hj & Hpub & _).
    assert (Hin : normalized_name f ∈ (model_fields consumer).*1).
    { apply (compatible_extra producer); [done..|]. apply list_elem_of_fmap. by exists (normalized_name f, j). }
    apply list_elem_of_fmap in Hin as ([n i] & En & Hi). cbn in En. subst n. destruct (entry_field _ _ _ _ Hcc Hi Hpub) as (t & _ & Ht).
    apply list_elem_of_fmap. eexists. split; [|exact Ht]. done.
Qed.

(** ** Concrete schemas *)
Module CompatExamples.
Definition producer : PluginSchema :=
  mkSchema allow [("id", mkInfo (AType Tint) true None); ("note", mkInfo (AUnion [AType Tstr; AType TNone]) true None)].
Definition consumer : PluginSchema :=
  mkSchema forbid [("id", mkInfo (AAnnotated (AType Tfloat)) true (Some false)); ("note", mkInfo (AUnion [AType Tstr; AType TNone]) false None);
                   ("tag", mkInfo AAny false None)].

Lemma compatible_rows_pass_witness :
  exists pc cc, create_output_contract_from_schema producer = Ok pc /\ create_output_contract_from_schema consumer = Ok cc /\
    map python_type (fields cc) = [Tfloat; Tstr; Tobject] /\ validate cc [("id", PInt 7); ("note", PNone)] = [].
Proof.
  eexists. eexists. split; [vm_compute; reflexivity|]. split; [vm_compute; reflexivity|]. split; [reflexivity|].
  eapply (compatible_rows_pass producer consumer).
  - split; repeat (constructor; [vm_compute; set_solver|]); constructor.
  - split; repeat (constructor; [vm_compute; set_solver|]); constructor.
  - repeat constructor.
  - vm_compute. reflexivity.
  - vm_compute. reflexivity.
  - vm_compute. reflexivity.
  - vm_compute. reflexivity.
  - repeat (constructor; [vm_compute; set_solver|]); constructor.
Defined.
End CompatExamples.
