(* ===== verification/CoalesceMergeTheory.v ===== *)
(** * CoalesceMergeTheory: what the merged row and contract of a coalesce mean

    Each field of a merged row comes from the branch its origin names, the
    first, the last or the only one to send it; where not all branches need to
    arrive, or collisions fail, the merged row satisfies the merged contract;
    guarantees of the node's schema hold of every merged row; and what
    construction refuses as certain fails for every row. *)

From S2P Require Import Prelude Contracts ContractFlow UnionMerge CoalesceMerge ContractTheory UnionTheory.
Open Scope Z_scope.

(** ** The fields that arrive *)

(** Every field of every branch, in the order in which the merge takes them. *)
Definition arriving (order : list string) (arrived : arrivals) : list (string * (string * pvalue)) :=
  flat_map (fun b => match dict_get arrived b with Some p => map (pair b) (to_dict p) | None => [] end) order.

(** The branches that send a field, with their values. *)
Definition senders (l : list (string * (string * pvalue))) (k : string) : list (string * pvalue) :=
  map (fun x => (x.1, x.2.2)) (filter (fun x => x.2.1 = k) l).

Definition merge_arriving (l : list (string * (string * pvalue))) (m : merged_rows) : merged_rows :=
  fold_left (fun m x => merge_value x.1 m x.2) l m.

Lemma merge_union_rows_arriving order arrived :
  merge_union_rows order arrived = merge_arriving (arriving order arrived) (mkMerged [] [] []).
Proof.
  unfold merge_union_rows. generalize (mkMerged [] [] []) as m. induction order as [|b order IH]; intros m; [done|]. cbn.
  unfold merge_arriving. rewrite fold_left_app, IH. f_equal. destruct (dict_get arrived b) as [p|]; [|done]. clear.
  generalize (to_dict p) as l. intros l. revert m. induction l as [|x l IH]; intros m; [done|]. cbn. by rewrite IH.
Qed.

Lemma senders_snoc l b k v k' : senders (l ++ [(b, (k, v))]) k' = senders l k' ++ if decide (k = k') then [(b, v)] else [].
Proof. unfold senders. rewrite filter_app, map_app. f_equal. cbn. by destruct (decide (k = k')). Qed.

(** What the merge knows after a list of fields. *)
Record knows (l : list (string * (string * pvalue))) (m : merged_rows) : Prop := {
  knows_data : forall k, dict_get (m_data m) k = snd <$> last (senders l k);
  knows_origins : forall k, dict_get (m_origins m) k = fst <$> last (senders l k);
  knows_collisions : forall k, dict_get (m_collisions m) k = if (1 <? length (senders l k))%nat then Some (senders l k) else None;
  knows_nodup : NoDup (m_collisions m).*1;
  knows_data_nodup : NoDup (m_data m).*1;
}.

Lemma merge_value_knows l m b k v : knows l m -> knows (l ++ [(b, (k, v))]) (merge_value b m (k, v)).
Proof.
  intros [Hd Ho Hc Hn Hdn]. unfold merge_value. constructor; cbn [m_data m_origins m_collisions].
  - intros k'. rewrite senders_snoc, dict_get_set, Hd. destruct (decide (k = k')) as [->|Hne].
    + by rewrite bool_decide_eq_true_2, last_snoc.
    + by rewrite bool_decide_eq_false_2, app_nil_r.
  - intros k'. rewrite senders_snoc, dict_get_set, Ho. destruct (decide (k = k')) as [->|Hne].
    + by rewrite bool_decide_eq_true_2, last_snoc.
    + by rewrite bool_decide_eq_false_2, app_nil_r.
  - intros k'. rewrite senders_snoc, Ho, Hd, Hc. destruct (decide (k = k')) as [<-|Hne].
    + destruct (senders l k) as [|[b0 v0] [|s ss]] eqn:Es.
      * cbn. by rewrite Hc, Es.
      * cbn. by rewrite dict_get_set, bool_decide_eq_true_2.
      * rewrite last_cons_cons. destruct (last (s :: ss)) eqn:El; [|by apply last_None in El]. cbn [fmap option_fmap option_map].
        rewrite dict_get_set, bool_decide_eq_true_2 by done. rewrite length_app.
        change (1 <? length ((b0, v0) :: s :: ss))%nat with true. cbn [length].
        replace (1 <? S (S (length ss)) + 1)%nat with true by (symmetry; apply Nat.ltb_lt; lia). done.
    + rewrite app_nil_r. destruct (fst <$> last (senders l k)); [|apply Hc]. by rewrite dict_get_set, bool_decide_eq_false_2, Hc.
  - destruct (dict_get (m_origins m) k); [|done]. by apply dict_set_nodup.
  - by apply dict_set_nodup.
Qed.

Lemma merge_union_rows_knows order arrived : knows (arriving order arrived) (merge_union_rows order arrived).
Proof.
  rewrite merge_union_rows_arriving. generalize (arriving order arrived) as l. intros l. unfold merge_arriving.
  induction l as [|[b [k v]] l IH] using rev_ind; [by repeat constructor|]. rewrite fold_left_app. cbn. by apply merge_value_knows.
Qed.

Lemma resolve_first_wins_spec cs d o :
  NoDup cs.*1 -> Forall (fun fe => (1 < length fe.2)%nat) cs -> NoDup d.*1 ->
  exists d' o', resolve_first_wins cs d o = Ok (d', o') /\ NoDup d'.*1 /\ forall k,
    dict_get d' k = (match dict_get cs k with Some es => snd <$> head es | None => dict_get d k end) /\
    dict_get o' k = (match dict_get cs k with Some es => fst <$> head es | None => dict_get o k end).
Proof.
  revert d o. induction cs as [|[f es] cs IH]; intros d o Hn Hl Hd; cbn; [by exists d, o|].
  apply NoDup_cons in Hn as [Hf Hn]. apply Forall_cons in Hl as [He Hl]. destruct es as [|[b v] [|e es]]; cbn in He; [lia..|].
  destruct (IH (dict_set d f v) (dict_set o f b)) as (d' & o' & -> & Hd' & Hk); [done..|by apply dict_set_nodup|].
  exists d', o'. split_and!; [done..|]. intros k. specialize (Hk k). rewrite !dict_get_set in Hk. case_bool_decide as Ek.
  - subst k. apply dict_get_None in Hf. cbn in Hf. by rewrite Hf in Hk.
  - done.
Qed.

(** The sender whose value a policy keeps. *)
Definition winner (policy : collision_policy) (ss : list (string * pvalue)) : option (string * pvalue) :=
  match policy with first_wins => head ss | _ => last ss end.

Lemma dict_get_map {A B} (g : A -> B) (d : list (string * A)) k :
  dict_get (map (fun kv => (kv.1, g kv.2)) d) k = g <$> dict_get d k.
Proof. induction d as [|[k' v] d IH]; cbn; [done|]. by case_bool_decide. Qed.

Lemma short_list {A} (l : list A) : (1 <? length l)%nat = false -> head l = last l.
Proof. by destruct l as [|? [|??]]. Qed.

(** The merged data and its origins, under any policy that lets the merge through. *)
Lemma union_plan s arrived out plan :
  ms_merge s = union -> build_coalesce_merge s arrived out = Ok plan ->
  let l := arriving (ms_branches s) arrived in
  exists d, NoDup d.*1 /\ data (merged_row plan) = freeze_row d /\
    (forall k, dict_get d k = snd <$> winner (ms_collision_policy s) (senders l k)) /\
    (forall k, dict_get (union_field_origins plan) k = fst <$> winner (ms_collision_policy s) (senders l k)) /\
    (forall k, dict_get (union_field_collisions plan) k
               = if (1 <? length (senders l k))%nat then Some (map fst (senders l k)) else None) /\
    (ms_collision_policy s = fail_on_collision -> forall k, (length (senders l k) <= 1)%nat) /\
    merged_contract s arrived out (if bool_decide (ms_collision_policy s = first_wins) && uses_precomputed out
                                   then union_field_origins plan else m_origins (merge_union_rows (ms_branches s) arrived))
      = Ok (contract (merged_row plan)).
Proof.
  intros Hs E l. unfold build_coalesce_merge, merge_data in E. rewrite Hs in E. cbn [mbind res_bind] in E.
  pose proof (merge_union_rows_knows (ms_branches s) arrived) as Hk. fold l in Hk.
  set (m := merge_union_rows (ms_branches s) arrived) in *. destruct Hk as [Hd Ho Hc Hn Hdn].
  assert (Hcol : forall k, dict_get (map (fun fe => (fe.1, map fst fe.2)) (m_collisions m)) k
                 = if (1 <? length (senders l k))%nat then Some (map fst (senders l k)) else None).
  { intros k. rewrite dict_get_map, Hc. by destruct (1 <? length (senders l k))%nat. }
  assert (Hnil : m_collisions m = [] -> forall k, (1 <? length (senders l k))%nat = false).
  { intros En k. specialize (Hc k). rewrite En in Hc. by destruct (1 <? length (senders l k))%nat. }
  inv_ok. rename x into c.
  destruct (m_collisions m) as [|fe fes] eqn:Em.
  - injection E as <-. specialize (Hnil eq_refl). exists (m_data m). cbn [merged_row union_field_origins union_field_collisions].
    assert (Hw : forall k, winner (ms_collision_policy s) (senders l k) = last (senders l k)).
    { intros k. unfold winner. case_match; [done| |done]. by apply short_list. }
    split_and!; [done|done|intros k; by rewrite Hw|intros k; by rewrite Hw|done| |].
    + intros _ k. specialize (Hnil k). apply Nat.ltb_ge in Hnil. lia.
    + by case_match.
  - rewrite <- Em in *. clear Em fe fes Hnil. destruct (ms_collision_policy s) eqn:Ep.
    + injection E as <-. exists (m_data m). by split_and!.
    + inv_ok. rename x into dd.
      destruct (resolve_first_wins_spec (m_collisions m) (m_data m) (m_origins m)) as (d' & o' & E' & Hd' & Hk); [done| |done|].
      { apply Forall_forall. intros [f es] Hin. apply dict_get_unique in Hin; [|done]. rewrite Hc in Hin.
        destruct (1 <? length (senders l f))%nat eqn:El; [|done]. injection Hin as <-. by apply Nat.ltb_lt. }
      match goal with H : resolve_first_wins _ _ _ = Ok dd |- _ => rewrite E' in H; injection H as <- end. cbn [fst snd] in *.
      exists d'. cbn [merged_row union_field_origins union_field_collisions winner]. split_and!; [done|done|..|done|done|].
      * intros k. destruct (Hk k) as [-> _]. rewrite Hc, Hd.
        destruct (1 <? length (senders l k))%nat eqn:El; [done|]. by rewrite (short_list _ El).
      * intros k. destruct (Hk k) as [_ ->]. rewrite Hc, Ho.
        destruct (1 <? length (senders l k))%nat eqn:El; [done|]. by rewrite (short_list _ El).
      * rewrite bool_decide_eq_true_2 by done. cbn [andb contract pipeline_row]. destruct (uses_precomputed out); [done|]. by simplify_eq.
    + done.
Qed.

(** C23. The audit trail of a union says where each field of the merged row comes
    from: a field is in the row exactly if some branch sends it; its origin and
    its value are those of the branch the policy keeps, the first or the last
    to send it; the recorded collisions are the fields that several branches
    send, with all their senders in branch order; and under the policy that
    fails on collisions no merge with a collision gets through. *)
Theorem union_row_provenance s arrived out plan :
  ms_merge s = union -> build_coalesce_merge s arrived out = Ok plan ->
  forall k, let ss := senders (arriving (ms_branches s) arrived) k in
  dict_get (data (merged_row plan)) k = (deep_freeze ∘ snd) <$> winner (ms_collision_policy s) ss /\
  dict_get (union_field_origins plan) k = fst <$> winner (ms_collision_policy s) ss /\
  dict_get (union_field_collisions plan) k = (if (1 <? length ss)%nat then Some (map fst ss) else None) /\
  (ms_collision_policy s = fail_on_collision -> (length ss <= 1)%nat).
Proof.
  intros Hs E k ss. destruct (union_plan s arrived out plan Hs E) as (d & _ & Hf & Hd & Ho & Hc & Hl & _). split_and!; [|done|done|by intros; apply Hl].
  rewrite Hf. unfold freeze_row. rewrite dict_get_map, Hd. by destruct (winner _ _).
Qed.

(** ** The per-field union *)
Section flags.
Context {K : Type} `{EqDecision K} (require_all : bool) (policy : collision_policy).

Definition e_name (x : string * entry K) : string := x.2.1.1.1.
Definition e_type (x : string * entry K) : K := x.2.1.1.2.
Definition e_required (x : string * entry K) : bool := x.2.1.2.
Definition e_nullable (x : string * entry K) : bool := x.2.2.

(** The entries of all branches in order, each with its branch. *)
Definition entries_in (branch_fields : list (string * list (entry K))) (order : list string) : list (string * entry K) :=
  flat_map (fun b => match dict_get branch_fields b with Some es => map (pair b) es | None => [] end) order.

Fixpoint merge_all (l : list (string * entry K)) (st : seen * carried) : conflict K + seen * carried :=
  match l with
  | [] => inr st
  | x :: l => match merge_entry require_all policy x.1 st x.2 with inl c => inl c | inr st => merge_all l st end
  end.

Lemma merge_all_app l1 l2 st :
  merge_all (l1 ++ l2) st = match merge_all l1 st with inl c => inl c | inr st => merge_all l2 st end.
Proof. revert st. induction l1 as [|x l1 IH]; intros st; [done|]. cbn [app merge_all]. by destruct (merge_entry _ _ _ _ _). Qed.

Lemma merge_branches_all branch_fields order st :
  merge_branches require_all policy branch_fields order st = merge_all (entries_in branch_fields order) st.
Proof.
  revert st. induction order as [|b order IH]; intros st; [done|]. cbn [merge_branches entries_in flat_map].
  destruct (dict_get branch_fields b) as [es|]; [|apply IH]. rewrite merge_all_app.
  replace (merge_all (map (pair b) es) st) with (merge_entries require_all policy b st es).
  - destruct (merge_entries _ _ _ _ _); [done|apply IH].
  - clear. revert st. induction es as [|e es IH]; intros st; [done|]. cbn [map merge_entries merge_all fst snd].
    by destruct (merge_entry _ _ _ _ _).
Qed.

(** What the flags of a field say of the entries that were merged into it. *)
Record flags_of (l : list (string * entry K)) (n : string) (f : flags K) : Prop := {
  flags_some : exists x, x ∈ l /\ e_name x = n;
  flags_type : forall x, x ∈ l -> e_name x = n -> e_type x = f_type f;
  flags_required : f_required f = true ->
    if require_all then exists x, x ∈ l /\ e_name x = n /\ e_required x = true
    else forall x, x ∈ l -> e_name x = n -> e_required x = true;
  flags_nullable : require_all = false \/ policy = fail_on_collision ->
    forall x, x ∈ l -> e_name x = n -> e_nullable x = true -> f_nullable f = true;
}.

Record merged_from (l : list (string * entry K)) (st : seen * carried) : Prop := {
  merged_nodup : NoDup st.1.*1;
  merged_flags : forall n f, dict_get st.1 n = Some f -> flags_of l n f;
  merged_keys : forall x, x ∈ l -> e_name x ∈ st.1.*1;
  merged_carried : forall n b, b ∈ default [] (dict_get st.2 n) <-> exists x, x ∈ l /\ x.1 = b /\ e_name x = n;
}.

Lemma flags_of_snoc_other l x n f : e_name x <> n -> flags_of l n f -> flags_of (l ++ [x]) n f.
Proof.
  intros Hx [(y & Hy & Hn) Ht Hr Hu]. constructor.
  - exists y. by rewrite elem_of_app; auto.
  - intros z [Hz|Hz]%elem_of_app; [by apply Ht|]. apply list_elem_of_singleton in Hz as ->. done.
  - intros Hf. specialize (Hr Hf). destruct require_all.
    + destruct Hr as (z & Hz & ?). exists z. by rewrite elem_of_app; auto.
    + intros z [Hz|Hz]%elem_of_app; [by apply Hr|]. apply list_elem_of_singleton in Hz as ->. done.
  - intros Hc z [Hz|Hz]%elem_of_app; [by apply Hu|]. apply list_elem_of_singleton in Hz as ->. done.
Qed.

Lemma flags_of_snoc_same l b n t req nul f :
  f_type f = t -> flags_of l n f -> flags_of (l ++ [(b, (n, t, req, nul))]) n (merge_shared require_all policy f req nul).
Proof.
  intros Et [(y & Hy & Hn) Ht Hr Hu].
  set (x := (b, (n, t, req, nul)) : string * entry K).
  assert (Hin : forall z, z ∈ l ++ [x] <-> z ∈ l \/ z = x) by (intros z; by rewrite elem_of_app, list_elem_of_singleton).
  unfold merge_shared. constructor.
  - exists y. rewrite Hin. auto.
  - intros z [Hz| ->]%Hin Hz'; [|by destruct require_all]. destruct require_all; by apply Ht.
  - destruct require_all; cbn [f_required].
    + intros [Hf|Hf]%orb_true_iff; [destruct (Hr Hf) as (z & Hz & ?); exists z; by rewrite Hin; auto|].
      exists x. by rewrite Hin; auto.
    + intros [Hf Hq]%andb_true_iff z [Hz| ->]%Hin Hz'; [by apply Hr|done].
  - intros Hc z Hz%Hin Hz' Hz''. destruct require_all; cbn [f_nullable].
    + destruct Hc as [?| ->]; [done|]. apply orb_true_iff. destruct Hz as [Hz| ->]; [left; by apply Hu with z; auto|by right].
    + apply orb_true_iff. destruct Hz as [Hz| ->]; [left; by apply Hu with z; auto|by right].
Qed.

Lemma merge_entry_merged l st x st' :
  merged_from l st -> merge_entry require_all policy x.1 st x.2 = inr st' -> merged_from (l ++ [x]) st'.
Proof.
  intros [Hn Hf Hk Hc] E. destruct x as [b [[[n t] req] nul]]. unfold merge_entry in E. cbn [fst snd] in E.
  set (x := (b, (n, t, req, nul)) : string * entry K).
  assert (Hin : forall z, z ∈ l ++ [x] <-> z ∈ l \/ z = x) by (intros z; by rewrite elem_of_app, list_elem_of_singleton).
  assert (Hc' : forall m b', b' ∈ default [] (dict_get (dict_set st.2 n (default [] (dict_get st.2 n) ++ [b])) m)
                  <-> exists y, y ∈ l ++ [x] /\ y.1 = b' /\ e_name y = m).
  { intros m b'. rewrite dict_get_set. case_bool_decide as Em.
    - subst m. cbn [from_option id].
      rewrite elem_of_app, list_elem_of_singleton, Hc. split.
      + intros [(y & ? & ? & ?)| ->]; [exists y|exists x]; by rewrite Hin; auto.
      + intros (y & [?| ->]%Hin & ? & ?); [left; eauto|by right].
    - rewrite Hc. split; [intros (y & ? & ? & ?); exists y; by rewrite Hin; auto|]. by intros (y & [?| ->]%Hin & ? & ?); eauto. }
  assert (Hset : forall f, flags_of (l ++ [x]) n f -> merged_from (l ++ [x]) (dict_set st.1 n f, dict_set st.2 n (default [] (dict_get st.2 n) ++ [b]))).
  { intros f Hx. constructor; cbn [fst snd].
    - by apply dict_set_nodup.
    - intros m g. rewrite dict_get_set. case_bool_decide as Em; [subst m; by intros [= <-]|].
      intros Hg. apply flags_of_snoc_other; [done|by apply Hf].
    - intros y [Hy| ->]%Hin; apply dict_set_keys; [right; by apply Hk|by left].
    - done. }
  destruct (dict_get st.1 n) as [prior|] eqn:Ep.
  - case_bool_decide as Et; [|done]. injection E as <-. apply Hset, flags_of_snoc_same; [done|by apply Hf].
  - injection E as <-. apply Hset. assert (Hno : forall y, y ∈ l -> e_name y <> n).
    { intros y Hy <-. apply dict_get_None in Ep. by apply Ep, Hk. }
    constructor.
    + exists x. by rewrite Hin; auto.
    + intros y [Hy| ->]%Hin Hyn; [by destruct (Hno y)|done].
    + cbn. intros Hr. destruct require_all.
      * exists x. by rewrite Hin; auto.
      * intros y [Hy| ->]%Hin Hyn; [by destruct (Hno y)|done].
    + intros _ y [Hy| ->]%Hin Hyn; [by destruct (Hno y)|done].
Qed.

Lemma merge_all_merged l st : merge_all l ([], []) = inr st -> merged_from l st.
Proof.
  revert st. induction l as [|x l IH] using rev_ind; intros st.
  - intros [= <-]. constructor; cbn; [constructor|done|by intros x ?%not_elem_of_nil|]. intros n b. split; [by intros ?%not_elem_of_nil|].
    by intros (x & ?%not_elem_of_nil & _).
  - rewrite merge_all_app. destruct (merge_all l ([], [])) as [|st0]; [done|]. cbn [merge_all].
    destruct (merge_entry require_all policy x.1 st0 x.2) as [|st1] eqn:E; [done|]. intros [= <-].
    by apply merge_entry_merged with st0; [apply IH|].
Qed.
End flags.

Lemma dict_get_map_key {A B} (h : string -> A -> B) (d : list (string * A)) k :
  dict_get (map (fun kv => (kv.1, h kv.1 kv.2)) d) k = h k <$> dict_get d k.
Proof. induction d as [|[k' v] d IH]; cbn; [done|]. case_bool_decide; [by subst|done]. Qed.

Lemma same_set_elem a b : same_set a b = true -> forall x, x ∈ b -> x ∈ a.
Proof.
  unfold same_set. rewrite andb_true_iff, !forallb_Forall, !Forall_forall. intros [_ Hb] x Hx. specialize (Hb x Hx).
  by apply bool_decide_eq_true in Hb.
Qed.

(** The merged flags, with the fields that not every branch carries made
    optional where not every branch needs to arrive. *)
Lemma merge_union_field_flags_spec {K} `{EqDecision K} require_all policy (branch_fields : list (string * list (entry K))) order s :
  merge_union_field_flags require_all policy branch_fields (Some order) = inr s ->
  let l := entries_in branch_fields order in
  NoDup s.*1 /\ (forall x, x ∈ l -> e_name x ∈ s.*1) /\
  forall n f, dict_get s n = Some f -> flags_of require_all policy l n f /\
    (require_all = false -> f_required f = true ->
     forall b, b ∈ order -> dict_mem branch_fields b = true -> exists x, x ∈ l /\ x.1 = b /\ e_name x = n).
Proof.
  unfold merge_union_field_flags. cbn [from_option id]. rewrite merge_branches_all.
  destruct (merge_all _ _ _ _) as [|[s0 car]] eqn:E; [done|]. apply merge_all_merged in E as [Hn Hf Hk Hc]. cbn [fst snd] in *.
  destruct require_all eqn:Era; [by intros [= <-]; split_and!; [..|intros n f Hnf; split; [by apply Hf|]]|].
  set (contributing := filter _ order). intros [= <-].
  set (force := fun n (f : flags K) => if same_set (default [] (dict_get car n)) contributing then f else mkFlags (f_type f) false true (f_branch f)).
  assert (Em : map (fun nf : string * flags K => if same_set (default [] (dict_get car nf.1)) contributing then nf
                     else (nf.1, mkFlags (f_type nf.2) false true (f_branch nf.2))) s0 = map (fun nf => (nf.1, force nf.1 nf.2)) s0).
  { apply map_ext. intros [n f]. unfold force. cbn. by destruct (same_set _ _). }
  rewrite Em. clear Em. assert (Ek : (map (fun nf => (nf.1, force nf.1 nf.2)) s0).*1 = s0.*1).
  { rewrite <- list_fmap_compose. done. }
  rewrite Ek. split_and!; [done|done|]. intros n f. rewrite dict_get_map_key. destruct (dict_get s0 n) as [f0|] eqn:E0; [|done].
  specialize (Hf n f0 E0) as [Hs Ht Hr Hu]. cbn. intros [= <-]. unfold force.
  destruct (same_set (default [] (dict_get car n)) contributing) eqn:Es.
  - split; [done|]. intros _ _ b Hb Hm. apply Hc. apply (same_set_elem _ _ Es). by apply list_elem_of_filter.
  - split; [|done]. by constructor.
Qed.

(** ** The merged contract *)
Definition members (contracts : list (string * SchemaContract)) (order : list string) : list (string * SchemaContract) :=
  omap (fun b => pair b <$> dict_get contracts b) order.

Lemma members_elem contracts order b c : (b, c) ∈ members contracts order <-> b ∈ order /\ dict_get contracts b = Some c.
Proof.
  unfold members. rewrite list_elem_of_omap. split.
  - intros (b' & Hb & E). destruct (dict_get contracts b') eqn:Ec; [|done]. by injection E as <- <-.
  - intros [Hb Hc]. exists b. by rewrite Hc.
Qed.

(** A field of the merged contract against the fields that were merged into it. *)
Record merged_into (require_all : bool) (policy : collision_policy) (ms : list (string * SchemaContract)) (g : FieldContract) : Prop := {
  into_some : exists b c f, (b, c) ∈ ms /\ f ∈ fields c /\ normalized_name f = normalized_name g;
  into_type : forall b c f, (b, c) ∈ ms -> f ∈ fields c -> normalized_name f = normalized_name g -> python_type g = python_type f;
  into_nullable : require_all = false \/ policy = fail_on_collision ->
    forall b c f, (b, c) ∈ ms -> f ∈ fields c -> normalized_name f = normalized_name g -> nullable f = true -> nullable g = true;
  into_required : required g = true ->
    if require_all then exists b c f, (b, c) ∈ ms /\ f ∈ fields c /\ normalized_name f = normalized_name g /\ required f = true
    else forall b c, (b, c) ∈ ms -> exists f, f ∈ fields c /\ normalized_name f = normalized_name g /\
           forall f', f' ∈ fields c -> normalized_name f' = normalized_name g -> required f' = true;
}.

Lemma resolved_into ra policy ms f g : resolved f g -> merged_into ra policy ms f -> merged_into ra policy ms g.
Proof. intros [->| ->]; [done|]. intros [Hs Ht Hn Hr]. by constructor. Qed.

Definition contract_entry (f : FieldContract) : entry pytype := (normalized_name f, python_type f, required f, nullable f).

Lemma contract_entries_in contracts order x :
  x ∈ entries_in (map (fun bc => (bc.1, contract_entries bc.2)) contracts) order <->
  exists b c f, (b, c) ∈ members contracts order /\ f ∈ fields c /\ x = (b, contract_entry f).
Proof.
  unfold entries_in. rewrite list_elem_of_In, in_flat_map. setoid_rewrite <- list_elem_of_In. setoid_rewrite members_elem. split.
  - intros (b & Hb & Hx). rewrite dict_get_map in Hx. destruct (dict_get contracts b) as [c|] eqn:Ec; cbn in Hx; [|by apply not_elem_of_nil in Hx].
    apply list_elem_of_fmap in Hx as (e & -> & Hx). apply list_elem_of_fmap in Hx as (f & -> & Hf). by exists b, c, f.
  - intros (b & c & f & (Hb & Hc) & Hf & ->). exists b. split; [done|]. rewrite dict_get_map, Hc. cbn.
    apply list_elem_of_fmap. exists (contract_entry f). split; [done|]. by apply list_elem_of_fmap_2.
Qed.

Lemma members_filter contracts order m :
  m ∈ members contracts (filter (fun b => dict_mem contracts b = true) order) <-> m ∈ members contracts order.
Proof.
  destruct m as [b c]. rewrite !members_elem, list_elem_of_filter. unfold dict_mem. split; [tauto|]. by intros [? ->].
Qed.

Lemma same_field c f g : well_formed c -> f ∈ fields c -> g ∈ fields c -> normalized_name f = normalized_name g -> f = g.
Proof.
  intros Hw Hf Hg E. apply find_field_unique in Hf, Hg; [|apply Hw..]. rewrite E, Hg in Hf. by injection Hf.
Qed.

Lemma merged_single ra policy ms c :
  well_formed c -> (exists b, (b, c) ∈ ms) -> (forall b d, (b, d) ∈ ms -> d = c) -> Forall (merged_into ra policy ms) (fields c).
Proof.
  intros Hw [b Hb] Hall. apply Forall_forall. intros g Hg. constructor.
  - by exists b, c, g.
  - intros b' d f ->%Hall Hf E. by rewrite (same_field c f g).
  - intros _ b' d f ->%Hall Hf E. by rewrite (same_field c f g).
  - intros Hr. destruct ra; [by exists b, c, g|]. intros b' d ->%Hall. exists g. split_and!; [done..|].
    intros f' Hf' E. by rewrite (same_field c f' g).
Qed.

Lemma merged_field_ok contracts nf g :
  merged_field contracts nf = Ok g ->
  allowed (python_type g) = true /\ normalized_name g = nf.1 /\ python_type g = f_type nf.2 /\ required g = f_required nf.2 /\
  nullable g = f_nullable nf.2.
Proof. unfold merged_field. case_match; [done|]. by intros [Ha ->]%field_contract_ok. Qed.

Lemma Forall2_elem_r {A B} (R : A -> B -> Prop) l k y : Forall2 R l k -> y ∈ k -> exists x, x ∈ l /\ R x y.
Proof.
  induction 1 as [|x z l k Hx _ IH]; [by intros ?%not_elem_of_nil|]. setoid_rewrite elem_of_cons. intros [->|Hy]; [by eauto|].
  destruct (IH Hy) as (w & ? & ?). eauto.
Qed.

Lemma merged_from_flags ra policy contracts order s nf g cs :
  merge_union_field_flags ra policy (map (fun bc => (bc.1, contract_entries bc.2)) contracts) (Some order) = inr s ->
  (forall b, b ∈ order -> dict_mem contracts b = true) ->
  Forall (fun bc => well_formed bc.2) contracts -> nf ∈ s -> merged_field cs nf = Ok g -> merged_into ra policy (members contracts order) g.
Proof.
  intros (Hn & _ & Hf)%merge_union_field_flags_spec Hord Hw Hin (_ & En & Et & Er & Eu)%merged_field_ok. destruct nf as [n fl]. cbn in *.
  apply dict_get_unique in Hin; [|done]. destruct (Hf n fl Hin) as [[(x & Hx & Hxn) Ht Hr Hu] Hall].
  assert (Hmem : forall b c f, (b, c) ∈ members contracts order -> f ∈ fields c ->
                  (b, contract_entry f) ∈ entries_in (map (fun bc => (bc.1, contract_entries bc.2)) contracts) order).
  { intros b c f Hbc Hfc. apply contract_entries_in. eauto 10. }
  constructor.
  - apply contract_entries_in in Hx as (b & c & f & Hbc & Hfc & ->). exists b, c, f. by rewrite En.
  - intros b c f Hbc Hfc E. rewrite Et. symmetry. apply (Ht (b, contract_entry f)); [by apply Hmem with c|]. by rewrite <- En, <- E.
  - intros Hc b c f Hbc Hfc E Hnul. rewrite Eu. apply (Hu Hc (b, contract_entry f)); [by apply Hmem with c| |done]. by rewrite <- En, <- E.
  - rewrite Er. intros Hreq. specialize (Hr Hreq). destruct ra.
    + destruct Hr as (y & (b & c & f & Hbc & Hfc & ->)%contract_entries_in & Hyn & Hyr). exists b, c, f. by rewrite En.
    + intros b c Hbc. pose proof Hbc as [Hb Hc]%members_elem.
      destruct (Hall eq_refl Hreq b Hb) as (y & (b' & c' & f & Hbc' & Hfc & ->)%contract_entries_in & Eb & Ey).
      { unfold dict_mem. by rewrite dict_get_map, Hc. }
      cbn in Eb. subst b'. apply members_elem in Hbc' as [_ Hc']. rewrite Hc in Hc'. injection Hc' as <-.
      exists f. split_and!; [done|by rewrite En|]. intros f' Hf' E'. apply (Hr (b, contract_entry f')); [by apply Hmem with c|].
      by rewrite <- En, <- E'.
Qed.

(** The merged contract: well formed, with the fields of every member merged. *)
Lemma merge_union_contracts_spec contracts ra policy order j :
  Forall (fun bc => well_formed bc.2) contracts -> merge_union_contracts contracts ra policy (Some order) = Ok j ->
  well_formed j /\ Forall (merged_into ra policy (members contracts order)) (fields j) /\
  forall b c n, (b, c) ∈ members contracts order -> n ∈ names (fields c) -> n ∈ names (fields j).
Proof.
  intros Hw E. unfold merge_union_contracts in E. inv_ok. cbn [from_option id] in E.
  set (order' := filter (fun b => dict_mem contracts b = true) order) in *.
  assert (Hord : forall b, b ∈ order' -> dict_mem contracts b = true) by (intros b Hb; by apply list_elem_of_filter in Hb as [? _]).
  assert (Hm : forall m, m ∈ members contracts order' <-> m ∈ members contracts order) by (intros; apply members_filter).
  assert (Hcs : forall c, c ∈ omap (dict_get contracts) order' <-> exists b, (b, c) ∈ members contracts order).
  { intros c. rewrite list_elem_of_omap. setoid_rewrite <- Hm. setoid_rewrite members_elem. done. }
  assert (Hwf : forall b c, (b, c) ∈ members contracts order -> well_formed c).
  { intros b c [_ Hbc%dict_get_elem]%members_elem. rewrite Forall_forall in Hw. by apply (Hw (b, c)). }
  assert (Hinto : forall g, merged_into ra policy (members contracts order') g -> merged_into ra policy (members contracts order) g).
  { intros g [Hs Ht Hn Hr]. setoid_rewrite Hm in Hs. setoid_rewrite Hm in Ht. setoid_rewrite Hm in Hn.
    constructor; [done..|]. intros Hq. specialize (Hr Hq). destruct ra; by setoid_rewrite Hm in Hr. }
  destruct (omap (dict_get contracts) order') as [|c [|c2 cs]] eqn:Ec.
  - destruct (merge_union_field_flags _ _ _ _); done.
  - injection E as <-. assert (Hc : exists b, (b, c) ∈ members contracts order) by (apply Hcs; by left).
    assert (Hall : forall b d, (b, d) ∈ members contracts order -> d = c).
    { intros b d Hd. apply list_elem_of_singleton, Hcs. eauto. }
    destruct Hc as [b Hb]. split_and!; [by apply (Hwf b)|apply merged_single; eauto|]. by intros b' d n ->%Hall.
  - destruct (merge_union_field_flags _ _ _ _) as [|s] eqn:Ef; [done|]. inv_ok.
    match goal with H : mapM_res _ _ = Ok ?l |- _ => rename l into fs; apply mapM_res_ok in H; rename H into Hfs end.
    rename x into m. pose proof (merge_union_field_flags_spec _ _ _ _ _ Ef) as (Hnd & Hkeys & _).
    assert (Hnames : names fs = (sort_by flags_by_name s).*1).
    { clear -Hfs. induction Hfs as [|nf g nfs gs H _ IH]; [done|]. apply merged_field_ok in H as (_ & En & _). unfold names in *. cbn. by rewrite IH, En. }
    assert (Hnd' : NoDup (names fs)) by (rewrite Hnames; by rewrite sort_by_perm).
    destruct (resolved_contract m fs (existsb locked (c :: c2 :: cs)) Hnd') as (Ej & Hwj & Hnj & _).
    { clear -Hfs. induction Hfs as [|nf g nfs gs H _ IH]; constructor; [|done]. by apply merged_field_ok in H as [? _]. }
    rewrite Ej in E. injection E as <-. split_and!; [done| |].
    + destruct (resolve_loop_spec (length fs) fs Hnd') as (_ & _ & Hres); [apply length_filter|].
      assert (Hall : Forall (merged_into ra policy (members contracts order)) fs).
      { apply Forall_forall. intros g Hg. destruct (Forall2_elem_r _ _ _ _ Hfs Hg) as (nf & Hnf & E).
        apply Hinto. rewrite sort_by_perm in Hnf. by eapply merged_from_flags. }
      cbn [fields]. clear -Hres Hall. unfold resolve_original_name_collisions. induction Hres as [|f g fs' gs Hf _ IH]; [constructor|].
      apply Forall_cons in Hall as [Hf' Hall]. constructor; [by eapply resolved_into|by apply IH].
    + intros b d n Hd Hn. enough (Hx : n ∈ names fs) by (rewrite <- Hnj in Hx; exact Hx).
      rewrite Hnames, sort_by_perm. apply list_elem_of_fmap in Hn as (f & -> & Hf).
      apply (Hkeys (b, contract_entry f)). apply contract_entries_in. exists b, d, f. by rewrite Hm.
Qed.

(** ** Rows that satisfy their contracts *)
Lemma arriving_elem order (arrived : arrivals) b k v :
  (b, (k, v)) ∈ arriving order arrived <-> b ∈ order /\ exists p, dict_get arrived b = Some p /\ (k, v) ∈ to_dict p.
Proof.
  unfold arriving. rewrite list_elem_of_In, in_flat_map. setoid_rewrite <- list_elem_of_In. split.
  - intros (b' & Hb & Hx). destruct (dict_get arrived b') as [p|] eqn:Ep; [|by apply not_elem_of_nil in Hx].
    apply list_elem_of_fmap in Hx as (kv & [= -> ->] & Hkv). eauto.
  - intros (Hb & p & Hp & Hkv). exists b. split; [done|]. rewrite Hp. by apply list_elem_of_fmap_2.
Qed.

Lemma senders_elem l k b v : (b, v) ∈ senders l k <-> (b, (k, v)) ∈ l.
Proof.
  unfold senders. rewrite list_elem_of_fmap. setoid_rewrite list_elem_of_filter. split.
  - intros ([b' [k' v']] & [= -> ->] & <- & Hx). done.
  - intros Hx. by exists (b, (k, v)).
Qed.

Lemma winner_elem policy ss x : winner policy ss = Some x -> x ∈ ss.
Proof. unfold winner. destruct policy; intros E; first [by apply last_Some_elem_of|by apply head_Some_elem_of]. Qed.

Lemma winner_none policy ss : winner policy ss = None -> ss = [].
Proof. unfold winner. destruct policy; intros E; first [by apply last_None|by apply head_None]. Qed.

(** A row as the pipeline holds it: distinct keys, frozen values, a well-formed
    contract that describes and accepts it. *)
Record sound_row (p : PipelineRow) : Prop := {
  row_keys : NoDup (data p).*1;
  row_frozen : Forall (fun kv => frozen kv.2 = true) (data p);
  row_contract : well_formed (contract p);
  row_conforms : conforms (to_dict p) (contract p);
}.

Lemma to_dict_keys p : (to_dict p).*1 = (data p).*1.
Proof. unfold to_dict, thaw_row. by rewrite <- list_fmap_compose. Qed.

Lemma frozen_thaw v : frozen v = true -> json_like (deep_thaw v) = true.
Proof.
  induction v as [v Hv|l IH|l IH|l IH|l IH|l IH|l IH|l IH] using pvalue_nested_ind; [by destruct v|..]; cbn; try done;
    rewrite !forallb_Forall, Forall_fmap; intros Hl; rewrite Forall_forall in *; intros x Hx; by apply IH, Hl.
Qed.

Lemma to_dict_pipeline_row r c : Forall (fun kv => json_like kv.2 = true) r -> to_dict (pipeline_row r c) = r.
Proof.
  intros Hr. unfold to_dict, pipeline_row, thaw_row, freeze_row. cbn. rewrite map_map. apply map_id_forall.
  rewrite Forall_forall in *. intros [k v] Hkv. cbn. f_equal. by apply thaw_freeze, (Hr (k, v)).
Qed.

Section soundness.
Context (order : list string) (arrived : arrivals) (ra : bool) (policy : collision_policy) (j : SchemaContract) (d : rowdata).
Context (Hrows : Forall (fun bp => sound_row bp.2) arrived).
Context (Hra : ra = false \/ policy = fail_on_collision).
Let l := arriving order arrived.
Let ms := members (map (fun bp => (bp.1, contract bp.2)) arrived) order.
Context (Hfail : policy = fail_on_collision -> forall k, (length (senders l k) <= 1)%nat).
Context (Hinto : Forall (merged_into ra policy ms) (fields j)).
Context (Hd : forall k, dict_get d k = snd <$> winner policy (senders l k)).

Lemma sent_by_member b k v :
  (b, (k, v)) ∈ l -> exists p, (b, contract p) ∈ ms /\ sound_row p /\ dict_get (to_dict p) k = Some v.
Proof.
  intros (Hb & p & Hp & Hkv)%arriving_elem. exists p.
  assert (Hs : sound_row p) by (rewrite Forall_forall in Hrows; apply dict_get_elem in Hp; by apply (Hrows (b, p))).
  split_and!; [|done|].
  - apply members_elem. split; [done|]. by rewrite dict_get_map, Hp.
  - apply dict_get_unique; [|done]. rewrite to_dict_keys. apply Hs.
Qed.

Lemma member_sends b c f :
  (b, c) ∈ ms -> f ∈ fields c -> required f = true -> exists v, (b, (normalized_name f, v)) ∈ l.
Proof.
  intros [Hb Hc]%members_elem Hf Hr. rewrite dict_get_map in Hc. destruct (dict_get arrived b) as [p|] eqn:Ep; [|done]. injection Hc as <-.
  assert (Hs : sound_row p) by (rewrite Forall_forall in Hrows; apply dict_get_elem in Ep; by apply (Hrows (b, p))).
  destruct Hs as [_ _ _ [Hok _]%conforms_iff]. rewrite Forall_forall in Hok. specialize (Hok f Hf). unfold field_ok in Hok.
  destruct (dict_get (to_dict p) (normalized_name f)) as [v|] eqn:Ev; [|congruence].
  exists v. apply arriving_elem. split; [done|]. exists p. split; [done|]. by apply dict_get_elem.
Qed.

(** A required field of the merge is required of some member. *)
Lemma required_somewhere g :
  g ∈ fields j -> required g = true -> exists b c f, (b, c) ∈ ms /\ f ∈ fields c /\ normalized_name f = normalized_name g /\ required f = true.
Proof.
  intros Hg Hr. rewrite Forall_forall in Hinto. destruct (Hinto g Hg) as [(b & c & f & Hbc & Hf & E) _ _ Hreq].
  specialize (Hreq Hr). destruct ra; [done|]. destruct (Hreq b c Hbc) as (f' & Hf' & E' & Hall). exists b, c, f'. auto.
Qed.

(** Where a value comes from a field, the merged field is weaker than it. *)
Lemma merged_weaker b c f v g :
  (b, c) ∈ ms -> well_formed c -> f ∈ fields c -> (b, (normalized_name f, v)) ∈ l -> g ∈ fields j ->
  normalized_name f = normalized_name g -> weaker g f.
Proof.
  intros Hbc Hw Hf Hv Hg E. pose proof (required_somewhere g Hg) as Hsome. rewrite Forall_forall in Hinto.
  destruct (Hinto g Hg) as [_ Ht Hn Hreq]. split_and!; [left; by eapply Ht| |by intros; eapply Hn].
  intros Hr. destruct ra eqn:Era; [|destruct (Hreq Hr b c Hbc) as (_ & _ & _ & Hall); by apply Hall].
  destruct Hra as [?|Hp]; [done|]. destruct (Hsome Hr) as (b' & c' & f' & Hbc' & Hf' & E' & Hr').
  destruct (member_sends b' c' f' Hbc' Hf' Hr') as [v' Hv']. rewrite E' in Hv'. rewrite E in Hv.
  apply senders_elem in Hv, Hv'. specialize (Hfail Hp (normalized_name g)).
  destruct (senders l (normalized_name g)) as [|s [|??]]; [by apply not_elem_of_nil in Hv| |cbn in Hfail; lia].
  apply list_elem_of_singleton in Hv as <-, Hv' as [= -> ->]. apply members_elem in Hbc as [_ Hc], Hbc' as [_ Hc'].
  rewrite Hc in Hc'. injection Hc' as <-. by rewrite (same_field c f f'); [..|congruence].
Qed.

Lemma merged_conforms :
  (forall b c n, (b, c) ∈ ms -> n ∈ names (fields c) -> n ∈ names (fields j)) -> NoDup d.*1 -> conforms d j.
Proof.
  intros Hnames Hnd. apply conforms_iff.
  assert (Hfrom : forall k v, dict_get d k = Some v -> exists b c f, (b, c) ∈ ms /\ well_formed c /\ f ∈ fields c /\
                    normalized_name f = k /\ admits f v = true /\ (b, (k, v)) ∈ l).
  { intros k v Hv. rewrite Hd in Hv. destruct (winner policy (senders l k)) as [[b w]|] eqn:Ew; [|done]. injection Hv as <-.
    apply winner_elem, senders_elem in Ew. destruct (sent_by_member b k w Ew) as (p & Hp & [_ _ Hw [Hok Hdesc]%conforms_iff] & Hg).
    destruct (described_elem _ _ _ _ Hdesc Hg) as (f & Hf & <-). exists b, (contract p), f. split_and!; [done..| |done].
    rewrite Forall_forall in Hok. specialize (Hok f Hf). unfold field_ok in Hok. by rewrite Hg in Hok. }
  split.
  - apply Forall_forall. intros g Hg. unfold field_ok. destruct (dict_get d (normalized_name g)) as [v|] eqn:Ev.
    + destruct (Hfrom _ _ Ev) as (b & c & f & Hbc & Hw & Hf & En & Ha & Hl). eapply weaker_admits; [|done].
      rewrite <- En in Hl. by eapply merged_weaker.
    + destruct (required g) eqn:Er; [|done]. exfalso. destruct (required_somewhere g Hg Er) as (b & c & f & Hbc & Hf & En & Hr).
      destruct (member_sends b c f Hbc Hf Hr) as [v Hv%senders_elem]. rewrite Hd, <- En in Ev.
      destruct (winner policy (senders l (normalized_name f))) eqn:Ew; [done|]. apply winner_none in Ew. rewrite Ew in Hv.
      by apply not_elem_of_nil in Hv.
  - apply Forall_forall. intros k Hk. apply list_elem_of_fmap in Hk as ([k' v] & -> & Hkv). apply dict_get_unique in Hkv; [|done].
    destruct (Hfrom _ _ Hkv) as (b & c & f & Hbc & _ & Hf & <- & _). apply (Hnames b c); [done|]. by apply (list_elem_of_fmap_2 normalized_name).
Qed.
End soundness.

(** C8. A union whose contract is merged from the rows that arrived yields a
    sound row from sound rows, if not every branch must arrive or collisions
    fail: the merged row has frozen values and a well-formed contract that
    describes it and accepts it. *)
Theorem union_merge_sound s arrived out plan :
  ms_merge s = union -> uses_precomputed out = false ->
  ms_all_branch_semantics s = false \/ ms_collision_policy s = fail_on_collision ->
  Forall (fun bp => sound_row bp.2) arrived -> build_coalesce_merge s arrived out = Ok plan -> sound_row (merged_row plan).
Proof.
  intros Hs Hout Hra Hrows E. destruct (union_plan s arrived out plan Hs E) as (d & Hnd & Hf & Hd & _ & _ & Hfail & Ec).
  rewrite Hout, andb_false_r in Ec.
  assert (Hm : merge_union_contracts (map (fun bp => (bp.1, contract bp.2)) arrived) (ms_all_branch_semantics s) (ms_collision_policy s)
                 (Some (ms_branches s)) = Ok (contract (merged_row plan))).
  { unfold merged_contract in Ec. rewrite Hs in Ec. inv_ok. destruct out as [c|]; [|done]. cbn in Hout. by destruct (mode c == OBSERVED). }
  apply merge_union_contracts_spec in Hm as (Hw & Hinto & Hnames).
  2:{ apply Forall_fmap. eapply Forall_impl; [exact Hrows|]. intros bp Hbp. apply Hbp. }
  assert (Hj : Forall (fun kv => json_like kv.2 = true) d).
  { apply Forall_forall. intros [k v] Hkv. apply dict_get_unique in Hkv; [|done]. rewrite Hd in Hkv.
    destruct (winner _ _) as [[b w]|] eqn:Ew; [|done]. injection Hkv as <-. apply winner_elem, senders_elem, arriving_elem in Ew as (_ & p & Hp & Hw').
    rewrite Forall_forall in Hrows. apply dict_get_elem in Hp. pose proof (row_frozen _ (Hrows _ Hp)) as Hfr.
    apply list_elem_of_fmap in Hw' as ([k' x] & [= -> ->] & Hx). rewrite Forall_forall in Hfr. apply frozen_thaw. by apply (Hfr (k', x)). }
  assert (Hdict : to_dict (merged_row plan) = d).
  { unfold to_dict. rewrite Hf. by apply (to_dict_pipeline_row d (contract (merged_row plan))). }
  constructor; [..|done|].
  - rewrite Hf. unfold freeze_row. by rewrite <- list_fmap_compose.
  - rewrite Hf. unfold freeze_row. apply Forall_fmap, Forall_true. intros kv. apply freeze_frozen.
  - rewrite Hdict. by eapply (merged_conforms (ms_branches s) arrived).
Qed.

(** Two branches: [x] is required and may be null in the one, optional and
    never null in the other. *)
Definition nullable_then_optional : arrivals :=
  [("a", pipeline_row [("x", PNone)] (mkContract OBSERVED [mkField "x" "x" Tstr true declared true] true));
   ("b", pipeline_row [] (mkContract OBSERVED [mkField "x" "x" Tstr false declared false] true))].

(** C38. Where every branch must arrive and the last value wins, the merged row
    can break the merged contract: the flag for null is that of the last branch
    to declare the field, also when that branch's row lacks the field and the
    null of an earlier branch is kept. *)
Theorem all_branches_union_unsound :
  exists s plan, ms_merge s = union /\ ms_all_branch_semantics s = true /\ ms_collision_policy s = last_wins /\
    Forall (fun bp => sound_row bp.2) nullable_then_optional /\
    build_coalesce_merge s nullable_then_optional None = Ok plan /\
    validate (contract (merged_row plan)) (to_dict (merged_row plan)) <> [].
Proof.
  exists (mkMerge ["a"; "b"] union None last_wins true). eexists. split_and!; [done..| |by vm_compute|by vm_compute].
  repeat constructor; cbn; set_solver.
Qed.

(** ** Guarantees *)
Definition sends (p : PipelineRow) (n : string) : Prop := n ∈ (to_dict p).*1.

Lemma merged_has order arrived policy (m : rowdata) b p n :
  (forall k, dict_get m k = snd <$> winner policy (senders (arriving order arrived) k)) ->
  b ∈ order -> dict_get arrived b = Some p -> sends p n -> n ∈ m.*1.
Proof.
  intros Hm Hb Hp Hn. destruct (decide (n ∈ m.*1)) as [|Hno]; [done|]. apply dict_get_None in Hno. rewrite Hm in Hno. exfalso.
  apply list_elem_of_fmap in Hn as ([k v] & -> & Hkv). cbn in Hno.
  assert (Hs : (b, v) ∈ senders (arriving order arrived) k) by (apply senders_elem, arriving_elem; eauto).
  destruct (winner policy (senders (arriving order arrived) k)) eqn:Ew; [done|]. apply winner_none in Ew. rewrite Ew in Hs.
  by apply not_elem_of_nil in Hs.
Qed.

Lemma sorted_set_elem l n : n ∈ sorted_set l -> n ∈ l.
Proof. unfold sorted_set. by rewrite sort_by_perm, elem_of_remove_dups. Qed.

(** Merged guarantees come from some branch if all arrive, from every branch otherwise. *)
Lemma merge_guaranteed_fields_spec schemas ra gs n :
  merge_guaranteed_fields schemas ra = Some gs -> n ∈ gs ->
  if ra then exists bs, bs ∈ schemas /\ n ∈ effective_guaranteed_fields bs.2
  else forall bs, bs ∈ schemas -> n ∈ effective_guaranteed_fields bs.2.
Proof.
  unfold merge_guaranteed_fields. set (sets := map effective_guaranteed_fields _).
  assert (Hsets : forall t, t ∈ sets <-> exists bs, bs ∈ schemas /\ has_effective_guarantees bs.2 = true /\ t = effective_guaranteed_fields bs.2).
  { intros t. unfold sets. rewrite list_elem_of_fmap. setoid_rewrite list_elem_of_filter. setoid_rewrite list_elem_of_fmap. naive_solver. }
  destruct sets as [|t ts] eqn:Es; [done|]. destruct ra.
  - intros [= <-] Hn%sorted_set_elem. change (t ++ concat ts) with (concat (t :: ts)) in Hn.
    apply list_elem_of_In, in_concat in Hn as (u & Hu%list_elem_of_In & Hn%list_elem_of_In).
    apply Hsets in Hu as (bs & ? & _ & ->). eauto.
  - destruct (existsb _ _) eqn:Ea; [done|]. intros [= <-] [Hall Hn]%sorted_set_elem%list_elem_of_filter bs Hbs.
    assert (Hg : has_effective_guarantees bs.2 = true).
    { apply existsb_none with (x := bs.2) in Ea; [by apply negb_false_iff|]. by apply list_elem_of_fmap_2. }
    assert (Hin : effective_guaranteed_fields bs.2 ∈ t :: ts) by (apply Hsets; eauto).
    apply elem_of_cons in Hin as [->|Hin]; [done|]. rewrite Forall_forall in Hall. by apply Hall.
Qed.

(** What a union node guarantees holds of every merged row: if each branch's
    rows carry what its schema guarantees, all branches arrived where all must,
    and some branch with a schema arrived otherwise, then the merged row carries
    every guaranteed field of the merged schema. *)
Theorem merged_guarantees_hold s arrived out plan schemas gs :
  ms_merge s = union -> build_coalesce_merge s arrived out = Ok plan ->
  merge_guaranteed_fields schemas (ms_all_branch_semantics s) = Some gs ->
  (forall b sc p, (b, sc) ∈ schemas -> dict_get arrived b = Some p -> Forall (sends p) (effective_guaranteed_fields sc)) ->
  (if ms_all_branch_semantics s then Forall (fun bs => bs.1 ∈ ms_branches s /\ dict_mem arrived bs.1 = true) schemas
   else Exists (fun bs => bs.1 ∈ ms_branches s /\ dict_mem arrived bs.1 = true) schemas) ->
  Forall (fun n => n ∈ (data (merged_row plan)).*1) gs.
Proof.
  intros Hs E Hg Hrows Harr. destruct (union_plan s arrived out plan Hs E) as (d & _ & Hf & Hd & _).
  assert (Hone : forall bs n, bs ∈ schemas -> bs.1 ∈ ms_branches s -> dict_mem arrived bs.1 = true ->
                   n ∈ effective_guaranteed_fields bs.2 -> n ∈ (data (merged_row plan)).*1).
  { intros [b sc] n Hbs Hb Hm Hn. unfold dict_mem in Hm. cbn in *. destruct (dict_get arrived b) as [p|] eqn:Ep; [|done].
    rewrite Hf. unfold freeze_row. rewrite <- list_fmap_compose. eapply merged_has; [exact Hd|exact Hb|exact Ep|].
    specialize (Hrows b sc p Hbs Ep). rewrite Forall_forall in Hrows. by apply Hrows. }
  apply Forall_forall. intros n Hn. pose proof (merge_guaranteed_fields_spec _ _ _ _ Hg Hn) as Hfrom. destruct (ms_all_branch_semantics s).
  - destruct Hfrom as (bs & Hbs & Hin). rewrite Forall_forall in Harr. destruct (Harr bs Hbs). by eapply Hone.
  - apply Exists_exists in Harr as (bs & Hbs & ? & ?). eapply Hone; eauto.
Qed.

(** ** What construction refuses as certain *)
Lemma conflict_on_spec n first branches x :
  conflict_on n first branches = Some x ->
  exists ka kb, field_type ka <> field_type kb /\
    (exists b fs, (b, fs) ∈ branches /\ dict_get fs n = Some kb) /\
    match first with Some (_, k) => ka = k | None => exists a fs, (a, fs) ∈ branches /\ dict_get fs n = Some ka end.
Proof.
  revert first. induction branches as [|[b fs] branches IH]; intros first; cbn; [done|].
  assert (Hin : forall a gs, (a, gs) ∈ branches -> (a, gs) ∈ (b, fs) :: branches) by (intros; by right).
  destruct (dict_get fs n) as [k|] eqn:Ek.
  - destruct first as [[a ka]|].
    + case_bool_decide as Et.
      * intros (ka' & kb & ? & (b' & fs' & ? & ?) & ?)%IH. exists ka', kb. split_and!; eauto 10.
      * intros _. exists ka, k. split_and!; [done| |done]. exists b, fs. split; [by left|done].
    + intros (ka & kb & ? & (b' & fs' & ? & ?) & ->)%IH. exists k, kb. split_and!; [done|eauto 10|]. exists b, fs. split; [by left|done].
  - intros (ka & kb & ? & (b' & fs' & ? & ?) & Hf)%IH. exists ka, kb. split_and!; [done|eauto 10|].
    destruct first as [[??]|]; [done|]. destruct Hf as (a & gs & ? & ?). eauto 10.
Qed.

Lemma first_some_elem {A B} (g : A -> option B) l y : first_some g l = Some y -> exists x, x ∈ l /\ g x = Some y.
Proof.
  induction l as [|x l IH]; cbn; [done|]. destruct (g x) eqn:E; [intros [= <-]; exists x; split; [by left|done]|].
  intros (z & ? & ?)%IH. exists z. split; [by right|done].
Qed.

(** Two members that type a field differently make the merge fail. *)
Lemma conflicting_members contracts ra policy order a ca fa b cb fb :
  (a, ca) ∈ members contracts order -> (b, cb) ∈ members contracts order -> fa ∈ fields ca -> fb ∈ fields cb ->
  normalized_name fa = normalized_name fb -> python_type fa <> python_type fb -> ca <> cb ->
  exists n ta tb, merge_union_contracts contracts ra policy (Some order) = Err (ContractMergeError n ta tb).
Proof.
  intros Ha Hb Hfa Hfb En Ht Hne. unfold merge_union_contracts. cbn [from_option id].
  replace (length contracts =? 0)%nat with false.
  2:{ symmetry. apply Nat.eqb_neq. intros E%nil_length_inv. subst. by apply members_elem in Ha as [_ Ha]. }
  set (order' := filter (fun b => dict_mem contracts b = true) order).
  assert (Hm : forall m, m ∈ members contracts order' <-> m ∈ members contracts order) by (intros; apply members_filter).
  apply Hm in Ha, Hb.
  assert (Hin : forall b c, (b, c) ∈ members contracts order' -> c ∈ omap (dict_get contracts) order').
  { intros b' c [Hb' Hc]%members_elem. apply list_elem_of_omap. eauto. }
  destruct (merge_union_field_flags _ _ _ _) as [x|s] eqn:Ef.
  - pose proof (Hin _ _ Ha) as Hca. pose proof (Hin _ _ Hb) as Hcb.
    destruct (omap (dict_get contracts) order') as [|c [|c2 cs]]; [by apply not_elem_of_nil in Hca| |eauto].
    apply list_elem_of_singleton in Hca, Hcb. congruence.
  - exfalso. apply merge_union_field_flags_spec in Ef as (_ & Hkeys & Hf).
    assert (Hea : (a, contract_entry fa) ∈ entries_in (map (fun bc => (bc.1, contract_entries bc.2)) contracts) order')
      by (apply contract_entries_in; eauto 10).
    assert (Heb : (b, contract_entry fb) ∈ entries_in (map (fun bc => (bc.1, contract_entries bc.2)) contracts) order')
      by (apply contract_entries_in; eauto 10).
    pose proof (Hkeys _ Hea) as Hk. apply dict_mem_keys in Hk. unfold dict_mem in Hk.
    destruct (dict_get s (e_name (a, contract_entry fa))) as [fl|] eqn:Efl; [|done]. destruct (Hf _ _ Efl) as [[_ Hty _ _] _].
    apply Ht. etrans; [by apply (Hty _ Hea)|]. symmetry. by apply (Hty _ Heb).
Qed.

(** A conflict that construction refuses as certain is one: if the types it
    reports as known are those of the contracts that the branches carry, the
    merge of these contracts raises a conflict, under every policy. *)
Theorem certain_conflict_fails known contracts order x ra policy :
  certain_union_type_conflict known true order = Some x ->
  (forall b fs n k, dict_get known b = Some fs -> dict_get fs n = Some k ->
   exists c f, dict_get contracts b = Some c /\ find_field c n = Some f /\ union_type_label (python_type f) = field_type k) ->
  exists n ta tb, merge_union_contracts contracts ra policy (Some order) = Err (ContractMergeError n ta tb).
Proof.
  unfold certain_union_type_conflict. cbn [negb]. intros E Hknown.
  apply first_some_elem in E as (n & _ & E). apply conflict_on_spec in E as (ka & kb & Hne & (b & fb & Hb & Hkb) & (a & fa & Ha & Hka)).
  assert (Hord : forall c fs, (c, fs) ∈ omap (fun b => (fun fs => (b, fs)) <$> dict_get known b) order -> c ∈ order /\ dict_get known c = Some fs).
  { intros c fs (b' & Hb' & Ec)%list_elem_of_omap. destruct (dict_get known b') eqn:Ek; [|done]. by injection Ec as <- <-. }
  apply Hord in Ha as [Ha Hfa], Hb as [Hb Hfb].
  destruct (Hknown a fa n ka Hfa Hka) as (ca & ga & Hca & Hga & Eta). destruct (Hknown b fb n kb Hfb Hkb) as (cb & gb & Hcb & Hgb & Etb).
  pose proof (find_field_elem _ _ _ Hga) as [Hga' Ena]. pose proof (find_field_elem _ _ _ Hgb) as [Hgb' Enb].
  apply (conflicting_members contracts ra policy order a ca ga b cb gb); try (by apply members_elem); try done; [congruence..|].
  intros ->. rewrite Hga in Hgb. injection Hgb as ->. congruence.
Qed.

Lemma combinations_complete {A} (k l : list A) : sublist k l -> k ∈ combinations l (length k).
Proof.
  induction 1 as [|x k l _ IH|x k l _ IH]; cbn [combinations length]; [by left|..].
  - apply elem_of_app. left. by apply list_elem_of_fmap_2.
  - destruct k as [|y k]; cbn [combinations length] in *; [by left|]. apply elem_of_app. by right.
Qed.

Lemma combinations_sublist {A} n (k l : list A) : k ∈ combinations l n -> sublist k l.
Proof.
  revert n k. induction l as [|x l IH]; intros [|n] k; cbn [combinations].
  - intros ->%list_elem_of_singleton. constructor.
  - by intros ?%not_elem_of_nil.
  - intros ->%list_elem_of_singleton. apply sublist_nil_l.
  - intros [(k' & -> & Hk)%list_elem_of_fmap|Hk]%elem_of_app; [apply sublist_skip|apply sublist_cons]; by eapply IH.
Qed.

(** Two different branches that guarantee one field, both among those that arrived. *)
Definition shared (guarantees : list (string * list string)) (present : string -> Prop) : Prop :=
  exists n b b' gs gs', b <> b' /\ present b /\ present b' /\ dict_get guarantees b = Some gs /\ dict_get guarantees b' = Some gs' /\
    n ∈ gs /\ n ∈ gs'.

Lemma colliding_shared guarantees present :
  NoDup guarantees.*1 -> (forall b, b ∈ guarantees.*1 -> present b) -> colliding_fields guarantees <> [] -> shared guarantees present.
Proof.
  intros Hn Hp Hc. destruct (colliding_fields guarantees) as [|[n bs] rest] eqn:E; [done|].
  assert (Hin : (n, bs) ∈ colliding_fields guarantees) by (rewrite E; by left).
  apply list_elem_of_filter in Hin as [Hl (m & [= <- ->] & _)%list_elem_of_fmap]. cbn [snd] in Hl. apply Nat.ltb_lt in Hl.
  assert (Hall : forall b, b ∈ guarantors guarantees n -> exists gs, dict_get guarantees b = Some gs /\ n ∈ gs).
  { intros b ([b' gs] & -> & [Hg Hb]%list_elem_of_filter)%list_elem_of_fmap. exists gs. split; [by apply dict_get_unique|done]. }
  assert (Hnd : NoDup (guarantors guarantees n)).
  { unfold guarantors. eapply sublist_NoDup; [exact Hn|]. apply fmap_sublist, sublist_filter. }
  destruct (guarantors guarantees n) as [|b [|b' bs]]; [cbn in Hl; lia..|].
  destruct (Hall b) as (gs & Hgs & ?); [by left|]. destruct (Hall b') as (gs' & Hgs' & ?); [right; by left|].
  exists n, b, b', gs, gs'. apply NoDup_cons in Hnd as [Hb _]. split_and!; [|apply Hp|apply Hp|done..].
  - intros ->. apply Hb. by left.
  - apply dict_mem_keys. unfold dict_mem. by rewrite Hgs.
  - apply dict_mem_keys. unfold dict_mem. by rewrite Hgs'.
Qed.

Lemma shared_guarantee guarantees present arr :
  NoDup arr -> (forall b, b ∈ arr -> present b) -> has_shared_guarantee guarantees arr = true -> shared guarantees present.
Proof.
  unfold has_shared_guarantee. intros Hn Hp (pair & Hin%list_elem_of_In & Hs)%existsb_exists.
  apply combinations_sublist in Hin. destruct pair as [|b [|b' [|??]]]; try done. apply existsb_exists in Hs as (n & Hb%list_elem_of_In & Hb').
  apply bool_decide_eq_true in Hb'.
  destruct (dict_get guarantees b) as [gs|] eqn:Eb; [|by apply not_elem_of_nil in Hb].
  destruct (dict_get guarantees b') as [gs'|] eqn:Eb'; [|by apply not_elem_of_nil in Hb'].
  pose proof (sublist_NoDup _ _ Hn Hin) as [Hne _]%NoDup_cons.
  exists n, b, b', gs, gs'. split_and!; [|apply Hp|apply Hp|done..].
  - intros ->. apply Hne. by left.
  - eapply elem_of_sublist; [|done]. by left.
  - eapply elem_of_sublist; [|done]. right. by left.
Qed.

(** A shared guarantee makes two branches send one field. *)
Lemma shared_collides order (arrived : arrivals) guarantees present :
  (forall b, present b -> b ∈ order /\ dict_mem arrived b = true) ->
  (forall b gs p, dict_get guarantees b = Some gs -> dict_get arrived b = Some p -> Forall (sends p) gs) ->
  shared guarantees present -> exists k, (1 < length (senders (arriving order arrived) k))%nat.
Proof.
  intros Hp Hg (n & b & b' & gs & gs' & Hne & Hb & Hb' & Hgs & Hgs' & Hn & Hn'). exists n.
  assert (Hsend : forall c cs, present c -> dict_get guarantees c = Some cs -> n ∈ cs -> exists v, (c, v) ∈ senders (arriving order arrived) n).
  { intros c cs Hc Hcs Hin. destruct (Hp c Hc) as [Ho Hm]. unfold dict_mem in Hm. destruct (dict_get arrived c) as [p|] eqn:Ep; [|done].
    specialize (Hg c cs p Hcs Ep). rewrite Forall_forall in Hg. specialize (Hg n Hin).
    apply list_elem_of_fmap in Hg as ([k v] & -> & Hkv). exists v. apply senders_elem, arriving_elem. eauto. }
  destruct (Hsend b gs) as [v Hv]; [done..|]. destruct (Hsend b' gs') as [v' Hv']; [done..|].
  destruct (senders (arriving order arrived) n) as [|x [|y l]]; [by apply not_elem_of_nil in Hv| |cbn; lia].
  apply list_elem_of_singleton in Hv, Hv'. congruence.
Qed.

(** A collision that construction reports as certain is one: where the rows
    carry what their branches guarantee, and all branches arrived or, under a
    quorum, at least as many of them as it needs, no union that fails on
    collisions gets through. *)
Theorem certain_collisions_fail s arrived out guarantees ap quorum found plan :
  ms_merge s = union -> ms_collision_policy s = fail_on_collision ->
  certain_union_collisions guarantees (ms_all_branch_semantics s) ap quorum = Ok found -> found <> [] ->
  NoDup guarantees.*1 -> Forall (fun bg => bg.1 ∈ ms_branches s) guarantees ->
  (forall b gs p, dict_get guarantees b = Some gs -> dict_get arrived b = Some p -> Forall (sends p) gs) ->
  (if ms_all_branch_semantics s then Forall (fun bg => dict_mem arrived bg.1 = true) guarantees
   else (default 0%nat quorum <= length (filter (fun b => dict_mem arrived b = true) guarantees.*1))%nat) ->
  build_coalesce_merge s arrived out <> Ok plan.
Proof.
  intros Hs Hpol Hc Hfound Hn Hbr Hg Harr E.
  set (present := fun b => b ∈ ms_branches s /\ dict_mem arrived b = true).
  enough (Hsh : shared guarantees present).
  { apply (shared_collides (ms_branches s) arrived) in Hsh as [k Hk]; [|done|done].
    destruct (union_plan s arrived out plan Hs E) as (_ & _ & _ & _ & _ & _ & Hfail & _). specialize (Hfail Hpol k). lia. }
  assert (Hord : forall b, b ∈ guarantees.*1 -> b ∈ ms_branches s).
  { intros b (bg & -> & Hbg)%list_elem_of_fmap. rewrite Forall_forall in Hbr. by apply Hbr. }
  unfold certain_union_collisions in Hc. destruct (colliding_fields guarantees) as [|c cs] eqn:Ec; [congruence|].
  destruct (ms_all_branch_semantics s).
  - apply colliding_shared; [done| |by rewrite Ec]. intros b Hb. split; [by apply Hord|].
    apply list_elem_of_fmap in Hb as (bg & -> & Hbg). rewrite Forall_forall in Harr. by apply Harr.
  - destruct ap; try congruence. destruct quorum as [k|]; [|done]. cbn in Harr.
    destruct (forallb _ _) eqn:Ea; [|congruence]. set (here := filter (fun b => dict_mem arrived b = true) guarantees.*1) in *.
    assert (Hsub : sublist (take k here) guarantees.*1) by (etrans; [apply sublist_take|apply sublist_filter]).
    apply (shared_guarantee guarantees present (take k here)).
    + by eapply sublist_NoDup.
    + intros b Hb. eapply elem_of_sublist in Hb; [|apply sublist_take]. apply list_elem_of_filter in Hb as [? ?]. split; [by apply Hord|done].
    + rewrite forallb_forall in Ea. apply Ea, list_elem_of_In. apply combinations_complete in Hsub.
      by rewrite length_take, Nat.min_l in Hsub.
Qed.

(** ** Concrete unions *)
Module CoalesceExamples.
Definition scored : SchemaContract := mkContract OBSERVED [mkField "id" "ID" Tint true inferred false; mkField "score" "Score" Tint false inferred false] true.
Definition tagged : SchemaContract := mkContract OBSERVED [mkField "id" "ID" Tint true inferred false; mkField "tag" "Tag" Tstr false inferred false] true.

Definition both : arrivals :=
  [("tag", pipeline_row [("id", PInt 1); ("tag", PStr "x")] tagged); ("score", pipeline_row [("id", PInt 2); ("score", PInt 9)] scored)].

Definition settings (policy : collision_policy) (ra : bool) : MergeSettings := mkMerge ["score"; "tag"] union None policy ra.

Lemma both_sound : Forall (fun bp => sound_row bp.2) both.
Proof. repeat constructor; cbn; set_solver. Qed.

Lemma union_row_provenance_witness :
  exists plan, build_coalesce_merge (settings first_wins false) both None = Ok plan /\
    dict_get (union_field_origins plan) "id" = Some "score" /\ dict_get (union_field_collisions plan) "id" = Some ["score"; "tag"].
Proof.
  eexists. split; [vm_compute; reflexivity|].
  match goal with |- dict_get (union_field_origins ?p) _ = _ /\ _ =>
    destruct (union_row_provenance (settings first_wins false) both None p eq_refl) with (k := "id") as (_ & H1 & H2 & _);
      [vm_compute; reflexivity|] end.
  split; [etrans; [exact H1|vm_compute; reflexivity]|etrans; [exact H2|vm_compute; reflexivity]].
Defined.

Lemma union_merge_sound_witness :
  exists plan, build_coalesce_merge (settings last_wins false) both None = Ok plan /\ sound_row (merged_row plan) /\
    to_dict (merged_row plan) = [("id", PInt 1); ("score", PInt 9); ("tag", PStr "x")].
Proof.
  eexists. split; [vm_compute; reflexivity|]. split; [|vm_compute; reflexivity].
  apply (union_merge_sound (settings last_wins false) both None);
    [reflexivity|reflexivity|left; reflexivity|exact both_sound|vm_compute; reflexivity].
Defined.

Definition declares (ns : list string) : SchemaConfig := mkConfig "observed" None (Some ns) None.

Lemma merged_guarantees_hold_witness :
  exists plan, build_coalesce_merge (settings last_wins false) both None = Ok plan /\
    merge_guaranteed_fields [("score", declares ["score"; "id"]); ("tag", declares ["id"; "tag"])] false = Some ["id"] /\
    Forall (fun n => n ∈ (data (merged_row plan)).*1) ["id"].
Proof.
  eexists. split; [vm_compute; reflexivity|]. split; [vm_compute; reflexivity|].
  apply (merged_guarantees_hold (settings last_wins false) both None _ [("score", declares ["score"; "id"]); ("tag", declares ["id"; "tag"])]).
  - reflexivity.
  - vm_compute. reflexivity.
  - vm_compute. reflexivity.
  - intros b sc p Hb Hp. rewrite !elem_of_cons in Hb.
    destruct Hb as [[= -> ->]|[[= -> ->]|Hb]]; [..|by apply not_elem_of_nil in Hb]; vm_compute in Hp; injection Hp as <-;
      repeat (constructor; [unfold sends; cbn; set_solver|]); constructor.
  - cbn. constructor. split; [left|vm_compute; reflexivity].
Defined.

(** One branch stamps the score as an int, the other as a float. *)
Definition rescored : SchemaContract := mkContract OBSERVED [mkField "score" "Score" Tfloat true inferred false] true.
Definition known : list (string * list (string * KnownBranchFieldType)) :=
  [("score", [("score", mkKnown "int" ["a"])]); ("tag", [("score", mkKnown "float" ["b"])])].

Lemma certain_conflict_fails_witness :
  exists n ta tb, merge_union_contracts [("score", scored); ("tag", rescored)] true last_wins (Some ["score"; "tag"]) = Err (ContractMergeError n ta tb).
Proof.
  eapply (certain_conflict_fails known); [vm_compute; reflexivity|].
  intros b fs n k Hb%dict_get_elem Hk%dict_get_elem. unfold known in Hb. rewrite !elem_of_cons in Hb.
  destruct Hb as [[= -> ->]|[[= -> ->]|Hb]]; [..|by apply not_elem_of_nil in Hb]; apply list_elem_of_singleton in Hk as [= -> ->];
    eexists; eexists; (split; [vm_compute; reflexivity|split; [vm_compute; reflexivity|reflexivity]]).
Defined.

Lemma certain_collisions_fail_witness :
  certain_union_collisions [("score", ["id"; "score"]); ("tag", ["id"])] true ap_require_all None = Ok [("id", ["score"; "tag"])] /\
  build_coalesce_merge (settings fail_on_collision true) both None <> Ok (mkPlan (pipeline_row [] scored) [] []).
Proof.
  split; [vm_compute; reflexivity|].
  apply (certain_collisions_fail (settings fail_on_collision true) both None [("score", ["id"; "score"]); ("tag", ["id"])] ap_require_all None
           [("id", ["score"; "tag"])]).
  - reflexivity.
  - reflexivity.
  - vm_compute. reflexivity.
  - discriminate.
  - repeat (constructor; [vm_compute; set_solver|]); constructor.
  - repeat (constructor; [vm_compute; set_solver|]); constructor.
  - intros b gs p Hb%dict_get_elem Hp. rewrite !elem_of_cons in Hb.
    destruct Hb as [[= -> ->]|[[= -> ->]|Hb]]; [..|by apply not_elem_of_nil in Hb]; vm_compute in Hp; injection Hp as <-;
      repeat (constructor; [unfold sends; cbn; set_solver|]); constructor.
  - repeat constructor.
Defined.
End CoalesceExamples.
