(* ===== verification/CoalesceSchema.v ===== *)
(** * CoalesceSchema: what the schema of a coalesce node promises

    The schema that [merge_coalesce_schema] gives a coalesce node at build time,
    against the rows that [build_coalesce_merge] makes at run time: if the rows
    of the branches carry what the branches' schemas guarantee, the merged row
    carries what the node's schema guarantees, under every merge strategy. *)

From S2P Require Import Prelude Contracts ContractFlow UnionMerge CoalesceMerge CoalesceMergeTheory.

(** A merge happens when some branch has arrived, and all of them where the
    point needs all. *)
Definition may_merge (s : MergeSettings) (arrived : arrivals) : Prop :=
  Exists (fun b => dict_mem arrived b = true) (ms_branches s) /\
  (ms_all_branch_semantics s = true -> Forall (fun b => dict_mem arrived b = true) (ms_branches s)).

(** The rows that arrived carry what the schemas of their branches guarantee. *)
Definition branches_carry (arrived : arrivals) (schemas : list (string * SchemaConfig)) : Prop :=
  forall b sc p, (b, sc) ∈ schemas -> dict_get arrived b = Some p -> Forall (sends p) (effective_guaranteed_fields sc).

(** Modes other than observed list their fields. *)
Definition lists_fields (sc : SchemaConfig) : Prop := is_observed sc = false -> is_Some (cfg_fields sc).

Lemma may_merge_keys {A} s arrived (schemas : list (string * A)) :
  may_merge s arrived -> schemas.*1 = ms_branches s ->
  if ms_all_branch_semantics s then Forall (fun bs => bs.1 ∈ ms_branches s /\ dict_mem arrived bs.1 = true) schemas
  else Exists (fun bs => bs.1 ∈ ms_branches s /\ dict_mem arrived bs.1 = true) schemas.
Proof.
  intros [Hsome Hall] Ek. destruct (ms_all_branch_semantics s).
  - specialize (Hall eq_refl). rewrite Forall_forall in Hall. apply Forall_forall. intros bs Hbs.
    assert (bs.1 ∈ ms_branches s) by (rewrite <- Ek; by apply list_elem_of_fmap_2). eauto.
  - apply Exists_exists in Hsome as (b & Hb & Hm). pose proof Hb as Hb'. rewrite <- Ek in Hb'.
    apply list_elem_of_fmap in Hb' as (bs & -> & Hbs). apply Exists_exists. eauto.
Qed.

Lemma required_guaranteed sc fds fd :
  cfg_fields sc = Some fds -> fd ∈ fds -> fd_required fd = true -> fd_name fd ∈ effective_guaranteed_fields sc.
Proof.
  intros Hf Hin Hr. unfold effective_guaranteed_fields. rewrite Hf. apply elem_of_app. right. apply list_elem_of_fmap. exists fd. split; [done|].
  by apply list_elem_of_filter.
Qed.

Lemma typed_branch_elem schemas b es :
  (b, es) ∈ typed_branches schemas <->
  exists sc fds, (b, sc) ∈ schemas /\ is_observed sc = false /\ cfg_fields sc = Some fds /\ es = definition_entries fds.
Proof.
  unfold typed_branches. rewrite list_elem_of_omap. split.
  - intros ([b' sc] & Hin & Hx). cbn in Hx. destruct (is_observed sc) eqn:Eo; [done|]. destruct (cfg_fields sc) as [fds|] eqn:Ef; [|done].
    injection Hx as <- <-. by exists sc, fds.
  - intros (sc & fds & Hin & Ho & Hf & ->). exists (b, sc). split; [done|]. cbn. by rewrite Ho, Hf.
Qed.

(** An entry of the typed union is a field that its branch's schema lists. *)
Lemma typed_entry schemas order x :
  x ∈ entries_in (typed_branches schemas) order ->
  exists sc fds fd, (x.1, sc) ∈ schemas /\ x.1 ∈ order /\ cfg_fields sc = Some fds /\ fd ∈ fds /\ fd_name fd = e_name x /\ fd_required fd = e_required x.
Proof.
  unfold entries_in. rewrite list_elem_of_In, in_flat_map. intros (b & Hb%list_elem_of_In & Hx%list_elem_of_In).
  destruct (dict_get (typed_branches schemas) b) as [es|] eqn:Ed; [|by apply not_elem_of_nil in Hx].
  apply dict_get_elem, typed_branch_elem in Ed as (sc & fds & Hsc & _ & Hf & ->).
  apply list_elem_of_fmap in Hx as (e & -> & He). apply list_elem_of_fmap in He as (fd & -> & Hfd). by exists sc, fds, fd.
Qed.

Section merge.
Context (s : MergeSettings) (arrived : arrivals) (out : option SchemaContract) (plan : merge_plan).
Hypothesis Hplan : build_coalesce_merge s arrived out = Ok plan.
Hypothesis Hmay : may_merge s arrived.

(** A field that some branch that arrived guarantees is in the union. *)
Lemma union_has schemas b sc n :
  ms_merge s = union -> branches_carry arrived schemas -> (b, sc) ∈ schemas -> b ∈ ms_branches s -> dict_mem arrived b = true ->
  n ∈ effective_guaranteed_fields sc -> n ∈ (data (merged_row plan)).*1.
Proof.
  intros Hs Hc Hb Ho Hm Hn. destruct (union_plan s arrived out plan Hs Hplan) as (d & _ & Hf & Hd & _).
  unfold dict_mem in Hm. destruct (dict_get arrived b) as [p|] eqn:Ep; [|done].
  rewrite Hf. unfold freeze_row. rewrite <- list_fmap_compose. eapply merged_has; [exact Hd|exact Ho|exact Ep|].
  specialize (Hc b sc p Hb Ep). rewrite Forall_forall in Hc. by apply Hc.
Qed.

(** The typed fields that a union requires. *)
Lemma union_required raw merged n f :
  ms_merge s = union -> raw.*1 = ms_branches s -> Forall (fun bs => lists_fields bs.2 /\ is_observed bs.2 = false) raw -> branches_carry arrived raw ->
  merge_union_field_flags (ms_all_branch_semantics s) (ms_collision_policy s) (typed_branches raw) (Some (ms_branches s)) = inr merged ->
  (n, f) ∈ merged -> f_required f = true -> n ∈ (data (merged_row plan)).*1.
Proof.
  intros Hs Ek Hraw Hc Hm Hin Hr. apply merge_union_field_flags_spec in Hm as (Hnd & _ & Hflags).
  destruct (Hflags n f) as [[_ _ Hreq _] Hevery]; [by apply dict_get_unique|]. specialize (Hreq Hr).
  assert (Huse : forall x, x ∈ entries_in (typed_branches raw) (ms_branches s) -> e_name x = n -> e_required x = true ->
                   dict_mem arrived x.1 = true -> n ∈ (data (merged_row plan)).*1).
  { intros x (sc & fds & fd & Hsc & Ho & Hf & Hfd & En & Er)%typed_entry E Hx Ha. eapply union_has; [done..|].
    rewrite <- E, <- En. eapply required_guaranteed; [done..|congruence]. }
  destruct Hmay as [Hsome Hall]. destruct (ms_all_branch_semantics s).
  - destruct Hreq as (x & Hx & En & Er). apply (Huse x Hx En Er). specialize (Hall eq_refl). rewrite Forall_forall in Hall. apply Hall.
    by apply typed_entry in Hx as (? & ? & ? & _ & Ho & _).
  - apply Exists_exists in Hsome as (b & Hb & Ha). destruct (Hevery eq_refl Hr b Hb) as (x & Hx & <- & En); [|by apply (Huse x); auto].
    pose proof Hb as Hb'. rewrite <- Ek in Hb'. apply list_elem_of_fmap in Hb' as ([b' sc] & -> & Hsc). rewrite Forall_forall in Hraw.
    destruct (Hraw _ Hsc) as [Hl Hobs]. destruct (Hl Hobs) as [fds Hfds]. cbn.
    apply dict_mem_keys, list_elem_of_fmap. exists (b', definition_entries fds). split; [done|]. apply typed_branch_elem. by exists sc, fds.
Qed.

Lemma union_schema_holds raw guarantees cfg :
  ms_merge s = union -> raw.*1 = ms_branches s -> guarantees.*1 = ms_branches s -> Forall (fun bs => lists_fields bs.2) raw ->
  branches_carry arrived raw -> branches_carry arrived guarantees ->
  merge_coalesce_schema raw union (ms_all_branch_semantics s) (ms_collision_policy s) (Some (ms_branches s)) (ms_select_branch s) (Some guarantees) = Ok cfg ->
  Forall (fun n => n ∈ (data (merged_row plan)).*1) (effective_guaranteed_fields cfg).
Proof.
  intros Hs Ek Eg Hl Hraw Hguar. cbn [merge_coalesce_schema default from_option]. unfold merge_union_fields.
  set (gs := merge_guaranteed_fields _ _). set (aud := merge_audit_fields _).
  assert (Hgs : Forall (fun n => n ∈ (data (merged_row plan)).*1) (default [] gs)).
  { destruct gs as [l|] eqn:El; [|constructor]. eapply merged_guarantees_hold; [exact Hs|exact Hplan|exact El|exact Hguar|]. by apply may_merge_keys. }
  assert (Hobs : forall c, c = mkConfig "observed" None gs aud -> Forall (fun n => n ∈ (data (merged_row plan)).*1) (effective_guaranteed_fields c)).
  { intros c ->. unfold effective_guaranteed_fields. cbn. by rewrite app_nil_r. }
  destruct (forallb _ raw); [intros [= <-]; by apply Hobs|]. destruct (_ && _) eqn:Emix; [done|].
  destruct (merge_union_field_flags _ _ _ _) as [|merged] eqn:Em; [done|]. destruct merged as [|nf rest] eqn:Emm; [intros [= <-]; by apply Hobs|].
  rewrite <- Emm in *. clear Emm. intros [= <-]. unfold effective_guaranteed_fields. cbn [cfg_guaranteed_fields cfg_fields]. apply Forall_app. split; [done|].
  apply Forall_fmap, Forall_forall. intros fd [Hr Hfd]%list_elem_of_filter. apply list_elem_of_fmap in Hfd as ([n f] & -> & Hnf). cbn in *.
  eapply (union_required raw); [done|done| |done|exact Em|done|done]. apply andb_false_iff in Emix as [Hx|Hx].
  - apply Forall_forall. intros bs Hbs. split; [rewrite Forall_forall in Hl; by apply Hl|]. by apply (existsb_none _ _ bs Hx Hbs).
  - exfalso. apply negb_false_iff, Nat.eqb_eq, length_zero_iff_nil in Hx. rewrite Hx in Em. unfold merge_union_field_flags in Em.
    apply merge_union_field_flags_spec in Em as (Hnd & _ & Hf'). destruct (Hf' n f) as [[(x & Hx' & _) _ _ _] _]; [by apply dict_get_unique|].
    unfold entries_in in Hx'. rewrite list_elem_of_In, in_flat_map in Hx'. by destruct Hx' as (b & _ & []).
Qed.

(** What the schema of a coalesce node guarantees holds of every merged row: the
    rows that arrive carry what the schemas of their branches guarantee, the
    declared and the walked ones; some branch arrived, and all where the point
    needs all; then under each strategy the merged row carries every field
    that the node's schema guarantees. *)
Theorem merged_schema_holds raw guarantees cfg :
  raw.*1 = ms_branches s -> guarantees.*1 = ms_branches s -> Forall (fun bs => lists_fields bs.2) raw ->
  branches_carry arrived raw -> branches_carry arrived guarantees ->
  merge_coalesce_schema raw (ms_merge s) (ms_all_branch_semantics s) (ms_collision_policy s) (Some (ms_branches s)) (ms_select_branch s) (Some guarantees) = Ok cfg ->
  Forall (fun n => n ∈ (data (merged_row plan)).*1) (effective_guaranteed_fields cfg).
Proof.
  intros Ek Eg Hl Hraw Hguar Hcfg. destruct (ms_merge s) eqn:Hs; [by apply (union_schema_holds raw guarantees)| | |done];
    pose proof Hplan as Hp; unfold build_coalesce_merge, merge_data in Hp; rewrite Hs in Hp.
  - cbn in Hcfg. injection Hcfg as <-. apply bind_ok in Hp as (m & [= <-] & (c & _ & [= <-])%bind_ok).
    unfold effective_guaranteed_fields. cbn [cfg_guaranteed_fields cfg_fields default from_option app]. apply Forall_fmap, Forall_forall.
    intros fd [Hr Hfd]%list_elem_of_filter. apply list_elem_of_fmap in Hfd as (b & -> & Hb). cbn in Hr |- *.
    assert (Hb' : b ∈ ms_branches s).
    { unfold ordered_branch_names in Hb. apply elem_of_app in Hb as [Hb|Hb]; apply list_elem_of_filter in Hb as [_ Hb]; [done|]. by rewrite <- Ek. }
    destruct Hmay as [_ Hall]. specialize (Hall Hr). rewrite Forall_forall in Hall. specialize (Hall b Hb'). unfold dict_mem in Hall.
    destruct (dict_get arrived b) as [p|] eqn:Ep; [|done]. unfold freeze_row. rewrite <- list_fmap_compose. apply list_elem_of_fmap.
    eexists (b, _). split; [done|]. apply list_elem_of_omap. exists b. split; [done|]. by rewrite Ep.
  - cbn in Hcfg. destruct (ms_select_branch s) as [b|]; [|done]. destruct (dict_get raw b) as [sc|] eqn:Er; [|done]. injection Hcfg as <-.
    apply bind_ok in Hp as (m & Hm & (c & _ & [= <-])%bind_ok). destruct (dict_get arrived b) as [p|] eqn:Ep; [|done]. injection Hm as <-.
    specialize (Hraw b sc p (dict_get_elem _ _ _ Er) Ep). eapply Forall_impl; [exact Hraw|]. intros n Hn. cbn. unfold freeze_row.
    rewrite <- list_fmap_compose. exact Hn.
Qed.
End merge.
