(* ===== verification/Lineage.v ===== *)
(** * Lineage: tokens and the groups they belong to (contracts/identity.py)

    A token carries a path of frames, outermost first: the fork and expand
    groups it is a member of.  The legacy names (branch, fork group, expand
    group) are read off the innermost frames; a merging closer truncates the
    path at its own frame, a row union removes its fork frame and keeps the
    others; the path travels through the scheduler's journal as JSON. *)

From S2P Require Import Prelude Enums Contracts ContractFlow.
Open Scope Z_scope.

Record LineageFrame := mkFrame { kind : FrameKind; group_id : string; member_key : string }.

#[export] Instance LineageFrame_eq_dec : EqDecision LineageFrame.
Proof. solve_decision. Defined.

(** [LineageFrame.__post_init__], on values of the declared types. *)
Definition lineage_frame (f : LineageFrame) : res LineageFrame :=
  reject group_id f == "" with ValueError "LineageFrame.group_id must not be empty" ;;
  reject member_key f == "" with ValueError "LineageFrame.member_key must not be empty" ;;
  Ok f.

(** ** The journal's form *)
Definition kind_value (k : FrameKind) : string := match k with FORK => "fork" | EXPAND => "expand" end.
Definition kind_of_value (s : string) : option FrameKind :=
  if s == "fork" then Some FORK else if s == "expand" then Some EXPAND else None.

Definition lineage_path_to_json (path : list LineageFrame) : json :=
  JArray (map (fun f => JArray [JString (kind_value (kind f)); JString (group_id f); JString (member_key f)]) path).

Definition frame_from_json (entry : json) : res LineageFrame :=
  match entry with
  | JArray [k; g; m] =>
      match k with
      | JString k =>
          match kind_of_value k with
          | None => Err (ValueError "Corrupt lineage_path frame kind")
          | Some kind =>
              match g, m with
              | JString g, JString m => lineage_frame (mkFrame kind g m)
              | JString g, _ =>
                  reject g == "" with ValueError "LineageFrame.group_id must not be empty" ;;
                  Err (TypeError "LineageFrame.member_key must be str")
              | _, _ => Err (TypeError "LineageFrame.group_id must be str")
              end
          end
      | _ => Err (ValueError "Corrupt lineage_path frame kind")
      end
  | _ => Err (ValueError "Corrupt lineage_path frame: expected [kind, group_id, member_key]")
  end.

(** After [json.loads], whose refusal is a [ValueError] too. *)
Definition lineage_path_from_json (raw : option json) : res (list LineageFrame) :=
  match raw with
  | None => Err (ValueError "Corrupt lineage_path JSON")
  | Some (JArray l) => mapM_res frame_from_json l
  | Some _ => Err (ValueError "Corrupt lineage_path JSON: expected array")
  end.

(** ** Innermost frames *)
Definition innermost (k : FrameKind) (path : list LineageFrame) : option LineageFrame :=
  head (filter (fun f => kind f = k) (reverse path)).

Definition innermost_fork_frame (path : list LineageFrame) : option LineageFrame := innermost FORK path.
Definition innermost_expand_frame (path : list LineageFrame) : option LineageFrame := innermost EXPAND path.
Definition path_branch_name (path : list LineageFrame) : option string := member_key <$> innermost_fork_frame path.
Definition path_fork_group_id (path : list LineageFrame) : option string := group_id <$> innermost_fork_frame path.
Definition path_expand_group_id (path : list LineageFrame) : option string := group_id <$> innermost_expand_frame path.

(** The scan from the innermost frame outward, over the reversed path: the first
    frame that the predicate accepts, with the frames below it. *)
Fixpoint scan_outward (accepts : LineageFrame -> bool) (reversed : list LineageFrame) : option (list LineageFrame * LineageFrame) :=
  match reversed with
  | [] => None
  | f :: below => if accepts f then Some (reverse below, f) else scan_outward accepts below
  end.

Section release_groups.
Context (is_release_group : string -> bool).

(** [innermost_own_frame], with the path below the frame in place of its index. *)
Definition innermost_own_frame (path : list LineageFrame) : option (list LineageFrame * LineageFrame) :=
  scan_outward (fun f => negb (is_release_group (group_id f))) (reverse path).

Definition is_frame (k : FrameKind) (g : string) (f : LineageFrame) : bool := (kind f == k) && (group_id f == g).

Definition truncate_at_closer_frame (path : list LineageFrame) (k : FrameKind) (g : string) : res (list LineageFrame) :=
  let absent := Err (OrchestrationInvariantError "truncate_at_closer_frame: path has no matching innermost frame") in
  let walk :=
    match innermost_own_frame path with
    | None => absent
    | Some (below, frame) =>
        if is_frame k g frame then Ok below
        else
          reject existsb (is_frame k g) below
            with OrchestrationInvariantError "truncate_at_closer_frame: an unclosed scope inside a closing region is not skippable" ;;
          absent
    end in
  match last path with
  | Some f => if is_frame k g f then Ok (take (length path - 1) path) else walk
  | None => walk
  end.
End release_groups.

(** The innermost FORK frame of the group, removed wherever it is. *)
Fixpoint pop_reversed (g : string) (reversed : list LineageFrame) : option (list LineageFrame) :=
  match reversed with
  | [] => None
  | f :: below => if is_frame FORK g f then Some below else cons f <$> pop_reversed g below
  end.

Definition pop_fork_frame (path : list LineageFrame) (g : string) : res (list LineageFrame) :=
  match pop_reversed g (reverse path) with
  | Some popped => Ok (reverse popped)
  | None => Err (OrchestrationInvariantError "pop_fork_frame: no FORK frame for group")
  end.

(** ** Tokens *)
Record TokenInfo := mkToken {
  row_id : string; token_id : string; row_data : PipelineRow; lineage_path : list LineageFrame;
  resume_attempt_offset : Z; resume_checkpoint_id : option string }.

(** [TokenInfo.__post_init__], on values of the declared types. *)
Definition token_info (t : TokenInfo) : res TokenInfo :=
  reject row_id t == "" with ValueError "TokenInfo.row_id must not be empty" ;;
  reject token_id t == "" with ValueError "TokenInfo.token_id must not be empty" ;;
  reject resume_attempt_offset t <? 0 with ValueError "TokenInfo.resume_attempt_offset must be >= 0" ;;
  reject (0 <? resume_attempt_offset t) && is_none (resume_checkpoint_id t)
    with ValueError "TokenInfo.resume_attempt_offset requires a resume_checkpoint_id" ;;
  Ok t.

Definition branch_name (t : TokenInfo) : option string := path_branch_name (lineage_path t).
Definition fork_group_id (t : TokenInfo) : option string := path_fork_group_id (lineage_path t).
Definition expand_group_id (t : TokenInfo) : option string := path_expand_group_id (lineage_path t).

Definition with_updated_data (t : TokenInfo) (d : PipelineRow) : res TokenInfo :=
  token_info (mkToken (row_id t) (token_id t) d (lineage_path t) (resume_attempt_offset t) (resume_checkpoint_id t)).

(** [replace(token, lineage_path=...)]. *)
Definition with_path (t : TokenInfo) (path : list LineageFrame) : res TokenInfo :=
  token_info (mkToken (row_id t) (token_id t) (row_data t) path (resume_attempt_offset t) (resume_checkpoint_id t)).

(** ** What the path operations mean *)
Definition frame_ok (f : LineageFrame) : Prop := group_id f <> "" /\ member_key f <> "".

Lemma lineage_frame_ok f g : lineage_frame f = Ok g <-> frame_ok f /\ g = f.
Proof. unfold lineage_frame, frame_ok. repeat case_bool_decide; cbn; split; naive_solver. Qed.

Lemma kind_of_value_iff s k : kind_of_value s = Some k <-> s = kind_value k.
Proof. unfold kind_of_value. repeat case_bool_decide; subst; destruct k; cbn; split; naive_solver. Qed.

Definition frame_to_json (f : LineageFrame) : json := JArray [JString (kind_value (kind f)); JString (group_id f); JString (member_key f)].

Lemma frame_from_json_ok j f : frame_from_json j = Ok f <-> j = frame_to_json f /\ frame_ok f.
Proof.
  split.
  - unfold frame_from_json, frame_to_json. intros E. repeat (case_match; try done); simplify_eq;
      repeat match goal with H : kind_of_value _ = Some _ |- _ => apply kind_of_value_iff in H as -> end;
      by apply lineage_frame_ok in E as [Hf ->].
  - intros [-> Hf]. unfold frame_from_json, frame_to_json. rewrite (proj2 (kind_of_value_iff _ (kind f)) eq_refl).
    apply lineage_frame_ok. by destruct f.
Qed.

(** The journal's form of a lineage path is read back exactly, and reading
    accepts nothing else: a JSON value is read as a path precisely if it is the
    form that writing the path gives and no frame has an empty part. *)
Theorem lineage_json_exact j path :
  lineage_path_from_json (Some j) = Ok path <-> j = lineage_path_to_json path /\ Forall frame_ok path.
Proof.
  unfold lineage_path_from_json, lineage_path_to_json. fold frame_to_json. split.
  - destruct j as [| | | |l|]; try done. rewrite mapM_res_ok. intros H2.
    induction H2 as [|x f l path [-> Hf]%frame_from_json_ok _ IH]; [done|]. destruct IH as [[= ->] IH]. split; [done|by constructor].
  - intros [-> Hp]. apply mapM_res_ok, Forall2_fmap_l, Forall_Forall2_diag. eapply Forall_impl; [exact Hp|].
    intros f Hf. by apply frame_from_json_ok.
Qed.

Lemma scan_outward_some accepts l below f :
  scan_outward accepts l = Some (below, f) <->
  exists skipped, l = skipped ++ f :: reverse below /\ accepts f = true /\ Forall (fun g => accepts g = false) skipped.
Proof.
  induction l as [|g l IH]; cbn.
  - split; [done|]. by intros ([|??] & [=] & _).
  - destruct (accepts g) eqn:Eg.
    + split.
      * intros [= <- <-]. exists []. by rewrite reverse_involutive.
      * intros ([|h skipped] & E & Hf & Hs); cbn in E; injection E as -> ->; [by rewrite reverse_involutive|].
        apply Forall_cons in Hs as [Hs _]. congruence.
    + rewrite IH. split.
      * intros (skipped & -> & ? & ?). exists (g :: skipped). split_and!; [done..|by constructor].
      * intros ([|h skipped] & E & Hf & Hs); cbn in E; injection E as -> ->; [congruence|].
        apply Forall_cons in Hs as [_ Hs]. by exists skipped.
Qed.

(** The same on the path itself. *)
Lemma own_frame_some is_release_group path below f :
  innermost_own_frame is_release_group path = Some (below, f) <->
  exists above, path = below ++ f :: above /\ is_release_group (group_id f) = false /\
    Forall (fun g => is_release_group (group_id g) = true) above.
Proof.
  unfold innermost_own_frame. rewrite scan_outward_some. setoid_rewrite negb_true_iff. setoid_rewrite negb_false_iff. split.
  - intros (skipped & E & Hf & Hs). exists (reverse skipped). split_and!; [|done|by apply Forall_reverse].
    rewrite <- (reverse_involutive path), E, reverse_app, reverse_cons, reverse_involutive, <- app_assoc. done.
  - intros (above & -> & Hf & Ha). exists (reverse above). split_and!; [|done|by apply Forall_reverse].
    by rewrite reverse_app, reverse_cons, <- app_assoc.
Qed.

Lemma is_frame_true k g f : is_frame k g f = true <-> kind f = k /\ group_id f = g.
Proof. unfold is_frame. by rewrite andb_true_iff, !bool_decide_eq_true. Qed.

(** A merging closer closes exactly its own frame: truncation yields the part
    of the path below a frame of the closer's kind and group, and only if every
    frame above it is a release group; in all other cases it raises.  The
    closer's own group, if frames lie above it, is not a release group. *)
Theorem truncate_closes_own_frame is_release_group path k g below :
  truncate_at_closer_frame is_release_group path k g = Ok below <->
  exists f above, path = below ++ f :: above /\ kind f = k /\ group_id f = g /\
    (above = [] \/ is_release_group g = false /\ Forall (fun h => is_release_group (group_id h) = true) above).
Proof.
  unfold truncate_at_closer_frame.
  assert (Hwalk : (match innermost_own_frame is_release_group path with
                   | None => Err (OrchestrationInvariantError "truncate_at_closer_frame: path has no matching innermost frame")
                   | Some (below, frame) =>
                       if is_frame k g frame then Ok below
                       else if existsb (is_frame k g) below
                         then Err (OrchestrationInvariantError "truncate_at_closer_frame: an unclosed scope inside a closing region is not skippable")
                         else Err (OrchestrationInvariantError "truncate_at_closer_frame: path has no matching innermost frame")
                   end) = Ok below <->
                  exists f above, path = below ++ f :: above /\ kind f = k /\ group_id f = g /\
                    is_release_group g = false /\ Forall (fun h => is_release_group (group_id h) = true) above).
  { split.
    - destruct (innermost_own_frame is_release_group path) as [[b f]|] eqn:E; [|done]. destruct (is_frame k g f) eqn:Ef; [|by destruct (existsb _ _)].
      intros [= <-]. apply own_frame_some in E as (above & -> & Hr & Ha). apply is_frame_true in Ef as [<- <-]. eauto 10.
    - intros (f & above & E & <- & <- & Hr & Ha).
      rewrite (proj2 (own_frame_some is_release_group path below f)) by eauto.
      by rewrite (proj2 (is_frame_true (kind f) (group_id f) f)). }
  destruct (last path) as [h|] eqn:El.
  - apply last_Some in El as [init ->]. destruct (is_frame k g h) eqn:Eh.
    + apply is_frame_true in Eh as [<- <-]. rewrite length_app. cbn [length]. replace (length init + 1 - 1)%nat with (length init) by lia.
      rewrite take_app_length. split.
      * intros [= <-]. exists h, []. auto.
      * intros (f & above & E & Hk & Hg & [->|[Hr Ha]]); [by apply app_inj_tail in E as [-> _]|].
        destruct above as [|a above _] using rev_ind; [by apply app_inj_tail in E as [-> _]|].
        rewrite app_comm_cons, app_assoc in E. apply app_inj_tail in E as [_ <-].
        apply Forall_app in Ha as [_ [Ha _]%Forall_cons]. congruence.
    + rewrite Hwalk. split; [naive_solver|]. intros (f & above & E & Hk & Hg & [->|[Hr Ha]]); [|eauto 10].
      apply app_inj_tail in E as [_ <-]. by rewrite (proj2 (is_frame_true k g h)) in Eh.
  - apply last_None in El as ->. rewrite Hwalk. split; [naive_solver|]. intros (f & above & E & _). by destruct below.
Qed.

Lemma pop_reversed_some g l popped :
  pop_reversed g l = Some popped <->
  exists skipped f below, l = skipped ++ f :: below /\ is_frame FORK g f = true /\ popped = skipped ++ below /\
    Forall (fun h => is_frame FORK g h = false) skipped.
Proof.
  revert popped. induction l as [|h l IH]; intros popped; cbn.
  - split; [done|]. by intros ([|??] & ? & ? & [=] & _).
  - destruct (is_frame FORK g h) eqn:Eh.
    + split; [intros [= <-]; by exists [], h, l|]. intros ([|h' skipped] & f & below & E & Hf & -> & Hs); injection E as -> ->; [done|].
      apply Forall_cons in Hs as [Hs _]. congruence.
    + split.
      * destruct (pop_reversed g l) as [q|] eqn:Eq; [|done]. intros [= <-]. destruct (proj1 (IH q) eq_refl) as (skipped & f & below & -> & ? & -> & ?).
        exists (h :: skipped), f, below. split_and!; [done..|by constructor].
      * intros ([|h' skipped] & f & below & E & Hf & -> & Hs); injection E as -> ->; [congruence|]. apply Forall_cons in Hs as [_ Hs].
        by rewrite (proj2 (IH (skipped ++ below))) by eauto 10.
Qed.

Lemma pop_fork_frame_ok path g path' :
  pop_fork_frame path g = Ok path' <->
  exists outer f inner, path = outer ++ f :: inner /\ kind f = FORK /\ group_id f = g /\ path' = outer ++ inner /\
    Forall (fun h => is_frame FORK g h = false) inner.
Proof.
  unfold pop_fork_frame. split.
  - destruct (pop_reversed g (reverse path)) as [q|] eqn:E; [|done]. intros [= <-].
    apply pop_reversed_some in E as (skipped & f & below & E & [Hk Hg]%is_frame_true & -> & Hs).
    exists (reverse below), f, (reverse skipped). rewrite reverse_app. split_and!; [|done..|by apply Forall_reverse].
    by rewrite <- (reverse_involutive path), E, reverse_app, reverse_cons, <- app_assoc.
  - intros (outer & f & inner & -> & Hk & Hg & -> & Hi). rewrite (proj2 (pop_reversed_some g _ (reverse inner ++ reverse outer))).
    + by rewrite reverse_app, !reverse_involutive.
    + exists (reverse inner), f, (reverse outer). split_and!; [by rewrite reverse_app, reverse_cons, <- app_assoc|by apply is_frame_true|done|by apply Forall_reverse].
Qed.

Lemma innermost_elem k path f : innermost k path = Some f -> f ∈ path /\ kind f = k.
Proof. unfold innermost. intros [Hk Hf]%head_Some_elem_of%list_elem_of_filter. by rewrite elem_of_reverse in Hf. Qed.

(** A path can be popped by any of its fork groups. *)
Lemma pop_member path f : f ∈ path -> kind f = FORK -> exists path', pop_fork_frame path (group_id f) = Ok path'.
Proof.
  intros Hf Hk. unfold pop_fork_frame. destruct (pop_reversed (group_id f) (reverse path)) as [q|] eqn:E; [eauto|]. exfalso.
  rewrite <- elem_of_reverse in Hf. revert Hf E. generalize (reverse path). intros l. induction l as [|h l IH]; [by intros ?%not_elem_of_nil|].
  cbn. intros Hin E. destruct (is_frame FORK (group_id f) h) eqn:Eh; [done|]. apply elem_of_cons in Hin as [->|Hin].
  - by rewrite (proj2 (is_frame_true FORK (group_id h) h)) in Eh.
  - destruct (pop_reversed (group_id f) l); [done|]. by apply IH.
Qed.

Lemma fork_group_pops t g : fork_group_id t = Some g -> exists path', pop_fork_frame (lineage_path t) g = Ok path'.
Proof.
  unfold fork_group_id, path_fork_group_id, innermost_fork_frame. destruct (innermost FORK (lineage_path t)) as [f|] eqn:E; [|done].
  intros [= <-]. apply innermost_elem in E as [Hf Hk]. by apply pop_member.
Qed.
