(* ===== verification/RowUnion.v ===== *)
(** * Row union executor (engine/row_union_executor.py)

    The barrier that holds the branches of a fork group and releases the tokens
    themselves once every declared branch has arrived: the pending groups, the
    bounded memory of closed groups and of losses, and the part of the audit
    database that it writes and reads (node states at its nodes, token outcomes,
    the ledger of group losses and the recorded lineage frames).  Every write is
    a transaction of its own behind a fence: it may be refused (leadership or
    membership lost, a database error), and a finished state or outcome refuses
    to be written again.  An operation keeps the state it reached when it
    raises.  Durations and step numbers are not recorded. *)

From S2P Require Import Prelude Enums Contracts ContractFlow Lineage Triggers.

(** (row_union_name, fork_group_id). *)
Definition union_key : Type := string * string.

Section row_union.
Context {T : Type} `{TimeScale T}.

Record RowUnionSettings := mkUnionSettings { us_name : string; us_branches : list string; us_timeout_seconds : option T }.

(** ** The audit database *)
Inductive NodeStateStatus := OPEN | PENDING | COMPLETED | FAILED.

#[export] Instance NodeStateStatus_eq_dec : EqDecision NodeStateStatus.
Proof. solve_decision. Defined.

(** A node state has a completion time unless it is OPEN; its id is its position. *)
Record node_state := mkState { ns_node_id : string; ns_token_id : string; ns_attempt : Z; ns_status : NodeStateStatus }.

Record token_outcome := mkTokenOutcome { to_token_id : string; to_outcome : TerminalOutcome; to_path : TerminalPath; to_error : string }.

(** [token_frames] are the lineage frames that the mint recorded for each token,
    which keep a frame that was popped since.  [refusals] says of each coming
    write whether its fence or the database refuses it, and how. *)
Record audit_db := mkDb {
  node_states : list node_state; token_outcomes : list token_outcome; group_losses : gset union_key;
  token_frames : gmap string (list LineageFrame); refusals : list (option exc) }.

(** A state at the node whose token carries a frame of the group, at any depth. *)
Definition at_node (d : audit_db) (node_id g : string) (s : node_state) : bool :=
  (ns_node_id s == node_id) && bool_decide (g ∈ map group_id (default [] (token_frames d !! ns_token_id s))).

Definition has_completed_group_for_node (d : audit_db) (node_id g : string) : bool :=
  existsb (fun s => at_node d node_id g s && negb (ns_status s == OPEN)) (node_states d).

Definition has_released_group_for_node (d : audit_db) (node_id g : string) : bool :=
  existsb (fun s => at_node d node_id g s && (ns_status s == COMPLETED)) (node_states d).

Definition has_group_loss (d : audit_db) (k : union_key) : bool := bool_decide (k ∈ group_losses d).

(** ** The executor *)
Record BranchEntry := mkBranch { be_token : TokenInfo; be_arrival_time : T; be_state_id : nat }.
Record PendingRowUnion := mkPending { pu_branches : list (string * BranchEntry); pu_first_arrival : T }.
Record RowUnionRestoreEntry := mkRestore { re_token : TokenInfo; re_row_union_name : string; re_state_id : option nat; re_arrival_time : T }.

Record union_executor := mkUnion {
  settings : list (string * RowUnionSettings);
  node_ids : list (string * string);
  pending : list (union_key * PendingRowUnion);
  completed_keys : list (union_key * string);
  failed_without_member_state : gset union_key;
  recorded_losses : list (string * string * string);
  recorded_loss_groups : list union_key;
  db : audit_db;
}.

Record RowUnionOutcome := mkUnionOutcome {
  o_held : bool; o_released_tokens : list TokenInfo; o_consumed_tokens : list TokenInfo; o_failure_reason : option string;
  o_outcomes_recorded : bool; o_late_arrival : bool; o_first_failure_evidence : bool }.

(** [RowUnionOutcome.__post_init__]. *)
Definition union_outcome (o : RowUnionOutcome) : res RowUnionOutcome :=
  let released := match o_released_tokens o with [] => false | _ => true end in
  reject o_first_failure_evidence o && negb (o_late_arrival o)
    with OrchestrationInvariantError "first_failure_evidence is only valid on a late-arrival outcome" ;;
  reject o_held o && (released || is_some (o_failure_reason o))
    with OrchestrationInvariantError "held=True excludes released_tokens/failure_reason" ;;
  reject released && is_some (o_failure_reason o)
    with OrchestrationInvariantError "released_tokens and failure_reason are mutually exclusive" ;;
  Ok o.

(** ** Operations that change state and may raise *)
Definition act (A : Type) : Type := union_executor -> union_executor * res A.

#[export] Instance act_ret : MRet act := fun A a x => (x, Ok a).
#[export] Instance act_bind : MBind act := fun A B f m x => match m x with (x, Ok a) => f a x | (x, Err e) => (x, Err e) end.

Definition raise {A} (e : exc) : act A := fun x => (x, Err e).
Definition lift {A} (r : res A) : act A := fun x => (x, r).
Definition get_state : act union_executor := fun x => (x, Ok x).
Definition modify (f : union_executor -> union_executor) : act unit := fun x => (f x, Ok tt).
Definition raise_if (b : bool) (e : exc) : act unit := if b then raise e else mret tt.

Fixpoint for_each {A B} (f : A -> act B) (l : list A) : act (list B) :=
  match l with [] => mret [] | a :: l => b ← f a; bs ← for_each f l; mret (b :: bs) end.

Definition set_pending (p : list (union_key * PendingRowUnion)) (x : union_executor) : union_executor :=
  mkUnion (settings x) (node_ids x) p (completed_keys x) (failed_without_member_state x) (recorded_losses x) (recorded_loss_groups x) (db x).
Definition set_closed (c : list (union_key * string)) (f : gset union_key) (x : union_executor) : union_executor :=
  mkUnion (settings x) (node_ids x) (pending x) c f (recorded_losses x) (recorded_loss_groups x) (db x).
Definition set_losses (l : list (string * string * string)) (g : list union_key) (x : union_executor) : union_executor :=
  mkUnion (settings x) (node_ids x) (pending x) (completed_keys x) (failed_without_member_state x) l g (db x).
Definition set_db (d : audit_db) (x : union_executor) : union_executor :=
  mkUnion (settings x) (node_ids x) (pending x) (completed_keys x) (failed_without_member_state x) (recorded_losses x) (recorded_loss_groups x) d.

Definition register_row_union (s : RowUnionSettings) (node_id : string) : act unit :=
  modify (fun x => mkUnion (dict_set (settings x) (us_name s) s) (dict_set (node_ids x) (us_name s) node_id) (pending x) (completed_keys x)
                     (failed_without_member_state x) (recorded_losses x) (recorded_loss_groups x) (db x)).

Definition get_registered_names (x : union_executor) : list string := (settings x).*1.
Definition has_timeout_configured (x : union_executor) : bool := existsb (fun ns => is_some (us_timeout_seconds ns.2)) (settings x).
Definition node_id_for (x : union_executor) (name : string) : res string :=
  match dict_get (node_ids x) name with
  | Some node_id => Ok node_id
  | None => Err (OrchestrationInvariantError "row_union not registered")
  end.

(** *** Writers of the database

    A refused write changes no table. *)
Definition next_refusal (d : audit_db) : option exc := match refusals d with Some e :: _ => Some e | _ => None end.
Definition past_refusal (d : audit_db) : audit_db :=
  mkDb (node_states d) (token_outcomes d) (group_losses d) (token_frames d) (tail (refusals d)).

Definition write {A} (f : audit_db -> res (A * audit_db)) : act A := fun x =>
  let d := past_refusal (db x) in
  match next_refusal (db x), f d with
  | None, Ok (a, d') => (set_db d' x, Ok a)
  | None, Err e => (set_db d x, Err e)
  | Some e, _ => (set_db d x, Err e)
  end.

Definition set_states (d : audit_db) (ns : list node_state) : audit_db := mkDb ns (token_outcomes d) (group_losses d) (token_frames d) (refusals d).
Definition set_token_outcomes (d : audit_db) (os : list token_outcome) : audit_db := mkDb (node_states d) os (group_losses d) (token_frames d) (refusals d).

(** One state per token, node and attempt. *)
Definition begin_node_state (t : TokenInfo) (node_id : string) : act nat := write (fun d =>
  reject existsb (fun s => (ns_token_id s == token_id t) && (ns_node_id s == node_id) && (ns_attempt s == resume_attempt_offset t)) (node_states d)
    with LandscapeRecordError "execute_insert_on failed" ;;
  Ok (length (node_states d), set_states d (node_states d ++ [mkState node_id (token_id t) (resume_attempt_offset t) OPEN]))).

Definition with_status (st : NodeStateStatus) (s : node_state) : node_state := mkState (ns_node_id s) (ns_token_id s) (ns_attempt s) st.

(** A finished state is immutable. *)
Definition is_terminal (st : NodeStateStatus) : bool := (st == COMPLETED) || (st == FAILED).

Definition complete_node_state (state_id : nat) (st : NodeStateStatus) : act unit := write (fun d =>
  match node_states d !! state_id with
  | None => Err (LandscapeRecordError "complete_node_state: zero rows affected")
  | Some s =>
      reject is_terminal (ns_status s) with LandscapeRecordError "Terminal node states are immutable" ;;
      Ok (tt, set_states d (<[state_id := with_status st s]> (node_states d)))
  end).

(** A token has one terminal outcome. *)
Definition record_failure (t : TokenInfo) (reason : string) : act unit := write (fun d =>
  reject existsb (fun o => to_token_id o == token_id t) (token_outcomes d) with LandscapeRecordError "token_outcomes" ;;
  Ok (tt, set_token_outcomes d (token_outcomes d ++ [mkTokenOutcome (token_id t) FAILURE UNROUTED reason]))).

(** *** Memory of closed groups and losses *)
Definition CLOSED_BY_RELEASE : string := "released".
Definition CLOSED_BY_BRANCH_LOSS : string := "row_union_branch_lost".
Definition CLOSED_BY_PRIOR_FAILURE : string := "row_union_group_failed".

Context (max_completed_keys : nat).

(** The eviction loop of [_mark_completed]. *)
Fixpoint evict_closed (l : list (union_key * string)) (f : gset union_key) : list (union_key * string) * gset union_key :=
  match l with
  | [] => ([], f)
  | (k, _) :: l' => if (max_completed_keys <? length l)%nat then evict_closed l' (f ∖ {[k]}) else (l, f)
  end.

Definition mark_completed (k : union_key) (reason : string) : act unit := fun x =>
  let '(c, f) := evict_closed (dict_set (completed_keys x) k reason) (failed_without_member_state x) in (set_closed c f x, Ok tt).

(** Insertion at the end of an ordered dict, and [popitem(last=False)] while it is too long. *)
Definition remember_last {A} `{EqDecision A} (a : A) (l : list A) : list A :=
  let l := filter (fun b => b <> a) l ++ [a] in drop (length l - max_completed_keys) l.

Definition remember_branch_loss (name g branch : string) : act unit :=
  modify (fun x => set_losses (remember_last (name, g, branch) (recorded_losses x)) (remember_last (name, g) (recorded_loss_groups x)) x).

Definition loss_known (x : union_executor) (k : union_key) : bool :=
  bool_decide (k ∈ recorded_loss_groups x) || has_group_loss (db x) k.

(** [_check_landscape_for_completion]. *)
Definition check_landscape_for_completion (k : union_key) : act bool :=
  x ← get_state;
  match dict_get (node_ids x) k.1 with
  | None => mret false
  | Some node_id =>
      if negb (has_completed_group_for_node (db x) node_id k.2) then mret false
      else
        _ ← mark_completed k (if has_released_group_for_node (db x) node_id k.2 then CLOSED_BY_RELEASE
                              else if loss_known x k then CLOSED_BY_BRANCH_LOSS else CLOSED_BY_PRIOR_FAILURE);
        mret true
  end.

(** [key in self._completed_keys or self._check_landscape_for_completion(...)]. *)
Definition already_closed (k : union_key) : act bool :=
  x ← get_state;
  if dict_mem (completed_keys x) k then mret true else check_landscape_for_completion k.

(** *** Release and failure *)

(** [_pop_released_group]. *)
Definition pop_released_group (released : list TokenInfo) : res (list TokenInfo) :=
  frames ← mapM_res (fun t => match innermost_fork_frame (lineage_path t) with
                              | Some f => Ok (group_id f)
                              | None => Err (OrchestrationInvariantError "row_union release: token has no FORK frame to pop")
                              end) released;
  match remove_dups frames with
  | [g] => mapM_res (fun t => path ← pop_fork_frame (lineage_path t) g; with_path t path) released
  | _ => Err (OrchestrationInvariantError "row_union release: released tokens do not share one FORK group")
  end.

Definition execute_release (s : RowUnionSettings) (k : union_key) (p : PendingRowUnion) : act RowUnionOutcome :=
  released ← for_each (fun b => match dict_get (pu_branches p) b with
                                | None => raise (KeyError "branches")
                                | Some e => _ ← complete_node_state (be_state_id e) COMPLETED; mret (be_token e)
                                end) (us_branches s);
  _ ← modify (fun x => set_pending (dict_del (pending x) k) x);
  _ ← mark_completed k CLOSED_BY_RELEASE;
  popped ← lift (pop_released_group released);
  lift (union_outcome (mkUnionOutcome false popped popped None false false false)).

Definition fail_pending (k : union_key) (reason : string) : act RowUnionOutcome :=
  x ← get_state;
  match dict_get (pending x) k with
  | None => raise (KeyError "_pending")
  | Some p =>
      _ ← for_each (fun be => _ ← complete_node_state (be_state_id be.2) FAILED; record_failure (be_token be.2) reason) (pu_branches p);
      _ ← modify (fun x => set_pending (dict_del (pending x) k) x);
      _ ← mark_completed k reason;
      lift (union_outcome (mkUnionOutcome false [] (map (fun be => be_token be.2) (pu_branches p)) (Some reason) true false false))
  end.

Definition late_reason (closed_reason : string) : string :=
  if closed_reason == CLOSED_BY_RELEASE then "late_arrival_after_release" else closed_reason.

Definition fail_late_arrival (t : TokenInfo) (node_id : string) (k : union_key) (closed_reason : string) : act RowUnionOutcome :=
  x ← get_state;
  let evidence := bool_decide (k ∈ failed_without_member_state x) in
  _ ← modify (fun x => set_closed (completed_keys x) (failed_without_member_state x ∖ {[k]}) x);
  state_id ← begin_node_state t node_id;
  _ ← complete_node_state state_id FAILED;
  _ ← record_failure t (late_reason closed_reason);
  lift (union_outcome (mkUnionOutcome false [] [t] (Some (late_reason closed_reason)) true true evidence)).

(** [set(a) == set(b)]. *)
Definition same_branches (a b : list string) : bool := forallb (fun x => bool_decide (x ∈ b)) a && forallb (fun x => bool_decide (x ∈ a)) b.

Definition accept (t : TokenInfo) (name : string) (now : T) : act RowUnionOutcome :=
  let E := OrchestrationInvariantError in
  x ← get_state;
  match dict_get (settings x) name with
  | None => raise (E "row_union not registered")
  | Some s =>
  match branch_name t with
  | None => raise (E "Token has no branch_name")
  | Some branch =>
  match dict_get (node_ids x) name with
  | None => raise (KeyError "_node_ids")
  | Some node_id =>
  _ ← raise_if (negb (bool_decide (branch ∈ us_branches s))) (E "Token branch not in expected branches");
  match fork_group_id t with
  | None => raise (E "Token has branch_name but no fork_group_id")
  | Some g =>
      let k := (name, g) in
      closed ← already_closed k;
      x ← get_state;
      if (closed : bool) then
        match dict_get (completed_keys x) k with
        | None => raise (KeyError "_completed_keys")
        | Some reason => fail_late_arrival t node_id k reason
        end
      else if loss_known x k then
        _ ← mark_completed k CLOSED_BY_BRANCH_LOSS;
        fail_late_arrival t node_id k CLOSED_BY_BRANCH_LOSS
      else
        let p := default (mkPending [] now) (dict_get (pending x) k) in
        let p := if t_ltb now (pu_first_arrival p) then mkPending (pu_branches p) now else p in
        _ ← modify (fun x => set_pending (dict_set (pending x) k p) x);
        _ ← raise_if (dict_mem (pu_branches p) branch) (E "Duplicate arrival for branch");
        state_id ← begin_node_state t node_id;
        let p := mkPending (dict_set (pu_branches p) branch (mkBranch t now state_id)) (pu_first_arrival p) in
        _ ← modify (fun x => set_pending (dict_set (pending x) k p) x);
        if same_branches (pu_branches p).*1 (us_branches s) then execute_release s k p
        else lift (union_outcome (mkUnionOutcome true [] [] None false false false))
  end end end end.

(** *** Timeouts, the end of the source, losses *)
Definition check_timeouts (name : string) (now : T) : act (list RowUnionOutcome) :=
  x ← get_state;
  match dict_get (settings x) name with
  | None => raise (OrchestrationInvariantError "row_union not registered")
  | Some s =>
      match us_timeout_seconds s with
      | None => mret []
      | Some timeout =>
          let timed_out := filter (fun kp => kp.1.1 = name /\ t_ltb timeout (t_sub now (pu_first_arrival kp.2)) = true) (pending x) in
          for_each (fun k => fail_pending k "row_union_timeout") timed_out.*1
      end
  end.

Definition flush_pending : act (list RowUnionOutcome) :=
  x ← get_state;
  for_each (fun k => match dict_get (settings x) k.1 with
                     | None => raise (KeyError "_settings")
                     | Some _ => fail_pending k "row_union_incomplete_at_flush"
                     end) (pending x).*1.

Definition has_recorded_branch_loss (x : union_executor) (name g branch : string) : bool := bool_decide ((name, g, branch) ∈ recorded_losses x).

Definition notify_branch_lost (name g lost_branch : string) : act (option RowUnionOutcome) :=
  x ← get_state;
  _ ← raise_if (negb (dict_mem (settings x) name)) (OrchestrationInvariantError "row_union not registered");
  let k := (name, g) in
  closed ← already_closed k;
  if (closed : bool) then mret None
  else
    _ ← remember_branch_loss name g lost_branch;
    x ← get_state;
    if negb (dict_mem (pending x) k) then
      _ ← mark_completed k CLOSED_BY_BRANCH_LOSS;
      _ ← modify (fun x => set_closed (completed_keys x) ({[k]} ∪ failed_without_member_state x) x);
      mret None
    else
      match dict_get (settings x) name with
      | None => raise (KeyError "_settings")
      | Some _ => o ← fail_pending k CLOSED_BY_BRANCH_LOSS; mret (Some o)
      end.

Definition restore_branch_losses (losses : list (string * string * string)) : act unit :=
  _ ← for_each (fun l =>
        let '(name, g, branch) := l in
        x ← get_state;
        match dict_get (settings x) name with
        | None => raise (OrchestrationInvariantError "Cannot restore loss for unknown row_union")
        | Some s =>
            _ ← raise_if (negb (bool_decide (branch ∈ us_branches s))) (OrchestrationInvariantError "Cannot restore loss for branch");
            remember_branch_loss name g branch
        end) losses;
  mret tt.

(** *** Restore *)

(** The loop of [restore_from_journal] that rebuilds the pending map. *)
Fixpoint rebuild_pending (sts : list (string * RowUnionSettings)) (entries : list RowUnionRestoreEntry)
    (restored : list (union_key * PendingRowUnion)) : res (list (union_key * PendingRowUnion)) :=
  let E := OrchestrationInvariantError in
  match entries with
  | [] => Ok restored
  | e :: entries =>
      match dict_get sts (re_row_union_name e), branch_name (re_token e), fork_group_id (re_token e) with
      | None, _, _ => Err (E "Cannot restore unknown row_union")
      | _, None, _ => Err (E "Cannot restore row_union token: branch_name is None")
      | _, _, None => Err (E "Cannot restore row_union token: no fork_group_id")
      | Some s, Some branch, Some g =>
          reject negb (bool_decide (branch ∈ us_branches s)) with E "Cannot restore branch into row_union" ;;
          let k := (re_row_union_name e, g) in
          let p := default (mkPending [] (re_arrival_time e)) (dict_get restored k) in
          reject dict_mem (pu_branches p) branch with E "Duplicate restored branch" ;;
          match re_state_id e with
          | None => Err (E "Cannot restore row_union token without an OPEN node state")
          | Some state_id =>
              let anchor := if t_ltb (re_arrival_time e) (pu_first_arrival p) then re_arrival_time e else pu_first_arrival p in
              rebuild_pending sts entries
                (dict_set restored k (mkPending (dict_set (pu_branches p) branch (mkBranch (re_token e) (re_arrival_time e) state_id)) anchor))
          end
      end
  end.

(** How the journal classifies a restored group: closed for a reason, lost, or open. *)
Inductive verdict := v_closed (reason : string) | v_lost | v_open.

Definition classify_restored (k : union_key) : act verdict :=
  closed ← already_closed k;
  x ← get_state;
  if (closed : bool) then
    match dict_get (completed_keys x) k with
    | Some reason => mret (v_closed reason)
    | None => raise (KeyError "_completed_keys")
    end
  else mret (if loss_known x k then v_lost else v_open).

Definition restore_from_journal (entries : list RowUnionRestoreEntry) : act (list RowUnionOutcome) :=
  x ← get_state;
  _ ← raise_if (match pending x with [] => false | _ => true end)
        (OrchestrationInvariantError "row_union restore requires an empty executor pending map");
  restored ← lift (rebuild_pending (settings x) entries []);
  verdicts ← for_each (fun k => v ← classify_restored k; mret (k, v)) restored.*1;
  _ ← modify (set_pending restored);
  closed ← for_each (fun kr => o ← fail_pending kr.1 (late_reason kr.2); _ ← mark_completed kr.1 kr.2; mret o)
             (omap (fun kv => match kv.2 with v_closed r => Some (kv.1, r) | _ => None end) verdicts);
  lost ← for_each (fun k => fail_pending k CLOSED_BY_BRANCH_LOSS)
           (omap (fun kv => match kv.2 with v_lost => Some kv.1 | _ => None end) verdicts);
  x ← get_state;
  released ← for_each (fun k =>
                 x ← get_state;
                 match dict_get (settings x) k.1, dict_get (pending x) k with
                 | None, _ => raise (KeyError "_settings")
                 | _, None => raise (KeyError "_pending")
                 | Some s, Some p =>
                     if same_branches (pu_branches p).*1 (us_branches s) then o ← execute_release s k p; mret [o] else mret []
                 end) (pending x).*1;
  mret (closed ++ lost ++ concat released).

(** [reconcile_released_group]: a release that was durable before a crash. *)
Fixpoint entries_by_branch (name g : string) (entries : list RowUnionRestoreEntry) (acc : list (string * RowUnionRestoreEntry))
  : res (list (string * RowUnionRestoreEntry)) :=
  match entries with
  | [] => Ok acc
  | e :: entries =>
      reject negb (re_row_union_name e == name) || negb (fork_group_id (re_token e) == Some g)
        with OrchestrationInvariantError "Row_union release reconciliation mixed group identities" ;;
      match branch_name (re_token e) with
      | Some b =>
          reject dict_mem acc b with OrchestrationInvariantError "Row_union release reconciliation has a missing or duplicate branch" ;;
          entries_by_branch name g entries (dict_set acc b e)
      | None => Err (OrchestrationInvariantError "Row_union release reconciliation has a missing or duplicate branch")
      end
  end.

Definition reconcile_released_group (entries : list RowUnionRestoreEntry) : act RowUnionOutcome :=
  let E := OrchestrationInvariantError in
  x ← get_state;
  match entries with
  | [] => raise (E "Cannot reconcile an empty row_union release")
  | e :: _ =>
  match fork_group_id (re_token e) with
  | None => raise (E "Cannot reconcile row_union token: no fork_group_id")
  | Some g =>
  match dict_get (settings x) (re_row_union_name e) with
  | None => raise (E "Cannot reconcile unknown row_union")
  | Some s =>
      let k := (re_row_union_name e, g) in
      _ ← raise_if (dict_mem (pending x) k || dict_mem (completed_keys x) k || bool_decide (k ∈ recorded_loss_groups x))
            (E "Cannot reconcile non-pristine row_union group");
      by_branch ← lift (entries_by_branch (re_row_union_name e) g entries []);
      _ ← raise_if (negb (same_branches by_branch.*1 (us_branches s))) (E "Row_union release reconciliation has other branches");
      _ ← for_each (fun be => match re_state_id be.2 with Some id => complete_node_state id COMPLETED | None => mret tt end) by_branch;
      tokens ← for_each (fun b => match dict_get by_branch b with Some e => mret (re_token e) | None => raise (KeyError "by_branch") end)
                 (us_branches s);
      released ← lift (pop_released_group tokens);
      _ ← mark_completed k CLOSED_BY_RELEASE;
      lift (union_outcome (mkUnionOutcome false released released None false false false))
  end end end.
End row_union.

Arguments RowUnionSettings : clear implicits.
Arguments BranchEntry : clear implicits.
Arguments PendingRowUnion : clear implicits.
Arguments RowUnionRestoreEntry : clear implicits.
Arguments union_executor : clear implicits.
