(* ===== verification/RowUnionTheory.v ===== *)
(** * RowUnionTheory: what the operations of a row union do

    The effect of each operation on the pending groups and the database, whether
    it returns or raises, and the invariant of the executor.  An operation that
    returns accounts for the tokens that came in and went out; one that raises
    may lose its report, but no held token goes without a finished node state. *)

From S2P Require Import Prelude Enums Contracts ContractFlow Lineage Triggers RowUnion.

(** ** Dictionaries as lists *)
Section dicts.
Context {K V : Type} `{EqDecision K}.
Implicit Types (d : list (K * V)).

Lemma dict_split d k v :
  dict_get d k = Some v -> exists l1 l2, d = l1 ++ (k, v) :: l2 /\ k ∉ l1.*1 /\
    dict_del d k = l1 ++ l2 /\ forall v', dict_set d k v' = l1 ++ (k, v') :: l2.
Proof.
  induction d as [|[k' w] d IH]; cbn; [done|]. case_bool_decide as Ek.
  - subst k'. intros [= ->]. exists [], d. split_and!; [done|by apply not_elem_of_nil|done|done].
  - intros (l1 & l2 & -> & Hn & Hd & Hs)%IH. exists ((k', w) :: l1), l2. split_and!; [done| |by rewrite Hd|].
    + cbn. apply not_elem_of_cons. done.
    + intros v'. by rewrite Hs.
Qed.

Lemma dict_set_set d k v v' : dict_set (dict_set d k v) k v' = dict_set d k v'.
Proof.
  induction d as [|[k1 v1] d IH]; cbn; [by rewrite bool_decide_eq_true_2|].
  case_bool_decide as E; cbn; [by rewrite bool_decide_eq_true_2|]. rewrite bool_decide_eq_false_2 by done. by rewrite IH.
Qed.

Lemma omap_dict_get {W} (h : V -> W) d : NoDup d.*1 -> omap (fun k => h <$> dict_get d k) d.*1 = map (fun kv => h kv.2) d.
Proof.
  intros Hn. assert (Hall : Forall (fun kv => dict_get d kv.1 = Some kv.2) d).
  { apply Forall_forall. intros [k v] Hkv. by apply dict_get_unique. }
  revert Hall. generalize d at 1 3. intros d'. induction d as [|kv d IH]; [done|]. intros [Hkv Hd]%Forall_cons.
  cbn. rewrite Hkv. cbn. f_equal. apply IH; [|done]. by apply NoDup_cons in Hn as [_ ?].
Qed.

Lemma omap_dict_perm {W} (h : V -> W) d ks :
  NoDup d.*1 -> NoDup ks -> (forall k, k ∈ ks <-> k ∈ d.*1) -> omap (fun k => h <$> dict_get d k) ks ≡ₚ map (fun kv => h kv.2) d.
Proof.
  intros Hd Hk Hks. rewrite <- omap_dict_get by done. apply omap_Permutation. by apply NoDup_Permutation.
Qed.
End dicts.

Section theory.
Context {T : Type} `{TimeScale T} (max_completed_keys : nat).
#[local] Notation union_executor := (union_executor T).
#[local] Notation act := (act (T := T)).
Implicit Types (x y z : union_executor) (k : union_key).

(** ** Sequencing *)
Lemma act_bind_ok {A B} (m : act A) (f : A -> act B) x z b :
  (m ≫= f) x = (z, Ok b) <-> exists a y, m x = (y, Ok a) /\ f a y = (z, Ok b).
Proof.
  unfold mbind, act_bind. destruct (m x) as [y [a|e]]; [|naive_solver]. split; [eauto|]. by intros (a' & y' & [= -> ->] & ?).
Qed.

(** ** How the database grows *)
Record db_le (d d' : audit_db) : Prop := {
  le_frames : token_frames d' = token_frames d;
  le_losses : group_losses d' = group_losses d;
  le_states i s : node_states d !! i = Some s ->
    exists s', node_states d' !! i = Some s' /\ ns_node_id s' = ns_node_id s /\ ns_token_id s' = ns_token_id s /\ (ns_status s <> OPEN -> ns_status s' <> OPEN);
}.

#[export] Instance db_le_preorder : PreOrder db_le.
Proof.
  split.
  - intros d. constructor; [done..|]. intros i s Hs. by exists s.
  - intros d1 d2 d3 [F1 L1 S1] [F2 L2 S2]. constructor; [congruence..|]. intros i s Hs. destruct (S1 i s Hs) as (s2 & Hs2 & ? & ? & ?).
    destruct (S2 i s2 Hs2) as (s3 & Hs3 & ? & ? & ?). exists s3. split_and!; [done|congruence..|auto].
Qed.

(** The configuration stays, and the database grows. *)
Record moves x y : Prop := { mv_settings : settings y = settings x; mv_nodes : node_ids y = node_ids x; mv_db : db_le (db x) (db y) }.

#[export] Instance moves_preorder : PreOrder moves.
Proof. split; [by constructor|]. intros x y z [] []. constructor; [congruence..|by etransitivity]. Qed.

(** The pending groups stay too. *)
Definition base x y : Prop := moves x y /\ pending y = pending x.

#[export] Instance base_preorder : PreOrder base.
Proof. split; [done|]. intros x y z [] []. split; [by etransitivity|congruence]. Qed.

(** An operation that leaves the pending groups, whatever its result. *)
Definition quiet {A} (m : act A) : Prop := forall x, base x (m x).1.

Lemma quiet_ok {A} (m : act A) x y a : quiet m -> m x = (y, a) -> base x y.
Proof. intros Hm E. specialize (Hm x). by rewrite E in Hm. Qed.

Lemma quiet_pure {A} (r : res A) : quiet (lift r).
Proof. by intros x. Qed.
Lemma quiet_ret {A} (a : A) : quiet (mret a).
Proof. by intros x. Qed.
Lemma quiet_raise {A} e : quiet (@raise T A e).
Proof. by intros x. Qed.
Lemma quiet_get : quiet get_state.
Proof. by intros x. Qed.

Lemma quiet_bind {A B} (m : act A) (f : A -> act B) : quiet m -> (forall a, quiet (f a)) -> quiet (m ≫= f).
Proof.
  intros Hm Hf x. unfold mbind, act_bind. specialize (Hm x). destruct (m x) as [y [a|e]]; [|done]. cbn in Hm. by etransitivity; [exact Hm|apply Hf].
Qed.

Lemma quiet_for_each {A B} (f : A -> act B) l : (forall a, quiet (f a)) -> quiet (for_each f l).
Proof. intros Hf. induction l as [|a l IH]; [apply quiet_ret|]. cbn. apply quiet_bind; [done|]. intros b. apply quiet_bind; [done|]. intros bs. apply quiet_ret. Qed.

Lemma quiet_write {A} (f : audit_db -> res (A * audit_db)) : (forall d a d', f d = Ok (a, d') -> db_le d d') -> quiet (write f).
Proof.
  intros Hf x. unfold write. assert (Hp : db_le (db x) (past_refusal (db x))) by (constructor; [done..|]; eauto).
  destruct (next_refusal (db x)); [by split; [constructor|]|]. destruct (f _) as [[a d']|e] eqn:E; (split; [constructor|]; [done..| |done]); [|done].
  cbn. etransitivity; [exact Hp|by eapply Hf].
Qed.

Lemma quiet_begin t node : quiet (begin_node_state t node).
Proof.
  apply quiet_write. intros d a d'. destruct (existsb _ _); [done|]. intros [= <- <-]. constructor; [done..|]. intros i s Hs.
  exists s. split; [|done]. cbn. by apply lookup_app_l_Some.
Qed.

Lemma quiet_complete i st : st <> OPEN -> quiet (complete_node_state i st).
Proof.
  intros Hst. apply quiet_write. intros d a d'. destruct (node_states d !! i) as [s|] eqn:E; [|done]. destruct (is_terminal _); [done|]. intros [= <- <-].
  constructor; [done..|]. intros j s' Hs'. cbn. destruct (decide (i = j)) as [<-|Hne].
  - rewrite E in Hs'. injection Hs' as <-. exists (with_status st s). rewrite list_lookup_insert_eq by (by eapply lookup_lt_Some). done.
  - exists s'. by rewrite list_lookup_insert_ne.
Qed.

Lemma quiet_failure t reason : quiet (record_failure t reason).
Proof. apply quiet_write. intros d a d'. destruct (existsb _ _); [done|]. intros [= <- <-]. constructor; [done..|]. eauto. Qed.

Lemma quiet_modify f : (forall x, base x (f x)) -> quiet (modify f).
Proof. intros Hf x. apply Hf. Qed.

Lemma quiet_mark k reason : quiet (mark_completed max_completed_keys k reason).
Proof. intros x. unfold mark_completed. by destruct (evict_closed _ _ _). Qed.

Lemma quiet_check k : quiet (check_landscape_for_completion max_completed_keys k).
Proof.
  apply quiet_bind; [apply quiet_get|]. intros x. destruct (dict_get (node_ids x) k.1); [|apply quiet_ret].
  destruct (negb _); [apply quiet_ret|]. apply quiet_bind; [apply quiet_mark|intros; apply quiet_ret].
Qed.

Lemma quiet_closed k : quiet (already_closed max_completed_keys k).
Proof. apply quiet_bind; [apply quiet_get|]. intros x. destruct (dict_mem _ k); [apply quiet_ret|apply quiet_check]. Qed.

Lemma quiet_raise_if b e : quiet (@raise_if T b e).
Proof. destruct b; [apply quiet_raise|apply quiet_ret]. Qed.

Lemma quiet_late t node k reason : quiet (fail_late_arrival t node k reason).
Proof.
  apply quiet_bind; [apply quiet_get|]. intros x. apply quiet_bind; [by apply quiet_modify|]. intros _. apply quiet_bind; [apply quiet_begin|].
  intros i. apply quiet_bind; [by apply quiet_complete|]. intros _. apply quiet_bind; [apply quiet_failure|]. intros _. apply quiet_pure.
Qed.

Lemma quiet_remember name g b : quiet (remember_branch_loss max_completed_keys name g b).
Proof. by apply quiet_modify. Qed.

(** ** Finished states *)
Definition finished x (i : nat) : Prop := exists s, node_states (db x) !! i = Some s /\ ns_status s <> OPEN.

Lemma finished_moves x y i : moves x y -> finished x i -> finished y i.
Proof. intros [_ _ Hd] (s & Hs & Hn). destruct (le_states _ _ Hd i s Hs) as (s' & ? & _ & _ & ?). exists s'. auto. Qed.

Lemma complete_finishes i st x y u : st <> OPEN -> complete_node_state i st x = (y, Ok u) -> finished y i.
Proof.
  intros Hst. unfold complete_node_state, write. destruct (next_refusal (db x)); [done|]. destruct (node_states (past_refusal (db x)) !! i) as [s|] eqn:E; [|done].
  destruct (is_terminal _); [done|]. intros [= <- <-]. exists (with_status st s). cbn. rewrite list_lookup_insert_eq by (by eapply lookup_lt_Some). done.
Qed.

Lemma for_each_finishes {A B} (f : A -> act B) (id : A -> nat) l x y bs :
  (forall a, quiet (f a)) -> (forall a x y b, f a x = (y, Ok b) -> finished y (id a)) ->
  for_each f l x = (y, Ok bs) -> Forall (fun a => finished y (id a)) l.
Proof.
  intros Hq Hf. revert x bs. induction l as [|a l IH]; intros x bs; [constructor|]. cbn.
  intros (b & x1 & E1 & (bs' & x2 & E2 & [= -> <-])%act_bind_ok)%act_bind_ok. constructor; [|by eapply IH].
  apply Hf in E1. eapply finished_moves; [|exact E1]. eapply (quiet_ok (for_each f l)); [|exact E2]. by apply quiet_for_each.
Qed.

(** ** Closing a group *)
Definition entry_tokens (bs : list (string * BranchEntry T)) : list TokenInfo := map (fun be => be_token be.2) bs.

Definition failed_outcome (reason : string) (p : PendingRowUnion T) : RowUnionOutcome :=
  mkUnionOutcome false [] (entry_tokens (pu_branches p)) (Some reason) true false false.

(** A group is failed, or the operation raises with the group still pending. *)
Lemma fail_pending_cases k reason x :
  match fail_pending max_completed_keys k reason x with
  | (y, Ok o) => exists p, dict_get (pending x) k = Some p /\ o = failed_outcome reason p /\ moves x y /\ pending y = dict_del (pending x) k /\
      Forall (fun be => finished y (be_state_id be.2)) (pu_branches p)
  | (y, Err _) => base x y
  end.
Proof.
  unfold fail_pending at 1. unfold mbind at 1, act_bind at 1. cbn [get_state]. destruct (dict_get (pending x) k) as [p|] eqn:Ep; [|done].
  set (loop := fun be : string * BranchEntry T => _ ← complete_node_state (be_state_id be.2) FAILED; record_failure (be_token be.2) reason). assert (Hq : forall be, quiet (loop be)).
  { intros be. apply quiet_bind; [by apply quiet_complete|]. intros _. apply quiet_failure. }
  unfold mbind at 1, act_bind at 1. destruct (for_each loop (pu_branches p) x) as [x1 [us|e]] eqn:El.
  2:{ eapply quiet_ok; [|exact El]. by apply quiet_for_each. }
  assert (Hb : base x x1) by (eapply quiet_ok; [|exact El]; by apply quiet_for_each).
  apply (for_each_finishes loop (fun be => be_state_id be.2)) in El; [|done|].
  2:{ intros be z z' u (u' & z1 & Ec & Er)%act_bind_ok. apply complete_finishes in Ec; [|done]. eapply finished_moves; [|exact Ec].
      eapply (quiet_ok _ _ _ _ (quiet_failure _ _)), Er. }
  unfold mbind, act_bind. cbn [modify]. pose proof (quiet_mark k reason (set_pending (dict_del (pending x1) k) x1)) as Hm.
  unfold mark_completed in *. destruct (evict_closed _ _ _) as [c f]. cbn in Hm. exists p. destruct Hb as [Hmv Hp]. split_and!; [done|done| |by cbn; rewrite Hp|exact El].
  etransitivity; [exact Hmv|]. by constructor.
Qed.

(** A token that the constructor accepted. *)
Definition token_ok (t : TokenInfo) : Prop := token_info t = Ok t.

Definition popped (g : string) (t t' : TokenInfo) : Prop :=
  exists outer f inner, lineage_path t = outer ++ f :: inner /\ kind f = FORK /\ group_id f = g /\
    t' = mkToken (row_id t) (token_id t) (row_data t) (outer ++ inner) (resume_attempt_offset t) (resume_checkpoint_id t).

Lemma with_path_ok t path : token_ok t -> with_path t path = Ok (mkToken (row_id t) (token_id t) (row_data t) path (resume_attempt_offset t) (resume_checkpoint_id t)).
Proof. unfold token_ok, with_path, token_info. cbn. repeat (case_match; try done). Qed.

Lemma pop_released_ok g ts :
  ts <> [] -> Forall (fun t => fork_group_id t = Some g /\ token_ok t) ts ->
  exists ts', pop_released_group ts = Ok ts' /\ Forall2 (popped g) ts ts'.
Proof.
  intros Hne Hts. unfold pop_released_group.
  assert (mapM_res (fun t => match innermost_fork_frame (lineage_path t) with
                             | Some f => Ok (group_id f)
                             | None => Err (OrchestrationInvariantError "row_union release: token has no FORK frame to pop")
                             end) ts = Ok (map (fun _ => g) ts)) as ->.
  { apply mapM_res_ok, Forall2_fmap_r, Forall_Forall2_diag. eapply Forall_impl; [exact Hts|]. intros t [Hg _].
    unfold fork_group_id, path_fork_group_id in Hg. destruct (innermost_fork_frame (lineage_path t)); [|done]. by injection Hg as ->. }
  cbn [mbind res_bind].
  assert (remove_dups (map (fun _ => g) ts) = [g]) as ->.
  { clear Hts. destruct ts as [|t ts]; [done|]. clear Hne. revert t. induction ts as [|u ts IH]; intros t; [done|].
    cbn [map remove_dups] in *. destruct (decide_rel elem_of g (g :: map (fun _ => g) ts)) as [|Hn]; [apply (IH u)|]. destruct Hn. by left. }
  assert (exists ts', Forall2 (fun t t' => (path ← pop_fork_frame (lineage_path t) g; with_path t path) = Ok t' /\ popped g t t') ts ts') as [ts' H2].
  { clear Hne. induction Hts as [|t ts [Hg Hok] _ [ts' IH]]; [by exists []|]. destruct (fork_group_pops t g Hg) as [path Hp].
    pose proof Hp as (outer & f & inner & E & Hk & Hgf & -> & _)%pop_fork_frame_ok. eexists (_ :: ts'). constructor; [|done].
    rewrite Hp. cbn [mbind res_bind]. rewrite with_path_ok by done. split; [done|]. by exists outer, f, inner. }
  exists ts'. split; [apply mapM_res_ok|]; (eapply Forall2_impl; [exact H2|]); by intros ?? [? ?].
Qed.

Lemma same_branches_true a b : same_branches a b = true <-> forall n, n ∈ a <-> n ∈ b.
Proof.
  unfold same_branches. rewrite andb_true_iff, !forallb_forall. setoid_rewrite <- list_elem_of_In. setoid_rewrite bool_decide_eq_true. naive_solver.
Qed.

(** The tokens of a group in the declared order. *)
Definition in_order (s : RowUnionSettings T) (p : PendingRowUnion T) : list TokenInfo :=
  omap (fun b => be_token <$> dict_get (pu_branches p) b) (us_branches s).

Lemma pop_released_ids ts ts' : pop_released_group ts = Ok ts' -> map token_id ts' = map token_id ts.
Proof.
  unfold pop_released_group. intros (gs & _ & Hp)%bind_ok. destruct (remove_dups gs) as [|g [|??]]; [done| |done].
  apply mapM_res_ok in Hp. induction Hp as [|t t' ts ts' Ht _ IH]; [done|]. cbn. f_equal; [|done].
  apply bind_ok in Ht as (path & _ & Ht). unfold with_path, token_info in Ht. by repeat (case_match; try done); simplify_eq.
Qed.

Lemma in_order_complete s (p : PendingRowUnion T) :
  NoDup (us_branches s) -> NoDup (pu_branches p).*1 -> same_branches (pu_branches p).*1 (us_branches s) = true ->
  in_order s p ≡ₚ entry_tokens (pu_branches p).
Proof. intros Hs Hp Hsame. rewrite same_branches_true in Hsame. apply omap_dict_perm; [done..|]. intros b. by rewrite Hsame. Qed.

(** A group is released: all its states are finished and it is forgotten before
    its frames are popped. *)
Lemma execute_release_cases s k p x :
  match execute_release max_completed_keys s k p x with
  | (y, r) =>
      (base x y /\ exists e, r = Err e) \/
      (moves x y /\ pending y = dict_del (pending x) k /\
       Forall (fun b => exists e, dict_get (pu_branches p) b = Some e /\ finished y (be_state_id e)) (us_branches s) /\
       r = (ts ← pop_released_group (in_order s p); Ok (mkUnionOutcome false ts ts None false false false)))
  end.
Proof.
  unfold execute_release. set (loop := fun b : string => match dict_get (pu_branches p) b with None => raise (KeyError "branches") | Some e => _ ← complete_node_state (be_state_id e) COMPLETED; mret (be_token e) end). assert (Hq : forall b, quiet (loop b)).
  { intros b. unfold loop. destruct (dict_get _ b); [|apply quiet_raise]. apply quiet_bind; [by apply quiet_complete|]. intros _. apply quiet_ret. }
  assert (Hl : forall bs x y ts, for_each loop bs x = (y, Ok ts) ->
    ts = omap (fun b => be_token <$> dict_get (pu_branches p) b) bs /\
    Forall (fun b => exists e, dict_get (pu_branches p) b = Some e /\ finished y (be_state_id e)) bs).
  { clear x. intros bs. induction bs as [|b bs IH]; intros x y ts; [by intros [= <- <-]|]. cbn [for_each].
    intros (t & x1 & E1 & (ts' & x2 & E2 & [= -> <-])%act_bind_ok)%act_bind_ok. pose proof (IH _ _ _ E2) as [-> Hbs]. unfold loop in E1. cbn [omap list_omap].
    destruct (dict_get (pu_branches p) b) as [e|] eqn:Eb; [|done]. apply act_bind_ok in E1 as (u & x3 & Ec & [= -> <-]). cbn. split; [done|].
    constructor; [|done]. exists e. split; [done|]. apply complete_finishes in Ec; [|done]. eapply finished_moves; [|exact Ec].
    eapply (quiet_ok _ _ _ _ (quiet_for_each loop bs Hq)), E2. }
  unfold mbind at 1, act_bind at 1. destruct (for_each loop (us_branches s) x) as [x1 [ts|e]] eqn:El.
  2:{ left. split; [|eauto]. eapply quiet_ok; [|exact El]. by apply quiet_for_each. }
  assert (Hb : base x x1) by (eapply quiet_ok; [|exact El]; by apply quiet_for_each). destruct (Hl _ _ _ _ El) as [-> Hf]. destruct Hb as [Hmv Hp].
  unfold mbind, act_bind. cbn [modify]. unfold mark_completed. destruct (evict_closed _ _ _) as [c f]. fold (in_order s p). cbn [lift].
  destruct (pop_released_group (in_order s p)) as [ts|e]; cbn [mbind res_bind]; right.
  - split_and!; [|by cbn; rewrite Hp|exact Hf|by destruct ts]. etransitivity; [exact Hmv|]. by constructor.
  - split_and!; [|by cbn; rewrite Hp|exact Hf|done]. etransitivity; [exact Hmv|]. by constructor.
Qed.

(** ** The invariant *)
Definition held_tokens x : list TokenInfo := flat_map (fun kp => entry_tokens (pu_branches kp.2)) (pending x).
Definition branches_of x k : list (string * BranchEntry T) := default [] (pu_branches <$> dict_get (pending x) k).

(** The groups of a token's path are among those of its recorded frames. *)
Definition recorded x (t : TokenInfo) : Prop :=
  exists frames, token_frames (db x) !! token_id t = Some frames /\ map group_id (lineage_path t) ⊆ map group_id frames.

(** State [i] is one of the token at the union's node. *)
Definition state_of x (name : string) (t : TokenInfo) (i : nat) : Prop :=
  exists node_id s, dict_get (node_ids x) name = Some node_id /\ node_states (db x) !! i = Some s /\ ns_node_id s = node_id /\ ns_token_id s = token_id t.

(** An entry of a group: its token belongs to the branch and the group, and has a
    node state at the union's node. *)
Definition entry_ok x k (be : string * BranchEntry T) : Prop :=
  branch_name (be_token be.2) = Some be.1 /\ fork_group_id (be_token be.2) = Some k.2 /\ token_ok (be_token be.2) /\ recorded x (be_token be.2) /\
  state_of x k.1 (be_token be.2) (be_state_id be.2).

Definition group_ok x k (p : PendingRowUnion T) : Prop :=
  exists s, dict_get (settings x) k.1 = Some s /\ NoDup (pu_branches p).*1 /\
    Forall (fun b => b ∈ us_branches s) (pu_branches p).*1 /\ Forall (entry_ok x k) (pu_branches p).

(** Declared branches are distinct, there are some, and no two unions share a
    node. *)
Definition config_ok x : Prop :=
  (forall n s, dict_get (settings x) n = Some s -> us_branches s <> [] /\ NoDup (us_branches s)) /\
  forall n n' node, dict_get (node_ids x) n = Some node -> dict_get (node_ids x) n' = Some node -> n = n'.

Definition groups_ok x (d : list (union_key * PendingRowUnion T)) : Prop :=
  NoDup d.*1 /\ forall k p, dict_get d k = Some p -> group_ok x k p.

Record inv x : Prop := { inv_config : config_ok x; inv_groups : groups_ok x (pending x) }.

Lemma recorded_moves x y t : moves x y -> recorded x t -> recorded y t.
Proof. intros [_ _ Hd] (fs & ? & ?). exists fs. by rewrite (le_frames _ _ Hd). Qed.

Lemma state_of_moves x y n t i : moves x y -> state_of x n t i -> state_of y n t i.
Proof.
  intros [_ En Hd] (node & s & ? & Hs & ? & ?). destruct (le_states _ _ Hd _ _ Hs) as (s' & ? & ? & ? & _). exists node, s'. rewrite En. split_and!; congruence.
Qed.

Lemma group_ok_moves x y k p : moves x y -> group_ok x k p -> group_ok y k p.
Proof.
  intros Hm (s & Hs & Hnd & Hb & He). exists s. rewrite (mv_settings _ _ Hm). split_and!; [done..|]. eapply Forall_impl; [exact He|].
  intros be (? & ? & ? & ? & ?). split_and!; [done..|by eapply recorded_moves|by eapply state_of_moves].
Qed.

Lemma groups_ok_moves x y d : moves x y -> groups_ok x d -> groups_ok y d.
Proof. intros Hm [Hn Hg]. split; [done|]. intros k p Hp. eapply group_ok_moves; [done|]. by apply Hg. Qed.

Lemma config_ok_moves x y : moves x y -> config_ok x -> config_ok y.
Proof. intros [Es En _]. unfold config_ok. by rewrite Es, En. Qed.

(** ** What an operation does to what is held

    Whatever its result: a held entry is still held, or its state is finished. *)
Definition kept x y : Prop := forall k be, be ∈ branches_of x k -> be ∈ branches_of y k \/ finished y (be_state_id be.2).

Record survives x y : Prop := { sv_inv : inv y; sv_moves : moves x y; sv_kept : kept x y }.

Lemma survives_refl x : inv x -> survives x x.
Proof. intros Hi. constructor; [done..|]. intros k be. by left. Qed.

Lemma survives_trans x y z : survives x y -> survives y z -> survives x z.
Proof.
  intros [_ M1 K1] [I2 M2 K2]. constructor; [done|by etransitivity|]. intros k be [H1|H1]%K1; [by apply K2|]. right. by eapply finished_moves.
Qed.

Lemma survives_base x y : inv x -> base x y -> survives x y.
Proof.
  intros [Hc Hg] [Hm Hp]. constructor; [constructor|done|].
  - by eapply config_ok_moves.
  - rewrite Hp. by eapply groups_ok_moves.
  - intros k be. unfold branches_of. rewrite Hp. by left.
Qed.

Lemma groups_ok_del x d k : groups_ok x d -> groups_ok x (dict_del d k).
Proof.
  intros [Hn Hg]. split; [by apply dict_del_nodup|]. intros k' p'. rewrite dict_get_del by done. case_bool_decide; [done|]. apply Hg.
Qed.

Lemma groups_ok_set x d k p : groups_ok x d -> group_ok x k p -> groups_ok x (dict_set d k p).
Proof. intros [Hn Hg] Hp. split; [by apply dict_set_nodup|]. intros k' p'. rewrite dict_get_set. case_bool_decide; [by intros [= <-]; subst|]. apply Hg. Qed.

Lemma survives_del x y k :
  inv x -> moves x y -> pending y = dict_del (pending x) k -> Forall (fun be => finished y (be_state_id be.2)) (branches_of x k) -> survives x y.
Proof.
  intros [Hc Hg] Hm Hp Hf. constructor; [constructor|done|].
  - by eapply config_ok_moves.
  - rewrite Hp. by eapply groups_ok_del, groups_ok_moves.
  - intros k' be Hbe. unfold branches_of at 1. rewrite Hp, dict_get_del by apply Hg. case_bool_decide as E; [|by left].
    subst k'. right. rewrite Forall_forall in Hf. by apply Hf.
Qed.

Lemma survives_set x y k p :
  inv x -> moves x y -> pending y = dict_set (pending x) k p -> group_ok y k p -> branches_of x k ⊆ pu_branches p -> survives x y.
Proof.
  intros [Hc Hg] Hm Hp Hgo Hsub. constructor; [constructor|done|].
  - by eapply config_ok_moves.
  - rewrite Hp. eapply groups_ok_set; [by eapply groups_ok_moves|done].
  - intros k' be Hbe. left. unfold branches_of in *. rewrite Hp, dict_get_set. case_bool_decide as E; [|done]. subst k'. by apply Hsub.
Qed.

(** An operation that returns: the tokens that came in, and those that left. *)
Record step x y (added removed : list string) : Prop := {
  st_survives : survives x y;
  st_tokens : map token_id (held_tokens x) ++ added ≡ₚ map token_id (held_tokens y) ++ removed;
}.

Lemma step_trans x y z a a' r r' : step x y a r -> step y z a' r' -> step x z (a ++ a') (r ++ r').
Proof.
  intros [S1 P1] [S2 P2]. constructor; [by eapply survives_trans|].
  rewrite app_assoc, P1, <- app_assoc, (Permutation_app_comm r), app_assoc, P2, <- app_assoc. by rewrite (Permutation_app_comm r').
Qed.

Lemma step_base x y l : inv x -> base x y -> step x y l l.
Proof. intros Hi Hb. constructor; [by apply survives_base|]. unfold held_tokens. by rewrite (proj2 Hb). Qed.

(** *** A group that goes *)
Lemma held_del x y k p :
  dict_get (pending x) k = Some p -> pending y = dict_del (pending x) k -> held_tokens x ≡ₚ entry_tokens (pu_branches p) ++ held_tokens y.
Proof.
  intros Hp Hy. destruct (dict_split _ _ _ Hp) as (l1 & l2 & E & _ & Edel & _). unfold held_tokens. rewrite Hy, Edel, E, !flat_map_app. cbn.
  by rewrite Permutation_app_swap_app.
Qed.

Lemma fail_pending_step k reason x :
  inv x ->
  match fail_pending max_completed_keys k reason x with
  | (y, Ok o) => step x y [] (map token_id (o_consumed_tokens o)) /\ o_released_tokens o = [] /\ pending y = dict_del (pending x) k
  | (y, Err _) => survives x y
  end.
Proof.
  intros Hi. pose proof (fail_pending_cases k reason x) as Hc. destruct (fail_pending _ k reason x) as [y [o|e]]; [|by apply survives_base].
  destruct Hc as (p & Hp & -> & Hm & Hd & Hf). split_and!; [|done..]. constructor.
  - apply (survives_del x y k); [done..|]. unfold branches_of. by rewrite Hp.
  - rewrite app_nil_r. cbn. rewrite (held_del x y k p Hp Hd), map_app. apply Permutation_app_comm.
Qed.

(** ** Groups that were closed *)

(** What the database says of a group: a finished state at the union's node, or
    a durable loss. *)
Definition group_closed x k : bool :=
  match dict_get (node_ids x) k.1 with Some node_id => has_completed_group_for_node (db x) node_id k.2 | None => false end
  || has_group_loss (db x) k.

Lemma has_completed_iff d node g :
  has_completed_group_for_node d node g = true <->
  exists i s, node_states d !! i = Some s /\ at_node d node g s = true /\ ns_status s <> OPEN.
Proof.
  unfold has_completed_group_for_node. rewrite existsb_exists. split.
  - intros (s & (i & Hi)%list_elem_of_In%list_elem_of_lookup & [Hn Hs]%andb_true_iff). exists i, s. split_and!; [done..|].
    by case_bool_decide.
  - intros (i & s & Hi & Hn & Hs). exists s. split; [by apply list_elem_of_In, list_elem_of_lookup; exists i|]. rewrite Hn. by case_bool_decide.
Qed.

(** Once closed, always closed. *)
Lemma closed_moves x y k : moves x y -> group_closed x k = true -> group_closed y k = true.
Proof.
  intros [_ En Hd]. unfold group_closed, has_group_loss. rewrite En, (le_losses _ _ Hd), !orb_true_iff. intros [Hc|Hc]; [left|by right].
  destruct (dict_get (node_ids x) k.1) as [node|]; [|done]. apply has_completed_iff in Hc as (i & s & Hs & Hat & Hop). apply has_completed_iff.
  destruct (le_states _ _ Hd i s Hs) as (s' & Hs' & En' & Et & Hop'). exists i, s'. split_and!; [done| |auto]. revert Hat. unfold at_node.
  by rewrite En', Et, (le_frames _ _ Hd).
Qed.

Lemma fork_group_elem t g : fork_group_id t = Some g -> g ∈ map group_id (lineage_path t).
Proof.
  intros (path & (outer & f & inner & -> & _ & <- & _)%pop_fork_frame_ok)%fork_group_pops. rewrite map_app, elem_of_app. right. by left.
Qed.

(** A finished state of a member closes its group. *)
Lemma finished_closes x k be : entry_ok x k be -> finished x (be_state_id be.2) -> group_closed x k = true.
Proof.
  intros (_ & Hg & _ & (fs & Hfs & Hsub) & (node & s & Hn & Hs & En & Et)) (s' & Hs' & Hop). rewrite Hs in Hs'. injection Hs' as <-.
  unfold group_closed. rewrite Hn. apply orb_true_iff. left. apply has_completed_iff. exists (be_state_id be.2), s. split_and!; [done| |done].
  unfold at_node. rewrite En, Et, Hfs, !bool_decide_eq_true_2; [done| |done]. by apply Hsub, fork_group_elem.
Qed.

(** *** A release *)

(** The outcome releases one of [ts] for each declared branch of the group, with
    the group's frame popped. *)
Definition releases (ts : list TokenInfo) (s : RowUnionSettings T) k (o : RowUnionOutcome) : Prop :=
  o_consumed_tokens o = o_released_tokens o /\ o_failure_reason o = None /\
  Forall2 (fun b t' => exists t0, t0 ∈ ts /\ branch_name t0 = Some b /\ fork_group_id t0 = Some k.2 /\ popped k.2 t0 t') (us_branches s) (o_released_tokens o).

Lemma releases_subset ts ts' s k o : ts ⊆ ts' -> releases ts s k o -> releases ts' s k o.
Proof. intros Hsub (? & ? & HF). split_and!; [done..|]. eapply Forall2_impl; [exact HF|]. intros b t' (t0 & ? & ?). exists t0. auto. Qed.

Lemma in_order_branches s k (p : PendingRowUnion T) x :
  Forall (entry_ok x k) (pu_branches p) -> Forall (fun b => b ∈ (pu_branches p).*1) (us_branches s) ->
  Forall2 (fun b t0 => t0 ∈ entry_tokens (pu_branches p) /\ branch_name t0 = Some b /\ fork_group_id t0 = Some k.2 /\ token_ok t0) (us_branches s) (in_order s p).
Proof.
  intros He Hb. unfold in_order. induction Hb as [|b bs Hb _ IH]; [constructor|]. cbn [omap list_omap].
  apply dict_mem_keys in Hb. unfold dict_mem in Hb. destruct (dict_get (pu_branches p) b) as [e|] eqn:Ee; [|done]. constructor; [|done].
  apply dict_get_elem in Ee. rewrite Forall_forall in He. destruct (He _ Ee) as (Hbr & Hg & Hok & _). split_and!; [|done..].
  apply list_elem_of_fmap. by exists (b, e).
Qed.

Lemma release_step s k p x :
  inv x -> dict_get (pending x) k = Some p -> dict_get (settings x) k.1 = Some s -> same_branches (pu_branches p).*1 (us_branches s) = true ->
  match execute_release max_completed_keys s k p x with
  | (y, Ok o) => step x y [] (map token_id (o_consumed_tokens o)) /\ group_closed y k = true /\ releases (entry_tokens (pu_branches p)) s k o /\
      pending y = dict_del (pending x) k
  | (y, Err _) => survives x y
  end.
Proof.
  intros Hi Hp Hs Hsame. destruct (proj2 (inv_groups _ Hi) k p Hp) as (s' & Hs' & Hnd & _ & He). rewrite Hs in Hs'. injection Hs' as <-.
  destruct (proj1 (inv_config _ Hi) _ _ Hs) as [Hne Hns]. pose proof (in_order_complete s p Hns Hnd Hsame) as Hperm.
  pose proof Hsame as Hkeys. rewrite same_branches_true in Hkeys.
  assert (Hmem : Forall (fun b => b ∈ (pu_branches p).*1) (us_branches s)) by (apply Forall_forall; intros b Hb; by apply Hkeys).
  pose proof (in_order_branches s k p x He Hmem) as Hio.
  assert (Hin : in_order s p <> []) by (intros E; rewrite E in Hio; apply Forall2_nil_inv_r in Hio; done).
  destruct (pop_released_ok k.2 (in_order s p) Hin) as (ts & Ets & Hpop).
  { clear -Hio. induction Hio as [|b t bs ts (_ & _ & ? & ?) _ IH]; by constructor. }
  pose proof (execute_release_cases s k p x) as Hc. destruct (execute_release _ s k p x) as [y r].
  destruct Hc as [[Hb [e ->]]|(Hm & Hd & Hf & ->)]; [by apply survives_base|]. rewrite Ets. cbn [mbind res_bind].
  assert (Hfin : Forall (fun be => finished y (be_state_id be.2)) (pu_branches p)).
  { apply Forall_forall. intros [b e] Hbe. rewrite Forall_forall in Hf. destruct (Hf b) as (e' & He' & Hfe).
    - apply Hkeys. by apply (list_elem_of_fmap_2 fst) in Hbe.
    - apply dict_get_unique in Hbe; [|done]. rewrite Hbe in He'. by injection He' as <-. }
  split_and!; [constructor| | |done].
  - apply (survives_del x y k); [done..|]. unfold branches_of. by rewrite Hp.
  - rewrite app_nil_r. cbn. rewrite (pop_released_ids _ _ Ets), Hperm, (held_del x y k p Hp Hd), map_app. apply Permutation_app_comm.
  - destruct (pu_branches p) as [|be bs] eqn:Eb.
    { destruct (us_branches s) as [|b bs]; [done|]. apply Forall_cons in Hmem as [Hb _]. by apply not_elem_of_nil in Hb. }
    apply Forall_cons in He as [He _]. apply Forall_cons in Hfin as [Hfin _]. apply (finished_closes y k be); [|done].
    destruct He as (? & ? & ? & ? & ?). split_and!; [done..|by eapply recorded_moves|by eapply state_of_moves].
  - split_and!; [done..|]. cbn. clear -Hio Hpop. revert Hio. generalize (us_branches s). induction Hpop as [|t0 t' l l' Hpop _ IH]; intros bl Hio.
    + apply Forall2_nil_inv_r in Hio as ->. constructor.
    + apply Forall2_cons_inv_r in Hio as (b & bl' & (? & ? & ? & _) & Hio & ->). constructor; [by exists t0|by apply IH].
Qed.

(** *** A token that is held *)
Lemma flat_map_dict_set {B} (h : list (string * BranchEntry T) -> list B) x k p extra :
  h [] = [] -> h (pu_branches p) = h (branches_of x k) ++ extra ->
  flat_map (fun kp => h (pu_branches kp.2)) (dict_set (pending x) k p) ≡ₚ flat_map (fun kp => h (pu_branches kp.2)) (pending x) ++ extra.
Proof.
  intros Hnil Hp. unfold branches_of in Hp. destruct (dict_get (pending x) k) as [p0|] eqn:E; cbn in Hp.
  - destruct (dict_split _ _ _ E) as (l1 & l2 & El & _ & _ & Es). rewrite Es, El, !flat_map_app. cbn. rewrite Hp, <- !app_assoc.
    by rewrite (Permutation_app_comm extra).
  - rewrite dict_set_new by done. rewrite flat_map_app. cbn. by rewrite app_nil_r, Hp, Hnil.
Qed.

Lemma group_ok_branches x k s :
  inv x -> dict_get (settings x) k.1 = Some s ->
  NoDup (branches_of x k).*1 /\ Forall (fun b => b ∈ us_branches s) (branches_of x k).*1 /\ Forall (entry_ok x k) (branches_of x k).
Proof.
  intros Hi Hs. unfold branches_of. destruct (dict_get (pending x) k) as [p|] eqn:Ep; [|split_and!; cbn; constructor].
  destruct (proj2 (inv_groups _ Hi) k p Ep) as (s' & Hs' & ? & ? & ?). rewrite Hs in Hs'. by injection Hs' as <-.
Qed.

(** The group without the new token: an arrival that was refused may leave it. *)
Lemma survives_shell x y k s p :
  inv x -> moves x y -> dict_get (settings x) k.1 = Some s -> pu_branches p = branches_of x k -> pending y = dict_set (pending x) k p -> survives x y.
Proof.
  intros Hi Hm Hs Eb Hp. destruct (group_ok_branches x k s Hi Hs) as (? & ? & ?). apply (survives_set x y k p); [done..| |by rewrite Eb].
  apply (group_ok_moves x); [done|]. exists s. by rewrite Eb.
Qed.

Lemma step_hold x y k s branch t now i anchor :
  inv x -> moves x y -> dict_get (settings x) k.1 = Some s -> branch ∈ us_branches s -> branch_name t = Some branch -> fork_group_id t = Some k.2 ->
  token_ok t -> recorded x t -> state_of y k.1 t i -> dict_get (branches_of x k) branch = None ->
  pending y = dict_set (pending x) k (mkPending (dict_set (branches_of x k) branch (mkBranch t now i)) anchor) -> step x y [token_id t] [].
Proof.
  intros Hi Hm Hs Hb Hbr Hg Hok Hrec Hst Hnew Hp. destruct (group_ok_branches x k s Hi Hs) as (Hnd & Hin & He). constructor.
  - eapply (survives_set x y k); [done..|exact Hp| |].
    + exists s. rewrite (mv_settings _ _ Hm). cbn [pu_branches]. rewrite dict_set_new by done. split_and!; [done| | |].
      * rewrite <- (dict_set_new _ _ _ Hnew). by apply dict_set_nodup.
      * rewrite fmap_app. apply Forall_app. split; [done|]. by apply Forall_singleton.
      * apply Forall_app. split.
        -- eapply Forall_impl; [exact He|]. intros be (? & ? & ? & ? & ?). split_and!; [done..|by eapply recorded_moves|by eapply state_of_moves].
        -- apply Forall_singleton. split_and!; [done..|by eapply recorded_moves|done].
    + cbn [pu_branches]. rewrite dict_set_new by done. set_solver.
  - rewrite app_nil_r. unfold held_tokens. rewrite Hp.
    rewrite (flat_map_dict_set entry_tokens x k _ [t]); [by rewrite map_app|done|]. cbn [pu_branches]. rewrite dict_set_new by done.
    unfold entry_tokens. by rewrite map_app.
Qed.

(** ** Arrivals *)
Lemma already_closed_run k x :
  exists y b, already_closed max_completed_keys k x = (y, Ok b) /\ base x y /\ (b = false -> y = x) /\
    (b = false <-> dict_mem (completed_keys x) k = false /\
       match dict_get (node_ids x) k.1 with Some node_id => has_completed_group_for_node (db x) node_id k.2 | None => false end = false).
Proof.
  pose proof (quiet_closed k x) as Hq. destruct (already_closed max_completed_keys k x) as [y r] eqn:E. cbn in Hq. revert E.
  unfold already_closed, check_landscape_for_completion, get_state, mbind, act_bind. destruct (dict_mem (completed_keys x) k) eqn:Em.
  { intros [= <- <-]. exists x, true. naive_solver. }
  destruct (dict_get (node_ids x) k.1) as [node|] eqn:En; [|intros [= <- <-]; exists x, false; naive_solver].
  destruct (has_completed_group_for_node (db x) node k.2) eqn:Eh; cbn [negb]; [|intros [= <- <-]; exists x, false; naive_solver].
  unfold mark_completed. destruct (evict_closed _ _ _) as [c f]. intros [= <- <-]. eexists _, true. split; [done|]. naive_solver.
Qed.

Lemma late_ok t node k reason x y o : fail_late_arrival t node k reason x = (y, Ok o) -> o_consumed_tokens o = [t] /\ o_released_tokens o = [].
Proof.
  unfold fail_late_arrival. intros (x0 & y0 & [= <- <-] & (u & y1 & _ & (i & y2 & _ & (u2 & y3 & _ & (u3 & y4 & _ & Ho)%act_bind_ok)%act_bind_ok)%act_bind_ok)%act_bind_ok)%act_bind_ok.
  unfold lift, union_outcome in Ho. cbn in Ho. rewrite andb_false_r in Ho. by simplify_eq.
Qed.

Lemma begin_ok t node x y i :
  begin_node_state t node x = (y, Ok i) -> node_states (db y) !! i = Some (mkState node (token_id t) (resume_attempt_offset t) OPEN).
Proof.
  unfold begin_node_state, write. destruct (next_refusal (db x)); [done|]. destruct (existsb _ _); [done|]. intros [= <- <-]. cbn. by rewrite list_lookup_middle.
Qed.

Lemma late_step t node k reason x y :
  inv x -> base x y ->
  match fail_late_arrival t node k reason y with
  | (z, Ok o) => step x z [token_id t] (map token_id (o_consumed_tokens o)) /\ o_released_tokens o = []
  | (z, Err _) => survives x z
  end.
Proof.
  intros Hi Hb. pose proof (quiet_late t node k reason y) as Hq. destruct (fail_late_arrival t node k reason y) as [z [o|e]] eqn:E; cbn in Hq.
  - apply late_ok in E as [-> ->]. split; [|done]. apply step_base; [done|by etransitivity].
  - apply survives_base; [done|by etransitivity].
Qed.

(** Where an arrival goes on when its group is open. *)
Definition arrive (s : RowUnionSettings T) (t : TokenInfo) (name g branch node_id : string) (now : T) (p : PendingRowUnion T) : act RowUnionOutcome :=
  _ ← modify (fun x => set_pending (dict_set (pending x) (name, g) p) x);
  _ ← raise_if (dict_mem (pu_branches p) branch) (OrchestrationInvariantError "Duplicate arrival for branch");
  state_id ← begin_node_state t node_id;
  let p := mkPending (dict_set (pu_branches p) branch (mkBranch t now state_id)) (pu_first_arrival p) in
  _ ← modify (fun x => set_pending (dict_set (pending x) (name, g) p) x);
  if same_branches (pu_branches p).*1 (us_branches s) then execute_release max_completed_keys s (name, g) p
  else lift (union_outcome (mkUnionOutcome true [] [] None false false false)).

Lemma arrive_step s t name g branch node now p x :
  inv x -> dict_get (settings x) name = Some s -> dict_get (node_ids x) name = Some node -> branch ∈ us_branches s ->
  branch_name t = Some branch -> fork_group_id t = Some g -> token_ok t -> recorded x t -> pu_branches p = branches_of x (name, g) ->
  match arrive s t name g branch node now p x with
  | (y, Ok o) => step x y [token_id t] (map token_id (o_consumed_tokens o)) /\ (o_released_tokens o <> [] ->
      group_closed y (name, g) = true /\ releases (t :: entry_tokens (branches_of x (name, g))) s (name, g) o /\ dict_get (pending y) (name, g) = None)
  | (y, Err _) => survives x y
  end.
Proof.
  intros Hi Hs Hn Hb Hbr Hg Hok Hrec Ep. unfold arrive, mbind, act_bind. cbn [modify]. set (x1 := set_pending _ x).
  assert (Hm1 : moves x x1) by (by constructor). destruct (dict_mem (pu_branches p) branch) eqn:Ed; cbn [raise_if raise mret act_ret].
  { by apply (survives_shell x x1 (name, g) s p). }
  pose proof (quiet_begin t node x1) as Hq. destruct (begin_node_state t node x1) as [x2 [i|e]] eqn:E; cbn in Hq; destruct Hq as [Hm2 Hp2].
  2:{ apply (survives_shell x x2 (name, g) s p); [done| |done..]. by etransitivity. }
  set (p2 := mkPending _ _). set (x3 := set_pending (dict_set (pending x2) (name, g) p2) x2).
  assert (Hm3 : moves x x3) by (etransitivity; [exact Hm1|]; etransitivity; [exact Hm2|by constructor]).
  assert (Hp3 : pending x3 = dict_set (pending x) (name, g) p2) by (cbn; rewrite Hp2; cbn; by rewrite dict_set_set).
  assert (Hnew : dict_get (branches_of x (name, g)) branch = None).
  { rewrite <- Ep. unfold dict_mem in Ed. by destruct (dict_get (pu_branches p) branch). }
  assert (Hst : step x x3 [token_id t] []).
  { eapply (step_hold x x3 (name, g) s branch t now i); [done..| |done|].
    - eexists node, _. split_and!; [by rewrite (mv_nodes _ _ Hm3)|by apply (begin_ok _ _ _ _ _ E)|done|done].
    - unfold p2 in Hp3. rewrite Ep in Hp3. exact Hp3. }
  destruct (same_branches (pu_branches p2).*1 (us_branches s)) eqn:Esame; [|by split].
  pose proof (release_step s (name, g) p2 x3 (sv_inv _ _ (st_survives _ _ _ _ Hst))) as Hrel.
  destruct (execute_release _ s (name, g) p2 x3) as [y [o|e]].
  - destruct Hrel as (Hst2 & Hcl & Hre & Hpy); [by rewrite Hp3, dict_get_set, bool_decide_eq_true_2|by rewrite (mv_settings _ _ Hm3)|done|].
    split; [by apply (step_trans x x3 y [token_id t] [] [])|]. intros _. split_and!; [done| |].
    + eapply releases_subset; [|exact Hre]. unfold p2. cbn [pu_branches]. rewrite Ep, dict_set_new by done. unfold entry_tokens. rewrite map_app. set_solver.
    + rewrite Hpy, dict_get_del by apply (sv_inv _ _ (st_survives _ _ _ _ Hst)). by rewrite bool_decide_eq_true_2.
  - eapply survives_trans; [apply Hst|]. apply Hrel; [by rewrite Hp3, dict_get_set, bool_decide_eq_true_2|by rewrite (mv_settings _ _ Hm3)|done].
Qed.

Lemma accept_step t name now x :
  inv x -> token_ok t -> recorded x t ->
  match accept max_completed_keys t name now x with
  | (y, Ok o) => step x y [token_id t] (map token_id (o_consumed_tokens o)) /\ (o_released_tokens o <> [] ->
      exists s g, dict_get (settings x) name = Some s /\ fork_group_id t = Some g /\ group_closed x (name, g) = false /\ group_closed y (name, g) = true /\
        releases (t :: entry_tokens (branches_of x (name, g))) s (name, g) o /\ dict_get (pending y) (name, g) = None)
  | (y, Err _) => survives x y
  end.
Proof.
  intros Hi Hok Hrec. pose proof (survives_refl x Hi) as Hx. unfold accept, get_state, mbind, act_bind.
  destruct (dict_get (settings x) name) as [s|] eqn:Es; [|done].
  destruct (branch_name t) as [branch|] eqn:Eb; [|done]. destruct (dict_get (node_ids x) name) as [node|] eqn:En; [|done].
  unfold raise_if at 1. case_bool_decide as Hb; cbn [negb]; [|done]. cbn [mret act_ret].
  destruct (fork_group_id t) as [g|] eqn:Eg; [|done].
  destruct (already_closed_run (name, g) x) as (x1 & b & -> & Hbase & Heq & Hb'). destruct b.
  { destruct (dict_get (completed_keys x1) (name, g)) as [reason|]; [|by apply survives_base].
    pose proof (late_step t node (name, g) reason x x1 Hi Hbase) as Hl. destruct (fail_late_arrival _ _ _ _ _) as [y [o|e]]; [|done].
    destruct Hl as [? ->]. by split. }
  rewrite (Heq eq_refl). clear x1 Hbase Heq. destruct (loss_known x (name, g)) eqn:El.
  { pose proof (quiet_mark (name, g) CLOSED_BY_BRANCH_LOSS x) as Hq.
    destruct (mark_completed _ _ _ x) as [x1 [u|e]]; cbn in Hq; [|by apply survives_base].
    pose proof (late_step t node (name, g) CLOSED_BY_BRANCH_LOSS x x1 Hi Hq) as Hl. destruct (fail_late_arrival _ _ _ _ _) as [y [o|e]]; [|done].
    destruct Hl as [? ->]. by split. }
  set (p := if t_ltb now _ then _ else _). assert (Ep : pu_branches p = branches_of x (name, g)).
  { unfold p, branches_of. by destruct (dict_get (pending x) (name, g)); cbn; destruct (t_ltb _ _). }
  pose proof (arrive_step s t name g branch node now p x Hi Es En Hb Eb Eg Hok Hrec Ep) as Ha.
  match goal with |- match ?m with _ => _ end => change m with (arrive s t name g branch node now p x) end. destruct (arrive s t name g branch node now p x) as [y [o|e]]; [|done]. destruct Ha as [Hst Hr]. split; [done|].
  intros Hne. exists s, g. destruct (Hr Hne) as (? & ? & ?). split_and!; try done. unfold group_closed. cbn [fst snd]. rewrite En.
  destruct (proj1 Hb' eq_refl) as [_ Hnc]. cbn [fst snd] in Hnc. rewrite En in Hnc. rewrite Hnc. cbn. by apply orb_false_iff in El as [_ ->].
Qed.
End theory.
