(* ===== verification/RowUnionHistory.v ===== *)
(** * RowUnionHistory: row unions over whole runs

    Sequences of arrivals, losses, timeouts, flushes, restores and reconciled
    releases, over a database that may refuse any write, from an executor that
    holds nothing: no token is lost or counted twice, a closed group is released
    again by a reconciliation only, a release is whole, and a flush whose writes
    are not refused leaves nothing pending.  Then the restore: an executor that is rebuilt from the journal of
    what was held holds the same. *)

From S2P Require Import Prelude Enums Contracts ContractFlow Lineage Triggers RowUnion RowUnionTheory.
Open Scope Z_scope.

Section history.
Context {T : Type} `{TimeScale T} (max_completed_keys : nat).
#[local] Notation union_executor := (union_executor T).
#[local] Notation act := (act (T := T)).
Implicit Types (x y : union_executor) (k : union_key).

(** ** Loops *)
Definition consumed (os : list RowUnionOutcome) : list TokenInfo := flat_map o_consumed_tokens os.

Lemma step_perm x y l l' : inv x -> base x y -> l ≡ₚ l' -> step x y l l'.
Proof. intros Hi Hb Hl. destruct (step_base x y l Hi Hb) as [Hs Ht]. constructor; [done|]. by rewrite Ht, Hl. Qed.

(** A loop that fails one group after another. *)
Lemma fail_loop {A} (f : A -> act RowUnionOutcome) (key : A -> union_key) l x :
  (forall a y, inv y -> match f a y with
                        | (z, Ok o) => step y z [] (map token_id (o_consumed_tokens o)) /\ o_released_tokens o = [] /\ pending z = dict_del (pending y) (key a)
                        | (z, Err _) => survives y z
                        end) ->
  inv x ->
  match for_each f l x with
  | (y, Ok os) => step x y [] (map token_id (consumed os)) /\ Forall (fun o => o_released_tokens o = []) os /\
      forall k p, dict_get (pending y) k = Some p -> dict_get (pending x) k = Some p /\ k ∉ map key l
  | (y, Err _) => survives x y
  end.
Proof.
  intros Hf. revert x. induction l as [|a l IH]; intros x Hi.
  { split_and!; [by apply step_base|constructor|]. intros k p Hp. split; [done|apply not_elem_of_nil]. }
  cbn [for_each]. unfold mbind, act_bind. specialize (Hf a x Hi). destruct (f a x) as [x1 [o|e]]; [|done]. destruct Hf as (Hst & Hr & Hd).
  pose proof (sv_inv _ _ (st_survives _ _ _ _ Hst)) as Hi1. specialize (IH x1 Hi1). destruct (for_each f l x1) as [y [os|e]].
  2:{ by eapply survives_trans; [apply Hst|]. }
  destruct IH as (Hst' & Hrs & Hk). split_and!; [|by constructor|].
  - cbn [consumed flat_map]. rewrite map_app. by apply (step_trans x x1 y [] []).
  - intros k p Hp%Hk. rewrite Hd, dict_get_del in Hp by apply Hi. destruct Hp as [Hp Hn]. case_bool_decide as E; [done|]. split; [done|].
    cbn. apply not_elem_of_cons. done.
Qed.

Lemma fail_all reason ks x :
  inv x ->
  match for_each (fun k => fail_pending max_completed_keys k reason) ks x with
  | (y, Ok os) => step x y [] (map token_id (consumed os)) /\ Forall (fun o => o_released_tokens o = []) os /\
      forall k p, dict_get (pending y) k = Some p -> dict_get (pending x) k = Some p /\ k ∉ ks
  | (y, Err _) => survives x y
  end.
Proof.
  intros Hi. pose proof (fail_loop (fun k => fail_pending max_completed_keys k reason) id ks x) as Hl. rewrite map_id in Hl. apply Hl; [|done].
  intros k y Hy. apply (fail_pending_step max_completed_keys k reason y Hy).
Qed.

(** ** Operations and runs *)
Inductive union_op :=
| OpAccept (t : TokenInfo) (name : string) (now : T)
| OpLost (name g branch : string)
| OpTimeouts (name : string) (now : T)
| OpFlush
| OpRestoreLosses (losses : list (string * string * string))
| OpRestore (entries : list (RowUnionRestoreEntry T))
| OpReconcile (entries : list (RowUnionRestoreEntry T)).

Definition run_op (op : union_op) : act (list RowUnionOutcome) :=
  match op with
  | OpAccept t name now => o ← accept max_completed_keys t name now; mret [o]
  | OpLost name g branch => o ← notify_branch_lost max_completed_keys name g branch; mret (match o with Some o => [o] | None => [] end)
  | OpTimeouts name now => check_timeouts max_completed_keys name now
  | OpFlush => flush_pending max_completed_keys
  | OpRestoreLosses losses => _ ← restore_branch_losses max_completed_keys losses; mret []
  | OpRestore entries => restore_from_journal max_completed_keys entries
  | OpReconcile entries => o ← reconcile_released_group max_completed_keys entries; mret [o]
  end.

(** A run goes on after an operation that raised, with the state it left. *)
Fixpoint run_ops (ops : list union_op) x : union_executor * list (union_op * res (list RowUnionOutcome)) :=
  match ops with
  | [] => (x, [])
  | op :: ops => let '(x1, r) := run_op op x in let '(x2, log) := run_ops ops x1 in (x2, (op, r) :: log)
  end.

(** The state a run reaches. *)
Definition reached (ops : list union_op) x : union_executor := (run_ops ops x).1.

(** The tokens that an operation brings in. *)
Definition brought (op : union_op) : list TokenInfo :=
  match op with OpAccept t _ _ => [t] | OpRestore es | OpReconcile es => map re_token es | _ => [] end.

Definition returned (e : union_op * res (list RowUnionOutcome)) : bool := match e.2 with Ok _ => true | Err _ => false end.
Definition consumed_of (e : union_op * res (list RowUnionOutcome)) : list string :=
  match e.2 with Ok os => map token_id (consumed os) | Err _ => [] end.

(** A token comes from the constructor, and the mint recorded the frames of its
    path; a restored entry names a state of its token at the union's node. *)
Definition restorable x (e : RowUnionRestoreEntry T) : Prop :=
  token_ok (re_token e) /\ recorded x (re_token e) /\ forall i, re_state_id e = Some i -> state_of x (re_row_union_name e) (re_token e) i.

Definition op_ok x (op : union_op) : Prop :=
  match op with
  | OpAccept t _ _ => token_ok t /\ recorded x t
  | OpRestore es => Forall (restorable x) es
  | _ => True
  end.

Fixpoint ops_ok x (ops : list union_op) : Prop :=
  match ops with [] => True | op :: ops => op_ok x op /\ ops_ok (run_op op x).1 ops end.

(** An executor that holds nothing yet, over any database. *)
Definition fresh x : Prop := config_ok x /\ pending x = [].

Lemma fresh_inv x : fresh x -> inv x.
Proof. intros [Hc Hp]. constructor; [done|]. rewrite Hp. split; [constructor|done]. Qed.

(** ** One operation *)

(** What holds of an operation whether it returns or raises; [released] lists the
    tokens that its releases may draw on. *)
Definition op_spec x (added : list TokenInfo) (released : list TokenInfo) (ran : union_executor * res (list RowUnionOutcome)) : Prop :=
  match ran with
  | (y, Ok os) => step x y (map token_id added) (map token_id (consumed os)) /\
      forall o, o ∈ os -> o_released_tokens o <> [] -> exists k s, dict_get (settings x) k.1 = Some s /\
        group_closed x k = false /\ group_closed y k = true /\ releases released s k o
  | (y, Err _) => survives x y
  end.

Lemma spec_failures x y os ts :
  step x y [] (map token_id (consumed os)) -> Forall (fun o => o_released_tokens o = []) os -> op_spec x [] ts (y, Ok os).
Proof. intros Hst Hr. split; [done|]. intros o Ho Hne. rewrite Forall_forall in Hr. by rewrite Hr in Hne. Qed.

Lemma timeouts_spec name now x ts : inv x -> op_spec x [] ts (check_timeouts max_completed_keys name now x).
Proof.
  intros Hi. unfold check_timeouts, get_state, mbind, act_bind.
  destruct (dict_get (settings x) name) as [s|]; [|by apply survives_refl].
  destruct (us_timeout_seconds s) as [timeout|]; [|by apply spec_failures; [apply step_base|]].
  match goal with |- context [for_each _ ?ks x] => pose proof (fail_all "row_union_timeout" ks x Hi) as Hl end.
  destruct (for_each _ _ x) as [y [os|e]]; [|done]. destruct Hl as (? & ? & _). by apply spec_failures.
Qed.

Lemma flush_spec x :
  inv x ->
  match flush_pending max_completed_keys x with
  | (y, Ok os) => step x y [] (map token_id (consumed os)) /\ Forall (fun o => o_released_tokens o = []) os /\ pending y = []
  | (y, Err _) => survives x y
  end.
Proof.
  intros Hi. unfold flush_pending, get_state, mbind, act_bind.
  match goal with |- match for_each ?f ?ks x with _ => _ end => pose proof (fail_loop f id ks x) as Hl end.
  destruct (for_each _ _ x) as [y [os|e]].
  - destruct Hl as (Hst & Hr & Hk); [|done|].
    + intros k z Hz. destruct (dict_get (settings x) k.1); [|by apply survives_refl]. apply (fail_pending_step max_completed_keys k _ z Hz).
    + split_and!; [done..|]. rewrite map_id in Hk. destruct (pending y) as [|[k p] d]; [done|]. destruct (Hk k p) as [Hp Hn]; [cbn; by rewrite bool_decide_eq_true_2|].
      destruct Hn. apply dict_mem_keys. unfold dict_mem. by rewrite Hp.
  - apply Hl; [|done]. intros k z Hz. destruct (dict_get (settings x) k.1); [|by apply survives_refl]. apply (fail_pending_step max_completed_keys k _ z Hz).
Qed.

Lemma lost_spec name g branch x ts : inv x -> op_spec x [] ts (run_op (OpLost name g branch) x).
Proof.
  intros Hi. cbn [run_op]. unfold notify_branch_lost, get_state, mbind, act_bind. unfold raise_if. destruct (dict_mem (settings x) name); [|by apply survives_refl].
  cbn [negb mret act_ret]. destruct (already_closed_run max_completed_keys (name, g) x) as (x1 & b & -> & Hb & Heq & _).
  destruct b; [by apply spec_failures; [apply step_base|]|]. rewrite (Heq eq_refl). clear x1 Hb Heq. cbn [remember_branch_loss modify].
  set (x1 := set_losses _ _ x). assert (Hb : base x x1) by done. pose proof (sv_inv _ _ (survives_base _ _ Hi Hb)) as Hi1.
  destruct (dict_mem (pending x1) (name, g)); cbn [negb].
  - destruct (dict_get (settings x1) name); [|by apply survives_base]. pose proof (fail_pending_step max_completed_keys (name, g) CLOSED_BY_BRANCH_LOSS x1 Hi1) as Hf.
    destruct (fail_pending _ _ _ x1) as [y [o|e]]; [|by eapply survives_trans; [apply survives_base|]].
    destruct Hf as (Hst & Hr & _). apply spec_failures; [|by constructor]. cbn. rewrite app_nil_r.
    eapply (step_trans x x1 y [] [] []); [by apply step_base|done].
  - pose proof (quiet_mark max_completed_keys (name, g) CLOSED_BY_BRANCH_LOSS x1) as Hq. destruct (mark_completed _ _ _ x1) as [x2 [u|e]]; cbn in Hq.
    + apply spec_failures; [|constructor]. apply step_base; [done|]. etransitivity; [exact Hb|]. by etransitivity; [exact Hq|].
    + apply survives_base; [done|]. by etransitivity.
Qed.

Lemma restore_losses_spec losses x ts : inv x -> op_spec x [] ts (run_op (OpRestoreLosses losses) x).
Proof.
  intros Hi. assert (Hq : quiet (restore_branch_losses (T := T) max_completed_keys losses)).
  { apply quiet_bind; [|intros; apply quiet_ret]. apply quiet_for_each. intros [[name g] branch]. apply quiet_bind; [apply quiet_get|]. intros z.
    destruct (dict_get (settings z) name); [|apply quiet_raise]. apply quiet_bind; [apply quiet_raise_if|]. intros _. apply quiet_remember. }
  specialize (Hq x). cbn [run_op]. unfold mbind, act_bind. destruct (restore_branch_losses _ losses x) as [y [u|e]]; cbn in Hq.
  - by apply spec_failures; [apply step_base|].
  - by apply survives_base.
Qed.

(** *** Reconciling a release *)
Lemma entries_by_branch_ok name g entries acc d :
  entries_by_branch (T := T) name g entries acc = Ok d -> NoDup acc.*1 -> NoDup d.*1 /\ d.*2 = acc.*2 ++ entries.
Proof.
  revert acc. induction entries as [|e entries IH]; intros acc; cbn; [intros [= <-] ?; by rewrite app_nil_r|]. destruct (_ || _); [done|].
  destruct (branch_name (re_token e)) as [b|]; [|done]. destruct (dict_mem acc b) eqn:Em; [done|]. intros Hd Hn. apply IH in Hd as [? ->]; [|by apply dict_set_nodup].
  split; [done|]. unfold dict_mem in Em. rewrite dict_set_new by (by destruct (dict_get acc b)). rewrite fmap_app. cbn. by rewrite <- app_assoc.
Qed.

Lemma reconcile_spec entries x :
  inv x ->
  match reconcile_released_group max_completed_keys entries x with
  | (y, Ok o) => step x y (map token_id (map re_token entries)) (map token_id (o_consumed_tokens o))
  | (y, Err _) => survives x y
  end.
Proof.
  intros Hi. unfold reconcile_released_group, get_state, mbind, act_bind. pose proof (survives_refl x Hi) as Hx.
  destruct entries as [|e rest]; [done|]. set (entries := e :: rest). destruct (fork_group_id (re_token e)) as [g|]; [|done].
  destruct (dict_get (settings x) (re_row_union_name e)) as [s|] eqn:Es; [|done]. unfold raise_if. destruct (_ || _ || _); [done|]. cbn [mret act_ret lift].
  destruct (entries_by_branch _ g entries []) as [d|] eqn:Ed; [|done]. apply entries_by_branch_ok in Ed as [Hnd Hd]; [|constructor].
  destruct (same_branches d.*1 (us_branches s)) eqn:Esame; cbn [negb mret act_ret]; [|done]. rewrite same_branches_true in Esame.
  match goal with |- context [for_each ?f d x] => assert (Hq : quiet (for_each f d)) end.
  { apply quiet_for_each. intros be. destruct (re_state_id be.2); [by apply quiet_complete|apply quiet_ret]. }
  specialize (Hq x). destruct (for_each _ d x) as [x1 [us|err]]; cbn in Hq; [|by apply survives_base].
  assert (Hts : for_each (fun b => match dict_get d b with Some e => mret (re_token e) | None => raise (KeyError "by_branch") end) (us_branches s) x1
                = (x1, Ok (omap (fun b => re_token <$> dict_get d b) (us_branches s)))).
  { assert (Hin : Forall (fun b => b ∈ d.*1) (us_branches s)) by (apply Forall_forall; intros b Hb; by apply Esame).
    clear -Hin. induction Hin as [|b bs Hb _ IH]; [done|]. cbn. unfold mbind, act_bind in *. apply dict_mem_keys in Hb. unfold dict_mem in Hb.
    destruct (dict_get d b); [|done]. cbn. by rewrite IH. }
  unfold mbind, act_bind in Hts. rewrite Hts. destruct (pop_released_group _) as [ts|err] eqn:Ep; [|by apply survives_base].
  pose proof (quiet_mark max_completed_keys (re_row_union_name e, g) CLOSED_BY_RELEASE x1) as Hm. destruct (mark_completed _ _ _ x1) as [x2 [u|err]]; cbn in Hm.
  2:{ apply survives_base; [done|by etransitivity]. }
  unfold union_outcome. cbn. rewrite !andb_false_r. cbn. apply step_perm; [done|by etransitivity|]. rewrite (pop_released_ids _ _ Ep).
  change (map token_id (map re_token entries) ≡ₚ map token_id (omap (fun b => re_token <$> dict_get d b) (us_branches s))). apply Permutation_map.
  destruct (proj1 (inv_config _ Hi) _ _ Es) as [_ Hns]. rewrite (omap_dict_perm re_token d (us_branches s)); [|done..|by intros b; rewrite Esame].
  rewrite <- (map_map snd re_token). change (map snd d) with d.*2. by rewrite Hd.
Qed.


(** *** Restoring pending groups *)
Lemma rebuild_groups x entries acc restored :
  Forall (restorable x) entries -> groups_ok x acc -> rebuild_pending (settings x) entries acc = Ok restored ->
  groups_ok x restored /\ held_tokens (set_pending restored x) ≡ₚ held_tokens (set_pending acc x) ++ map re_token entries.
Proof.
  intros He. revert acc. induction He as [|e entries (Hok & Hrec & Hst) _ IH]; intros acc Hg; cbn [rebuild_pending].
  { intros [= <-]. split; [done|]. cbn. by rewrite app_nil_r. }
  destruct (dict_get (settings x) (re_row_union_name e)) as [s|] eqn:Es; [|done]. destruct (branch_name (re_token e)) as [b|] eqn:Eb; [|done].
  destruct (fork_group_id (re_token e)) as [g|] eqn:Eg; [|done]. case_bool_decide as Hb; cbn [negb]; [|done]. set (k := (re_row_union_name e, g)).
  set (p := default _ (dict_get acc k)). destruct (dict_mem (pu_branches p) b) eqn:Em; [done|]. destruct (re_state_id e) as [i|] eqn:Ei; [|done].
  set (anchor := if t_ltb _ _ then _ else _). set (p' := mkPending _ anchor). intros Hr.
  assert (Hnew : dict_get (pu_branches p) b = None) by (unfold dict_mem in Em; by destruct (dict_get (pu_branches p) b)).
  assert (Hp : NoDup (pu_branches p).*1 /\ Forall (fun b => b ∈ us_branches s) (pu_branches p).*1 /\ Forall (entry_ok x k) (pu_branches p)).
  { unfold p. destruct (dict_get acc k) as [p0|] eqn:Ek; [|split_and!; cbn; constructor]. destruct (proj2 Hg k p0 Ek) as (s' & Hs' & ? & ? & ?).
    cbn in Hs'. rewrite Es in Hs'. by injection Hs' as <-. }
  destruct (IH (dict_set acc k p')) as [Hgr Hperm]; [|done|].
  - apply groups_ok_set; [done|]. exists s. unfold p'. cbn [pu_branches]. destruct Hp as (Hnd & Hin & Hen). split_and!; [done|by apply dict_set_nodup| |].
    + rewrite dict_set_new by done. rewrite fmap_app. apply Forall_app. split; [done|by apply Forall_singleton].
    + rewrite dict_set_new by done. apply Forall_app. split; [done|]. apply Forall_singleton. split_and!; [done..|]. by apply Hst.
  - split; [done|]. rewrite Hperm. unfold held_tokens at 1. cbn [set_pending pending].
    rewrite (flat_map_dict_set entry_tokens (set_pending acc x) k p' [re_token e]); [by rewrite <- app_assoc|done|].
    unfold p'. cbn [pu_branches]. rewrite dict_set_new by done. unfold entry_tokens. rewrite map_app. f_equal. unfold branches_of, p. cbn [set_pending pending].
    by destruct (dict_get acc k).
Qed.

Lemma classify_ok k x y v : classify_restored max_completed_keys k x = (y, Ok v) -> v = v_open -> group_closed x k = false.
Proof.
  unfold classify_restored, mbind, act_bind. destruct (already_closed_run max_completed_keys k x) as (x1 & b & -> & Hb & Heq & Hc). destruct b.
  { cbn. destruct (dict_get _ k); by intros [= <- <-]. }
  rewrite (Heq eq_refl). cbn. destruct (loss_known x k) eqn:El; intros [= <- <-]; [done|]. intros _. unfold group_closed.
  destruct (proj1 Hc eq_refl) as [_ ->]. cbn. by apply orb_false_iff in El as [_ ->].
Qed.

Lemma classify_quiet k : quiet (classify_restored (T := T) max_completed_keys k).
Proof.
  apply quiet_bind; [apply quiet_closed|]. intros b. apply quiet_bind; [apply quiet_get|]. intros z. destruct b; [|apply quiet_ret].
  destruct (dict_get _ k); [apply quiet_ret|apply quiet_raise].
Qed.

Lemma open_before x y k : moves x y -> group_closed y k = false -> group_closed x k = false.
Proof. intros Hm Hc. destruct (group_closed x k) eqn:E; [|done]. by rewrite (closed_moves _ _ _ Hm E) in Hc. Qed.

Lemma verdicts_ok ks x y vs :
  for_each (fun k => v ← classify_restored max_completed_keys k; mret (k, v)) ks x = (y, Ok vs) ->
  base x y /\ vs.*1 = ks /\ Forall (fun kv => kv.2 = v_open -> group_closed x kv.1 = false) vs.
Proof.
  revert x vs. induction ks as [|k ks IH]; intros x vs; [intros [= <- <-]; split_and!; [done..|constructor]|]. cbn [for_each].
  intros (kv & x1 & (v & x2 & Ev & [= -> <-])%act_bind_ok & (vs' & x3 & Evs & [= -> <-])%act_bind_ok)%act_bind_ok.
  pose proof (quiet_ok _ _ _ _ (classify_quiet k) Ev) as Hb. apply IH in Evs as (Hb' & <- & Hvs). split_and!; [by etransitivity|done|].
  constructor; [cbn; by apply (classify_ok k x x1)|]. eapply Forall_impl; [exact Hvs|]. intros kv Ho Ekv. eapply open_before; [apply Hb|by apply Ho].
Qed.

(** The loop that releases the restored groups that are complete. *)
Definition release_complete k : act (list RowUnionOutcome) :=
  x ← get_state;
  match dict_get (settings x) k.1, dict_get (pending x) k with
  | None, _ => raise (KeyError "_settings")
  | _, None => raise (KeyError "_pending")
  | Some s, Some p =>
      if same_branches (pu_branches p).*1 (us_branches s) then o ← execute_release max_completed_keys s k p; mret [o] else mret []
  end.

Lemma release_complete_step k x :
  inv x ->
  match release_complete k x with
  | (y, Ok os) => (os = [] /\ y = x) \/
      exists s p o, os = [o] /\ dict_get (settings x) k.1 = Some s /\ dict_get (pending x) k = Some p /\ step x y [] (map token_id (o_consumed_tokens o)) /\
        group_closed y k = true /\ releases (entry_tokens (pu_branches p)) s k o /\ pending y = dict_del (pending x) k
  | (y, Err _) => survives x y
  end.
Proof.
  intros Hi. unfold release_complete, get_state, mbind, act_bind. destruct (dict_get (settings x) k.1) as [s|] eqn:Es; [|by apply survives_refl].
  destruct (dict_get (pending x) k) as [p|] eqn:Ep; [|by apply survives_refl]. destruct (same_branches _ _) eqn:Esame; [|by left].
  pose proof (release_step max_completed_keys s k p x Hi Ep Es Esame) as Hrel. destruct (execute_release _ s k p x) as [y [o|e]]; [|done].
  right. exists s, p, o. naive_solver.
Qed.

Lemma release_loop ks x ts :
  inv x -> (forall k p, dict_get (pending x) k = Some p -> entry_tokens (pu_branches p) ⊆ ts) ->
  match for_each release_complete ks x with
  | (y, Ok oss) => step x y [] (map token_id (consumed (concat oss))) /\
      forall o, o ∈ concat oss -> exists k s, dict_mem (pending x) k = true /\ dict_get (settings x) k.1 = Some s /\ group_closed y k = true /\ releases ts s k o
  | (y, Err _) => survives x y
  end.
Proof.
  revert x. induction ks as [|k ks IH]; intros x Hi Hts.
  { split; [by apply step_base|]. intros o Ho%not_elem_of_nil. done. }
  cbn [for_each]. unfold mbind, act_bind. pose proof (release_complete_step k x Hi) as Hc. destruct (release_complete k x) as [x1 [os|e]]; [|done].
  destruct Hc as [[-> ->]|(s & p & o & -> & Es & Ep & Hst & Hcl & Hre & Hd)].
  { specialize (IH x Hi Hts). by destruct (for_each release_complete ks x) as [y [oss|e]]. }
  pose proof (st_survives _ _ _ _ Hst) as Hsv. specialize (IH x1 (sv_inv _ _ Hsv)).
  assert (Hts1 : forall k' p', dict_get (pending x1) k' = Some p' -> entry_tokens (pu_branches p') ⊆ ts).
  { intros k' p'. rewrite Hd, dict_get_del by apply Hi. case_bool_decide; [done|]. apply Hts. }
  specialize (IH Hts1). destruct (for_each release_complete ks x1) as [y [oss|e]]; [|by eapply survives_trans].
  destruct IH as [Hst' Ho]. split.
  - cbn. rewrite map_app. by apply (step_trans x x1 y [] []).
  - cbn [concat]. intros o' [->%list_elem_of_singleton|Ho']%elem_of_app.
    + exists k, s. split_and!; [unfold dict_mem; by rewrite Ep|done|by eapply closed_moves; [apply Hst'|]|]. by eapply releases_subset; [eapply Hts|].
    + destruct (Ho o' Ho') as (k' & s' & Hk' & Hs' & ? & ?). exists k', s'. rewrite (mv_settings _ _ (sv_moves _ _ Hsv)) in Hs'. split_and!; [|done..].
      unfold dict_mem in *. rewrite Hd, dict_get_del in Hk' by apply Hi. by case_bool_decide.
Qed.

(** A residual of a closed group is failed; the memory keeps why it closed. *)
Lemma residual_step kr y :
  inv y ->
  match (o ← fail_pending max_completed_keys kr.1 (late_reason kr.2); _ ← mark_completed max_completed_keys kr.1 kr.2; mret o) y with
  | (z, Ok o) => step y z [] (map token_id (o_consumed_tokens o)) /\ o_released_tokens o = [] /\ pending z = dict_del (pending y) kr.1
  | (z, Err _) => survives y z
  end.
Proof.
  intros Hy. unfold mbind, act_bind. pose proof (fail_pending_step max_completed_keys kr.1 (late_reason kr.2) y Hy) as Hf.
  destruct (fail_pending _ _ _ y) as [y1 [o|e]]; [|done]. destruct Hf as (Hst & Hr & Hd). pose proof (sv_inv _ _ (st_survives _ _ _ _ Hst)) as Hi1.
  pose proof (quiet_mark max_completed_keys kr.1 kr.2 y1) as Hq. destruct (mark_completed _ _ _ y1) as [y2 [u|e]]; cbn in Hq.
  - split_and!; [|done|by rewrite (proj2 Hq)]. rewrite <- (app_nil_r (map _ _)). eapply (step_trans y y1 y2 [] []); [done|by apply step_base].
  - eapply survives_trans; [apply Hst|]. by apply survives_base.
Qed.

Lemma restore_spec entries x :
  inv x -> Forall (restorable x) entries -> op_spec x (map re_token entries) (map re_token entries) (restore_from_journal max_completed_keys entries x).
Proof.
  intros Hi He. pose proof (survives_refl x Hi) as Hx. unfold restore_from_journal, mbind at 1, act_bind at 1. cbn [get_state].
  destruct (pending x) as [|kp d] eqn:Ep; [|done]. unfold mbind at 1, act_bind at 1. cbn [raise_if mret act_ret]. unfold mbind at 1, act_bind at 1. cbn [lift].
  destruct (rebuild_pending (settings x) entries []) as [restored|e] eqn:Er; [|done].
  destruct (rebuild_groups x entries [] restored He) as [Hgr Hperm]; [split; [constructor|done]|done|]. unfold mbind at 1, act_bind at 1.
  destruct (for_each _ restored.*1 x) as [x1 [vs|e]] eqn:Ev.
  2:{ apply survives_base; [done|]. eapply quiet_ok; [|exact Ev]. apply quiet_for_each. intros k. apply quiet_bind; [apply classify_quiet|intros; apply quiet_ret]. }
  apply verdicts_ok in Ev as (Hb & Hvk & Hvs). unfold mbind at 1, act_bind at 1. cbn [modify]. set (x2 := set_pending restored x1).
  assert (Hm2 : moves x x2) by (etransitivity; [apply Hb|by constructor]).
  assert (Hst2 : step x x2 (map token_id (map re_token entries)) []).
  { constructor; [constructor; [constructor|done|]|].
    - eapply config_ok_moves; [exact Hm2|apply Hi].
    - by eapply groups_ok_moves.
    - intros k be. unfold branches_of. rewrite Ep. cbn. intros Hn%not_elem_of_nil. done.
    - rewrite app_nil_r. unfold held_tokens at 1. rewrite Ep. cbn. apply Permutation_map. symmetry. exact Hperm. }
  pose proof (st_survives _ _ _ _ Hst2) as Hs2. unfold mbind at 1, act_bind at 1.
  set (closed := omap _ vs). pose proof (fail_loop _ fst closed x2 (residual_step) (sv_inv _ _ Hs2)) as L1.
  destruct (for_each _ closed x2) as [x3 [os1|e]]; [|by eapply survives_trans].
  destruct L1 as (Hst3 & Hr1 & Hk1). pose proof (step_trans _ _ _ _ _ _ _ Hst2 Hst3) as Hst. unfold mbind at 1, act_bind at 1.
  set (lost := omap _ vs). pose proof (fail_all CLOSED_BY_BRANCH_LOSS lost x3 (sv_inv _ _ (st_survives _ _ _ _ Hst3))) as L2.
  destruct (for_each _ lost x3) as [x4 [os2|e]]; [|by eapply survives_trans; [apply Hst|]].
  destruct L2 as (Hst4 & Hr2 & Hk2). pose proof (step_trans _ _ _ _ _ _ _ Hst Hst4) as Hst'. clear Hst. unfold mbind at 1, act_bind at 1. cbn [get_state].
  unfold mbind at 1, act_bind at 1. fold release_complete.
  assert (Hts : forall k p, dict_get (pending x4) k = Some p -> entry_tokens (pu_branches p) ⊆ map re_token entries).
  { intros k p [[Hp _]%Hk1 _]%Hk2 t Ht. cbn in Hp. apply dict_get_elem in Hp. rewrite <- (app_nil_l (map re_token entries)).
    change (t ∈ held_tokens (set_pending [] x) ++ map re_token entries). rewrite <- Hperm. apply list_elem_of_In, in_flat_map. exists (k, p). by rewrite <- !list_elem_of_In. }
  match goal with |- context [for_each ?f ?l x4] => change (for_each f l x4) with (for_each release_complete (pending x4).*1 x4) end.
  pose proof (release_loop (pending x4).*1 x4 _ (sv_inv _ _ (st_survives _ _ _ _ Hst')) Hts) as L3.
  destruct (for_each release_complete _ x4) as [y [oss|e]]; [|by eapply survives_trans; [apply Hst'|]]. destruct L3 as [Hst5 Ho].
  pose proof (step_trans _ _ _ _ _ _ _ Hst' Hst5) as Hst6. cbn [mret act_ret]. split.
  - unfold consumed in *. rewrite !flat_map_app, !map_app. rewrite !app_nil_r, !app_nil_l, <- app_assoc in Hst6. exact Hst6.
  - intros o Hin Hne. rewrite !elem_of_app in Hin. rewrite Forall_forall in Hr1, Hr2. destruct Hin as [Hin|[Hin|Hin]]; [by rewrite Hr1 in Hne|by rewrite Hr2 in Hne|].
    destruct (Ho o Hin) as (k & s & Hk & Hs & Hcl & Hre). exists k, s. rewrite (mv_settings _ _ (sv_moves _ _ (st_survives _ _ _ _ Hst'))) in Hs. split_and!; [done| |done..].
    unfold dict_mem in Hk. destruct (dict_get (pending x4) k) as [p|] eqn:Ek; [|done]. destruct (Hk2 k p Ek) as [Ek3 Hnl]. destruct (Hk1 k p Ek3) as [Ek2 Hnc].
    cbn in Ek2. assert (Hkv : k ∈ vs.*1) by (rewrite Hvk; apply dict_mem_keys; unfold dict_mem; by rewrite Ek2).
    apply list_elem_of_fmap in Hkv as ([k' v] & -> & Hkv). cbn in *. rewrite Forall_forall in Hvs. apply (Hvs _ Hkv). cbn. destruct v as [r| |]; [| |done]; exfalso.
    + apply Hnc. apply list_elem_of_fmap. exists (k', r). split; [done|]. unfold closed. apply list_elem_of_omap. by exists (k', v_closed r).
    + apply Hnl. unfold lost. apply list_elem_of_omap. by exists (k', v_lost).
Qed.

(** *** Any operation *)
Lemma op_step op x :
  inv x -> op_ok x op ->
  match run_op op x with
  | (y, Ok os) => step x y (map token_id (brought op)) (map token_id (consumed os)) /\
      ((forall es, op <> OpReconcile es) -> forall o, o ∈ os -> o_released_tokens o <> [] -> exists k s, dict_get (settings x) k.1 = Some s /\
        group_closed x k = false /\ group_closed y k = true /\ releases (brought op ++ held_tokens x) s k o)
  | (y, Err _) => survives x y
  end.
Proof.
  intros Hi Hok. assert (Hsp : forall ts, ts ⊆ brought op ++ held_tokens x -> op_spec x (brought op) ts (run_op op x) ->
    match run_op op x with
    | (y, Ok os) => step x y (map token_id (brought op)) (map token_id (consumed os)) /\
        ((forall es, op <> OpReconcile es) -> forall o, o ∈ os -> o_released_tokens o <> [] -> exists k s, dict_get (settings x) k.1 = Some s /\
          group_closed x k = false /\ group_closed y k = true /\ releases (brought op ++ held_tokens x) s k o)
    | (y, Err _) => survives x y
    end).
  { intros ts Hts. destruct (run_op op x) as [y [os|e]]; [|done]. intros [Hst Ho]. split; [done|]. intros _ o Hin Hne.
    destruct (Ho o Hin Hne) as (k & s & ? & ? & ? & ?). exists k, s. split_and!; [done..|]. by eapply releases_subset. }
  destruct op as [t name now|name g branch|name now| |losses|es|es].
  - destruct Hok as [Hok Hrec]. cbn [run_op brought]. unfold mbind, act_bind. pose proof (accept_step max_completed_keys t name now x Hi Hok Hrec) as Ha.
    destruct (accept _ t name now x) as [y [o|e]]; [|done]. destruct Ha as [Hst Hr]. split; [cbn; by rewrite app_nil_r|].
    intros _ o' ->%list_elem_of_singleton Hne. destruct (Hr Hne) as (s & g & Hs & Hg & Hc & Hc' & Hre & _). exists (name, g), s. split_and!; [done..|].
    eapply releases_subset; [|exact Hre]. intros t' [->|Ht']%elem_of_cons; [by left|]. right. unfold branches_of in Ht'.
    destruct (dict_get (pending x) (name, g)) as [p|] eqn:Ep; [|by apply not_elem_of_nil in Ht']. apply dict_get_elem in Ep.
    apply list_elem_of_In, in_flat_map. exists (name, g, p). by rewrite <- !list_elem_of_In.
  - apply (Hsp []); [set_solver|]. by apply lost_spec.
  - apply (Hsp []); [set_solver|]. by apply timeouts_spec.
  - apply (Hsp []); [set_solver|]. cbn [run_op brought]. pose proof (flush_spec x Hi) as Hf. destruct (flush_pending _ x) as [y [os|e]]; [|done].
    destruct Hf as (? & ? & _). by apply spec_failures.
  - apply (Hsp []); [set_solver|]. by apply restore_losses_spec.
  - apply (Hsp (map re_token es)); [set_solver|]. by apply restore_spec.
  - cbn [run_op brought]. unfold mbind, act_bind. pose proof (reconcile_spec es x Hi) as Hr. destruct (reconcile_released_group _ es x) as [y [o|e]]; [|done].
    split; [cbn; by rewrite app_nil_r|]. intros Hn. by destruct (Hn es).
Qed.

Lemma op_survives op x : inv x -> op_ok x op -> survives x (run_op op x).1.
Proof. intros Hi Hok. pose proof (op_step op x Hi Hok) as H1. destruct (run_op op x) as [y [os|e]]; [apply H1|done]. Qed.

Lemma reached_cons op ops x : reached (op :: ops) x = reached ops (run_op op x).1.
Proof. unfold reached. cbn. destruct (run_op op x) as [y r]. cbn. by destruct (run_ops ops y). Qed.

Lemma reached_survives ops x : inv x -> ops_ok x ops -> survives x (reached ops x).
Proof.
  revert x. induction ops as [|op ops IH]; intros x Hi Hok; [by apply survives_refl|]. destruct Hok as [Hop Hok]. rewrite reached_cons.
  pose proof (op_survives op x Hi Hop) as Hs. eapply survives_trans; [exact Hs|]. apply IH; [apply Hs|done].
Qed.

(** Operations on tokens that are on record from the start. *)
Lemma op_ok_moves x y op : moves x y -> op_ok x op -> op_ok y op.
Proof.
  intros Hm. destruct op; try done.
  - intros [? ?]. split; [done|by eapply recorded_moves].
  - intros He. eapply Forall_impl; [exact He|]. intros e (? & ? & Hst). split_and!; [done|by eapply recorded_moves|]. intros i Hi. by eapply state_of_moves, Hst.
Qed.

Lemma ops_ok_all ops x : inv x -> Forall (op_ok x) ops -> ops_ok x ops.
Proof.
  revert x. induction ops as [|op ops IH]; intros x Hi; [done|]. intros [Hop Hops]%Forall_cons. split; [done|]. pose proof (op_survives op x Hi Hop) as Hs.
  apply IH; [apply Hs|]. eapply Forall_impl; [exact Hops|]. intros op'. apply op_ok_moves, Hs.
Qed.

Lemma run_step ops x :
  inv x -> ops_ok x ops -> forallb returned (run_ops ops x).2 = true ->
  step x (reached ops x) (map token_id (flat_map brought ops)) (flat_map consumed_of (run_ops ops x).2).
Proof.
  revert x. induction ops as [|op ops IH]; intros x Hi Hok Hret; [by apply step_base|]. destruct Hok as [Hop Hok]. rewrite reached_cons.
  pose proof (op_step op x Hi Hop) as H1. cbn [run_ops] in *. destruct (run_op op x) as [x1 r]. cbn [fst] in *.
  pose proof (IH x1) as IHx. unfold reached in *. destruct (run_ops ops x1) as [x2 log]. cbn [fst snd] in *. destruct r as [os|e]; [|done]. cbn in Hret.
  cbn [flat_map]. rewrite map_app. destruct H1 as [H1 _]. eapply step_trans; [exact H1|]. apply IHx; [apply H1|done|done].
Qed.

(** ** Whole runs *)

(** C10. No token is lost or counted twice.  Over any run of a row-union executor
    that starts empty (arrivals, branch losses, timeouts, flushes, restores and
    reconciled releases, for any unions, of tokens whose frames the mint has
    recorded; a restored entry names a node state of its token, if any) in which
    no operation raises, the
    tokens that were brought in are, each exactly once, either still held or
    reported as consumed by an outcome: held, released and failed tokens
    partition them.  And in any run, also when the database refuses writes in
    the middle of an operation, an entry that is held at some point is, after
    whatever follows, still held or has a finished node state on record. *)
Theorem row_union_conserves_tokens ops x :
  fresh x -> ops_ok x ops ->
  (forallb returned (run_ops ops x).2 = true ->
   map token_id (flat_map brought ops) ≡ₚ map token_id (held_tokens (reached ops x)) ++ flat_map consumed_of (run_ops ops x).2) /\
  forall later k be, ops_ok (reached ops x) later -> be ∈ branches_of (reached ops x) k ->
    be ∈ branches_of (reached later (reached ops x)) k \/ finished (reached later (reached ops x)) (be_state_id be.2).
Proof.
  intros Hf Hok. split.
  - intros Hret. rewrite <- (st_tokens _ _ _ _ (run_step ops x (fresh_inv x Hf) Hok Hret)). unfold held_tokens. by rewrite (proj2 Hf).
  - intros later k be Hl Hbe. pose proof (sv_inv _ _ (reached_survives ops x (fresh_inv x Hf) Hok)) as Hi.
    by apply (sv_kept _ _ (reached_survives later _ Hi Hl)).
Qed.

(** C16. A closed group is never released again.  Whatever is run, of tokens whose
    frames the mint has recorded and over any database, through evictions of the bounded memory, raised exceptions and
    refused writes: a group that the database shows closed (a finished state of
    a member at the union's node, or a durable loss of one of its branches)
    stays closed; and an operation other than the reconciliation of a recorded
    release only releases a group that was not closed before it, and leaves it
    closed.  Only the reconciliation repeats a release, at a resume. *)
Theorem row_union_closed_group_is_frozen ops x :
  fresh x -> ops_ok x ops ->
  (forall later k, ops_ok (reached ops x) later -> group_closed (reached ops x) k = true -> group_closed (reached later (reached ops x)) k = true) /\
  forall op y os o, op_ok (reached ops x) op -> (forall es, op <> OpReconcile es) -> run_op op (reached ops x) = (y, Ok os) -> o ∈ os ->
    o_released_tokens o <> [] -> exists k s, dict_get (settings x) k.1 = Some s /\ group_closed (reached ops x) k = false /\ group_closed y k = true /\
      releases (brought op ++ held_tokens (reached ops x)) s k o.
Proof.
  intros Hf Hok. pose proof (reached_survives ops x (fresh_inv x Hf) Hok) as Hs. pose proof (sv_inv _ _ Hs) as Hi. split.
  - intros later k Hl. apply closed_moves. by apply reached_survives.
  - intros op y os o Hop Hn E Ho Hne. pose proof (op_step op _ Hi Hop) as H1. rewrite E in H1. destruct H1 as [_ H1].
    rewrite <- (mv_settings _ _ (sv_moves _ _ Hs)). by apply H1.
Qed.

(** C24. A release is whole.  When an arrival releases anything, it releases one
    token for every declared branch, in the declared order: the arriving token
    and tokens that were held, each of that branch and of the arriving token's
    fork group, with the group's own fork frame taken out of its lineage and
    identity, row, data and all other frames unchanged.  The group was not
    closed before, is closed now, and is no longer held.  The mint has recorded
    the arriving token's frames, as those of the tokens before it ([ops_ok]). *)
Theorem row_union_release_is_whole ops x t name now x' o :
  fresh x -> ops_ok x ops -> token_ok t -> recorded (reached ops x) t ->
  accept max_completed_keys t name now (reached ops x) = (x', Ok o) -> o_released_tokens o <> [] ->
  exists s g, dict_get (settings x) name = Some s /\ fork_group_id t = Some g /\
    group_closed (reached ops x) (name, g) = false /\ group_closed x' (name, g) = true /\ dict_get (pending x') (name, g) = None /\
    o_consumed_tokens o = o_released_tokens o /\ o_failure_reason o = None /\
    Forall2 (fun b t' => exists t0, (t0 = t \/ t0 ∈ held_tokens (reached ops x)) /\
      branch_name t0 = Some b /\ fork_group_id t0 = Some g /\ popped g t0 t') (us_branches s) (o_released_tokens o).
Proof.
  intros Hf Hok Ht Hrec Ha Hr. pose proof (reached_survives ops x (fresh_inv x Hf) Hok) as Hs.
  pose proof (accept_step max_completed_keys t name now _ (sv_inv _ _ Hs) Ht Hrec) as Hst. rewrite Ha in Hst. destruct Hst as [_ Hst].
  destruct (Hst Hr) as (s & g & Hset & Hg & Hc & Hc' & (? & ? & HF) & Hp). exists s, g. rewrite (mv_settings _ _ (sv_moves _ _ Hs)) in Hset.
  split_and!; [done..|]. eapply Forall2_impl; [exact HF|]. intros b t' (t0 & Hin & ?). exists t0. split; [|done].
  apply elem_of_cons in Hin as [->|Hin]; [by left|right]. unfold branches_of in Hin.
  destruct (dict_get (pending (reached ops x)) (name, g)) as [p|] eqn:Ep; [|by apply not_elem_of_nil in Hin]. apply dict_get_elem in Ep.
  apply list_elem_of_In, in_flat_map. exists (name, g, p). by rewrite <- !list_elem_of_In.
Qed.

(** The end of the source leaves nothing behind: a flush that returns leaves no
    group pending, releases nothing, and its outcomes consume exactly the
    tokens that were held. *)
Theorem row_union_flush_leaves_nothing ops x y os :
  fresh x -> ops_ok x ops -> flush_pending max_completed_keys (reached ops x) = (y, Ok os) ->
  pending y = [] /\ Forall (fun o => o_released_tokens o = []) os /\ map token_id (consumed os) ≡ₚ map token_id (held_tokens (reached ops x)).
Proof.
  intros Hf Hok E. pose proof (flush_spec _ (sv_inv _ _ (reached_survives ops x (fresh_inv x Hf) Hok))) as Hfl. rewrite E in Hfl.
  destruct Hfl as ([_ Hst] & Hr & Hp). split_and!; [done..|]. rewrite app_nil_r in Hst. rewrite Hst. unfold held_tokens at 1. by rewrite Hp.
Qed.

(** ** Restore *)

(** What the journal has of an executor: a slot per held token. *)
Definition slot : Type := union_key * (string * BranchEntry T).
Definition slots x : list slot := flat_map (fun kp => map (pair kp.1) (pu_branches kp.2)) (pending x).

Definition to_entry (sl : slot) : RowUnionRestoreEntry T :=
  mkRestore (be_token sl.2.2) sl.1.1 (Some (be_state_id sl.2.2)) (be_arrival_time sl.2.2).

Definition journal x : list (RowUnionRestoreEntry T) := map to_entry (slots x).

Definition branches_in (d : list (union_key * PendingRowUnion T)) k : list (string * BranchEntry T) := default [] (pu_branches <$> dict_get d k).

Definition slot_ok (sts : list (string * RowUnionSettings T)) (sl : slot) : Prop :=
  branch_name (be_token sl.2.2) = Some sl.2.1 /\ fork_group_id (be_token sl.2.2) = Some sl.1.2 /\
  exists s, dict_get sts sl.1.1 = Some s /\ sl.2.1 ∈ us_branches s.

(** The timeout of a group counts from its earliest arrival. *)
Definition anchored (p : PendingRowUnion T) : Prop :=
  Forall (fun be => t_ltb (be_arrival_time be.2) (pu_first_arrival p) = false) (pu_branches p) /\
  exists be, be ∈ pu_branches p /\ be_arrival_time be.2 = pu_first_arrival p.

Section rebuild.
Context `{!TimeOrder T}.

Lemma anchored_add (p : PendingRowUnion T) b e :
  anchored p ->
  anchored (mkPending (pu_branches p ++ [(b, e)]) (if t_ltb (be_arrival_time e) (pu_first_arrival p) then be_arrival_time e else pu_first_arrival p)).
Proof.
  intros [Ha (be & Hbe & Heq)]. destruct (t_ltb (be_arrival_time e) (pu_first_arrival p)) eqn:El; split; cbn [pu_branches pu_first_arrival].
  - apply Forall_app. split; [|apply Forall_singleton, t_irrefl]. eapply Forall_impl; [exact Ha|]. intros be' Hn. cbn beta in *.
    destruct (t_ltb (be_arrival_time be'.2) (be_arrival_time e)) eqn:E; [|done]. by rewrite (t_trans _ _ _ E El) in Hn.
  - exists (b, e). split; [|done]. apply elem_of_app. right. by apply list_elem_of_singleton.
  - apply Forall_app. split; [done|]. by apply Forall_singleton.
  - exists be. split; [|done]. apply elem_of_app. by left.
Qed.

Lemma anchored_first b e : anchored (mkPending [(b, e)] (if t_ltb (be_arrival_time e) (be_arrival_time e) then be_arrival_time e else be_arrival_time e)).
Proof. rewrite t_irrefl. split; cbn; [apply Forall_singleton, t_irrefl|]. exists (b, e). split; [by left|done]. Qed.

Lemma rebuild_slots sts sls acc :
  Forall (slot_ok sts) sls -> NoDup (map (fun sl => (sl.1, sl.2.1)) sls) ->
  (forall sl, sl ∈ sls -> dict_get (branches_in acc sl.1) sl.2.1 = None) ->
  NoDup acc.*1 -> (forall k p, dict_get acc k = Some p -> anchored p) ->
  exists restored, rebuild_pending sts (map to_entry sls) acc = Ok restored /\ NoDup restored.*1 /\
    (forall k p, dict_get restored k = Some p -> anchored p) /\
    forall k, branches_in restored k = branches_in acc k ++ map snd (filter (fun sl => sl.1 = k) sls).
Proof.
  intros Hok. revert acc. induction Hok as [|[k [b e]] sls (Hb & Hg & s & Hs & Hin) _ IH]; intros acc Hnd Hnew Hka Han.
  { exists acc. split_and!; [done..|]. intros k. by rewrite app_nil_r. }
  cbn [map] in Hnd. apply NoDup_cons in Hnd as [Hfresh Hnd]. cbn [fst snd] in *.
  assert (Hgn : dict_get (branches_in acc k) b = None) by (apply (Hnew (k, (b, e))); by left).
  cbn [map rebuild_pending to_entry re_row_union_name re_token re_state_id re_arrival_time fst snd]. rewrite Hs, Hb, Hg.
  rewrite bool_decide_eq_true_2 by done. cbn [negb]. destruct k as [name g]. cbn [fst snd] in *.
  set (p := default _ (dict_get acc (name, g))). assert (Ep : pu_branches p = branches_in acc (name, g)).
  { unfold p, branches_in. by destruct (dict_get acc (name, g)). }
  rewrite Ep. unfold dict_mem. rewrite Hgn. cbn [is_some]. rewrite (dict_set_new _ _ _ Hgn).
  assert (mkBranch (be_token e) (be_arrival_time e) (be_state_id e) = e) as -> by (by destruct e).
  match goal with |- context [dict_set acc (name, g) ?q] => set (p' := q) end. destruct (IH (dict_set acc (name, g) p')) as (restored & E & Hr & Har & Hbr); [done| |by apply dict_set_nodup| |].
  - intros sl Hsl. unfold branches_in at 1. rewrite dict_get_set. case_bool_decide as Ek; [|by apply Hnew; right]. unfold p'. cbn [fmap option_fmap option_map default pu_branches].
    rewrite <- (dict_set_new _ _ e Hgn).
    unfold id. rewrite dict_get_set, Ek. rewrite bool_decide_eq_false_2; [by apply Hnew; right|].
    intros ->. apply Hfresh. apply list_elem_of_fmap. exists sl. split; [|done]. by rewrite Ek.
  - intros k' q. rewrite dict_get_set. case_bool_decide as Ek; [|apply Han]. intros [= <-]. unfold p', p, branches_in.
    destruct (dict_get acc (name, g)) as [p0|] eqn:E0; [|apply anchored_first]. by apply (anchored_add p0), (Han _ _ E0).
  - exists restored. split_and!; [done..|]. intros k. rewrite Hbr. unfold branches_in at 1. rewrite dict_get_set, filter_cons. cbn [fst].
    case_bool_decide as Ek; [|by rewrite decide_False]. subst k. rewrite decide_True by done. cbn. by rewrite <- app_assoc.
Qed.
End rebuild.

Lemma slots_of_key x k : NoDup (pending x).*1 -> map snd (filter (fun sl => sl.1 = k) (slots x)) = branches_of x k.
Proof.
  unfold slots, branches_of. induction (pending x) as [|[k' p] d IH]; [done|]. intros Hn. cbn in Hn. apply NoDup_cons in Hn as [Hk Hn]. specialize (IH Hn).
  cbn [flat_map fst snd dict_get]. rewrite filter_app, map_app. fold slot in IH. etransitivity; [apply (f_equal (app _)), IH|]. clear IH. case_bool_decide as Ek.
  - subst k'. rewrite (proj2 (dict_get_None d k) Hk). cbn. rewrite app_nil_r. generalize (pu_branches p). intros bs.
    induction bs as [|be bs IHb]; [done|]. cbn [map]. rewrite filter_cons, decide_True by done. cbn [map snd]. by rewrite IHb.
  - replace (filter _ (map (pair k') (pu_branches p))) with (@nil slot); [done|]. symmetry. generalize (pu_branches p). intros bs.
    induction bs as [|be bs IHb]; [done|]. cbn [map]. by rewrite filter_cons, decide_False.
Qed.

Lemma slots_nodup (d : list (union_key * PendingRowUnion T)) :
  NoDup d.*1 -> Forall (fun kp => NoDup (pu_branches kp.2).*1) d ->
  NoDup (map (fun sl : slot => (sl.1, sl.2.1)) (flat_map (fun kp => map (pair kp.1) (pu_branches kp.2)) d)).
Proof.
  intros Hn Hb. induction Hb as [|[k p] d Hp _ IH]; [constructor|]. cbn in Hn. apply NoDup_cons in Hn as [Hk Hn].
  cbn [flat_map fst snd]. rewrite map_app. apply NoDup_app. split_and!; [| |by apply IH].
  - rewrite map_map. cbn [fst snd] in Hp |- *. rewrite <- (map_map fst (pair k)). by apply NoDup_fmap_2; [intros ?? [=]|].
  - intros [k' b] (sl & [= -> ->] & (be & -> & _)%list_elem_of_fmap)%list_elem_of_fmap (sl' & E & Hsl')%list_elem_of_fmap. cbn in E.
    apply list_elem_of_In, in_flat_map in Hsl' as (kp & Hkp & (be' & <- & _)%in_map_iff). injection E as -> _. apply Hk.
    apply list_elem_of_fmap. exists kp. split; [done|]. by apply list_elem_of_In.
Qed.

(** A group that waits for branches and was not closed. *)
Definition waiting x k (p : PendingRowUnion T) : Prop :=
  group_closed x k = false /\ exists s, dict_get (settings x) k.1 = Some s /\ same_branches (pu_branches p).*1 (us_branches s) = false.

(** The executor that a restarted process builds over the same database. *)
Record restarted x y : Prop := {
  rs_settings : settings y = settings x; rs_nodes : node_ids y = node_ids x; rs_db : db y = db x;
  rs_pending : pending y = []; rs_completed : completed_keys y = []; rs_losses : recorded_loss_groups y = [];
}.

Lemma slots_ok x : inv x -> Forall (slot_ok (settings x)) (slots x) /\ NoDup (map (fun sl : slot => (sl.1, sl.2.1)) (slots x)).
Proof.
  intros Hinv. assert (Hg : Forall (fun kp => group_ok x kp.1 kp.2) (pending x)).
  { apply Forall_forall. intros [k p] Hkp. apply Hinv. apply dict_get_unique; [apply Hinv|done]. }
  split.
  - apply Forall_forall. intros sl Hsl. apply list_elem_of_In, in_flat_map in Hsl as ([k p] & Hkp%list_elem_of_In & (be & <- & Hbe%list_elem_of_In)%in_map_iff).
    rewrite Forall_forall in Hg. destruct (Hg _ Hkp) as (s & Hs & _ & Hin & He). rewrite Forall_forall in He. rewrite Forall_forall in Hin.
    destruct (He _ Hbe) as (? & ? & _). split_and!; [done..|]. exists s. split; [done|]. apply Hin. by apply list_elem_of_fmap_2.
  - apply slots_nodup; [apply Hinv|]. eapply Forall_impl; [exact Hg|]. by intros kp (s & _ & ? & _).
Qed.

(** A loop whose bodies leave the state as it is. *)
Lemma for_each_pure {A B} (f : A -> act B) (h : A -> B) l y : Forall (fun a => f a y = (y, Ok (h a))) l -> for_each f l y = (y, Ok (map h l)).
Proof. induction 1 as [|a l Ha _ IH]; [done|]. cbn. unfold mbind, act_bind. by rewrite Ha, IH. Qed.

Lemma classify_open y k :
  completed_keys y = [] -> recorded_loss_groups y = [] -> group_closed y k = false -> classify_restored max_completed_keys k y = (y, Ok v_open).
Proof.
  intros Ec El Hc. unfold classify_restored, mbind, act_bind. destruct (already_closed_run max_completed_keys k y) as (x1 & b & -> & _ & Heq & Hb).
  apply orb_false_iff in Hc as [Hc Hl]. assert (b = false) as -> by (apply Hb; by rewrite Ec).
  rewrite (Heq eq_refl). cbn. unfold loss_known. by rewrite El, Hl.
Qed.

Lemma restore_waiting restored y entries :
  pending y = [] -> rebuild_pending (settings y) entries [] = Ok restored -> completed_keys y = [] -> recorded_loss_groups y = [] ->
  NoDup restored.*1 -> (forall k p, dict_get restored k = Some p -> waiting y k p) ->
  restore_from_journal max_completed_keys entries y = (set_pending restored y, Ok []).
Proof.
  intros Ep Er Ec El Hnd Hw. unfold restore_from_journal, mbind, act_bind, get_state. rewrite Ep. cbn [raise_if mret act_ret lift]. rewrite Er.
  assert (Hall : Forall (fun k => exists p, dict_get restored k = Some p) restored.*1).
  { apply Forall_forall. intros k Hk%dict_mem_keys. unfold dict_mem in Hk. destruct (dict_get restored k); [eauto|done]. }
  rewrite (for_each_pure _ (fun k => (k, v_open))).
  2:{ eapply Forall_impl; [exact Hall|]. intros k [p Hp]. destruct (Hw k p Hp) as [Hc _]. by rewrite (classify_open y k Ec El Hc). }
  cbn [modify]. assert (forall A (h : union_key * verdict -> option A), (forall k, h (k, v_open) = None) -> omap h (map (fun k => (k, v_open)) restored.*1) = []) as Ho.
  { intros A h Hh. generalize restored.*1. intros l. induction l as [|k l IH]; [done|]. cbn. by rewrite Hh. }
  rewrite !Ho by done. cbn [for_each mret act_ret]. rewrite (for_each_pure _ (fun _ => [])).
  2:{ cbn [set_pending pending settings]. eapply Forall_impl; [exact Hall|]. intros k [p Hp]. cbn [set_pending pending settings]. rewrite Hp.
      destruct (Hw k p Hp) as (_ & s & -> & ->). done. }
  cbn [mret act_ret set_pending pending app]. f_equal. f_equal. generalize restored.*1. intros l. by induction l.
Qed.

(** C26. Restoring is the inverse of journalling.  A process that crashed while an
    executor held groups that wait for branches is restarted over the same
    database: from the journal's entries for the held tokens, in any order, the
    restore returns normally and reports nothing, writes nothing, and rebuilds
    every group with the same branches, tokens, arrival times and node states,
    and no other group; the timeout of each group counts from its earliest
    arrival.  (A group whose first arrival the database refused holds nothing,
    and there is nothing to restore of it.) *)
Theorem row_union_restore_round_trip `{!TimeOrder T} ops x0 y entries :
  fresh x0 -> ops_ok x0 ops -> (forall k p, dict_get (pending (reached ops x0)) k = Some p -> waiting (reached ops x0) k p) ->
  restarted (reached ops x0) y -> entries ≡ₚ journal (reached ops x0) ->
  exists restored, restore_from_journal max_completed_keys entries y = (set_pending restored y, Ok []) /\ NoDup restored.*1 /\
    forall k, match dict_get (pending (reached ops x0)) k, dict_get restored k with
              | Some p, Some q => pu_branches q ≡ₚ pu_branches p /\ anchored q
              | Some p, None => pu_branches p = []
              | None, q => q = None
              end.
Proof.
  intros Hf Hok. pose proof (sv_inv _ _ (reached_survives ops x0 (fresh_inv x0 Hf) Hok)) as Hinv. revert Hinv. generalize (reached ops x0). clear x0 ops Hf Hok.
  intros x Hinv Hw [Es En Ed Ep Ec El] (sls & -> & Hperm)%Permutation_map_inv. destruct (slots_ok x Hinv) as [Hsok Hsnd].
  rewrite Hperm in Hsok. rewrite Hperm in Hsnd.
  destruct (rebuild_slots (settings x) sls [] Hsok Hsnd) as (restored & Er & Hrn & Hra & Hrb); [done|constructor|done|].
  assert (Hb : forall k, branches_in restored k ≡ₚ branches_of x k).
  { intros k. rewrite Hrb. cbn. rewrite <- (slots_of_key x k) by apply Hinv. apply Permutation_map. by rewrite Hperm. }
  assert (Hm : forall k, match dict_get (pending x) k, dict_get restored k with
              | Some p, Some q => pu_branches q ≡ₚ pu_branches p /\ anchored q | Some p, None => pu_branches p = [] | None, q => q = None end).
  { intros k. specialize (Hb k). unfold branches_in, branches_of in Hb. destruct (dict_get (pending x) k) as [p|] eqn:Ek; destruct (dict_get restored k) as [q|] eqn:Eq; cbn in Hb; [|..|done].
    - split; [done|]. by eapply Hra.
    - by apply Permutation_nil_l in Hb.
    - destruct (Hra _ _ Eq) as [_ (be & Hbe & _)]. rewrite Hb in Hbe. by apply not_elem_of_nil in Hbe. }
  exists restored. split; [|done]. apply restore_waiting; [done|by rewrite Es|done..|].
  intros k q Hq. specialize (Hm k). rewrite Hq in Hm. destruct (dict_get (pending x) k) as [p|] eqn:Ek; [|done]. destruct Hm as [Hpq _].
  destruct (Hw k p Ek) as (Hc & s & Hs & Hsb). split; [unfold group_closed in *; by rewrite En, Ed|]. exists s. rewrite Es. split; [done|].
  apply not_true_iff_false. apply not_true_iff_false in Hsb. intros Hq'. apply Hsb. rewrite same_branches_true in *. intros n. rewrite <- Hq'.
  by rewrite Hpq.
Qed.
End history.

(** ** A union of two branches *)
Module UnionExample.
Definition config : RowUnionSettings Z := mkUnionSettings "u" ["a"; "b"] (Some 10).
Definition row : PipelineRow := mkRow [("x", PInt 1)] (mkContract OBSERVED [] true).
Definition token (g b : string) : TokenInfo := mkToken "r" (g +:+ b) row [mkFrame EXPAND "e" "0"; mkFrame FORK g b] 0 None.
(** The frames on record of the tokens of three groups. *)
Definition frames : gmap string (list LineageFrame) :=
  list_to_map (map (fun t => (token_id t, lineage_path t)) [token "g" "a"; token "g" "b"; token "h" "a"; token "h" "b"; token "i" "a"]).
(** [refused] are the answers of the database to the first writes. *)
Definition start (refused : list (option exc)) : union_executor Z := mkUnion [("u", config)] [("u", "n")] [] [] ∅ [] [] (mkDb [] [] ∅ frames refused).
Definition arrive (g b : string) (now : Z) : union_op (T := Z) := OpAccept (token g b) "u" now.
(** One group is released, one waits, one is lost while it waits. *)
Definition history : list (union_op (T := Z)) :=
  [arrive "g" "b" 1; arrive "h" "a" 2; arrive "g" "a" 3; arrive "i" "a" 4; OpLost "u" "i" "b"].

Lemma start_fresh refused : fresh (start refused).
Proof.
  split; [|done]. split.
  - intros n s. cbn. case_bool_decide; [|done]. intros [= <-]. split; [done|]. by apply (bool_decide_unpack _).
  - intros n n' node. cbn. by repeat case_bool_decide; subst.
Qed.

Definition on_record (t : TokenInfo) : bool := bool_decide (frames !! token_id t = Some (lineage_path t)).

Lemma arrive_ok refused g b now : token_ok (token g b) -> on_record (token g b) = true -> op_ok (start refused) (arrive g b now).
Proof. intros Hok E%bool_decide_eq_true. split; [done|]. by exists (lineage_path (token g b)). Qed.

Lemma history_ok refused : ops_ok 1 (start refused) history.
Proof.
  apply ops_ok_all; [apply fresh_inv, start_fresh|]. unfold history.
  repeat (apply Forall_cons; split; [first [exact I|apply arrive_ok; vm_compute; reflexivity]|]). by apply Forall_nil.
Qed.

Definition stopped : union_executor Z := reached 1 history (start []).
Definition restart (x : union_executor Z) : union_executor Z := mkUnion (settings x) (node_ids x) [] [] ∅ [] [] (db x).

Lemma stopped_waiting k p : dict_get (pending stopped) k = Some p -> waiting stopped k p.
Proof.
  assert (E : pending stopped = [(("u", "h"), mkPending [("a", mkBranch (token "h" "a") 2 1%nat)] 2)]) by (vm_compute; reflexivity).
  rewrite E. cbn. case_bool_decide as Ek; [|done]. intros [= <-]. subst k. split; [vm_compute; reflexivity|].
  exists config. split; vm_compute; reflexivity.
Qed.

Lemma restart_ok x : restarted x (restart x).
Proof. by split. Qed.

(** The database refuses the second write of a flush: the flush raises, and the
    group it had begun to fail is held with a finished state. *)
Definition outage : list (option exc) := [None; None; Some RunLeadershipLostError].
Definition held : string * BranchEntry Z := ("a", mkBranch (token "h" "a") 2 0%nat).
End UnionExample.

Lemma row_union_conserves_tokens_witness :
  (map token_id (flat_map brought UnionExample.history) ≡ₚ
   map token_id (held_tokens (reached 1 UnionExample.history (UnionExample.start []))) ++
   flat_map consumed_of (run_ops 1 UnionExample.history (UnionExample.start [])).2) /\
  let x := reached 1 [UnionExample.arrive "h" "a" 2] (UnionExample.start UnionExample.outage) in
  (UnionExample.held ∈ branches_of (reached 1 [OpFlush] x) ("u", "h") \/ finished (reached 1 [OpFlush] x) 0).
Proof.
  split.
  - apply (row_union_conserves_tokens 1 UnionExample.history (UnionExample.start [])); [apply UnionExample.start_fresh|apply UnionExample.history_ok|vm_compute; reflexivity].
  - apply (row_union_conserves_tokens 1 [UnionExample.arrive "h" "a" 2] (UnionExample.start UnionExample.outage)); [apply UnionExample.start_fresh| |done|].
    + split; [apply UnionExample.arrive_ok; vm_compute; reflexivity|done].
    + vm_compute. left.
Defined.

Lemma row_union_closed_group_is_frozen_witness :
  group_closed (reached 1 [UnionExample.arrive "g" "a" 9; OpFlush] UnionExample.stopped) ("u", "g") = true /\
  exists k s, dict_get (settings UnionExample.stopped) k.1 = Some s /\ group_closed UnionExample.stopped k = false /\
    group_closed (run_op 1 (UnionExample.arrive "h" "b" 9) UnionExample.stopped).1 k = true.
Proof.
  assert (Hok : ops_ok 1 UnionExample.stopped [UnionExample.arrive "g" "a" 9; OpFlush] /\ op_ok UnionExample.stopped (UnionExample.arrive "h" "b" 9)).
  { split; [split; [|done]|]; (split; [done|]); eexists; (split; [vm_compute; reflexivity|done]). }
  destruct (row_union_closed_group_is_frozen 1 UnionExample.history (UnionExample.start []) (UnionExample.start_fresh _) (UnionExample.history_ok _)) as [H1 H2]. split.
  - apply H1; [apply Hok|vm_compute; reflexivity].
  - destruct (run_op 1 (UnionExample.arrive "h" "b" 9) UnionExample.stopped) as [y [[|o os]|e]] eqn:E; [vm_compute in E; discriminate| |vm_compute in E; discriminate].
    assert (Hr : o_released_tokens o <> []) by (vm_compute in E; injection E as _ <- _; discriminate).
    destruct (H2 _ y (o :: os) o (proj2 Hok) ltac:(discriminate) E ltac:(left) Hr) as (k & s & Hs & Hc & Hy & _). exists k, s. split_and!; assumption.
Defined.

Lemma row_union_release_is_whole_witness :
  exists s g, dict_get (settings (UnionExample.start [])) "u" = Some s /\ fork_group_id (UnionExample.token "h" "b") = Some g /\
    group_closed UnionExample.stopped ("u", g) = false.
Proof.
  destruct (accept 1 (UnionExample.token "h" "b") "u" 8 UnionExample.stopped) as [x' [o|e]] eqn:E.
  - assert (Hr : o_released_tokens o <> []) by (vm_compute in E; injection E as _ <-; discriminate).
    assert (Hrec : recorded UnionExample.stopped (UnionExample.token "h" "b")) by (eexists; split; [vm_compute; reflexivity|done]).
    destruct (row_union_release_is_whole 1 UnionExample.history (UnionExample.start []) (UnionExample.token "h" "b") "u" 8 x' o
                (UnionExample.start_fresh _) (UnionExample.history_ok _) eq_refl Hrec E Hr) as (s & g & ? & ? & ? & _).
    exists s, g. split; [assumption|split; assumption].
  - vm_compute in E. discriminate E.
Defined.

Lemma row_union_restore_round_trip_witness :
  exists restored, restore_from_journal 1 (reverse (journal UnionExample.stopped)) (UnionExample.restart UnionExample.stopped)
      = (set_pending restored (UnionExample.restart UnionExample.stopped), Ok []) /\ NoDup restored.*1 /\
    forall k, match dict_get (pending UnionExample.stopped) k, dict_get restored k with
              | Some p, Some q => pu_branches q ≡ₚ pu_branches p /\ anchored q
              | Some p, None => pu_branches p = []
              | None, q => q = None
              end.
Proof.
  exact (row_union_restore_round_trip 1 UnionExample.history (UnionExample.start []) (UnionExample.restart UnionExample.stopped) _ (UnionExample.start_fresh _) (UnionExample.history_ok _)
           UnionExample.stopped_waiting (UnionExample.restart_ok _) (reverse_Permutation _)).
Defined.
