(* ===== verification/Graph.v ===== *)
(** * Graph: the execution graph (core/dag/graph.py, core/dag/models.py)

    Nodes with what the build knows of them, labelled edges with a routing mode,
    and the readers that the validators use.  The container is the MultiDiGraph
    of networkx, which enters as the class [MultiDiGraph] with what it documents;
    [list_graph] is one instance.  No result depends on the order in which the
    library lists nodes or edges. *)

From S2P Require Import Prelude Enums Contracts ContractFlow.

Inductive NodeType := SOURCE | QUEUE | TRANSFORM | GATE | AGGREGATION | COALESCE | ROW_UNION | COLLECTOR | SINK.
Inductive RoutingMode := MOVE | COPY | DIVERT.

#[export] Instance NodeType_eq_dec : EqDecision NodeType.
Proof. solve_decision. Defined.
#[export] Instance RoutingMode_eq_dec : EqDecision RoutingMode.
Proof. solve_decision. Defined.

Notation node := string.

(** The part of [NodeInfo] that the walks over the graph read; frozensets are
    finite sets. *)
Record NodeInfo := mkNode {
  node_type : NodeType;
  output_schema_config : option SchemaConfig;
  passes_through_input : bool;
  forwards_input_fields : bool;
  removed_input_fields : gset string;
}.

(** Values that [EdgeInfo.__post_init__] accepts. *)
Record EdgeInfo := mkEdge { from_node : node; to_node : node; label : string; edge_mode : RoutingMode }.

#[export] Instance EdgeInfo_eq_dec : EqDecision EdgeInfo.
Proof. solve_decision. Defined.

(** ** The container *)
Class MultiDiGraph (G : Type) := {
  nx_nodes : G -> list (node * NodeInfo);
  nx_out_edges : G -> node -> list EdgeInfo;
  nx_in_edges : G -> node -> list EdgeInfo;
}.

(** What networkx documents of it: nodes are unique, the two listings show the
    same edges, and the ends of an edge are nodes. *)
Class MultiDiGraphLaws (G : Type) `{MultiDiGraph G} := {
  nx_nodes_unique g : NoDup (nx_nodes g).*1;
  nx_out_iff g u e : e ∈ nx_out_edges g u <-> from_node e = u /\ e ∈ nx_in_edges g (to_node e);
  nx_in_to g v e : e ∈ nx_in_edges g v -> to_node e = v;
  nx_ends g v e : e ∈ nx_in_edges g v -> from_node e ∈ (nx_nodes g).*1 /\ to_node e ∈ (nx_nodes g).*1;
}.

Section readers.
Context {G : Type} `{MultiDiGraph G}.
Implicit Types (g : G).

Definition get_node_info g (n : node) : res NodeInfo :=
  match dict_get (nx_nodes g) n with Some info => Ok info | None => Err (KeyError "Node not found") end.

Definition get_outgoing_edges g (n : node) : list EdgeInfo := nx_out_edges g n.
Definition get_incoming_edges g (n : node) : list EdgeInfo := nx_in_edges g n.

Definition get_sources g : list node := map fst (filter (fun ni => node_type ni.2 = SOURCE) (nx_nodes g)).
Definition get_sinks g : list node := map fst (filter (fun ni => node_type ni.2 = SINK) (nx_nodes g)).

Definition is_sink_node g (n : node) : res bool := info ← get_node_info g n; Ok (node_type info == SINK).

(** [graph._graph.predecessors(node)]: each once, over edges of every mode. *)
Definition predecessors g (n : node) : list node := remove_dups (map from_node (nx_in_edges g n)).

(** [get_next_node]. *)
Fixpoint continue_targets g (es : list EdgeInfo) : res (list node) :=
  match es with
  | [] => Ok []
  | e :: es =>
      if negb (label e == "continue") || negb (edge_mode e == MOVE) then continue_targets g es
      else
        sink ← is_sink_node g (to_node e);
        rest ← continue_targets g es;
        Ok (if (sink : bool) then rest else to_node e :: rest)
  end.

Definition get_next_node g (n : node) : res (option node) :=
  next_nodes ← continue_targets g (nx_out_edges g n);
  match next_nodes with
  | [] => Ok None
  | [next] => Ok (Some next)
  | _ => _ ← get_node_info g n; Err (GraphValidationError "Node has multiple continue MOVE edges to processing nodes")
  end.
End readers.

(** ** Success edges *)
Section success.
Context {G : Type} `{MultiDiGraphLaws G}.

(** An edge that a token may take without failing. *)
Definition succeeds (g : G) (u v : node) : Prop :=
  exists e, e ∈ nx_out_edges g u /\ to_node e = v /\ edge_mode e <> DIVERT.

Lemma succeeds_in g u v : succeeds g u v <-> exists e, e ∈ nx_in_edges g v /\ from_node e = u /\ edge_mode e <> DIVERT.
Proof.
  split.
  - intros (e & [Hu He]%nx_out_iff & <- & Hm). by exists e.
  - intros (e & He & <- & Hm). pose proof (nx_in_to _ _ _ He) as Hv. exists e. split_and!; [|done..]. apply nx_out_iff. by rewrite Hv.
Qed.

Lemma succeeds_nodes g u v : succeeds g u v -> u ∈ (nx_nodes g).*1 /\ v ∈ (nx_nodes g).*1.
Proof. intros (e & [<- He]%nx_out_iff & <- & _). by apply nx_ends in He. Qed.
End success.

(** ** A container *)
Record list_graph := mkGraph { g_nodes : list (node * NodeInfo); g_edges : list EdgeInfo }.

(** Nodes by their first entry, edges between nodes. *)
Definition list_nodes (g : list_graph) : list (node * NodeInfo) := foldl (fun d ni => dict_set d ni.1 ni.2) [] (g_nodes g).
Definition list_edges (g : list_graph) : list EdgeInfo :=
  filter (fun e => from_node e ∈ (list_nodes g).*1 /\ to_node e ∈ (list_nodes g).*1) (g_edges g).

#[export] Instance list_graph_nx : MultiDiGraph list_graph := {
  nx_nodes := list_nodes;
  nx_out_edges g u := filter (fun e => from_node e = u) (list_edges g);
  nx_in_edges g v := filter (fun e => to_node e = v) (list_edges g);
}.

#[export] Instance list_graph_laws : MultiDiGraphLaws list_graph.
Proof.
  split.
  - intros g. unfold nx_nodes, list_graph_nx, list_nodes. assert (Hd : NoDup (@nil (node * NodeInfo)).*1) by constructor. revert Hd.
    generalize (@nil (node * NodeInfo)). induction (g_nodes g) as [|ni l IH]; intros d Hd; [done|]. cbn. by apply IH, dict_set_nodup.
  - intros g u e. cbn. rewrite !list_elem_of_filter. naive_solver.
  - intros g v e. cbn. rewrite list_elem_of_filter. naive_solver.
  - intros g v e. cbn. unfold list_edges. rewrite !list_elem_of_filter. naive_solver.
Qed.
