(* ===== verification/GroupBindings.v ===== *)
(** * GroupBindings: which closer closes which group (core/dag/group_bindings.py)

    The registry of bound groups: one binding per gate that forks into a barrier
    and per declared scope.  A FORK frame resolves by its branch name, an EXPAND
    frame by its group id once the mint has registered it. *)

From S2P Require Import Prelude Enums Contracts ContractFlow Lineage Graph.

Inductive CloserKind := CLOSER_COALESCE | CLOSER_ROW_UNION | CLOSER_COLLECTOR.

#[export] Instance CloserKind_eq_dec : EqDecision CloserKind.
Proof. solve_decision. Defined.

Record GroupBinding := mkBinding {
  b_kind : FrameKind;
  opener_node_id : node;
  opener_name : string;
  closer_node_id : node;
  closer_name : string;
  closer_kind : CloserKind;
  policy : string;
  member_roster : list string;
}.

#[export] Instance GroupBinding_eq_dec : EqDecision GroupBinding.
Proof. solve_decision. Defined.

Record GroupBindingRegistry := mkRegistry {
  bindings : list GroupBinding;
  fork_binding_by_member : list (string * GroupBinding);
  expand_binding_by_opener : list (string * GroupBinding);
  expand_groups : list (string * GroupBinding);
}.

(** The loops of [__post_init__]. *)
Fixpoint add_members (b : GroupBinding) (roster : list string) (d : list (string * GroupBinding)) : res (list (string * GroupBinding)) :=
  match roster with
  | [] => Ok d
  | member :: roster =>
      reject dict_mem d member with ValueError "Branch appears in two bound forks' rosters" ;;
      add_members b roster (dict_set d member b)
  end.

Fixpoint index_bindings (bs : list GroupBinding) (forks expands : list (string * GroupBinding))
  : res (list (string * GroupBinding) * list (string * GroupBinding)) :=
  match bs with
  | [] => Ok (forks, expands)
  | b :: bs =>
      match b_kind b with
      | FORK => forks ← add_members b (member_roster b) forks; index_bindings bs forks expands
      | EXPAND => index_bindings bs forks (dict_set expands (opener_name b) b)
      end
  end.

(** [any(count > 1)] over a Counter. *)
Definition has_duplicates (l : list string) : bool := existsb (fun n => (1 <? length (filter (fun m => m = n) l))%nat) l.

(** [GroupBindingRegistry(bindings=...)]. *)
Definition group_binding_registry (bs : list GroupBinding) : res GroupBindingRegistry :=
  reject has_duplicates (map opener_node_id bs) with ValueError "Group opener(s) bound twice" ;;
  reject has_duplicates (map closer_node_id bs) with ValueError "Closer(s) bound twice" ;;
  maps ← index_bindings bs [] [];
  Ok (mkRegistry bs maps.1 maps.2 []).

Definition dict_of {V} (items : list (string * V)) : list (string * V) := foldl (fun d kv => dict_set d kv.1 kv.2) [] items.

Definition by_opener_node (r : GroupBindingRegistry) : list (node * GroupBinding) := dict_of (map (fun b => (opener_node_id b, b)) (bindings r)).
Definition by_closer_node (r : GroupBindingRegistry) : list (node * GroupBinding) := dict_of (map (fun b => (closer_node_id b, b)) (bindings r)).

Definition is_error_routable_closer (r : GroupBindingRegistry) (name : string) : bool := existsb (fun b => closer_name b == name) (bindings r).

Definition binding_for (r : GroupBindingRegistry) (f : LineageFrame) : option GroupBinding :=
  match kind f with
  | FORK => dict_get (fork_binding_by_member r) (member_key f)
  | EXPAND => dict_get (expand_groups r) (group_id f)
  end.

(** Two bindings of one registry are one object exactly if they are equal. *)
Definition register_expand_group (r : GroupBindingRegistry) (g opener : string) : res (GroupBindingRegistry * option GroupBinding) :=
  match dict_get (expand_binding_by_opener r) opener with
  | None => Ok (r, None)
  | Some b =>
      match dict_get (expand_groups r) g with
      | Some existing =>
          reject negb (existing == b) with ValueError "EXPAND group already registered" ;;
          Ok (r, Some existing)
      | None =>
          Ok (mkRegistry (bindings r) (fork_binding_by_member r) (expand_binding_by_opener r) (dict_set (expand_groups r) g b), Some b)
      end
  end.

Definition branch_to (k : CloserKind) (r : GroupBindingRegistry) : list (string * string) :=
  dict_of (flat_map (fun b => if (b_kind b == FORK) && (closer_kind b == k) then map (fun m => (m, closer_name b)) (member_roster b) else [])
             (bindings r)).
Definition branch_to_coalesce : GroupBindingRegistry -> list (string * string) := branch_to CLOSER_COALESCE.
Definition branch_to_row_union : GroupBindingRegistry -> list (string * string) := branch_to CLOSER_ROW_UNION.

(** ** Construction *)
Record ScopeSettings := mkScope { sc_opener : string; sc_closer : string; sc_policy : string }.

Section build.
Context (coalesce_plans : list (string * list string)).
Context (coalesce_policies : list (string * string)).
Context (coalesce_ids row_union_ids collector_ids transform_ids_by_name : list (string * node)).
Context (row_union_branch_specs : list (string * string)).

Definition branch_to_coalesce_name : list (string * string) := dict_of (flat_map (fun plan => map (fun b => (b, plan.1)) plan.2) coalesce_plans).

Definition require {V} (d : list (string * V)) (k : string) : res V :=
  match dict_get d k with Some v => Ok v | None => Err (KeyError k) end.

(** The first branch that some barrier claims decides. *)
Inductive claimed := by_coalesce (name : string) | by_row_union (name : string) | unclaimed.

Fixpoint first_claim (fork_to : list string) : claimed :=
  match fork_to with
  | [] => unclaimed
  | b :: fork_to =>
      match dict_get branch_to_coalesce_name b, dict_get row_union_branch_specs b with
      | Some c, _ => by_coalesce c
      | None, Some u => by_row_union u
      | None, None => first_claim fork_to
      end
  end.

Definition fork_binding (gate : string) (gate_node_id : node) (fork_to : list string) : res (list GroupBinding) :=
  match first_claim fork_to with
  | by_coalesce c =>
      p ← require coalesce_policies c;
      closer ← require coalesce_ids c;
      Ok [mkBinding FORK gate_node_id gate closer c CLOSER_COALESCE p
            (filter (fun b => dict_get branch_to_coalesce_name b = Some c) fork_to)]
  | by_row_union u =>
      closer ← require row_union_ids u;
      Ok [mkBinding FORK gate_node_id gate closer u CLOSER_ROW_UNION "require_all"
            (filter (fun b => dict_get row_union_branch_specs b = Some u) fork_to)]
  | unclaimed => Ok []
  end.

Definition scope_binding (s : ScopeSettings) : res GroupBinding :=
  opener ← require transform_ids_by_name (sc_opener s);
  closer ← require collector_ids (sc_closer s);
  Ok (mkBinding EXPAND opener (sc_opener s) closer (sc_closer s) CLOSER_COLLECTOR (sc_policy s) []).

Definition build_group_binding_registry (fork_rosters : list (string * (node * list string))) (scope_settings : list ScopeSettings)
  : res GroupBindingRegistry :=
  forks ← mapM_res (fun gr => fork_binding gr.1 gr.2.1 gr.2.2) fork_rosters;
  scopes ← mapM_res scope_binding scope_settings;
  group_binding_registry (concat forks ++ scopes).
End build.

(** ** What the registry promises *)
Lemma dict_of_get {V} (items : list (string * V)) k v : dict_get (dict_of items) k = Some v -> (k, v) ∈ items.
Proof.
  unfold dict_of. assert (Hgen : forall d, dict_get (foldl (fun d kv => dict_set d kv.1 kv.2) d items) k = Some v -> (k, v) ∈ items \/ dict_get d k = Some v).
  { induction items as [|[k' v'] items IH]; intros d; cbn; [by right|]. intros [Hin|Hd]%IH; [left; by right|]. rewrite dict_get_set in Hd.
    case_bool_decide as Ek; [|by right]. subst k'. injection Hd as ->. left. by left. }
  intros [|]%Hgen; done.
Qed.

Lemma dict_of_mem {V} (items : list (string * V)) k v : (k, v) ∈ items -> exists w, dict_get (dict_of items) k = Some w.
Proof.
  unfold dict_of. assert (Hgen : forall d, ((k, v) ∈ items \/ is_Some (dict_get d k)) -> exists w, dict_get (foldl (fun d kv => dict_set d kv.1 kv.2) d items) k = Some w).
  { induction items as [|[k' v'] items IH]; intros d; cbn.
    - intros [Hn|[w Hw]]; [by apply not_elem_of_nil in Hn|eauto].
    - intros Hin. apply IH. rewrite dict_get_set. case_bool_decide as Ek; [right; eauto|]. destruct Hin as [[[=]|Hin]%elem_of_cons|Hd]; auto. congruence. }
  intros Hin. apply Hgen. by left.
Qed.

Lemma has_duplicates_false l : has_duplicates l = false <-> NoDup l.
Proof.
  unfold has_duplicates. assert (Hcount : forall n, (1 <? length (filter (fun m => m = n) l))%nat = false <-> (length (filter (fun m => m = n) l) <= 1)%nat).
  { intros n. rewrite Nat.ltb_ge. lia. }
  rewrite <- not_true_iff_false, existsb_exists. setoid_rewrite <- list_elem_of_In. split.
  - intros Hno. apply NoDup_alt. intros i j x Hi Hj. destruct (decide (i = j)) as [|Hne]; [done|exfalso]. apply Hno. exists x.
    split; [apply list_elem_of_lookup; eauto|]. clear Hno Hcount.
    assert (Hgen : forall i j, (i < j)%nat -> l !! i = Some x -> l !! j = Some x -> (1 <? length (filter (fun m => m = x) l))%nat = true).
    { clear. induction l as [|y l IH]; intros i j Hij Hi Hj; [done|]. destruct j as [|j]; [lia|]. rewrite filter_cons. cbn in Hj. destruct i as [|i].
      - cbn in Hi. injection Hi as ->. rewrite decide_True by done. cbn [length]. apply Nat.ltb_lt.
        assert (Hx : x ∈ filter (fun m => m = x) l) by (apply list_elem_of_filter; split; [done|]; apply list_elem_of_lookup; eauto).
        destruct (filter (fun m => m = x) l); [by apply not_elem_of_nil in Hx|cbn; lia].
      - cbn in Hi. specialize (IH i j ltac:(lia) Hi Hj). apply Nat.ltb_lt in IH. apply Nat.ltb_lt. case_decide; cbn; lia. }
    destruct (decide (i < j)%nat); [apply (Hgen i j)|apply (Hgen j i)]; done || lia.
  - intros Hnd (n & _ & Hlt). apply Nat.ltb_lt in Hlt. assert (Hf : NoDup (filter (fun m => m = n) l)) by (by apply NoDup_filter).
    assert (Hall : forall m, m ∈ filter (fun m => m = n) l -> m = n) by (intros m Hm; by apply list_elem_of_filter in Hm as [? _]).
    destruct (filter (fun m => m = n) l) as [|x [|y l']]; cbn in Hlt; [lia|lia|]. apply NoDup_cons in Hf as [Hx _]. apply Hx.
    rewrite (Hall x) by (by left). rewrite (Hall y) by (right; by left). by left.
Qed.

Lemma add_members_ok b roster d d' :
  add_members b roster d = Ok d' ->
  NoDup roster /\ (forall m, m ∈ roster -> dict_get d m = None) /\ forall m, dict_get d' m = if bool_decide (m ∈ roster) then Some b else dict_get d m.
Proof.
  revert d. induction roster as [|m roster IH]; intros d; cbn.
  - intros [= <-]. split_and!; [constructor|by intros m Hm%not_elem_of_nil|]. intros m. by rewrite bool_decide_eq_false_2 by apply not_elem_of_nil.
  - destruct (dict_mem d m) eqn:Em; [done|]. intros (Hnd & Hnew & Hget)%IH.
    assert (Hm : m ∉ roster). { intros Hm%Hnew. rewrite dict_get_set, bool_decide_eq_true_2 in Hm by done. done. }
    split_and!; [by constructor| |].
    + intros m' [->|Hm']%elem_of_cons; [unfold dict_mem in Em; by destruct (dict_get d m)|]. specialize (Hnew m' Hm'). rewrite dict_get_set in Hnew. by case_bool_decide.
    + intros m'. rewrite Hget, dict_get_set. rewrite (bool_decide_ext (m' ∈ m :: roster) (m = m' \/ m' ∈ roster)) by (rewrite elem_of_cons; naive_solver).
      repeat case_bool_decide; naive_solver.
Qed.

Lemma index_bindings_ok bs forks expands maps :
  index_bindings bs forks expands = Ok maps ->
  (forall m b, dict_get maps.1 m = Some b <-> dict_get forks m = Some b \/ (b ∈ bs /\ b_kind b = FORK /\ m ∈ member_roster b)) /\
  (forall n b, dict_get maps.2 n = Some b -> dict_get expands n = Some b \/ (b ∈ bs /\ b_kind b = EXPAND /\ opener_name b = n)) /\
  (forall n, (exists b, b ∈ bs /\ b_kind b = EXPAND /\ opener_name b = n) \/ is_Some (dict_get expands n) -> is_Some (dict_get maps.2 n)).
Proof.
  revert forks expands. induction bs as [|b0 bs IH]; intros forks expands; cbn.
  - intros [= <-]. cbn. split_and!; [|by left|].
    + intros m b. split; [by left|]. intros [|[Hn%not_elem_of_nil _]]; done.
    + by intros n [(b & Hb%not_elem_of_nil & _)|].
  - destruct (b_kind b0) eqn:Ek.
    + destruct (add_members b0 (member_roster b0) forks) as [forks'|] eqn:Ea; [|done]. cbn. apply add_members_ok in Ea as (_ & Hnew & Hget).
      intros (H1 & H2 & H3)%IH. split_and!.
      * intros m b. rewrite H1, Hget, elem_of_cons. case_bool_decide as Hm; split.
        -- intros [[= <-]|Hb]; right; naive_solver.
        -- intros [Hb|([->|Hb] & Hk & Hr)]; [by rewrite Hnew in Hb|by left|right; auto].
        -- intros [Hb|Hb]; [by left|right; naive_solver].
        -- intros [Hb|([->|Hb] & Hk & Hr)]; [by left|done|right; auto].
      * intros n b [Hn|(Hb & Hk & Hn)]%H2; [by left|right]. split_and!; [by right|done..].
      * intros n [(b & [->|Hb]%elem_of_cons & Hk & Hn)|Hn]; [congruence|apply H3; eauto..].
    + intros (H1 & H2 & H3)%IH. split_and!.
      * intros m b. rewrite H1, elem_of_cons. split; [naive_solver|]. intros [Hb|([->|Hb] & Hk & Hr)]; [by left|congruence|right; auto].
      * intros n b [Hd|(Hb & Hk & Hn)]%H2; [|right; split_and!; [by right|done..]]. rewrite dict_get_set in Hd. case_bool_decide as En; [|by left]. injection Hd as <-.
        right. split_and!; [by left|done|done].
      * intros n Hn. apply H3. rewrite dict_get_set. case_bool_decide as En; [by right|].
        destruct Hn as [(b & [->|Hb]%elem_of_cons & Hk & Hn)|Hn]; [done|left; eauto|by right].
Qed.

(** The branches of a kind of closer, as the routing code derives them. *)
Lemma branch_to_iff k r m c :
  (forall b b', b ∈ bindings r -> b' ∈ bindings r -> b_kind b = FORK -> b_kind b' = FORK -> m ∈ member_roster b -> m ∈ member_roster b' -> b = b') ->
  dict_get (branch_to k r) m = Some c <-> exists b, b ∈ bindings r /\ b_kind b = FORK /\ m ∈ member_roster b /\ closer_kind b = k /\ closer_name b = c.
Proof.
  intros Hone. assert (Hitems : forall c, (m, c) ∈ flat_map (fun b => if (b_kind b == FORK) && (closer_kind b == k) then map (fun m => (m, closer_name b)) (member_roster b) else []) (bindings r) <->
      exists b, b ∈ bindings r /\ b_kind b = FORK /\ m ∈ member_roster b /\ closer_kind b = k /\ closer_name b = c).
  { intros c'. rewrite list_elem_of_In, in_flat_map. split.
    - intros (b & Hb%list_elem_of_In & Hm). case_bool_decide as Hk; [|done]. case_bool_decide as Hc; [|done]. cbn in Hm.
      apply in_map_iff in Hm as (m' & [= <- <-] & Hm'%list_elem_of_In). by exists b.
    - intros (b & Hb & Hk & Hm & Hc & <-). exists b. split; [by apply list_elem_of_In|]. rewrite !bool_decide_eq_true_2 by done. cbn.
      apply in_map_iff. exists m. split; [done|]. by apply list_elem_of_In. }
  unfold branch_to. split.
  - intros Hd%dict_of_get. by apply Hitems.
  - intros (b & Hb & Hk & Hm & Hc & <-). destruct (dict_of_mem (flat_map (fun b => if (b_kind b == FORK) && (closer_kind b == k) then map (fun m => (m, closer_name b)) (member_roster b) else []) (bindings r)) m (closer_name b)) as [w Hw].
    { apply Hitems. by exists b. }
    rewrite Hw. apply dict_of_get, Hitems in Hw as (b' & Hb' & Hk' & Hm' & _ & <-). by rewrite (Hone b b').
Qed.

Definition fork_frame (g m : string) : LineageFrame := mkFrame FORK g m.

(** ** Registrations *)

(** What the mint does to a registry: any sequence of registrations that return. *)
Definition registered : GroupBindingRegistry -> GroupBindingRegistry -> Prop :=
  rtc (fun r r' => exists g opener b, register_expand_group r g opener = Ok (r', b)).

Lemma registered_index r r' :
  registered r r' ->
  bindings r' = bindings r /\ fork_binding_by_member r' = fork_binding_by_member r /\ expand_binding_by_opener r' = expand_binding_by_opener r.
Proof.
  induction 1 as [r|r r1 r' (g & opener & b & E) _ IH]; [done|]. destruct IH as (-> & -> & ->). unfold register_expand_group in E.
  destruct (dict_get (expand_binding_by_opener r) opener) as [b0|]; [|by injection E as <- <-].
  destruct (dict_get (expand_groups r) g) as [b1|]; [destruct (negb _); [done|]|]; by injection E as <- <-.
Qed.

(** One registration: the frames of the group resolve to the opener's binding, all
    other frames as before, and a group that resolves to another binding is
    refused. *)
Lemma register_spec r g opener m :
  match register_expand_group r g opener with
  | Ok (r', Some b) =>
      dict_get (expand_binding_by_opener r) opener = Some b /\
      (binding_for r (mkFrame EXPAND g m) = None \/ r' = r /\ binding_for r (mkFrame EXPAND g m) = Some b) /\
      forall f, binding_for r' f = if is_frame EXPAND g f then Some b else binding_for r f
  | Ok (r', None) => r' = r /\ dict_get (expand_binding_by_opener r) opener = None
  | Err _ => exists b b', dict_get (expand_binding_by_opener r) opener = Some b /\ binding_for r (mkFrame EXPAND g m) = Some b' /\ b' <> b
  end.
Proof.
  unfold register_expand_group. destruct (dict_get (expand_binding_by_opener r) opener) as [b|]; [|done].
  destruct (dict_get (expand_groups r) g) as [b'|] eqn:Eg.
  - destruct (bool_decide_reflect (b' = b)) as [->|Hne]; cbn; [|by exists b, b'].
    split_and!; [done|by right|]. intros [[] g' m']; unfold binding_for, is_frame; cbn; repeat case_bool_decide; naive_solver.
  - split_and!; [done|by left|]. intros [[] g' m']; unfold binding_for, is_frame; cbn; rewrite ?dict_get_set; repeat case_bool_decide; naive_solver.
Qed.

(** C20. A registry that was constructed resolves frames unambiguously, at any time
    after any registrations.  Each opener and each closer is bound once.  A FORK
    frame resolves to a binding exactly if that binding is a fork with the
    frame's branch in its roster, so there is at most one; the two maps from
    branches to closers that routing derives say exactly what the resolver says,
    so a branch is never claimed by both kinds.  Right after construction no
    EXPAND frame resolves.  A registration of an expansion group does one of
    three things: if its opener is not bound it changes nothing; if the group
    resolves to another binding than the opener's it is refused; otherwise the
    frames of the group resolve to the opener's binding from then on, the group
    resolved to nothing or to that binding before (and then nothing changes),
    and all other frames, those of the groups registered earlier among them,
    resolve as before. *)
Theorem registry_resolves_frames bs r r1 :
  group_binding_registry bs = Ok r -> registered r r1 ->
  (NoDup (map opener_node_id bs) /\ NoDup (map closer_node_id bs)) /\
  (forall g m b, binding_for r1 (fork_frame g m) = Some b <-> b ∈ bs /\ b_kind b = FORK /\ m ∈ member_roster b) /\
  (forall g m c, dict_get (branch_to_coalesce r1) m = Some c <->
     exists b, binding_for r1 (fork_frame g m) = Some b /\ closer_kind b = CLOSER_COALESCE /\ closer_name b = c) /\
  (forall g m c, dict_get (branch_to_row_union r1) m = Some c <->
     exists b, binding_for r1 (fork_frame g m) = Some b /\ closer_kind b = CLOSER_ROW_UNION /\ closer_name b = c) /\
  (forall g m, binding_for r (mkFrame EXPAND g m) = None) /\
  (forall g opener m,
     match register_expand_group r1 g opener with
     | Ok (r2, Some b) =>
         b ∈ bs /\ b_kind b = EXPAND /\ opener_name b = opener /\
         (binding_for r1 (mkFrame EXPAND g m) = None \/ r2 = r1 /\ binding_for r1 (mkFrame EXPAND g m) = Some b) /\
         forall f, binding_for r2 f = if is_frame EXPAND g f then Some b else binding_for r1 f
     | Ok (r2, None) => r2 = r1 /\ ~ exists b, b ∈ bs /\ b_kind b = EXPAND /\ opener_name b = opener
     | Err _ => exists b b', b ∈ bs /\ b_kind b = EXPAND /\ opener_name b = opener /\ binding_for r1 (mkFrame EXPAND g m) = Some b' /\ b' <> b
     end).
Proof.
  unfold group_binding_registry. destruct (has_duplicates (map opener_node_id bs)) eqn:Eo; [done|].
  destruct (has_duplicates (map closer_node_id bs)) eqn:Ec; [done|]. destruct (index_bindings bs [] []) as [maps|] eqn:Ei; [|done].
  intros [= <-] (Eb & Ef & Ee)%registered_index. cbn in Eb, Ef, Ee.
  apply has_duplicates_false in Eo. apply has_duplicates_false in Ec. apply index_bindings_ok in Ei as (H1 & H2 & H3).
  assert (Hres : forall m b, dict_get maps.1 m = Some b <-> b ∈ bs /\ b_kind b = FORK /\ m ∈ member_roster b).
  { intros m b. rewrite H1. cbn. naive_solver. }
  assert (Hbr : forall k m c, dict_get (branch_to k r1) m = Some c <-> exists b, dict_get maps.1 m = Some b /\ closer_kind b = k /\ closer_name b = c).
  { intros k m c. rewrite branch_to_iff; rewrite Eb.
    - setoid_rewrite Hres. naive_solver.
    - intros b b' Hb Hb' Hk Hk' Hm Hm'. assert (E : dict_get maps.1 m = Some b) by (by apply Hres).
      assert (E' : dict_get maps.1 m = Some b') by (by apply Hres). congruence. }
  assert (Hexp : forall n b, dict_get maps.2 n = Some b -> b ∈ bs /\ b_kind b = EXPAND /\ opener_name b = n) by (by intros n b [|]%H2).
  assert (Hfork : forall g m, binding_for r1 (fork_frame g m) = dict_get maps.1 m) by (intros g m; unfold binding_for; cbn; by rewrite Ef).
  setoid_rewrite Hfork.
  split_and!; [done|done|intros g m b; apply Hres|intros g m c; apply Hbr|intros g m c; apply Hbr|done|].
  intros g opener m. pose proof (register_spec r1 g opener m) as Hs. rewrite Ee in Hs.
  destruct (register_expand_group r1 g opener) as [[r2 [b|]]|e].
  - destruct Hs as (Hd & Hb). destruct (Hexp _ _ Hd) as (? & ? & ?). auto.
  - destruct Hs as (-> & Hd). split; [done|]. intros Hx. destruct (H3 opener (or_introl Hx)) as [b Hb]. congruence.
  - destruct Hs as (b & b' & Hd & Hg & Hne). destruct (Hexp _ _ Hd) as (? & ? & ?). eauto 10.
Qed.

(** Two scopes; a group of the first is registered, and then claimed for the
    second. *)
Lemma registry_resolves_frames_witness :
  let a := mkBinding EXPAND "a" "a" "ca" "ca" CLOSER_COLLECTOR "require_all" [] in
  let b := mkBinding EXPAND "b" "b" "cb" "cb" CLOSER_COLLECTOR "require_all" [] in
  exists r r1, group_binding_registry [a; b] = Ok r /\ register_expand_group r "g" "a" = Ok (r1, Some a) /\
    binding_for r1 (mkFrame EXPAND "g" "m") = Some a /\ is_ok (register_expand_group r1 "g" "b") = false /\ binding_for r (mkFrame EXPAND "g" "m") = None.
Proof.
  intros a b. destruct (group_binding_registry [a; b]) as [r|] eqn:E; [|vm_compute in E; discriminate E].
  destruct (register_expand_group r "g" "a") as [[r1 x]|] eqn:E1; [|vm_compute in E; injection E as <-; vm_compute in E1; discriminate E1].
  assert (Hr1 : registered r r1) by (apply rtc_once; eauto).
  destruct (registry_resolves_frames [a; b] r r1 E Hr1) as (_ & _ & _ & _ & Hnone & Hreg).
  exists r, r1. pose proof (Hnone "g" "m") as Hn. clear Hreg Hr1. vm_compute in E. injection E as <-. vm_compute in E1. injection E1 as <- <-.
  split; [reflexivity|]. split; [reflexivity|]. split; [reflexivity|]. split; [reflexivity|exact Hn].
Defined.
