(* ===== verification/BoundRegions.v ===== *)
(** * BoundRegions: the spans of bound groups (core/dag/bound_regions.py)

    The region of a bound group is what lies between its opener and its closer
    along success edges.  The build computes the regions, refuses partial
    overlap and too deep nesting, and validates that a region has one entry and
    one exit and what may stand inside. *)

From S2P Require Import Prelude Enums Contracts ContractFlow Lineage Graph GroupBindings.

Definition ESCALATION_ITERATIONS_PER_LEVEL : Z := 8.
Definition BASE_FLUSH_ITERATIONS : Z := 1000.

Definition derive_escalation_fixpoint_bound (max_observed_depth : Z) : Z := BASE_FLUSH_ITERATIONS + ESCALATION_ITERATIONS_PER_LEVEL * max_observed_depth.

Record BoundRegion := mkRegion { binding : GroupBinding; member_node_ids : gset node; depth : Z }.

Section regions.
Context {G : Type} `{MultiDiGraph G}.
Implicit Types (g : G) (stop start : node).

(** ** Walks

    [frontier.pop()] takes the node that was appended last.  The loop stops by
    itself when the frontier is empty; fuel that ran out is [None]. *)
Section walk.
Context (next : node -> list node) (stop : node).

(** The body of the inner loops: the closing node is seen and not expanded. *)
Definition visit_edge (st : gset node * list node) (nxt : node) : gset node * list node :=
  let '(seen, frontier) := st in
  if bool_decide (nxt ∈ seen) || (nxt == stop) then
    (if nxt == stop then {[nxt]} ∪ seen else seen, frontier)
  else ({[nxt]} ∪ seen, nxt :: frontier).

Definition visit_edge_from (st : gset node * list node) (nxt : node) : gset node * list node :=
  let '(seen, frontier) := st in
  if bool_decide (nxt ∈ seen) then st
  else ({[nxt]} ∪ seen, if negb (nxt == stop) then nxt :: frontier else frontier).

Fixpoint walk_loop (visit : gset node * list node -> node -> gset node * list node) (fuel : nat) (seen : gset node) (frontier : list node)
  : option (gset node) :=
  match frontier, fuel with
  | [], _ => Some seen
  | _ :: _, O => None
  | current :: frontier, S fuel =>
      let '(seen, frontier) := foldl visit (seen, frontier) (next current) in walk_loop visit fuel seen frontier
  end.
End walk.

Definition success_targets g (n : node) : list node :=
  map to_node (filter (fun e => edge_mode e <> DIVERT) (get_outgoing_edges g n)).
Definition success_origins g (n : node) : list node :=
  map from_node (filter (fun e => edge_mode e <> DIVERT) (get_incoming_edges g n)).

(** Every node is put on the frontier at most once, and the start once more. *)
Definition walk_fuel g : nat := S (length (nx_nodes g)).

Definition forward_reach g start stop : gset node :=
  default ∅ (walk_loop (success_targets g) (visit_edge stop) (walk_fuel g) ∅ [start]).
Definition backward_reach g start stop : gset node :=
  default ∅ (walk_loop (success_origins g) (visit_edge stop) (walk_fuel g) ∅ [start]).
Definition forward_reach_from g (starts : gset node) stop : gset node :=
  default ∅ (walk_loop (success_targets g) (visit_edge_from stop) (walk_fuel g) starts (filter (fun n => n <> stop) (elements starts))).

Definition fork_branch_starts g (b : GroupBinding) (closer_reachable : gset node) : gset node :=
  match b_kind b with
  | EXPAND => {[opener_node_id b]}
  | FORK =>
      list_to_set (map to_node (filter (fun e => edge_mode e <> DIVERT /\ (label e ∈ member_roster b \/ to_node e ∈ closer_reachable))
                                  (get_outgoing_edges g (opener_node_id b))))
  end.

(** ** The regions *)
Definition members_of g (b : GroupBinding) : gset node :=
  (forward_reach g (opener_node_id b) (closer_node_id b) ∩ backward_reach g (closer_node_id b) (opener_node_id b))
  ∖ {[opener_node_id b; closer_node_id b]}.

Definition span (b : GroupBinding) (members : gset node) : gset node := members ∪ {[opener_node_id b; closer_node_id b]}.

(** Disjoint, or strictly nested: one span inside the other's members. *)
Definition well_nested (x y : GroupBinding * gset node) : bool :=
  let s1 := span x.1 x.2 in let s2 := span y.1 y.2 in
  bool_decide (s1 ## s2) || bool_decide (s2 ⊆ x.2) || bool_decide (s1 ⊆ y.2).

Fixpoint all_nested (spans : list (GroupBinding * gset node)) : bool :=
  match spans with [] => true | x :: rest => forallb (well_nested x) rest && all_nested rest end.

(** The number of other spans whose members hold this whole span, plus one. *)
Definition depth_at (spans : list (GroupBinding * gset node)) (i : nat) (x : GroupBinding * gset node) : Z :=
  1 + Z.of_nat (length (filter (fun jy => jy.1 <> i /\ span x.1 x.2 ⊆ jy.2.2) (imap pair spans))).

Definition compute_bound_regions g (r : GroupBindingRegistry) (max_depth : Z) : res (list BoundRegion) :=
  let spans := map (fun b => (b, members_of g b)) (bindings r) in
  reject negb (all_nested spans) with GraphValidationError "Bound regions partially overlap" ;;
  let regions := imap (fun i x => mkRegion x.1 x.2 (depth_at spans i x)) spans in
  reject existsb (fun x => max_depth <? depth x) regions with GraphValidationError "Bound-region nesting depth exceeds the configured maximum" ;;
  Ok regions.

(** ** One entry, one exit *)

(** [any] of a check that may raise, in the order of [sorted]. *)
Fixpoint any_sink g (ns : list node) : res bool :=
  match ns with
  | [] => Ok false
  | n :: ns => sink ← is_sink_node g n; if (sink : bool) then Ok true else any_sink g ns
  end.

Definition sorted_nodes (s : gset node) : list node := sort_by String.leb (elements s).

Definition validate_sese_region g (r : BoundRegion) : res unit :=
  let b := binding r in
  let E := GraphValidationError in
  let in_region := member_node_ids r ∪ {[opener_node_id b; closer_node_id b]} in
  let closer_reachable := backward_reach g (closer_node_id b) (opener_node_id b) in
  let branch_starts := fork_branch_starts g b closer_reachable in
  let forward_only := forward_reach_from g branch_starts (closer_node_id b) ∖ {[closer_node_id b]} in
  sink ← any_sink g (sorted_nodes forward_only);
  reject sink with E "Bound region reaches sink before the region's closer" ;;
  reject existsb (fun n => negb (bool_decide (n ∈ closer_reachable))) (sorted_nodes forward_only)
    with E "Node inside bound region has no success path to the region's closer" ;;
  reject (b_kind b == FORK) &&
         let opener_edges := get_outgoing_edges g (opener_node_id b) in
         let legitimate_targets := map to_node (filter (fun e => edge_mode e <> DIVERT /\ label e ∈ member_roster b) opener_edges) in
         existsb (fun e => negb (edge_mode e == DIVERT) && negb (bool_decide (label e ∈ member_roster b))
                           && negb ((label e == "continue") && bool_decide (to_node e ∈ legitimate_targets))
                           && bool_decide (to_node e ∈ in_region)) opener_edges
    with E "Gate route is not one of the fork's declared branches, but it feeds a node inside the bound region" ;;
  reject existsb (fun n => existsb (fun e => negb (edge_mode e == DIVERT) && negb (bool_decide (from_node e ∈ in_region)))
                             (get_incoming_edges g n))
           (sorted_nodes (member_node_ids r ∪ {[closer_node_id b]}))
    with E "Edge into bound region originates outside the bound region" ;;
  Ok tt.

Fixpoint each_region (f : BoundRegion -> res unit) (rs : list BoundRegion) : res unit :=
  match rs with [] => Ok tt | r :: rs => _ ← f r; each_region f rs end.

Definition validate_sese_regions g : list BoundRegion -> res unit := each_region (validate_sese_region g).

(** ** What may stand inside *)

(** Bound openers; [multi_row] names the transforms that may emit several rows. *)
Definition check_fork_gate (bound_openers : list (node * GroupBinding)) (r : BoundRegion) (gate : node) : res unit :=
  if negb (bool_decide (gate ∈ member_node_ids r)) then Ok tt
  else match dict_get bound_openers gate with
       | None => Err (GraphValidationError "Fork gate inside bound region is unbound")
       | Some b =>
           reject closer_kind b == CLOSER_ROW_UNION with GraphValidationError "Fork gate inside bound region closes at row_union" ;;
           Ok tt
       end.

Definition check_multi_row (bound_openers : list (node * GroupBinding)) (r : BoundRegion) (n : node) : res unit :=
  if negb (bool_decide (n ∈ member_node_ids r)) then Ok tt
  else match dict_get bound_openers n with
       | None => Err (GraphValidationError "Multi-row transform inside bound region is not a declared scope opener")
       | Some inner =>
           reject negb (bool_decide (closer_node_id inner ∈ member_node_ids r))
             with GraphValidationError "Scope opener sits inside bound region but its collector closes outside it" ;;
           Ok tt
       end.

Fixpoint each_node (f : node -> res unit) (ns : list node) : res unit :=
  match ns with [] => Ok tt | n :: ns => _ ← f n; each_node f ns end.

Definition validate_openers_bound_in_region (rs : list BoundRegion) (reg : GroupBindingRegistry) (multi_row_node_ids : list (node * string))
    (fork_gate_node_ids : list node) : res unit :=
  let bound_openers := by_opener_node reg in
  each_region (fun r =>
    _ ← each_node (check_fork_gate bound_openers r) (sort_by String.leb fork_gate_node_ids);
    each_node (check_multi_row bound_openers r) (sort_by String.leb multi_row_node_ids.*1)) rs.

Definition validate_no_aggregations_in_regions (rs : list BoundRegion) (aggregation_node_ids : list (node * string)) : res unit :=
  each_region (fun r =>
    reject existsb (fun n => bool_decide (n ∈ member_node_ids r)) (sort_by String.leb aggregation_node_ids.*1)
      with GraphValidationError "Aggregation is inside bound region" ;;
    Ok tt) rs.
End regions.
