(* ===== verification/RegionTheory.v ===== *)
(** * RegionTheory: what a validated bound region promises

    The walks compute reachability; regions that the build accepts are nested or
    disjoint, with the depth that their nesting has; a validated region is left
    on a success path only through its closer and entered only through its
    opener; and what opens inside it closes inside it. *)

From S2P Require Import Prelude Enums Contracts ContractFlow Lineage Graph GroupBindings BoundRegions.

(** ** Walks compute reachability *)
Section walks.
Context (next : node -> list node) (stop : node).

(** [c] is reached from [a] in one step or more, and not through [stop]. *)
Inductive walked (a : node) : node -> Prop :=
| walked_one b : b ∈ next a -> walked a b
| walked_more b c : walked a b -> b <> stop -> c ∈ next b -> walked a c.

Lemma walked_front a b c : b ∈ next a -> b <> stop -> walked b c -> walked a c.
Proof.
  intros Hb Hs Hc. induction Hc as [c Hc|c d _ IH Hcs Hd].
  - by eapply walked_more; [apply walked_one|..].
  - by eapply walked_more.
Qed.

Lemma visit_edge_agrees st n : visit_edge stop st n = visit_edge_from stop st n.
Proof.
  destruct st as [seen fr]. unfold visit_edge, visit_edge_from. case_bool_decide as Hs; case_bool_decide as He; cbn; try done.
  f_equal. set_solver.
Qed.

Lemma walk_loop_agrees fuel seen fr :
  walk_loop next (visit_edge stop) fuel seen fr = walk_loop next (visit_edge_from stop) fuel seen fr.
Proof.
  revert seen fr. induction fuel as [|fuel IH]; intros seen [|n fr]; try done. cbn.
  assert (forall l st, foldl (visit_edge stop) st l = foldl (visit_edge_from stop) st l) as ->.
  { induction l as [|m l IHl]; intros st; [done|]. cbn. by rewrite visit_edge_agrees, IHl. }
  destruct (foldl _ _ _) as [seen' fr']. apply IH.
Qed.

Lemma visit_all l seen fr :
  exists new, foldl (visit_edge_from stop) (seen, fr) l = (seen ∪ list_to_set l, new ++ fr) /\ NoDup new /\
    forall n, n ∈ new <-> n ∈ l /\ n ∉ seen /\ n <> stop.
Proof.
  revert seen fr. induction l as [|m l IH]; intros seen fr; cbn [foldl].
  - exists []. split_and!; [f_equal; set_solver|constructor|set_solver].
  - unfold visit_edge_from at 2. case_bool_decide as Hm.
    + destruct (IH seen fr) as (new & -> & Hnd & Hn). exists new. split_and!; [f_equal; set_solver|done|]. intros n. rewrite Hn. set_solver.
    + destruct (IH ({[m]} ∪ seen) (if negb (m == stop) then m :: fr else fr)) as (new & -> & Hnd & Hn).
      case_bool_decide as Hs; cbn [negb].
      * exists new. split_and!; [f_equal; set_solver|done|]. intros n. rewrite Hn. set_solver.
      * exists (new ++ [m]). split_and!; [f_equal; [set_solver|by rewrite <- app_assoc]| |].
        -- apply NoDup_app. split_and!; [done| |apply NoDup_singleton]. intros n [_ [Hns _]]%Hn ->%list_elem_of_singleton.
           apply Hns, elem_of_union. left. by apply elem_of_singleton.
        -- intros n. rewrite elem_of_app, Hn, list_elem_of_singleton, elem_of_cons, elem_of_union, elem_of_singleton.
           destruct (decide (n = m)) as [->|Hne]; naive_solver.
Qed.

Context (nodes : gset node).
Hypothesis next_nodes : forall n m, m ∈ next n -> m ∈ nodes.

Section from.
Context (seen0 : gset node) (fr0 : list node).
Hypothesis seen0_frontier : forall n, n ∈ seen0 -> n <> stop -> n ∈ fr0.

(** What is on the way from the starts. *)
Definition on_way (n : node) : Prop := exists a, a ∈ fr0 /\ walked a n.

Record walk_inv (seen : gset node) (fr : list node) : Prop := {
  wi_start : seen0 ⊆ seen;
  wi_seen n : n ∈ seen -> n ∈ seen0 \/ on_way n;
  wi_front n : n ∈ fr -> n ∈ fr0 \/ (n <> stop /\ on_way n);
  wi_done n : n ∈ fr0 \/ (n ∈ seen /\ n <> stop) -> n ∈ fr \/ forall m, m ∈ next n -> m ∈ seen;
}.

Lemma walk_inv_step seen n fr new :
  walk_inv seen (n :: fr) -> (forall m, m ∈ new <-> m ∈ next n /\ m ∉ seen /\ m <> stop) -> walk_inv (seen ∪ list_to_set (next n)) (new ++ fr).
Proof.
  clear seen0_frontier. intros [Hs Hn Hf Hd] Hnew.
  assert (Hway : forall m, m ∈ next n -> on_way m).
  { intros m Hm. destruct (Hf n) as [Hn0|[Hns (a & Ha & Hw)]]; [by left| |].
    - exists n. split; [done|]. by apply walked_one.
    - exists a. split; [done|]. by eapply walked_more. }
  split.
  - set_solver.
  - intros m [Hm|Hm]%elem_of_union; [auto|]. right. apply Hway. set_solver.
  - intros m [Hm%Hnew|Hm]%elem_of_app; [right; naive_solver|]. apply Hf. by right.
  - intros m Hm. destruct (decide (m = n)) as [->|Hne]; [right; set_solver|].
    destruct Hm as [Hm|[[Hm|Hm]%elem_of_union Hms]].
    + destruct (Hd m) as [Hin|Hall]; [by left| |right; set_solver]. set_solver.
    + destruct (Hd m) as [Hin|Hall]; [by right| |right; set_solver]. set_solver.
    + destruct (decide (m ∈ seen)) as [Hseen|Hnot].
      * destruct (Hd m) as [Hin|Hall]; [by right| |right; set_solver]. set_solver.
      * left. apply elem_of_app. left. apply Hnew. set_solver.
Qed.

Lemma walk_loop_exact fuel seen fr :
  walk_inv seen fr -> (size (nodes ∖ seen) + length fr <= fuel)%nat ->
  exists out, walk_loop next (visit_edge_from stop) fuel seen fr = Some out /\ forall n, n ∈ out <-> n ∈ seen0 \/ on_way n.
Proof.
  clear seen0_frontier.
  revert seen fr. induction fuel as [|fuel IH]; intros seen [|m fr] Hinv Hf.
  1,3: exists seen; split; [done|]; intros n; split; [apply Hinv|]; intros [Hn|(a & Ha & Hw)]; [by apply Hinv|];
    (assert (Hdone : forall b, b ∈ fr0 \/ (b ∈ seen /\ b <> stop) -> forall c, c ∈ next b -> c ∈ seen);
       [intros b Hb c Hc; destruct (wi_done _ _ Hinv b Hb) as [Hin|Hall]; [by apply not_elem_of_nil in Hin|auto]|]);
    induction Hw as [b Hb|b c _ IHw Hbs Hc]; eauto.
  - cbn in Hf. lia.
  - cbn [walk_loop]. destruct (visit_all (next m) seen fr) as (new & -> & Hnd & Hnew). apply IH; [by apply walk_inv_step|].
    assert (Hsize : size (list_to_set new : gset node) = length new) by (by apply size_list_to_set).
    assert (Hsub : list_to_set new ∪ nodes ∖ (seen ∪ list_to_set (next m)) ⊆ nodes ∖ seen).
    { intros x [Hx|Hx]%elem_of_union; [|set_solver]. apply elem_of_list_to_set, Hnew in Hx. apply elem_of_difference. split; [|naive_solver].
      by apply (next_nodes m), Hx. }
    apply subseteq_size in Hsub. rewrite size_union in Hsub.
    2:{ intros x Hx%elem_of_list_to_set Hx'. apply Hnew in Hx. set_solver. }
    cbn [length] in Hf. rewrite length_app. lia.
Qed.

Lemma walk_start : walk_inv seen0 fr0.
Proof. split; [done|auto|auto|]. intros n [Hn|[Hn Hs]]; left; auto. Qed.
End from.
End walks.

Lemma length_filter_lt {A} (P Q : A -> Prop) `{forall x, Decision (P x), forall x, Decision (Q x)} (l : list A) a :
  (forall x, x ∈ l -> Q x -> P x) -> a ∈ l -> P a -> ~ Q a -> (length (filter Q l) < length (filter P l))%nat.
Proof.
  intros HQP Ha HPa HQa. induction l as [|x l IH]; [by apply not_elem_of_nil in Ha|]. rewrite !filter_cons.
  assert (Hle : (length (filter Q l) <= length (filter P l))%nat).
  { clear -HQP. induction l as [|y l IH]; [done|]. rewrite !filter_cons. assert (Hy : Q y -> P y) by (apply HQP; right; left).
    assert (HQP' : forall z, z ∈ x :: l -> Q z -> P z) by (intros z Hz; apply HQP; set_solver). specialize (IH HQP').
    repeat case_decide; cbn; try lia. tauto. }
  apply elem_of_cons in Ha as [<-|Ha].
  - rewrite (decide_True (P := P a)), (decide_False (P := Q a)) by done. cbn. lia.
  - assert (IH' : (length (filter Q l) < length (filter P l))%nat) by (apply IH; [|done]; intros y Hy; apply HQP; by right).
    assert (Hx : Q x -> P x) by (apply HQP; left). repeat case_decide; cbn; try lia. tauto.
Qed.

Section graph.
Context {G : Type} `{MultiDiGraphLaws G} (g : G).
Implicit Types (stop a n : node) (b : GroupBinding) (r : BoundRegion).

Lemma success_targets_iff u v : v ∈ success_targets g u <-> succeeds g u v.
Proof.
  unfold success_targets, get_outgoing_edges, succeeds. rewrite list_elem_of_fmap. setoid_rewrite list_elem_of_filter. naive_solver.
Qed.

Lemma success_origins_iff u v : u ∈ success_origins g v <-> succeeds g u v.
Proof.
  rewrite succeeds_in. unfold success_origins, get_incoming_edges. rewrite list_elem_of_fmap. setoid_rewrite list_elem_of_filter. naive_solver.
Qed.

Definition all_nodes : gset node := list_to_set (nx_nodes g).*1.

Lemma all_nodes_size : size all_nodes = length (nx_nodes g).
Proof. unfold all_nodes. rewrite size_list_to_set by apply nx_nodes_unique. by rewrite length_fmap. Qed.

(** Reached along success edges, not through [stop]; forwards and backwards. *)
Notation forwards := (walked (success_targets g)).
Notation backwards := (walked (success_origins g)).

Lemma reach_exact (next : node -> list node) a stop n :
  (forall u v, v ∈ next u -> v ∈ all_nodes) ->
  n ∈ (default ∅ (walk_loop next (visit_edge stop) (walk_fuel g) ∅ [a]) : gset node) <-> walked next stop a n.
Proof.
  intros Hnext. rewrite walk_loop_agrees. destruct (walk_loop_exact next stop all_nodes Hnext ∅ [a] (walk_fuel g) ∅ [a]) as (out & -> & Hout).
  - apply walk_start. set_solver.
  - unfold walk_fuel. cbn [length]. pose proof (subseteq_size (all_nodes ∖ ∅) all_nodes ltac:(set_solver)) as Hs. rewrite all_nodes_size in Hs. lia.
  - cbn. rewrite Hout. unfold on_way. setoid_rewrite list_elem_of_singleton. set_solver.
Qed.

Lemma forward_reach_exact a stop n : n ∈ forward_reach g a stop <-> forwards stop a n.
Proof.
  apply reach_exact. intros u v [_ Hv]%success_targets_iff%succeeds_nodes. by apply elem_of_list_to_set.
Qed.

Lemma backward_reach_exact a stop n : n ∈ backward_reach g a stop <-> backwards stop a n.
Proof.
  apply reach_exact. intros u v [Hv _]%success_origins_iff%succeeds_nodes. by apply elem_of_list_to_set.
Qed.

Lemma forward_reach_from_exact (starts : gset node) stop n :
  starts ⊆ all_nodes \/ (size starts <= 1)%nat ->
  n ∈ forward_reach_from g starts stop <-> n ∈ starts \/ exists a, a ∈ starts /\ a <> stop /\ forwards stop a n.
Proof.
  intros Hsz. unfold forward_reach_from. set (fr := filter (fun n => n <> stop) (elements starts)).
  assert (Hfr : forall a, a ∈ fr <-> a ∈ starts /\ a <> stop).
  { intros a. unfold fr. rewrite list_elem_of_filter, elem_of_elements. tauto. }
  destruct (walk_loop_exact (success_targets g) stop all_nodes) with (seen0 := starts) (fr0 := fr) (fuel := walk_fuel g) (seen := starts) (fr := fr)
    as (out & -> & Hout).
  - intros u v [_ Hv]%success_targets_iff%succeeds_nodes. by apply elem_of_list_to_set.
  - apply walk_start. intros m Hm Hs. by apply Hfr.
  - assert (Hl : (length fr <= size starts)%nat) by (unfold fr, size, set_size; apply length_filter).
    unfold walk_fuel. rewrite <- all_nodes_size. destruct Hsz as [Hsub|Hone].
    + pose proof (size_difference all_nodes starts Hsub). pose proof (subseteq_size _ _ Hsub). lia.
    + pose proof (subseteq_size (all_nodes ∖ starts) all_nodes ltac:(set_solver)). lia.
  - cbn. rewrite Hout. unfold on_way. setoid_rewrite Hfr. naive_solver.
Qed.

(** ** The regions that the build accepts *)
Lemma members_iff (b : GroupBinding) n :
  n ∈ members_of g b <->
  forwards (closer_node_id b) (opener_node_id b) n /\ backwards (opener_node_id b) (closer_node_id b) n /\
  n <> opener_node_id b /\ n <> closer_node_id b.
Proof. unfold members_of. rewrite elem_of_difference, elem_of_intersection, forward_reach_exact, backward_reach_exact. set_solver. Qed.

Lemma own_ends_outside (b : GroupBinding) : opener_node_id b ∉ members_of g b /\ closer_node_id b ∉ members_of g b.
Proof. unfold members_of. set_solver. Qed.

Definition region_span r : gset node := span (binding r) (member_node_ids r).

(** A region strictly inside another one. *)
Definition inside r r' : Prop := region_span r ⊆ member_node_ids r'.

Lemma all_nested_lookup (l : list (GroupBinding * gset node)) i j x y :
  all_nested l = true -> (i < j)%nat -> l !! i = Some x -> l !! j = Some y -> well_nested x y = true.
Proof.
  revert i j. induction l as [|z l IH]; intros [|i] [|j] Hall Hij Hx Hy; try done; try lia; cbn in Hall; apply andb_true_iff in Hall as [Hz Hall].
  - cbn in Hx. injection Hx as ->. rewrite forallb_forall in Hz. apply Hz, list_elem_of_In. apply list_elem_of_lookup. by exists j.
  - apply (IH i j); [done|lia|done|done].
Qed.

Section computed.
Context (reg : GroupBindingRegistry) (max_depth : Z) (rs : list BoundRegion).
Hypothesis computed : compute_bound_regions g reg max_depth = Ok rs.

Let spans := map (fun b => (b, members_of g b)) (bindings reg).

Lemma computed_facts :
  all_nested spans = true /\ rs = imap (fun i x => mkRegion x.1 x.2 (depth_at spans i x)) spans /\ Forall (fun r => depth r <= max_depth) rs.
Proof.
  revert computed. unfold compute_bound_regions. fold spans. destruct (all_nested spans); [|done]. cbn [negb].
  destruct (existsb _ _) eqn:E; [done|]. intros [= <-]. split_and!; [done..|]. apply Forall_forall. intros r Hr.
  destruct (max_depth <? depth r) eqn:Hd; [|lia]. assert (Ht : existsb (fun x => max_depth <? depth x) (imap (fun i x => mkRegion x.1 x.2 (depth_at spans i x)) spans) = true).
  { apply existsb_exists. exists r. split; [by apply list_elem_of_In|done]. }
  congruence.
Qed.

Lemma region_lookup i r :
  rs !! i = Some r <-> exists b, bindings reg !! i = Some b /\ r = mkRegion b (members_of g b) (depth_at spans i (b, members_of g b)).
Proof.
  destruct computed_facts as (_ & -> & _). rewrite list_lookup_imap. unfold spans at 2. rewrite list_lookup_fmap.
  destruct (bindings reg !! i) as [b|]; cbn; naive_solver.
Qed.

Lemma span_lookup i r : rs !! i = Some r -> spans !! i = Some (binding r, member_node_ids r) /\ member_node_ids r = members_of g (binding r).
Proof. intros (b & Hb & ->)%region_lookup. unfold spans. rewrite list_lookup_fmap, Hb. done. Qed.

Lemma regions_nested i j r r' : rs !! i = Some r -> rs !! j = Some r' -> i <> j -> region_span r ## region_span r' \/ inside r r' \/ inside r' r.
Proof.
  intros [Hi _]%span_lookup [Hj _]%span_lookup Hne. destruct computed_facts as (Hall & _ & _).
  assert (Hw : well_nested (binding r, member_node_ids r) (binding r', member_node_ids r') = true \/
               well_nested (binding r', member_node_ids r') (binding r, member_node_ids r) = true).
  { destruct (decide (i < j)%nat); [left|right]; (eapply all_nested_lookup; [exact Hall| |done|done]); lia. }
  unfold well_nested in Hw. cbn [fst snd] in Hw. rewrite !orb_true_iff, !bool_decide_eq_true in Hw. unfold inside, region_span. set_solver.
Qed.

Lemma inside_irrefl r : r ∈ rs -> ~ inside r r.
Proof.
  intros (i & [_ Hm]%span_lookup)%list_elem_of_lookup Hin. destruct (own_ends_outside (binding r)) as [Ho _]. apply Ho. rewrite <- Hm. apply Hin.
  unfold region_span, span. set_solver.
Qed.

Lemma inside_trans r1 r2 r3 : inside r1 r2 -> inside r2 r3 -> inside r1 r3.
Proof. unfold inside, region_span, span. set_solver. Qed.

(** Going inward, the depth grows. *)
Lemma depth_inside i j r r' : rs !! i = Some r -> rs !! j = Some r' -> inside r r' -> depth r' < depth r.
Proof.
  intros Hi Hj Hin. pose proof (span_lookup i r Hi) as [Hsi Hmi]. pose proof (span_lookup j r' Hj) as [Hsj Hmj].
  assert (Hri : r ∈ rs) by (apply list_elem_of_lookup; eauto).
  assert (Hdep : forall k r0, rs !! k = Some r0 ->
            depth r0 = 1 + Z.of_nat (length (filter (fun jy => jy.1 <> k /\ region_span r0 ⊆ jy.2.2) (imap pair spans)))).
  { intros k r0 (b & _ & ->)%region_lookup. done. }
  rewrite (Hdep _ _ Hi), (Hdep _ _ Hj). apply Zplus_lt_compat_l, inj_lt.
  apply (length_filter_lt _ _ _ (j, (binding r', member_node_ids r'))).
  - intros [k [b m]] Hk [Hkj Hsub]. cbn [fst snd] in *. split; [|unfold inside, region_span, span in *; set_solver].
    intros ->. apply list_elem_of_lookup in Hk as (k' & Hk). rewrite list_lookup_imap in Hk. destruct (spans !! k') as [x|] eqn:E; [|done].
    injection Hk as -> ->. rewrite Hsi in E. injection E as <- <-. apply (inside_irrefl r); [done|]. by apply (inside_trans r r').
  - apply list_elem_of_lookup. exists j. by rewrite list_lookup_imap, Hsj.
  - cbn. split; [|done]. intros ->. rewrite Hi in Hj. injection Hj as ->. by apply (inside_irrefl r').
  - cbn. tauto.
Qed.
End computed.

(** C13. The regions that the build accepts form a forest.  They are those of the
    registry's bindings, in order; the members of a region are exactly the nodes
    on success paths from its opener to its closer; two regions are disjoint or
    one lies, opener and closer included, among the members of the other; the
    recorded depth grows strictly inwards and stays within the configured
    maximum. *)
Theorem accepted_regions_are_nested reg max_depth rs :
  compute_bound_regions g reg max_depth = Ok rs ->
  map binding rs = bindings reg /\
  (forall r n, r ∈ rs -> n ∈ member_node_ids r <->
     forwards (closer_node_id (binding r)) (opener_node_id (binding r)) n /\
     backwards (opener_node_id (binding r)) (closer_node_id (binding r)) n /\
     n <> opener_node_id (binding r) /\ n <> closer_node_id (binding r)) /\
  (forall i j r r', rs !! i = Some r -> rs !! j = Some r' -> i <> j -> region_span r ## region_span r' \/ inside r r' \/ inside r' r) /\
  (forall i j r r', rs !! i = Some r -> rs !! j = Some r' -> inside r r' -> depth r' < depth r) /\
  Forall (fun r => 1 <= depth r <= max_depth) rs.
Proof.
  intros Hc. split_and!.
  - apply list_eq. intros i. rewrite list_lookup_fmap. destruct (rs !! i) as [r|] eqn:E; cbn.
    + apply (region_lookup reg max_depth rs Hc) in E as (b & -> & ->). done.
    + destruct (bindings reg !! i) as [b|] eqn:Eb; [|done].
      assert (rs !! i = Some (mkRegion b (members_of g b) (depth_at (map (fun b => (b, members_of g b)) (bindings reg)) i (b, members_of g b))))
        by (apply (region_lookup reg max_depth rs Hc); eauto). congruence.
  - intros r n (i & [_ ->]%(span_lookup reg max_depth rs Hc))%list_elem_of_lookup. apply members_iff.
  - by apply (regions_nested reg max_depth).
  - by apply (depth_inside reg max_depth).
  - apply Forall_forall. intros r Hr. destruct (computed_facts reg max_depth rs Hc) as (_ & _ & Hd). rewrite Forall_forall in Hd. split; [|by apply Hd].
    apply list_elem_of_lookup in Hr as (i & (b & _ & ->)%(region_lookup reg max_depth rs Hc)). cbn. unfold depth_at. lia.
Qed.

(** ** One entry, one exit *)
Lemma each_region_ok f rs : each_region f rs = Ok tt <-> Forall (fun r => f r = Ok tt) rs.
Proof.
  induction rs as [|r rs IH]; [done|]. cbn. rewrite Forall_cons, <- IH. destruct (f r) as [[]|]; cbn; naive_solver.
Qed.

Lemma each_node_ok f ns : each_node f ns = Ok tt <-> Forall (fun n => f n = Ok tt) ns.
Proof.
  induction ns as [|n ns IH]; [done|]. cbn. rewrite Forall_cons, <- IH. destruct (f n) as [[]|]; cbn; naive_solver.
Qed.

Lemma any_sink_false ns : any_sink g ns = Ok false -> Forall (fun n => is_sink_node g n = Ok false) ns.
Proof.
  induction ns as [|n ns IH]; [constructor|]. cbn. destruct (is_sink_node g n) as [[]|] eqn:E; cbn; [done| |done]. intros Hs. constructor; auto.
Qed.

Lemma elem_of_sorted_nodes (X : gset node) n : n ∈ sorted_nodes X <-> n ∈ X.
Proof. unfold sorted_nodes. by rewrite sort_by_perm, elem_of_elements. Qed.

Lemma existsb_false_Forall {A} (f : A -> bool) l : existsb f l = false <-> Forall (fun x => f x = false) l.
Proof. induction l as [|x l IH]; [done|]. cbn. by rewrite orb_false_iff, Forall_cons, IH. Qed.

(** The nodes that tokens of the group enter first. *)
Definition branch_entry b n : Prop :=
  match b_kind b with
  | EXPAND => n = opener_node_id b
  | FORK => exists e, e ∈ get_outgoing_edges g (opener_node_id b) /\ edge_mode e <> DIVERT /\ label e ∈ member_roster b /\ to_node e = n
  end.

Definition forward_only b : gset node :=
  forward_reach_from g (fork_branch_starts g b (backward_reach g (closer_node_id b) (opener_node_id b))) (closer_node_id b) ∖ {[closer_node_id b]}.

Record sese r : Prop := {
  se_inside n : n ∈ forward_only (binding r) ->
    is_sink_node g n = Ok false /\ n ∈ backward_reach g (closer_node_id (binding r)) (opener_node_id (binding r));
  se_routes e : b_kind (binding r) = FORK -> e ∈ get_outgoing_edges g (opener_node_id (binding r)) -> edge_mode e <> DIVERT ->
    to_node e ∈ region_span r -> label e ∈ member_roster (binding r) \/ (label e = "continue" /\ branch_entry (binding r) (to_node e));
  se_entry u n : n ∈ member_node_ids r \/ n = closer_node_id (binding r) -> succeeds g u n -> u ∈ region_span r;
}.

Lemma validated_sese r : validate_sese_region g r = Ok tt -> sese r.
Proof.
  unfold validate_sese_region. fold (forward_only (binding r)). destruct (any_sink g _) as [[]|] eqn:Es; [done| |done]. cbn [mbind res_bind].
  apply any_sink_false in Es. destruct (existsb _ (sorted_nodes (forward_only (binding r)))) eqn:Er; [done|]. apply existsb_false_Forall in Er.
  destruct (_ && _) eqn:Ek; [done|]. destruct (existsb _ (sorted_nodes _)) eqn:Ee; [done|]. apply existsb_false_Forall in Ee. intros _.
  rewrite Forall_forall in Es. rewrite Forall_forall in Er. rewrite Forall_forall in Ee. split.
  - intros n Hn. apply elem_of_sorted_nodes in Hn. split; [by apply Es|]. apply Er in Hn. by case_bool_decide.
  - intros e Hk He Hm Hin. rewrite Hk in Ek. cbn in Ek. apply existsb_false_Forall in Ek. rewrite Forall_forall in Ek. specialize (Ek e He).
    unfold branch_entry. rewrite Hk. destruct (decide (label e ∈ member_roster (binding r))) as [|Hl]; [by left|right].
    assert (Hin' : to_node e ∈ member_node_ids r ∪ {[opener_node_id (binding r); closer_node_id (binding r)]}) by exact Hin.
    rewrite (bool_decide_eq_false_2 (edge_mode e = DIVERT)), (bool_decide_eq_false_2 (label e ∈ _)), (bool_decide_eq_true_2 (_ ∈ _ ∪ _)) in Ek by done.
    cbn in Ek. rewrite andb_true_r in Ek. apply negb_false_iff, andb_true_iff in Ek as [Hc Ht].
    apply bool_decide_eq_true in Hc. apply bool_decide_eq_true in Ht. split; [done|].
    apply list_elem_of_fmap in Ht as (e' & Et & [[Hm' Hl'] He']%list_elem_of_filter). exists e'. by rewrite Et.
  - intros u n Hn (e & He & <- & Hm)%succeeds_in. assert (Hn' : n ∈ sorted_nodes (member_node_ids r ∪ {[closer_node_id (binding r)]})).
    { apply elem_of_sorted_nodes. set_solver. }
    apply Ee, existsb_false_Forall in Hn'. rewrite Forall_forall in Hn'. specialize (Hn' e He).
    rewrite (bool_decide_eq_false_2 (edge_mode e = DIVERT)) in Hn' by done. cbn in Hn'. by case_bool_decide.
Qed.

(** Success paths. *)
Fixpoint path (l : list node) : Prop := match l with u :: (v :: _) as l' => succeeds g u v /\ path l' | _ => True end.

Lemma fork_starts_nodes b X : fork_branch_starts g b X ⊆ all_nodes \/ (size (fork_branch_starts g b X) <= 1)%nat.
Proof.
  unfold fork_branch_starts. destruct (b_kind b); [left|right; by rewrite size_singleton].
  intros n (e & -> & [_ [_ He]%nx_out_iff]%list_elem_of_filter)%elem_of_list_to_set%list_elem_of_fmap.
  apply elem_of_list_to_set. by apply nx_ends in He as [_ ?].
Qed.

Lemma entry_start b X n : branch_entry b n -> n ∈ fork_branch_starts g b X.
Proof.
  unfold branch_entry, fork_branch_starts. destruct (b_kind b); [|by intros ->; apply elem_of_singleton].
  intros (e & He & Hm & Hl & <-). apply elem_of_list_to_set, list_elem_of_fmap_2, list_elem_of_filter. auto.
Qed.

Section validated.
Context (r : BoundRegion).
Hypothesis (Hr : member_node_ids r = members_of g (binding r)) (Hs : sese r).
#[local] Notation b := (binding r).
#[local] Notation X := (backward_reach g (closer_node_id (binding r)) (opener_node_id (binding r))).

(** Reached from a branch entry before the closer. *)
Definition before_closer n : Prop :=
  n <> closer_node_id b /\ n ∈ forward_reach_from g (fork_branch_starts g b X) (closer_node_id b) /\
  (n = opener_node_id b \/ forwards (closer_node_id b) (opener_node_id b) n).

Lemma before_closer_entry n : branch_entry b n -> n <> closer_node_id b -> before_closer n.
Proof.
  intros Hn Hc. split_and!; [done| |].
  - apply forward_reach_from_exact; [apply fork_starts_nodes|]. left. by apply entry_start.
  - unfold branch_entry in Hn. destruct (b_kind b); [|by left]. right. destruct Hn as (e & He & Hm & _ & <-). apply walked_one, success_targets_iff. by exists e.
Qed.

Lemma before_closer_step n m : before_closer n -> succeeds g n m -> m <> closer_node_id b -> before_closer m.
Proof.
  intros (Hc & Hf & Ho) Hm Hmc. apply success_targets_iff in Hm. split_and!; [done| |right].
  - apply forward_reach_from_exact in Hf; [|apply fork_starts_nodes]. apply forward_reach_from_exact; [apply fork_starts_nodes|]. right.
    destruct Hf as [Hf|(a & Ha & Hac & Hw)]; [exists n|exists a]; (split_and!; [done..|]); [by apply walked_one|by eapply walked_more].
  - destruct Ho as [->|Ho]; [by apply walked_one|by eapply walked_more].
Qed.

Lemma before_closer_inside n : before_closer n -> (n ∈ member_node_ids r \/ n = opener_node_id b) /\ is_sink_node g n = Ok false.
Proof.
  intros (Hc & Hf & Ho). destruct (se_inside _ Hs n) as [Hsink Hback]; [unfold forward_only; set_solver|]. split; [|done].
  destruct (decide (n = opener_node_id b)) as [|Hno]; [by right|left]. rewrite Hr, members_iff.
  apply backward_reach_exact in Hback. destruct Ho as [|Ho]; [done|]. done.
Qed.

Lemma path_stays n l : before_closer n -> path (n :: l) -> closer_node_id b ∉ n :: l -> Forall before_closer (n :: l).
Proof.
  clear Hr Hs. revert n. induction l as [|m l IH]; intros n Hn Hp Hc; [by constructor|]. destruct Hp as [Hnm Hp]. constructor; [done|].
  apply IH; [|done|set_solver]. apply (before_closer_step n); [done|done|set_solver].
Qed.

Lemma path_enters n l :
  n ∉ region_span r -> path (n :: l) -> opener_node_id b ∉ n :: l -> Forall (fun m => m ∉ region_span r) (n :: l).
Proof.
  clear Hr. revert n. induction l as [|m l IH]; intros n Hn Hp Hc; [by constructor|]. destruct Hp as [Hnm Hp]. constructor; [done|].
  apply IH; [|done|set_solver]. intros Hm. apply Hn. apply (se_entry _ Hs n m); [|done].
  unfold region_span, span in Hm. set_solver.
Qed.
End validated.

(** C9. A validated region has one entry and one exit.  On any success path from a
    branch entry of the group (from the opener itself, for a scope), as long as
    the closer has not been passed, every node is a member of the region (or the
    opener) and none is a sink: tokens of the group leave only through its
    closer.  A success path from outside the region that ends at a member or at
    the closer has passed the opener.  And of the opener's own success edges into
    the region each is a declared branch, or the builder's dead [continue] edge
    to a branch's own entry: no token without the group's frame comes in. *)
Theorem validated_region_is_sese reg max_depth rs r :
  compute_bound_regions g reg max_depth = Ok rs -> validate_sese_regions g rs = Ok tt -> r ∈ rs ->
  (forall n l, branch_entry (binding r) n -> path (n :: l) -> closer_node_id (binding r) ∉ n :: l ->
     Forall (fun m => (m ∈ member_node_ids r \/ m = opener_node_id (binding r)) /\ is_sink_node g m = Ok false) (n :: l)) /\
  (forall n l m, n ∉ region_span r -> path (n :: l) -> last (n :: l) = Some m ->
     m ∈ member_node_ids r \/ m = closer_node_id (binding r) -> opener_node_id (binding r) ∈ n :: l) /\
  (forall e, b_kind (binding r) = FORK -> e ∈ get_outgoing_edges g (opener_node_id (binding r)) -> edge_mode e <> DIVERT -> to_node e ∈ region_span r ->
     label e ∈ member_roster (binding r) \/ (label e = "continue" /\ branch_entry (binding r) (to_node e))).
Proof.
  intros Hc Hv Hr. apply each_region_ok in Hv. rewrite Forall_forall in Hv. pose proof (validated_sese r (Hv r Hr)) as Hs.
  apply list_elem_of_lookup in Hr as (i & Hi). destruct (span_lookup reg max_depth rs Hc i r Hi) as [_ Hm]. split_and!.
  - intros n l Hn Hp Hcl. eapply Forall_impl; [apply (path_stays r n l); [|done|done]|].
    + apply before_closer_entry; [done|set_solver].
    + intros m. by apply before_closer_inside.
  - intros n l m Hn Hp Hl Hm'. destruct (decide (opener_node_id (binding r) ∈ n :: l)) as [|Hno]; [done|].
    pose proof (path_enters r Hs n l Hn Hp Hno) as Hall. rewrite Forall_forall in Hall. exfalso. apply (Hall m).
    + apply last_Some in Hl as (l' & ->). apply elem_of_app. right. by left.
    + unfold region_span, span. set_solver.
  - intros e. apply (se_routes r Hs).
Qed.

(** C21. What opens inside a region closes inside it.  If the build accepts the
    regions and what stands inside them, then every fork gate and every multi-row
    transform among the members of a region opens a bound group of its own whose
    whole span, closer included, lies among the members; a fork's group is not
    closed by a row union, which would release several tokens per member; and no
    aggregation stands inside any region. *)
Theorem inner_groups_close_inside reg max_depth rs multi gates aggregations r :
  compute_bound_regions g reg max_depth = Ok rs ->
  validate_openers_bound_in_region rs reg multi gates = Ok tt -> validate_no_aggregations_in_regions rs aggregations = Ok tt -> r ∈ rs ->
  (forall n, n ∈ gates -> n ∈ member_node_ids r ->
     exists r', r' ∈ rs /\ opener_node_id (binding r') = n /\ inside r' r /\ closer_kind (binding r') <> CLOSER_ROW_UNION) /\
  (forall n, n ∈ multi.*1 -> n ∈ member_node_ids r -> exists r', r' ∈ rs /\ opener_node_id (binding r') = n /\ inside r' r) /\
  (forall n, n ∈ aggregations.*1 -> n ∉ member_node_ids r).
Proof.
  intros Hc Ho Ha Hr. apply each_region_ok in Ho. rewrite Forall_forall in Ho. specialize (Ho r Hr).
  apply each_region_ok in Ha. rewrite Forall_forall in Ha. specialize (Ha r Hr).
  destruct (each_node (check_fork_gate (by_opener_node reg) r) _) as [[]|] eqn:Eg; [|done]. cbn in Ho.
  apply each_node_ok in Eg. apply each_node_ok in Ho. rewrite sort_by_perm in Eg. rewrite sort_by_perm in Ho. rewrite Forall_forall in Eg. rewrite Forall_forall in Ho.
  assert (Hinner : forall n b, dict_get (by_opener_node reg) n = Some b -> n ∈ member_node_ids r ->
            exists r', r' ∈ rs /\ binding r' = b /\ opener_node_id (binding r') = n /\ inside r' r).
  { intros n b (b' & [= -> ->] & Hb)%dict_of_get%list_elem_of_fmap Hn. apply list_elem_of_lookup in Hb as (j & Hj).
    assert (Hrj := proj2 (region_lookup reg max_depth rs Hc j _) (ex_intro _ b' (conj Hj eq_refl))).
    eexists. split_and!; [apply list_elem_of_lookup; by exists j|done|done|]. apply list_elem_of_lookup in Hr as (i & Hi).
    destruct (span_lookup reg max_depth rs Hc j _ Hrj) as [_ Hmj]. destruct (own_ends_outside b') as [Hout _]. cbn in Hmj.
    destruct (decide (i = j)) as [->|Hne]; [rewrite Hi in Hrj; injection Hrj as ->; cbn in Hn; done|].
    destruct (regions_nested reg max_depth rs Hc i j _ _ Hi Hrj Hne) as [Hd|[Hin|Hin]]; [exfalso|exfalso|done].
    - apply (Hd (opener_node_id b')); unfold region_span, span; cbn; [|set_solver]. apply elem_of_union. by left.
    - apply Hout. apply Hin. unfold region_span, span. apply elem_of_union. by left. }
  split_and!.
  - intros n Hn Hm. specialize (Eg n Hn). unfold check_fork_gate in Eg. rewrite bool_decide_eq_true_2 in Eg by done. cbn in Eg.
    destruct (dict_get (by_opener_node reg) n) as [b|] eqn:Eb; [|done]. destruct (Hinner n b Eb Hm) as (r' & Hr' & <- & Hop & Hin).
    exists r'. split_and!; [done..|]. by case_bool_decide.
  - intros n Hn Hm. specialize (Ho n Hn). unfold check_multi_row in Ho. rewrite bool_decide_eq_true_2 in Ho by done. cbn in Ho.
    destruct (dict_get (by_opener_node reg) n) as [b|] eqn:Eb; [|done]. destruct (Hinner n b Eb Hm) as (r' & Hr' & <- & Hop & Hin). eauto.
  - destruct (existsb _ _) eqn:Ee; [done|]. apply existsb_false_Forall in Ee. rewrite sort_by_perm in Ee. rewrite Forall_forall in Ee.
    intros n Hn%Ee. by case_bool_decide.
Qed.
End graph.

(** ** Two nested forks *)
Module RegionExample.
Definition plain (t : NodeType) : NodeInfo := mkNode t None false false ∅.
Definition graph : list_graph := mkGraph
  [("src", plain SOURCE); ("gate", plain GATE); ("inner", plain GATE); ("tb", plain TRANSFORM); ("tc", plain TRANSFORM); ("td", plain TRANSFORM);
   ("co2", plain COALESCE); ("co", plain COALESCE); ("out", plain SINK); ("other", plain SINK)]
  [mkEdge "src" "gate" "continue" MOVE; mkEdge "gate" "inner" "a" MOVE; mkEdge "gate" "tb" "b" MOVE; mkEdge "gate" "other" "false" MOVE;
   mkEdge "inner" "tc" "c" MOVE; mkEdge "inner" "td" "d" MOVE; mkEdge "tc" "co2" "continue" MOVE; mkEdge "td" "co2" "continue" MOVE;
   mkEdge "co2" "co" "continue" MOVE; mkEdge "tb" "co" "continue" MOVE; mkEdge "tb" "other" "__error__" DIVERT; mkEdge "co" "out" "continue" MOVE].
Definition outer_binding : GroupBinding := mkBinding FORK "gate" "gate" "co" "co" CLOSER_COALESCE "require_all" ["a"; "b"].
Definition inner_binding : GroupBinding := mkBinding FORK "inner" "inner" "co2" "co2" CLOSER_COALESCE "require_all" ["c"; "d"].
Definition registry : GroupBindingRegistry :=
  match group_binding_registry [outer_binding; inner_binding] with Ok r => r | Err _ => mkRegistry [] [] [] [] end.
Definition outer : BoundRegion := mkRegion outer_binding {["inner"; "tb"; "tc"; "td"; "co2"]} 1.
Definition inner : BoundRegion := mkRegion inner_binding {["tc"; "td"]} 2.

Lemma computed : compute_bound_regions graph registry 5 = Ok [outer; inner].
Proof. vm_compute. reflexivity. Qed.

Lemma validated : validate_sese_regions graph [outer; inner] = Ok tt.
Proof. vm_compute. reflexivity. Qed.

Lemma openers : validate_openers_bound_in_region [outer; inner] registry [] ["gate"; "inner"] = Ok tt.
Proof. vm_compute. reflexivity. Qed.

Lemma aggregations : validate_no_aggregations_in_regions [outer; inner] [("agg", "sums")] = Ok tt.
Proof. vm_compute. reflexivity. Qed.
End RegionExample.

Lemma accepted_regions_are_nested_witness :
  inside RegionExample.inner RegionExample.outer /\ depth RegionExample.outer < depth RegionExample.inner.
Proof.
  destruct (accepted_regions_are_nested RegionExample.graph RegionExample.registry 5 _ RegionExample.computed) as (_ & _ & _ & Hd & _).
  assert (Hin : inside RegionExample.inner RegionExample.outer) by (unfold inside; apply (bool_decide_unpack _); vm_compute; exact I).
  split; [exact Hin|]. exact (Hd 1%nat 0%nat _ _ eq_refl eq_refl Hin).
Defined.

Lemma validated_region_is_sese_witness :
  Forall (fun m => (m ∈ member_node_ids RegionExample.outer \/ m = "gate") /\ is_sink_node RegionExample.graph m = Ok false) ["inner"; "tc"; "co2"].
Proof.
  destruct (validated_region_is_sese RegionExample.graph RegionExample.registry 5 _ RegionExample.outer RegionExample.computed RegionExample.validated)
    as (Hexit & _ & _); [left|]. apply Hexit.
  - exists (mkEdge "gate" "inner" "a" MOVE). split; [|split; [discriminate|split; [left|reflexivity]]]. apply (bool_decide_unpack _). vm_compute. exact I.
  - split; [exists (mkEdge "inner" "tc" "c" MOVE)|split; [exists (mkEdge "tc" "co2" "continue" MOVE)|exact I]];
      (split; [apply (bool_decide_unpack _); vm_compute; exact I|split; [reflexivity|discriminate]]).
  - apply (bool_decide_unpack _). vm_compute. exact I.
Defined.

Lemma inner_groups_close_inside_witness :
  exists r', r' ∈ [RegionExample.outer; RegionExample.inner] /\ opener_node_id (binding r') = "inner" /\ inside r' RegionExample.outer.
Proof.
  destruct (inner_groups_close_inside RegionExample.graph RegionExample.registry 5 _ [] ["gate"; "inner"] [("agg", "sums")] RegionExample.outer
              RegionExample.computed RegionExample.openers RegionExample.aggregations) as (Hg & _); [left|].
  destruct (Hg "inner") as (r' & Hr & Ho & Hi & _); [right; left|apply (bool_decide_unpack _); vm_compute; exact I|].
  exists r'. split; [exact Hr|split; [exact Ho|exact Hi]].
Defined.
