(* ===== verification/Guarantees.v ===== *)
(** * Guarantees: which fields rows are sure to carry (core/dag/guarantees.py)

    The walk that computes a node's guaranteed fields from its own declaration
    and from its predecessors, the walk for the fields that definitely arrive,
    the rule that combines predecessors, and the schema that the builder gives a
    coalesce node on the strength of the first walk.  Both walks remember their answers
    in dicts that the caller passes in.  Recursion stops by itself on the graphs
    that the build accepts; running out of fuel is [None]. *)

From S2P Require Import Prelude Enums Contracts ContractFlow UnionMerge CoalesceMerge Graph.

Notation field_set := (gset string).

Record EffectiveGuaranteeVote := mkVote { v_fields : field_set; v_participated : bool; v_closed : bool }.

Definition abstention : EffectiveGuaranteeVote := mkVote ∅ false false.

(** [SchemaConfig] as the walk reads it. *)
Definition allows_extra_fields (c : SchemaConfig) : bool := is_observed c || (cfg_mode c == "flexible").
Definition participates_in_propagation (c : SchemaConfig) : bool := has_effective_guarantees c.
Definition get_effective_guaranteed_fields (c : SchemaConfig) : field_set := list_to_set (effective_guaranteed_fields c).

(** [frozenset.intersection(first, *rest)]. *)
Definition intersect_all (first : field_set) (rest : list field_set) : field_set := foldl (∩) first rest.

(** contracts/guarantee_propagation.py. *)
Definition compose_propagation (self_fields : field_set) (predecessor_guarantees : list (option field_set)) : field_set :=
  match omap id predecessor_guarantees with
  | [] => self_fields
  | first :: rest => self_fields ∪ intersect_all first rest
  end.

(** ** Walks with memory *)
Record caches := mkCaches { votes : list (node * EffectiveGuaranteeVote); fields_memo : list (node * field_set) }.

Definition walk (A : Type) : Type := caches -> option (res (A * caches)).

Definition walk_ret {A} (a : A) : walk A := fun c => Some (Ok (a, c)).
Definition walk_bind {A B} (m : walk A) (f : A -> walk B) : walk B := fun c =>
  match m c with Some (Ok (a, c)) => f a c | Some (Err e) => Some (Err e) | None => None end.
Notation "x ⇐ m ; k" := (walk_bind m (fun x => k)) (at level 20, m at level 100, k at level 200, only parsing).

Definition walk_lift {A} (r : res A) : walk A := fun c => match r with Ok a => Some (Ok (a, c)) | Err e => Some (Err e) end.
Definition look {A} (f : caches -> A) : walk A := fun c => Some (Ok (f c, c)).
Definition remember_vote (n : node) (v : EffectiveGuaranteeVote) : walk unit := fun c => Some (Ok (tt, mkCaches (dict_set (votes c) n v) (fields_memo c))).
Definition remember_fields (n : node) (fs : field_set) : walk unit := fun c => Some (Ok (tt, mkCaches (votes c) (dict_set (fields_memo c) n fs))).

Fixpoint walk_all {A B} (f : A -> walk B) (l : list A) : walk (list B) :=
  match l with [] => walk_ret [] | a :: l => b ⇐ f a; bs ⇐ walk_all f l; walk_ret (b :: bs) end.

Section guarantees.
Context {G : Type} `{MultiDiGraph G} (g : G).

Definition own_fields (info : NodeInfo) : field_set := from_option get_effective_guaranteed_fields ∅ (output_schema_config info).
Definition own_participates (info : NodeInfo) : bool := from_option participates_in_propagation false (output_schema_config info).
Definition own_closed (info : NodeInfo) : bool := from_option (fun c => negb (allows_extra_fields c)) false (output_schema_config info).
Definition own_vote (info : NodeInfo) : EffectiveGuaranteeVote := mkVote (own_fields info) (own_participates info) (own_closed info).

Definition get_guaranteed_fields (n : node) : res field_set := info ← get_node_info g n; Ok (own_fields info).

(** Arms that pass rows through unchanged: all must vote. *)
Definition arms_vote (own : EffectiveGuaranteeVote) (vs : list EffectiveGuaranteeVote) : EffectiveGuaranteeVote :=
  match vs with
  | [] => own
  | v :: rest =>
      if forallb v_participated vs then mkVote (intersect_all (v_fields v) (map v_fields rest)) true (forallb v_closed vs) else abstention
  end.

(** A node that forwards what it receives, less the fields it removes. *)
Definition forwarding_vote (info : NodeInfo) (vs : list EffectiveGuaranteeVote) : EffectiveGuaranteeVote :=
  let removals := if passes_through_input info then ∅ else removed_input_fields info in
  mkVote (compose_propagation (own_fields info) (map (fun v => if v_participated v then Some (v_fields v ∖ removals) else None) vs))
    (own_participates info || existsb v_participated vs) (own_closed info).

Definition has_divert (n : node) : bool := existsb (fun e => edge_mode e == DIVERT) (nx_in_edges g n).

Fixpoint walk_effective_guarantee_vote (fuel : nat) (n : node) : walk EffectiveGuaranteeVote :=
  cached ⇐ look (fun c => dict_get (votes c) n);
  match cached with
  | Some v => walk_ret v
  | None =>
      match fuel with
      | O => fun _ => None
      | S fuel =>
          info ⇐ walk_lift (get_node_info g n);
          let is_transparent_gate := node_type info == GATE in
          let predecessor_votes := walk_all (walk_effective_guarantee_vote fuel) (predecessors g n) in
          v ⇐ (if node_type info == QUEUE then vs ⇐ predecessor_votes; walk_ret (arms_vote (own_vote info) vs)
               else if node_type info == ROW_UNION then
                 match nx_in_edges g n with
                 | [] => walk_ret (own_vote info)
                 | _ => if has_divert n then walk_ret abstention else vs ⇐ predecessor_votes; walk_ret (arms_vote (own_vote info) vs)
                 end
               else if passes_through_input info || (forwards_input_fields info && negb (own_closed info)) || is_transparent_gate then
                 match predecessors g n with
                 | [] => if is_transparent_gate then walk_ret (own_vote info)
                         else walk_lift (Err (FrameworkBugError "Pass-through transform has no predecessors"))
                 | _ => vs ⇐ predecessor_votes; walk_ret (forwarding_vote info vs)
                 end
               else walk_ret (own_vote info) : walk EffectiveGuaranteeVote);
          _ ⇐ remember_vote n v;
          walk_ret v
      end
  end.

Definition walk_effective_guaranteed_fields (fuel : nat) (n : node) : walk field_set :=
  cached ⇐ look (fun c => dict_get (fields_memo c) n);
  match cached with
  | Some fs => walk_ret fs
  | None =>
      v ⇐ (fun c => match walk_effective_guarantee_vote fuel n (mkCaches [] []) with
                    | Some (Ok (v, c')) => Some (Ok (v, mkCaches (votes c) (foldl (fun d nv => dict_set d nv.1 (v_fields nv.2)) (fields_memo c) (votes c'))))
                    | Some (Err e) => Some (Err e)
                    | None => None
                    end : option (res (EffectiveGuaranteeVote * caches)));
      _ ⇐ remember_fields n (v_fields v);
      walk_ret (v_fields v)
  end.

(** A path of the graph has at most as many nodes as the graph. *)
Definition vote_fuel : nat := S (length (nx_nodes g)).

Definition get_effective_guaranteed_fields_of (n : node) : option (res field_set) :=
  match walk_effective_guaranteed_fields vote_fuel n (mkCaches [] []) with
  | Some (Ok (fs, _)) => Some (Ok fs)
  | Some (Err e) => Some (Err e)
  | None => None
  end.

(** ** Fields that definitely arrive *)
Fixpoint walk_definite_emitted_fields (fuel : nat) (n : node) : walk field_set :=
  cached ⇐ look (fun c => dict_get (fields_memo c) n);
  match cached with
  | Some fs => walk_ret fs
  | None =>
      match fuel with
      | O => fun _ => None
      | S fuel =>
          info ⇐ walk_lift (get_node_info g n);
          v ⇐ walk_effective_guarantee_vote vote_fuel n;
          let own := v_fields v in
          let origins := map from_node (filter (fun e => edge_mode e <> DIVERT) (nx_in_edges g n)) in
          let arriving := fss ⇐ walk_all (walk_definite_emitted_fields fuel) origins; walk_ret (⋃ fss) : walk field_set in
          if (node_type info == GATE) || (node_type info == ROW_UNION) then
            _ ⇐ remember_fields n own;
            arrived ⇐ arriving;
            _ ⇐ remember_fields n (own ∪ arrived);
            walk_ret (own ∪ arrived)
          else if negb (forwards_input_fields info) || own_closed info then
            _ ⇐ remember_fields n own;
            walk_ret own
          else
            _ ⇐ remember_fields n own;
            forwarded ⇐ arriving;
            let result := own ∪ (forwarded ∖ removed_input_fields info) in
            _ ⇐ remember_fields n result;
            walk_ret result
      end
  end.

Definition get_definite_emitted_fields (n : node) : option (res field_set) :=
  match walk_definite_emitted_fields vote_fuel n (mkCaches [] []) with
  | Some (Ok (fs, _)) => Some (Ok fs)
  | Some (Err e) => Some (Err e)
  | None => None
  end.

(** ** The schemas that the builder gives gates and coalesce nodes (core/dag/builder.py) *)
Definition best_schema_config (n : node) : res SchemaConfig :=
  info ← get_node_info g n;
  match output_schema_config info with Some c => Ok c | None => Err (FrameworkBugError "Node has no output_schema_config") end.

(** A walk that starts with an empty memory. *)
Definition with_empty_caches {A} (m : walk A) : walk A := fun c =>
  match m (mkCaches [] []) with Some (Ok (a, _)) => Some (Ok (a, c)) | Some (Err e) => Some (Err e) | None => None end.

(** A branch's walked guarantee, as a schema; a branch that abstains has none. *)
Definition guarantee_schema (v : EffectiveGuaranteeVote) : SchemaConfig :=
  mkConfig "observed" None (if v_participated v then Some (sort_by String.leb (elements (v_fields v))) else None) None.

(** The declared schema and the walked vote of a branch's producer. *)
Definition branch_schemas (bp : string * node) : walk (string * (SchemaConfig * EffectiveGuaranteeVote)) :=
  schema ⇐ walk_lift (best_schema_config bp.2);
  v ⇐ with_empty_caches (walk_effective_guarantee_vote vote_fuel bp.2);
  walk_ret (bp.1, (schema, v)).

(** The schema of a coalesce node; [plan] gives the producer of each branch. *)
Definition resolve_coalesce_schema (s : MergeSettings) (plan : list (string * node)) : option (res SchemaConfig) :=
  match walk_all branch_schemas plan (mkCaches [] []) with
  | Some (Ok (l, _)) =>
      Some (merge_coalesce_schema (map (fun x => (x.1, x.2.1)) l) (ms_merge s) (ms_all_branch_semantics s) (ms_collision_policy s)
              (Some (ms_branches s)) (ms_select_branch s) (Some (map (fun x => (x.1, guarantee_schema x.2.2)) l)))
  | Some (Err e) => Some (Err e)
  | None => None
  end.

(** ** The fan-in rule of [ExecutionGraph.validate] *)
Definition move_predecessors (n : node) : list node :=
  remove_dups (map from_node (filter (fun e => edge_mode e = MOVE) (nx_in_edges g n))).

Definition joins_producers (t : NodeType) : bool := match t with QUEUE | SINK | COALESCE | ROW_UNION => true | _ => false end.

Definition check_fan_in : res unit :=
  reject existsb (fun ni => negb (joins_producers (node_type ni.2)) && (1 <? length (move_predecessors ni.1))%nat) (nx_nodes g)
    with GraphValidationError "Node has fan-in from multiple producers without a queue" ;;
  Ok tt.
End guarantees.
