(* ===== verification/GuaranteeTheory.v ===== *)
(** * GuaranteeTheory: what the guarantee walks compute, and that it holds

    The memory of the walks never changes an answer; on an acyclic graph they
    return; what the first walk guarantees, every row carries that can leave the
    node; and the second walk finds exactly the fields that some arm forwards. *)

From S2P Require Import Prelude Enums Contracts ContractFlow UnionMerge CoalesceMerge CoalesceMergeTheory CoalesceSchema Graph Guarantees.

Section theory.
Context {G : Type} `{MultiDiGraphLaws G} (g : G).
Implicit Types (n p : node) (v : EffectiveGuaranteeVote) (c : caches) (info : NodeInfo).

(** ** The answer of one node *)
Definition forwarding info : bool := passes_through_input info || (forwards_input_fields info && negb (own_closed info)) || (node_type info == GATE).

(** Whether the predecessors are asked, and the answer from theirs. *)
Definition asks n info : bool :=
  if node_type info == QUEUE then true
  else if node_type info == ROW_UNION then match nx_in_edges g n with [] => false | _ => negb (has_divert g n) end
  else forwarding info && match predecessors g n with [] => false | _ => true end.

Definition answer n info (vs : list EffectiveGuaranteeVote) : res EffectiveGuaranteeVote :=
  if node_type info == QUEUE then Ok (arms_vote (own_vote info) vs)
  else if node_type info == ROW_UNION then
    match nx_in_edges g n with
    | [] => Ok (own_vote info)
    | _ => Ok (if has_divert g n then abstention else arms_vote (own_vote info) vs)
    end
  else if forwarding info then
    match predecessors g n with
    | [] => if node_type info == GATE then Ok (own_vote info) else Err (FrameworkBugError "Pass-through transform has no predecessors")
    | _ => Ok (forwarding_vote info vs)
    end
  else Ok (own_vote info).

Definition asked n info : list node := if asks n info then predecessors g n else [].

(** The votes without memory. *)
Inductive Votes : node -> EffectiveGuaranteeVote -> Prop :=
| votes_node n info vs v : get_node_info g n = Ok info -> Forall2 Votes (asked n info) vs -> answer n info vs = Ok v -> Votes n v.

Lemma walk_unfold fuel n c :
  dict_get (votes c) n = None ->
  walk_effective_guarantee_vote g (S fuel) n c =
  match get_node_info g n with
  | Err e => Some (Err e)
  | Ok info =>
      match walk_all (walk_effective_guarantee_vote g fuel) (asked n info) c with
      | Some (Ok (vs, c')) =>
          match answer n info vs with
          | Ok v => Some (Ok (v, mkCaches (dict_set (votes c') n v) (fields_memo c')))
          | Err e => Some (Err e)
          end
      | Some (Err e) => Some (Err e)
      | None => None
      end
  end.
Proof.
  intros Hn. cbn [walk_effective_guarantee_vote]. unfold walk_bind at 1, look. rewrite Hn. unfold walk_bind at 1, walk_lift at 1.
  destruct (get_node_info g n) as [info|e]; [|done]. unfold asked, asks, answer, forwarding, walk_bind, walk_ret, walk_lift, remember_vote.
  case_bool_decide as Hq; [by destruct (walk_all _ _ c) as [[[vs c']|err]|]|].
  case_bool_decide as Hr.
  { destruct (nx_in_edges g n); [done|]. destruct (has_divert g n); [done|]. cbn [negb]. by destruct (walk_all _ _ c) as [[[vs c']|err]|]. }
  destruct (_ || _); [|done]. cbn [andb]. destruct (predecessors g n); [by case_bool_decide|].
  by destruct (walk_all _ _ c) as [[[vs c']|err]|].
Qed.

(** ** Graphs without cycles *)
Definition ranked (rank : node -> nat) : Prop :=
  (forall n, n ∈ (nx_nodes g).*1 -> (rank n < length (nx_nodes g))%nat) /\ forall n e, e ∈ nx_in_edges g n -> (rank (from_node e) < rank n)%nat.

Definition acyclic : Prop := exists rank, ranked rank.

(** The builder gives every node that forwards rows a predecessor. *)
Definition wired : Prop :=
  forall n info, get_node_info g n = Ok info -> forwarding info = true -> node_type info <> GATE -> predecessors g n <> [].

Lemma predecessor_iff n p : p ∈ predecessors g n <-> exists e, e ∈ nx_in_edges g n /\ from_node e = p.
Proof. unfold predecessors. rewrite elem_of_remove_dups, list_elem_of_fmap. naive_solver. Qed.

Lemma asked_predecessors n info p : p ∈ asked n info -> p ∈ predecessors g n.
Proof. unfold asked. destruct (asks n info); [done|]. by intros ?%not_elem_of_nil. Qed.

Lemma node_info_ok n : n ∈ (nx_nodes g).*1 -> exists info, get_node_info g n = Ok info.
Proof.
  intros Hn%dict_mem_keys. unfold get_node_info. unfold dict_mem in Hn. destruct (dict_get (nx_nodes g) n) as [info|]; [eauto|done].
Qed.

Definition consistent c : Prop := forall n v, dict_get (votes c) n = Some v -> Votes n v.

Section ranks.
Context (rank : node -> nat) (Hrank : ranked rank).

Lemma predecessor_rank n p : p ∈ predecessors g n -> (rank p < rank n)%nat /\ p ∈ (nx_nodes g).*1.
Proof. intros (e & He & <-)%predecessor_iff. split; [by apply Hrank|]. by apply nx_ends in He as [? _]. Qed.

Lemma votes_det n v v' : Votes n v -> Votes n v' -> v = v'.
Proof.
  assert (Hk : forall k n v v', (rank n < k)%nat -> Votes n v -> Votes n v' -> v = v'); [|by apply (Hk (S (rank n))); lia].
  clear n v v'. induction k as [|k IH]; intros n v v' Hn Hv Hv'; [lia|]. inversion Hv as [? info vs ? Hi Hvs Ha]; subst.
  inversion Hv' as [? info' vs' ? Hi' Hvs' Ha']; subst. rewrite Hi in Hi'. injection Hi' as <-.
  assert (vs = vs') as ->; [|congruence]. assert (Hr : Forall (fun p => (rank p < k)%nat) (asked n info)).
  { apply Forall_forall. intros p [Hp _]%asked_predecessors%predecessor_rank. lia. }
  clear -IH Hr Hvs Hvs'. revert vs' Hvs'. induction Hvs as [|p v ps vs Hpv _ IHps]; intros vs' Hvs'.
  - apply Forall2_nil_inv_l in Hvs'. done.
  - apply Forall2_cons_inv_l in Hvs' as (v' & vs'' & Hpv' & Hvs' & ->). apply Forall_cons in Hr as [Hp Hr]. f_equal; [by eapply IH|by apply IHps].
Qed.

(** The walk returns the vote, whatever consistent memory it starts with. *)
Lemma walk_votes fuel n c :
  wired -> (rank n < fuel)%nat -> n ∈ (nx_nodes g).*1 -> consistent c ->
  exists v c', walk_effective_guarantee_vote g fuel n c = Some (Ok (v, c')) /\ Votes n v /\ consistent c' /\ fields_memo c' = fields_memo c.
Proof.
  intros Hw. revert n c. induction fuel as [|fuel IH]; intros n c Hn Hin Hc; [lia|].
  destruct (dict_get (votes c) n) as [v|] eqn:Ec.
  { exists v, c. cbn [walk_effective_guarantee_vote]. unfold walk_bind at 1, look. rewrite Ec. split_and!; [done|by apply Hc|done|done]. }
  rewrite walk_unfold by done. destruct (node_info_ok n Hin) as [info Ei]. rewrite Ei.
  assert (Hall : forall ps c, Forall (fun p => p ∈ predecessors g n) ps -> consistent c ->
            exists vs c', walk_all (walk_effective_guarantee_vote g fuel) ps c = Some (Ok (vs, c')) /\ Forall2 Votes ps vs /\ consistent c' /\ fields_memo c' = fields_memo c).
  { clear Hc Ec c. induction ps as [|p ps IHps]; intros c Hps Hc; [exists [], c; split_and!; [done|constructor|done|done]|].
    apply Forall_cons in Hps as [[Hp Hpin]%predecessor_rank Hps]. destruct (IH p c ltac:(lia) Hpin Hc) as (v & c1 & E1 & Hv & Hc1 & Hf1).
    destruct (IHps c1 Hps Hc1) as (vs & c2 & E2 & Hvs & Hc2 & Hf2). exists (v :: vs), c2. cbn [walk_all]. unfold walk_bind. rewrite E1, E2.
    split_and!; [done|by constructor|done|congruence]. }
  destruct (Hall (asked n info) c) as (vs & c' & -> & Hvs & Hc' & Hf); [apply Forall_forall; intros p; apply asked_predecessors|done|].
  assert (exists v, answer n info vs = Ok v) as [v Ha].
  { unfold answer. case_bool_decide as Hq; [eauto|]. case_bool_decide as Hr; [destruct (nx_in_edges g n); eauto|].
    destruct (forwarding info) eqn:Ef; [|eauto]. destruct (predecessors g n) as [|p ps] eqn:Ep; [|eauto]. case_bool_decide as Hg; [eauto|].
    by destruct (Hw n info Ei Ef Hg). }
  rewrite Ha. assert (Hv : Votes n v) by (by eapply votes_node). eexists v, _. split_and!; [done|done| |done].
  intros m w. cbn [votes]. rewrite dict_get_set. case_bool_decide as Em; [|apply Hc']. intros [= <-]. by subst m.
Qed.
End ranks.

Lemma empty_consistent d : consistent (mkCaches [] d).
Proof. intros n v. done. Qed.

Lemma guaranteed_iff n fs :
  acyclic -> wired -> n ∈ (nx_nodes g).*1 ->
  get_effective_guaranteed_fields_of g n = Some (Ok fs) <-> exists v, Votes n v /\ v_fields v = fs.
Proof.
  intros [rank Hrank] Hw Hn. assert (Hr : (rank n < vote_fuel g)%nat) by (unfold vote_fuel; apply Hrank in Hn; lia).
  destruct (walk_votes rank Hrank (vote_fuel g) n (mkCaches [] []) Hw Hr Hn (empty_consistent [])) as (v & c' & E & Hv & _).
  unfold get_effective_guaranteed_fields_of, walk_effective_guaranteed_fields, walk_bind, look, remember_fields, walk_ret. cbn [dict_get fields_memo]. rewrite E.
  split; [intros [= <-]; eauto|]. intros (v' & Hv' & <-). by rewrite (votes_det rank Hrank n v v').
Qed.

(** C27. The memory of the walk never changes an answer.  On an acyclic, wired graph
    the walk returns for every node, and whatever votes of this graph the caller's
    memory already holds, it returns the vote that the node has without memory;
    what it adds to the memory are votes of this graph again. *)
Theorem guarantee_walk_is_total_and_pure :
  acyclic -> wired ->
  exists vote : node -> EffectiveGuaranteeVote,
    (forall n v, n ∈ (nx_nodes g).*1 -> Votes n v <-> v = vote n) /\
    forall n c, n ∈ (nx_nodes g).*1 -> consistent c ->
      exists c', walk_effective_guarantee_vote g (vote_fuel g) n c = Some (Ok (vote n, c')) /\ consistent c'.
Proof.
  intros [rank Hrank] Hw.
  assert (Hone : forall n c, n ∈ (nx_nodes g).*1 -> consistent c ->
            exists v c', walk_effective_guarantee_vote g (vote_fuel g) n c = Some (Ok (v, c')) /\ Votes n v /\ consistent c').
  { intros n c Hn Hc. destruct (walk_votes rank Hrank (vote_fuel g) n c Hw) as (v & c' & E & Hv & Hc' & _); [|done|done|eauto].
    apply Hrank in Hn. unfold vote_fuel. lia. }
  exists (fun n => match walk_effective_guarantee_vote g (vote_fuel g) n (mkCaches [] []) with Some (Ok (v, _)) => v | _ => abstention end). split.
  - intros n v Hn. destruct (Hone n (mkCaches [] []) Hn (empty_consistent [])) as (v' & c' & -> & Hv' & _).
    split; [intros Hv; exact (votes_det rank Hrank n v v' Hv Hv')|by intros ->].
  - intros n c Hn Hc. destruct (Hone n c Hn Hc) as (v & c' & E & Hv & Hc'). exists c'. split; [|done]. rewrite E.
    destruct (Hone n (mkCaches [] []) Hn (empty_consistent [])) as (v' & c'' & -> & Hv' & _). by rewrite (votes_det rank Hrank n v v').
Qed.

Lemma Forall2_elem_l {A B} (R : A -> B -> Prop) l k x : Forall2 R l k -> x ∈ l -> exists y, y ∈ k /\ R x y.
Proof. intros H2 (i & Hi)%list_elem_of_lookup. destruct (Forall2_lookup_l _ _ _ _ _ H2 Hi) as (y & Hy & HR). exists y. split; [by eapply list_elem_of_lookup_2|done]. Qed.

(** ** Rows *)
Section rows.
(** The fields of the rows that a source yields, and of those that the plugin of
    a node emits for a row that arrives; the settings of a coalesce node and the
    producers of its branches. *)
Context (yields : node -> field_set -> Prop) (emits : node -> field_set -> field_set -> Prop).
Context (point : node -> option (MergeSettings * list (string * node))).

Definition routes_only (t : NodeType) : bool := match t with GATE | QUEUE | ROW_UNION => true | _ => false end.

Definition row_fields (r : PipelineRow) : field_set := list_to_set (data r).*1.

(** Rows that can leave a node: a routing node hands on what arrives along a
    success edge, a plugin emits, and a coalesce node merges rows that left the
    producers of its branches. *)
Inductive flows : node -> field_set -> Prop :=
| flows_source n fs : yields n fs -> flows n fs
| flows_on n p info fs out :
    get_node_info g n = Ok info -> node_type info <> COALESCE -> succeeds g p n -> flows p fs ->
    (if routes_only (node_type info) then out = fs else emits n fs out) -> flows n out
| flows_merged n info s plan (arrived : arrivals) contract merged :
    get_node_info g n = Ok info -> node_type info = COALESCE -> point n = Some (s, plan) ->
    (forall b (r : PipelineRow) q, dict_get arrived b = Some r -> dict_get plan b = Some q -> flows q (row_fields r)) ->
    may_merge s arrived -> build_coalesce_merge s arrived contract = Ok merged -> flows n (row_fields (merged_row merged)).

(** What plugins declare: only sources yield rows of their own; the rows of a
    source or plugin carry what its schema guarantees; a pass-through plugin
    keeps every field, a forwarding plugin those it does not remove. *)
Record plugins_keep_promises : Prop := {
  pp_source n info fs : yields n fs -> get_node_info g n = Ok info -> node_type info = SOURCE /\ forwarding info = false;
  pp_yields n info fs : yields n fs -> get_node_info g n = Ok info -> own_fields info ⊆ fs;
  pp_emits n info fs out : emits n fs out -> get_node_info g n = Ok info -> own_fields info ⊆ out;
  pp_passes n info fs out : emits n fs out -> get_node_info g n = Ok info -> passes_through_input info = true -> fs ⊆ out;
  pp_forwards n info fs out : emits n fs out -> get_node_info g n = Ok info -> forwards_input_fields info = true -> fs ∖ removed_input_fields info ⊆ out;
}.

(** What the builder leaves behind: a gate has the schema of its producer; queues
    and row unions declare nothing; a coalesce node has the schema that
    [resolve_coalesce_schema] gives it and forwards nothing by itself; a schema
    that is not observed lists its fields; sinks do not forward; and nodes that
    forward are entered by moves, except the kinds that join producers. *)
Record built : Prop := {
  bt_gate n info p : get_node_info g n = Ok info -> node_type info = GATE -> p ∈ predecessors g n ->
    exists sc, best_schema_config g p = Ok sc /\ output_schema_config info = Some sc;
  bt_fan_in n info : get_node_info g n = Ok info -> node_type info = QUEUE \/ node_type info = ROW_UNION ->
    output_schema_config info = Some (mkConfig "observed" None None None);
  bt_coalesce n info : get_node_info g n = Ok info -> node_type info = COALESCE ->
    forwarding info = false /\
    forall s plan, point n = Some (s, plan) -> plan.*1 = ms_branches s /\ NoDup plan.*1 /\
      exists sc, resolve_coalesce_schema g s plan = Some (Ok sc) /\ output_schema_config info = Some sc;
  bt_lists n info sc : get_node_info g n = Ok info -> output_schema_config info = Some sc -> lists_fields sc;
  bt_sink n info : get_node_info g n = Ok info -> node_type info = SINK -> forwarding info = false;
  bt_moves n info e : get_node_info g n = Ok info -> forwarding info = true -> joins_producers (node_type info) = false ->
    e ∈ nx_in_edges g n -> edge_mode e = MOVE;
}.

Lemma intersect_all_subset first rest X : X ∈ first :: rest -> intersect_all first rest ⊆ X.
Proof.
  unfold intersect_all. revert first X. induction rest as [|Y rest IH]; intros first X HX; cbn.
  - apply elem_of_cons in HX as [->|HX]; [done|by apply not_elem_of_nil in HX].
  - apply elem_of_cons in HX as [->|[->|HX]%elem_of_cons].
    + etransitivity; [apply (IH (first ∩ Y) (first ∩ Y)); by left|set_solver].
    + etransitivity; [apply (IH (first ∩ Y) (first ∩ Y)); by left|set_solver].
    + apply IH. by right.
Qed.

Lemma arms_vote_sound info vs v : v ∈ vs -> v_fields (arms_vote (own_vote info) vs) ⊆ v_fields v.
Proof.
  intros Hv. destruct vs as [|w vs]; [by apply not_elem_of_nil in Hv|]. cbn [arms_vote]. destruct (forallb _ _); [|set_solver]. cbn [v_fields].
  apply intersect_all_subset. apply elem_of_cons in Hv as [->|Hv]; [by left|]. right. by apply list_elem_of_fmap_2.
Qed.

(** With one predecessor, the rule of pass-through nodes is sound. *)
Lemma forwarding_vote_sound info v fs out :
  own_fields info ⊆ out -> v_fields v ⊆ fs -> fs ∖ (if passes_through_input info then ∅ else removed_input_fields info) ⊆ out ->
  v_fields (forwarding_vote info [v]) ⊆ out.
Proof.
  intros Ho Hv Hf. unfold forwarding_vote. cbn [v_fields map]. unfold compose_propagation. destruct (v_participated v); cbn; set_solver.
Qed.

Lemma single_predecessor n p info :
  check_fan_in g = Ok tt -> built -> get_node_info g n = Ok info -> forwarding info = true ->
  joins_producers (node_type info) = false -> p ∈ predecessors g n -> predecessors g n = [p].
Proof.
  intros Hfan Hd Hi Hf Hj Hp. unfold check_fan_in in Hfan. destruct (existsb _ _) eqn:E; [done|].
  assert (Hm : move_predecessors g n = predecessors g n).
  { unfold move_predecessors, predecessors. f_equal. f_equal. apply filter_all, Forall_forall. intros e He. by apply (bt_moves Hd n info). }
  assert (Hlen : (length (move_predecessors g n) <= 1)%nat).
  { destruct (1 <? length (move_predecessors g n))%nat eqn:El; [|apply Nat.ltb_ge in El; lia]. exfalso. apply not_true_iff_false in E. apply E.
    apply existsb_exists. exists (n, info). split; [|cbn [fst snd]; by rewrite Hj, El]. apply list_elem_of_In, dict_get_elem.
    unfold get_node_info in Hi. destruct (dict_get (nx_nodes g) n); [by injection Hi as ->|done]. }
  rewrite Hm in Hlen. destruct (predecessors g n) as [|q [|q' l]]; [by apply not_elem_of_nil in Hp| |cbn in Hlen; lia].
  by apply list_elem_of_singleton in Hp as ->.
Qed.

(** The walk gives the vote, and each branch of a coalesce node enters its schema
    with the schema and the vote of its producer. *)
Lemma resolved_branches plan l c' :
  acyclic -> wired -> forall c, walk_all (branch_schemas g) plan c = Some (Ok (l, c')) ->
  Forall2 (fun bp x => x.1 = bp.1 /\ best_schema_config g bp.2 = Ok x.2.1 /\ Votes bp.2 x.2.2) plan l.
Proof.
  intros [rank Hrank] Hw. revert l. induction plan as [|[b q] plan IH]; intros l c E; cbn [walk_all] in E.
  { unfold walk_ret in E. injection E as <- _. constructor. }
  unfold walk_bind at 1, branch_schemas at 1, walk_bind at 1, walk_lift in E. cbn [fst snd] in E.
  destruct (best_schema_config g q) as [sc|] eqn:Es; [|done]. unfold walk_bind at 1, with_empty_caches in E.
  assert (Hq : q ∈ (nx_nodes g).*1).
  { unfold best_schema_config in Es. apply bind_ok in Es as (info & Hi & _). unfold get_node_info in Hi.
    apply dict_mem_keys. unfold dict_mem. by destruct (dict_get (nx_nodes g) q). }
  destruct (walk_votes rank Hrank (vote_fuel g) q (mkCaches [] []) Hw) as (v & c1 & Ev & Hv & _); [|done|apply empty_consistent|].
  { apply Hrank in Hq. unfold vote_fuel. lia. }
  rewrite Ev in E. unfold walk_ret at 1, walk_bind in E. destruct (walk_all _ plan c) as [[[l' c2]|]|] eqn:El; [|done|done].
  injection E as <- ->. constructor; [done|by eapply IH].
Qed.

Lemma own_fields_elem info (c : SchemaConfig) : output_schema_config info = Some c -> own_fields info = list_to_set (effective_guaranteed_fields c).
Proof. intros E. unfold own_fields. by rewrite E. Qed.

(** A merged row carries what the schema of its node guarantees. *)
Lemma merged_own n info s plan (arrived : arrivals) contract merged :
  acyclic -> wired -> built -> get_node_info g n = Ok info -> node_type info = COALESCE -> point n = Some (s, plan) ->
  (forall b (r : PipelineRow) q, dict_get arrived b = Some r -> dict_get plan b = Some q ->
     forall qi, get_node_info g q = Ok qi -> own_fields qi ⊆ row_fields r /\ forall v, Votes q v -> v_fields v ⊆ row_fields r) ->
  may_merge s arrived -> build_coalesce_merge s arrived contract = Ok merged -> own_fields info ⊆ row_fields (merged_row merged).
Proof.
  intros Ha Hw Hb Hi Ht Hp IH Hmay Hm. destruct (bt_coalesce Hb n info Hi Ht) as [_ Hc]. destruct (Hc s plan Hp) as (Ek & Hnd & c & Hr & Ec).
  rewrite (own_fields_elem info c Ec). unfold resolve_coalesce_schema in Hr. destruct (walk_all _ plan _) as [[[l c']|]|] eqn:El; [|done|done].
  injection Hr as Hr. apply resolved_branches in El; [|done..].
  assert (Hkeys : forall {A} (f : SchemaConfig * EffectiveGuaranteeVote -> A), (map (fun x => (x.1, f x.2)) l).*1 = ms_branches s).
  { intros A f. rewrite <- Ek. clear -El. induction El as [|bp x plan l [Hx _] _ IHl]; [done|]. cbn. f_equal; [exact Hx|exact IHl]. }
  assert (Hbranch : forall x (r : PipelineRow), x ∈ l -> dict_get arrived x.1 = Some r -> exists q qi, get_node_info g q = Ok qi /\
            output_schema_config qi = Some x.2.1 /\ own_fields qi ⊆ row_fields r /\ v_fields x.2.2 ⊆ row_fields r).
  { intros x r (i & Hx)%list_elem_of_lookup Hx1. destruct (Forall2_lookup_r _ _ _ _ _ El Hx) as ([b q] & Hbq & E & Hs & Hv). cbn [fst snd] in *.
    unfold best_schema_config in Hs. apply bind_ok in Hs as (qi & Hqi & Hs). destruct (output_schema_config qi) as [sc|] eqn:Eo; [|done]. injection Hs as <-.
    rewrite E in Hx1. destruct (IH b r q Hx1) with (qi := qi) as [Ho Hvs]; [|done|].
    { apply dict_get_unique; [done|]. by eapply list_elem_of_lookup_2. }
    exists q, qi. auto. }
  assert (Hsends : forall (p : PipelineRow) ns, (list_to_set ns : field_set) ⊆ row_fields p -> Forall (sends p) ns).
  { intros p ns Hsub. apply Forall_forall. intros x Hx. unfold sends. rewrite to_dict_keys. apply (elem_of_list_to_set (C:=field_set)), Hsub. by apply elem_of_list_to_set. }
  pose proof (merged_schema_holds s arrived contract merged Hm Hmay _ _ c (Hkeys _ fst) (Hkeys _ (fun x => guarantee_schema x.2))) as Hall.
  cbn [fst snd] in Hall. intros f Hf%elem_of_list_to_set. apply elem_of_list_to_set. refine (proj1 (Forall_forall _ _) (Hall _ _ _ Hr) f Hf).
  - apply Forall_fmap, Forall_forall. intros x (i & Hx)%list_elem_of_lookup. destruct (Forall2_lookup_r _ _ _ _ _ El Hx) as ([b q] & _ & _ & Hs & _). cbn in *.
    unfold best_schema_config in Hs. apply bind_ok in Hs as (qi & Hqi & Hs). destruct (output_schema_config qi) as [sc|] eqn:Eo; [|done]. injection Hs as <-.
    by eapply (bt_lists Hb).
  - intros b sc p ([b' [sc' v]] & [= -> ->] & Hx)%list_elem_of_fmap Hbp. apply Hsends. destruct (Hbranch _ p Hx Hbp) as (q & qi & _ & Eo & Ho & _).
    by rewrite (own_fields_elem qi _ Eo) in Ho.
  - intros b sc p ([b' [sc' v]] & [= -> ->] & Hx)%list_elem_of_fmap Hbp. apply Hsends. destruct (Hbranch _ p Hx Hbp) as (q & qi & _ & _ & _ & Ho). cbn in *.
    unfold guarantee_schema, effective_guaranteed_fields. cbn. destruct (v_participated v); cbn; [|set_solver]. rewrite app_nil_r.
    intros x Hx'%elem_of_list_to_set. apply Ho. rewrite sort_by_perm in Hx'. by apply elem_of_elements.
Qed.

(** The answer of a forwarding node is carried by what it lets through. *)
Lemma forwarding_carried n info p fs out vs v :
  check_fan_in g = Ok tt -> built -> plugins_keep_promises -> get_node_info g n = Ok info -> forwarding info = true ->
  node_type info <> QUEUE -> node_type info <> ROW_UNION -> node_type info <> COALESCE -> p ∈ predecessors g n ->
  (if routes_only (node_type info) then out = fs else emits n fs out) -> own_fields info ⊆ out ->
  Forall2 Votes (asked n info) vs -> (forall w, Votes p w -> v_fields w ⊆ fs) -> answer n info vs = Ok v -> v_fields v ⊆ out.
Proof.
  intros Hfan Hb Hpl Hi Hf Hq Hr Hc Hpp He Hown Hvs Hsub Ha.
  assert (Hkind : joins_producers (node_type info) = false).
  { destruct (node_type info) eqn:Et; try done. by rewrite (bt_sink Hb n info Hi Et) in Hf. }
  pose proof (single_predecessor n p info Hfan Hb Hi Hf Hkind Hpp) as Hone.
  unfold answer in Ha. rewrite !bool_decide_eq_false_2, Hf, Hone in Ha by done. injection Ha as <-.
  unfold asked, asks in Hvs. rewrite !bool_decide_eq_false_2, Hf, Hone in Hvs by done. cbn in Hvs.
  apply Forall2_cons_inv_l in Hvs as (w & vs' & Hw & Hnil & ->). apply Forall2_nil_inv_l in Hnil as ->.
  apply (forwarding_vote_sound info w fs); [done|by apply Hsub|]. unfold forwarding in Hf.
  destruct (passes_through_input info) eqn:Ept.
  - destruct (routes_only (node_type info)) eqn:Ero; [subst out; set_solver|]. pose proof (pp_passes Hpl n info fs out He Hi Ept). set_solver.
  - destruct (routes_only (node_type info)) eqn:Ero; [subst out; set_solver|]. destruct (forwards_input_fields info) eqn:Efw.
    + by apply (pp_forwards Hpl n).
    + cbn in Hf. apply bool_decide_eq_true in Hf. by rewrite Hf in Ero.
Qed.

(** What a routing node declares, its arrivals carry. *)
Lemma routed_own n info p fs :
  built -> get_node_info g n = Ok info -> routes_only (node_type info) = true -> p ∈ predecessors g n ->
  (forall pi, get_node_info g p = Ok pi -> own_fields pi ⊆ fs) -> own_fields info ⊆ fs.
Proof.
  intros Hb Hi Hro Hp IH. destruct (node_type info) eqn:Et; try done.
  - rewrite (own_fields_elem info _ (bt_fan_in Hb n info Hi (or_introl Et))). set_solver.
  - destruct (bt_gate Hb n info p Hi Et Hp) as (c & Hs & Ec). unfold best_schema_config in Hs. apply bind_ok in Hs as (pi & Hpi & Hs).
    destruct (output_schema_config pi) as [c'|] eqn:Ep; [|done]. injection Hs as ->. rewrite (own_fields_elem info c Ec), <- (own_fields_elem pi c Ep). by apply IH.
  - rewrite (own_fields_elem info _ (bt_fan_in Hb n info Hi (or_intror Et))). set_solver.
Qed.

(** Every row that leaves a node carries what its schema guarantees and what the
    walk votes. *)
Lemma rows_carry n out :
  acyclic -> wired -> check_fan_in g = Ok tt -> built -> plugins_keep_promises -> flows n out ->
  forall info, get_node_info g n = Ok info -> own_fields info ⊆ out /\ forall v, Votes n v -> v_fields v ⊆ out.
Proof.
  intros Hacy Hw Hfan Hb Hpl. induction 1 as [n fs Hy|n p info0 fs out Hi0 Hc Hs Hp IH He|n info0 s plan arrived contract merged Hi0 Ht Hpt Hfl IH Hmay Hm]; intros info Hi.
  - split; [by apply (pp_yields Hpl n)|]. intros v Hv. inversion Hv as [? info' vs ? Hi' Hvs Ha]; subst. rewrite Hi in Hi'. injection Hi' as <-.
    destruct (pp_source Hpl n info fs Hy Hi) as [Ht Hf]. unfold answer in Ha. rewrite Ht, Hf in Ha. cbn in Ha. injection Ha as <-. by apply (pp_yields Hpl n).
  - rewrite Hi in Hi0. injection Hi0 as <-.
    assert (Hpp : p ∈ predecessors g n) by (apply succeeds_in in Hs as (e & He' & <- & _); apply predecessor_iff; eauto).
    assert (Hpi : exists pi, get_node_info g p = Ok pi) by (apply succeeds_nodes in Hs as [Hs _]; by apply node_info_ok).
    destruct Hpi as [pi Hpi]. destruct (IH pi Hpi) as [IHo IHv].
    assert (Hown : own_fields info ⊆ out).
    { destruct (routes_only (node_type info)) eqn:Ero; [|by apply (pp_emits Hpl n info fs)]. subst out. apply (routed_own n info p fs); try done.
      intros pi' Hpi'. rewrite Hpi in Hpi'. by injection Hpi' as <-. }
    split; [done|]. intros v Hv. inversion Hv as [? info' vs ? Hi' Hvs Ha]; subst. rewrite Hi in Hi'. injection Hi' as <-.
    assert (Hasked : asks n info = true -> exists w, w ∈ vs /\ v_fields w ⊆ fs).
    { intros Has. unfold asked in Hvs. rewrite Has in Hvs. destruct (Forall2_elem_l _ _ _ _ Hvs Hpp) as (w & Hw' & Hpw). eauto. }
    pose proof Ha as Ha'. unfold answer in Ha. unfold asks in Hasked. case_bool_decide as Hq.
    { rewrite Hq in He. cbn in He. subst out. injection Ha as <-. destruct (Hasked eq_refl) as (w & Hw' & Hsub). etransitivity; [by apply arms_vote_sound|done]. }
    case_bool_decide as Hr.
    { rewrite Hr in He. cbn in He. subst out. destruct (nx_in_edges g n) as [|e es] eqn:Ein.
      { apply succeeds_in in Hs as (e & He' & _). rewrite Ein in He'. by apply not_elem_of_nil in He'. }
      injection Ha as <-. destruct (has_divert g n); [set_solver|]. destruct (Hasked eq_refl) as (w & Hw' & Hsub). etransitivity; [by apply arms_vote_sound|done]. }
    destruct (forwarding info) eqn:Hf; [|by injection Ha as <-]. by apply (forwarding_carried n info p fs out vs v).
  - rewrite Hi in Hi0. injection Hi0 as <-. pose proof (merged_own n info s plan arrived contract merged Hacy Hw Hb Hi Ht Hpt IH Hmay Hm) as Hown.
    split; [done|]. intros v Hv. inversion Hv as [? info' vs ? Hi' Hvs Ha]; subst. rewrite Hi in Hi'. injection Hi' as <-.
    destruct (bt_coalesce Hb n info Hi Ht) as [Hf _]. unfold answer in Ha. rewrite Ht, Hf in Ha. cbn in Ha. by injection Ha as <-.
Qed.

(** C11. What the build guarantees of a node's rows, they carry.  On an acyclic, wired
    graph that passes the fan-in check, with the schemas that the builder gives
    gates (their producer's), queues and row unions (none) and coalesce nodes
    ([resolve_coalesce_schema]), where schemas that are not observed list their
    fields, sinks do not forward and forwarding plugins are entered by MOVE edges
    ([built]), if the plugins of sources and transforms keep what they
    declare, then every row that can leave a node has all the fields
    that the walk returned for it, however many gates, queues, row unions,
    pass-through transforms and coalesce nodes lie between the node and the
    sources; the rows of a coalesce node are those that [build_coalesce_merge]
    makes of rows that left its branches. *)
Theorem guaranteed_fields_are_carried n fs out :
  acyclic -> wired -> check_fan_in g = Ok tt -> built -> plugins_keep_promises -> n ∈ (nx_nodes g).*1 ->
  get_effective_guaranteed_fields_of g n = Some (Ok fs) -> flows n out -> fs ⊆ out.
Proof.
  intros Ha Hw Hfan Hb Hpl Hn (v & Hv & <-)%(guaranteed_iff n fs Ha Hw Hn) Hflow. destruct (node_info_ok n Hn) as [info Hi].
  by apply (rows_carry n out Ha Hw Hfan Hb Hpl Hflow info Hi).
Qed.
End rows.

(** ** Fields that definitely arrive *)

(** A node lets a field of an arriving row through. *)
Definition carries_on info (f : string) : bool :=
  ((node_type info == GATE) || (node_type info == ROW_UNION)) ||
  (forwards_input_fields info && negb (own_closed info) && negb (bool_decide (f ∈ removed_input_fields info))).

(** Some node guarantees the field, and a success path of nodes that let it through
    leads from there. *)
Inductive arrives : node -> string -> Prop :=
| arrives_own n v f : Votes n v -> f ∈ v_fields v -> arrives n f
| arrives_on n info p f : get_node_info g n = Ok info -> succeeds g p n -> carries_on info f = true -> arrives p f -> arrives n f.

Definition exact n (fs : field_set) : Prop := forall f, f ∈ fs <-> arrives n f.

Definition grows c c' : Prop :=
  forall n fs, dict_get (fields_memo c') n = Some fs -> dict_get (fields_memo c) n = Some fs \/ exact n fs.

Lemma grows_trans c1 c2 c3 : grows c1 c2 -> grows c2 c3 -> grows c1 c3.
Proof. intros H1 H2 n fs [Hn|Hn]%H2; [by apply H1|by right]. Qed.

Definition exact_below (k : nat) (rank : node -> nat) c : Prop :=
  forall n fs, (rank n < k)%nat -> dict_get (fields_memo c) n = Some fs -> exact n fs.

Lemma grows_below k rank c c' : grows c c' -> exact_below k rank c -> exact_below k rank c'.
Proof. intros Hg Hb n fs Hn [Hm|Hm]%Hg; [by eapply Hb|done]. Qed.

Lemma exact_from n info v (origins : list node) (fss : list field_set) (removed : field_set) :
  acyclic -> get_node_info g n = Ok info -> Votes n v -> (forall p, p ∈ origins <-> succeeds g p n) -> Forall2 exact origins fss ->
  (forall f, carries_on info f = true <-> f ∉ removed) -> exact n (v_fields v ∪ (⋃ fss ∖ removed)).
Proof.
  intros [rank Hrank] Hi Hv Ho H2 Hc f. rewrite elem_of_union, elem_of_difference, elem_of_union_list. split.
  - intros [Hf|[(X & HX & Hf) Hr]]; [by eapply arrives_own|]. apply list_elem_of_lookup in HX as (i & HX).
    destruct (Forall2_lookup_r _ _ _ _ _ H2 HX) as (p & Hp & Hex). eapply arrives_on; [done| |by apply Hc|by apply Hex].
    apply Ho. by eapply list_elem_of_lookup_2.
  - inversion 1 as [? v' ? Hv' Hf|? info' p ? Hi' Hs Hca Hp]; subst.
    + left. by rewrite (votes_det rank Hrank n v v').
    + right. rewrite Hi in Hi'. injection Hi' as <-. split; [|by apply Hc]. apply Ho in Hs. destruct (Forall2_elem_l _ _ _ _ H2 Hs) as (X & HX & Hex).
      exists X. split; [done|by apply Hex].
Qed.

Lemma exact_own n info v :
  acyclic -> get_node_info g n = Ok info -> Votes n v -> (forall f, carries_on info f = false) -> exact n (v_fields v).
Proof.
  intros [rank Hrank] Hi Hv Hc f. split; [by apply arrives_own|]. inversion 1 as [? v' ? Hv' Hf|? info' p ? Hi' Hs Hca Hp]; subst.
  - by rewrite (votes_det rank Hrank n v v').
  - rewrite Hi in Hi'. injection Hi' as <-. by rewrite Hc in Hca.
Qed.

Lemma origins_iff n p : p ∈ map from_node (filter (fun e => edge_mode e <> DIVERT) (nx_in_edges g n)) <-> succeeds g p n.
Proof. rewrite succeeds_in, list_elem_of_fmap. setoid_rewrite list_elem_of_filter. naive_solver. Qed.

Section definite.
Context (rank : node -> nat) (Hrank : ranked rank) (Hw : wired).

Lemma definite_all fuel k (origins : list node) c :
  (forall p c, (rank p < k)%nat -> p ∈ (nx_nodes g).*1 -> consistent c -> exact_below k rank c ->
     exists fs c', walk_definite_emitted_fields g fuel p c = Some (Ok (fs, c')) /\ exact p fs /\ consistent c' /\ grows c c') ->
  Forall (fun p => (rank p < k)%nat /\ p ∈ (nx_nodes g).*1) origins -> consistent c -> exact_below k rank c ->
  exists fss c', walk_all (walk_definite_emitted_fields g fuel) origins c = Some (Ok (fss, c')) /\ Forall2 exact origins fss /\ consistent c' /\ grows c c'.
Proof.
  intros IH. revert c. induction origins as [|p ps IHps]; intros c Hps Hc Hb.
  { exists [], c. split_and!; [done|constructor|done|by left]. }
  apply Forall_cons in Hps as [[Hp Hin] Hps]. destruct (IH p c Hp Hin Hc Hb) as (fs & c1 & E1 & Hx & Hc1 & Hg1).
  destruct (IHps c1 Hps Hc1 (grows_below _ _ _ _ Hg1 Hb)) as (fss & c2 & E2 & Hxs & Hc2 & Hg2). exists (fs :: fss), c2. cbn [walk_all]. unfold walk_bind.
  rewrite E1, E2. split_and!; [done|by constructor|done|by eapply grows_trans].
Qed.

Lemma definite_walk fuel n c :
  (rank n < fuel)%nat -> n ∈ (nx_nodes g).*1 -> consistent c -> exact_below (S (rank n)) rank c ->
  exists fs c', walk_definite_emitted_fields g fuel n c = Some (Ok (fs, c')) /\ exact n fs /\ consistent c' /\ grows c c'.
Proof.
  assert (Hacy : acyclic) by (by exists rank). revert n c. induction fuel as [|fuel IH]; intros n c Hn Hin Hc Hb; [lia|].
  cbn [walk_definite_emitted_fields]. unfold walk_bind at 1, look. destruct (dict_get (fields_memo c) n) as [fs|] eqn:Em.
  { exists fs, c. split_and!; [done| |done|by left]. by apply (Hb n fs); [lia|]. }
  unfold walk_bind at 1, walk_lift. destruct (node_info_ok n Hin) as [info Ei]. rewrite Ei.
  assert (Hvr : (rank n < vote_fuel g)%nat) by (apply Hrank in Hin; unfold vote_fuel; lia).
  destruct (walk_votes rank Hrank (vote_fuel g) n c Hw Hvr Hin Hc) as (v & c1 & Ev & Hv & Hc1 & Hf1).
  unfold walk_bind at 1. rewrite Ev. set (origins := map from_node _).
  set (c2 := mkCaches (votes c1) (dict_set (fields_memo c1) n (v_fields v))).
  assert (Hmem : forall m, m <> n -> dict_get (fields_memo c2) m = dict_get (fields_memo c) m).
  { intros m Hm. cbn. rewrite dict_get_set, Hf1, bool_decide_eq_false_2 by done. done. }
  assert (Hb2 : exact_below (rank n) rank c2).
  { intros m fs Hm. rewrite Hmem by (intros ->; lia). apply Hb. lia. }
  assert (Hall : exists fss c3, walk_all (walk_definite_emitted_fields g fuel) origins c2 = Some (Ok (fss, c3)) /\
             Forall2 exact origins fss /\ consistent c3 /\ grows c2 c3).
  { apply (definite_all fuel (rank n)); [|apply Forall_forall; intros p Hp|done|done].
    - intros p c0 Hp Hpin Hc0 Hb0. apply IH; [lia|done|done|]. intros m fs Hm. apply Hb0. lia.
    - apply origins_iff in Hp. pose proof (succeeds_nodes _ _ _ Hp) as [? _]. split; [|done]. apply succeeds_in in Hp as (e & He & <- & _). by apply Hrank. }
  assert (Hfin : forall fs c3, grows c2 c3 -> exact n fs -> consistent c3 ->
            consistent (mkCaches (votes c3) (dict_set (fields_memo c3) n fs)) /\ grows c (mkCaches (votes c3) (dict_set (fields_memo c3) n fs))).
  { intros fs c3 Hg Hx Hc3. split; [exact Hc3|]. intros m fs'. cbn. rewrite dict_get_set. case_bool_decide as E; [intros [= <-]; subst m; by right|].
    intros [Hm|Hm]%Hg; [left|by right]. by rewrite Hmem in Hm by (by intros ->). }
  destruct Hall as (fss & c3 & Ew & Hxs & Hc3 & Hg3). unfold walk_bind, walk_ret, remember_fields.
  destruct ((node_type info == GATE) || (node_type info == ROW_UNION)) eqn:Egate.
  { fold c2. rewrite Ew. assert (Hx : exact n (v_fields v ∪ ⋃ fss)).
    { rewrite <- (difference_empty_L (⋃ fss)). apply (exact_from n info v origins fss ∅); [done..|apply origins_iff|done|]. intros f. unfold carries_on. rewrite Egate. cbn. set_solver. }
    eexists _, _. split; [done|]. split; [exact Hx|]. by apply Hfin. }
  destruct (negb (forwards_input_fields info) || own_closed info) eqn:Efw.
  { fold c2. assert (Hx : exact n (v_fields v)).
    { apply (exact_own n info v); [done..|]. intros f. unfold carries_on. rewrite Egate. cbn. destruct (forwards_input_fields info), (own_closed info); done. }
    eexists _, _. split; [done|]. split; [exact Hx|]. apply (Hfin (v_fields v) c1); [|done|done]. intros m fs Hm. destruct (decide (m = n)) as [->|Hmn].
    - rewrite Hf1, Em in Hm. done.
    - left. rewrite Hmem by done. by rewrite <- Hf1. }
  fold c2. rewrite Ew. assert (Hx : exact n (v_fields v ∪ (⋃ fss ∖ removed_input_fields info))).
  { apply (exact_from n info v origins fss); [done..|apply origins_iff|done|]. intros f. unfold carries_on. rewrite Egate.
    apply orb_false_iff in Efw as [Hfw Hcl]. apply negb_false_iff in Hfw. rewrite Hfw, Hcl. cbn [negb orb andb]. by rewrite negb_true_iff, bool_decide_eq_false. }
  eexists _, _. split; [done|]. split; [exact Hx|]. by apply Hfin.
Qed.
End definite.

(** C28. The walk for the fields that definitely arrive is exact: on an acyclic, wired
    graph it returns for every node, and a field is in the answer exactly if
    some node guarantees it from which a path of success edges leads here
    through gates, row unions and forwarding nodes without an extras firewall,
    none of which removes it.  So it contains the guaranteed fields themselves,
    and the provisional answers that the walk leaves in its memory on the way
    are never the ones that it reads. *)
Theorem definite_fields_exact n :
  acyclic -> wired -> n ∈ (nx_nodes g).*1 ->
  exists fs, get_definite_emitted_fields g n = Some (Ok fs) /\ forall f, f ∈ fs <-> arrives n f.
Proof.
  intros [rank Hrank] Hw Hn. assert (Hr : (rank n < vote_fuel g)%nat) by (unfold vote_fuel; apply Hrank in Hn; lia).
  destruct (definite_walk rank Hrank Hw (vote_fuel g) n (mkCaches [] []) Hr Hn (empty_consistent [])) as (fs & c' & E & Hx & _); [by intros m fs Hm|].
  exists fs. unfold get_definite_emitted_fields. by rewrite E.
Qed.
End theory.

(** ** A source, a gate that forks, a transform on one branch that drops one field
    and adds another, and the coalesce node of the two branches *)
Module GuaranteeExample.
Definition observed (fs : list string) : option SchemaConfig := Some (mkConfig "observed" None (Some fs) None).
Definition src : NodeInfo := mkNode SOURCE (observed ["a"; "b"]) false false ∅.
Definition gate : NodeInfo := mkNode GATE (observed ["a"; "b"]) false false ∅.
Definition drop_b : NodeInfo := mkNode TRANSFORM (observed ["c"]) false true {["b"]}.
Definition join : NodeInfo := mkNode COALESCE (observed ["a"; "b"; "c"]) false false ∅.
Definition out : NodeInfo := mkNode SINK None false false ∅.
Definition graph : list_graph := mkGraph
  [("src", src); ("gate", gate); ("drop", drop_b); ("join", join); ("out", out)]
  [mkEdge "src" "gate" "continue" MOVE; mkEdge "gate" "drop" "x" MOVE; mkEdge "gate" "join" "y" COPY; mkEdge "drop" "join" "continue" MOVE;
   mkEdge "join" "out" "on_success" MOVE].
Definition yields (n : node) (fs : field_set) : Prop := n = "src" /\ fs = {["a"; "b"]}.
Definition emits (n : node) (fs out : field_set) : Prop := n = "drop" /\ out = fs ∖ {["b"]} ∪ {["c"]}.
Definition settings : MergeSettings := mkMerge ["x"; "y"] union None last_wins true.
Definition producers : list (string * node) := [("x", "drop"); ("y", "gate")].
Definition point (n : node) : option (MergeSettings * list (string * node)) := if n == "join" then Some (settings, producers) else None.

Lemma node_cases n info :
  get_node_info graph n = Ok info ->
  (n = "src" /\ info = src) \/ (n = "gate" /\ info = gate) \/ (n = "drop" /\ info = drop_b) \/ (n = "join" /\ info = join) \/ (n = "out" /\ info = out).
Proof.
  unfold get_node_info. destruct (dict_get (nx_nodes graph) n) as [i|] eqn:E; [|done]. intros [= <-]. apply dict_get_elem in E.
  assert (Ed : nx_nodes graph = g_nodes graph) by (vm_compute; reflexivity). rewrite Ed in E. cbn [graph g_nodes] in E.
  rewrite !elem_of_cons in E. destruct E as [[= -> ->]|[[= -> ->]|[[= -> ->]|[[= -> ->]|[[= -> ->]|E]]]]]; auto 10. by apply not_elem_of_nil in E.
Qed.

Lemma edge_cases n e :
  e ∈ nx_in_edges graph n ->
  (from_node e = "src" /\ n = "gate" /\ edge_mode e = MOVE) \/ (from_node e = "gate" /\ n = "drop" /\ edge_mode e = MOVE) \/
  ((from_node e = "gate" \/ from_node e = "drop") /\ n = "join") \/ (from_node e = "join" /\ n = "out").
Proof.
  unfold nx_in_edges, list_graph_nx. intros [<- He]%list_elem_of_filter.
  assert (E : list_edges graph = g_edges graph) by (vm_compute; reflexivity). rewrite E in He. cbn [graph g_edges] in He.
  rewrite !elem_of_cons in He. destruct He as [->|[->|[->|[->|[->|He]]]]]; auto 10. by apply not_elem_of_nil in He.
Qed.

Lemma graph_acyclic : acyclic graph.
Proof.
  exists (fun n => if n == "src" then 0 else if n == "gate" then 1 else if n == "drop" then 2 else if n == "join" then 3 else 4)%nat. split.
  - intros n Hn. assert (El : length (nx_nodes graph) = 5%nat) by (vm_compute; reflexivity). rewrite El. repeat case_bool_decide; lia.
  - intros n e [(-> & -> & _)|[(-> & -> & _)|[[[->| ->] ->]|[-> ->]]]]%edge_cases; apply Nat.ltb_lt; vm_compute; reflexivity.
Qed.

Lemma graph_wired : wired graph.
Proof. intros n info [[-> ->]|[[-> ->]|[[-> ->]|[[-> ->]|[-> ->]]]]]%node_cases; done. Qed.

Lemma fan_in : check_fan_in graph = Ok tt.
Proof. vm_compute. reflexivity. Qed.

Lemma graph_built : built graph point.
Proof.
  split.
  - intros n info p [[-> ->]|[[-> ->]|[[-> ->]|[[-> ->]|[-> ->]]]]]%node_cases; try done. intros _ (e & He & <-)%predecessor_iff.
    apply edge_cases in He as [(-> & _)|[(_ & [=] & _)|[[_ [=]]|[_ [=]]]]]. eexists. split; vm_compute; reflexivity.
  - intros n info [[-> ->]|[[-> ->]|[[-> ->]|[[-> ->]|[-> ->]]]]]%node_cases; by intros [|].
  - intros n info [[-> ->]|[[-> ->]|[[-> ->]|[[-> ->]|[-> ->]]]]]%node_cases; try done. intros _. split; [done|]. intros s plan [= <- <-].
    split; [done|]. split; [apply (bool_decide_unpack _); vm_compute; exact I|]. eexists. split; vm_compute; reflexivity.
  - intros n info sc [[-> ->]|[[-> ->]|[[-> ->]|[[-> ->]|[-> ->]]]]]%node_cases; by intros [= <-].
  - intros n info [[-> ->]|[[-> ->]|[[-> ->]|[[-> ->]|[-> ->]]]]]%node_cases; done.
  - intros n info e [[-> ->]|[[-> ->]|[[-> ->]|[[-> ->]|[-> ->]]]]]%node_cases; try done; intros _ _ [(_ & _ & ?)|[(_ & _ & ?)|[[_ [=]]|[_ [=]]]]]%edge_cases; done.
Qed.

Lemma declared : plugins_keep_promises graph yields emits.
Proof.
  split.
  - intros n info fs [-> ->] [[_ ->]|[[[=] _]|[[[=] _]|[[[=] _]|[[=] _]]]]]%node_cases. done.
  - intros n info fs [-> ->] [[_ ->]|[[[=] _]|[[[=] _]|[[[=] _]|[[=] _]]]]]%node_cases. apply (bool_decide_unpack _). vm_compute. exact I.
  - intros n info fs out' [-> ->] [[[=] _]|[[[=] _]|[[_ ->]|[[[=] _]|[[=] _]]]]]%node_cases. unfold own_fields. cbn. set_solver.
  - intros n info fs out' [-> ->] [[[=] _]|[[[=] _]|[[_ ->]|[[[=] _]|[[=] _]]]]]%node_cases. done.
  - intros n info fs out' [-> ->] [[[=] _]|[[[=] _]|[[_ ->]|[[[=] _]|[[=] _]]]]]%node_cases _. cbn. set_solver.
Qed.

Definition row (fs : list string) : PipelineRow := pipeline_row (map (fun f => (f, PInt 1)) fs) (mkContract OBSERVED [] true).
Definition arrived : arrivals := [("x", row ["a"; "c"]); ("y", row ["a"; "b"])].
Definition merged : merge_plan :=
  mkPlan (row ["a"; "c"; "b"]) [("a", "y"); ("c", "x"); ("b", "y")] [("a", ["x"; "y"])].

Lemma forked : flows graph yields emits point "gate" {["a"; "b"]}.
Proof.
  apply (flows_on _ _ _ _ _ "src" gate {["a"; "b"]}); [reflexivity|done| |by apply flows_source|reflexivity].
  exists (mkEdge "src" "gate" "continue" MOVE). split; [apply (bool_decide_unpack _); vm_compute; exact I|by split].
Qed.

Lemma dropped : flows graph yields emits point "drop" ({["a"; "b"]} ∖ {["b"]} ∪ {["c"]}).
Proof.
  apply (flows_on _ _ _ _ _ "gate" drop_b {["a"; "b"]}); [reflexivity|done| |exact forked|by split].
  exists (mkEdge "gate" "drop" "x" MOVE). split; [apply (bool_decide_unpack _); vm_compute; exact I|by split].
Qed.

Lemma row_leaves : flows graph yields emits point "join" (row_fields (row ["a"; "c"; "b"])).
Proof.
  apply (flows_merged _ _ _ _ "join" join settings producers arrived None merged); [reflexivity|reflexivity|reflexivity| | |vm_compute; reflexivity].
  - intros b r q Hb Hq. apply dict_get_elem in Hb, Hq. unfold arrived in Hb. unfold producers in Hq. rewrite !elem_of_cons in Hb. rewrite !elem_of_cons in Hq.
    destruct Hb as [[= -> ->]|[[= -> ->]|Hb]]; [..|by apply not_elem_of_nil in Hb]; destruct Hq as [[=]|[[=]|Hq]]; try (by apply not_elem_of_nil in Hq); subst q.
    + assert (E : row_fields (row ["a"; "c"]) = {["a"; "b"]} ∖ {["b"]} ∪ {["c"]}) by (apply (bool_decide_unpack _); vm_compute; exact I). rewrite E. exact dropped.
    + assert (E : row_fields (row ["a"; "b"]) = {["a"; "b"]}) by (apply (bool_decide_unpack _); vm_compute; exact I). rewrite E. exact forked.
  - split; [by left|]. intros _. by repeat constructor.
Qed.
End GuaranteeExample.

Lemma guaranteed_fields_are_carried_witness : ({["a"; "b"; "c"]} : field_set) ⊆ row_fields (GuaranteeExample.row ["a"; "c"; "b"]).
Proof.
  apply (guaranteed_fields_are_carried GuaranteeExample.graph GuaranteeExample.yields GuaranteeExample.emits GuaranteeExample.point "join").
  - exact GuaranteeExample.graph_acyclic.
  - exact GuaranteeExample.graph_wired.
  - exact GuaranteeExample.fan_in.
  - exact GuaranteeExample.graph_built.
  - exact GuaranteeExample.declared.
  - apply (bool_decide_unpack _). vm_compute. exact I.
  - vm_compute. reflexivity.
  - exact GuaranteeExample.row_leaves.
Defined.

Lemma guarantee_walk_is_total_and_pure_witness :
  exists vote : node -> EffectiveGuaranteeVote,
    (forall n v, n ∈ (nx_nodes GuaranteeExample.graph).*1 -> Votes GuaranteeExample.graph n v <-> v = vote n) /\
    forall n c, n ∈ (nx_nodes GuaranteeExample.graph).*1 -> consistent GuaranteeExample.graph c ->
      exists c', walk_effective_guarantee_vote GuaranteeExample.graph (vote_fuel GuaranteeExample.graph) n c = Some (Ok (vote n, c')) /\
        consistent GuaranteeExample.graph c'.
Proof. exact (guarantee_walk_is_total_and_pure GuaranteeExample.graph GuaranteeExample.graph_acyclic GuaranteeExample.graph_wired). Defined.

Lemma definite_fields_exact_witness :
  exists fs, get_definite_emitted_fields GuaranteeExample.graph "drop" = Some (Ok fs) /\ forall f, f ∈ fs <-> arrives GuaranteeExample.graph "drop" f.
Proof.
  apply (definite_fields_exact GuaranteeExample.graph "drop" GuaranteeExample.graph_acyclic GuaranteeExample.graph_wired).
  apply (bool_decide_unpack _). vm_compute. exact I.
Defined.

(** A closed vote bounds the rows from below only: a fixed schema admits rows with
    its optional fields, which the vote does not list. *)
Example closed_vote_omits_optional_fields :
  let cfg := mkConfig "fixed" (Some [mkDef "x" "int" true false; mkDef "y" "int" false false]) None None in
  let v := own_vote (mkNode SOURCE (Some cfg) false false ∅) in
  v_closed v = true /\ "y" ∉ v_fields v /\
  exists contract, create_contract_from_config cfg None = Ok contract /\ validate contract [("x", PInt 1); ("y", PInt 2)] = [].
Proof.
  intros cfg v. split; [reflexivity|]. split; [apply (bool_decide_unpack _); vm_compute; exact I|]. eexists. split; vm_compute; reflexivity.
Qed.
