(* ===== verification/Tokens.v ===== *)
(** * Tokens: how tokens come into being (core/landscape/data_flow/tokens.py)

    The repository that mints tokens: a fork gives one token per branch, an
    expansion one per row, a coalesce merges the tokens of a fork group into
    one, a collector closes an expansion and releases its outputs.  Each verb
    writes the new tokens, their parents, their lineage frames and the record of
    the group they open in one transaction, and recognises its own replay after
    a crash.  The computation of a merged path by [TokenManager]
    (engine/tokens.py) is here too.

    The tables hold the columns that the verbs read; creation times are left
    out, the authority to write ([Coordination], [Scheduler]) arrives as the
    result [fence] of its check, and payloads and hashes are parameters: SHA-256
    over serialised data, and the payload store, which answers with a content
    address.  A payload is a row with its contract; the payload store and the
    repository of outcomes are configured, and no insertion is lost silently.
    An exception rolls the transaction back. *)

From stdpp Require Import pretty.
From S2P Require Import Prelude Enums AuditDerive Landscape Scheduler Barrier Contracts ContractFlow Lineage.
Open Scope Z_scope.

Notation path := (list LineageFrame).

(** ** Tables *)
Record token_row := mkTokenRow {
  tr_row_id : string; tr_run_id : string; tr_join_group_id : option string; tr_step : option Z; tr_data_ref : option string }.
Record parent_row := mkParentRow { pr_token_id : string; pr_parent_id : string; pr_run_id : string; pr_ordinal : Z }.
Record frame_row := mkFrameRow { fr_token_id : string; fr_run_id : string; fr_depth : Z; fr_frame : LineageFrame }.
Record group_record := mkGroupRecord {
  gr_run_id : string; gr_group_id : string; gr_kind : FrameKind; gr_opener : string; gr_member_count : Z; gr_closes : option string }.
Record coalesce_effect := mkEffect {
  ef_run_id : string; ef_node_id : string; ef_row_id : string; ef_group_id : string; ef_parent_set_hash : string; ef_hash : string;
  ef_data_ref : string; ef_step : option Z; ef_token_id : string; ef_join_group_id : string; ef_members : list (string * option string) }.

(** [node_states] by id: token, run and node; [batches] by id: run and the
    expansion that claimed it; batch members: batch, run, token and ordinal. *)
Record token_store := mkStore {
  rows : gmap string string;
  tokens : gmap string token_row;
  parents : list parent_row;
  frames : list frame_row;
  groups : list group_record;
  outcomes : list (string * TokenOutcome);
  effects : list coalesce_effect;
  work : gmap string work_item;
  states : gmap string (string * string * string);
  expansions : gmap string (string * option string);
  members : list (string * string * string * Z);
  minted : nat;
}.

Definition set_tokens s x := mkStore (rows s) x (parents s) (frames s) (groups s) (outcomes s) (effects s) (work s) (states s) (expansions s) (members s) (minted s).
Definition set_parents s x := mkStore (rows s) (tokens s) x (frames s) (groups s) (outcomes s) (effects s) (work s) (states s) (expansions s) (members s) (minted s).
Definition set_frames s x := mkStore (rows s) (tokens s) (parents s) x (groups s) (outcomes s) (effects s) (work s) (states s) (expansions s) (members s) (minted s).
Definition set_groups s x := mkStore (rows s) (tokens s) (parents s) (frames s) x (outcomes s) (effects s) (work s) (states s) (expansions s) (members s) (minted s).
Definition set_outcomes s x := mkStore (rows s) (tokens s) (parents s) (frames s) (groups s) x (effects s) (work s) (states s) (expansions s) (members s) (minted s).
Definition set_effects s x := mkStore (rows s) (tokens s) (parents s) (frames s) (groups s) (outcomes s) x (work s) (states s) (expansions s) (members s) (minted s).
Definition set_expansions s x := mkStore (rows s) (tokens s) (parents s) (frames s) (groups s) (outcomes s) (effects s) (work s) (states s) x (members s) (minted s).
Definition set_minted s x := mkStore (rows s) (tokens s) (parents s) (frames s) (groups s) (outcomes s) (effects s) (work s) (states s) (expansions s) (members s) x.

(** ** Transactions *)
Definition mint (A : Type) : Type := token_store -> res (A * token_store).

#[export] Instance mint_ret : MRet mint := fun A a s => Ok (a, s).
#[export] Instance mint_bind : MBind mint := fun A B f m s => match m s with Ok (a, s) => f a s | Err e => Err e end.

Definition checked {A} (r : res A) : mint A := fun s => match r with Ok a => Ok (a, s) | Err e => Err e end.
Definition gets {A} (f : token_store -> A) : mint A := fun s => Ok (f s, s).
Definition reads {A} (f : token_store -> res A) : mint A := fun s => match f s with Ok a => Ok (a, s) | Err e => Err e end.
Definition writes (f : token_store -> token_store) : mint unit := fun s => Ok (tt, f s).
Definition stop_if (b : bool) (e : exc) : mint unit := fun s => if b then Err e else Ok (tt, s).

Fixpoint each {A B} (f : A -> mint B) (l : list A) : mint (list B) :=
  match l with [] => mret [] | a :: l => b ← f a; bs ← each f l; mret (b :: bs) end.

(** [one_or_none]. *)
Definition one_or_none {A} (l : list A) : res (option A) :=
  match l with [] => Ok None | [x] => Ok (Some x) | _ => Err (RuntimeError "MultipleResultsFound") end.

(** ** Tokens and their paths *)
Record Token := mkTok {
  t_token_id : string; t_row_id : string; t_run_id : string; t_join_group_id : option string; t_lineage_path : path;
  t_step : option Z; t_data_ref : option string }.

(** [Token.__post_init__]. *)
Definition token (t : Token) : res Token :=
  reject match t_step t with Some n => n <? 0 | None => false end with ValueError "step_in_pipeline" ;; Ok t.

Record TokenRef := mkRef { ref_token_id : string; ref_run_id : string }.

Definition frame_rows_of (s : token_store) (run_id token_id : string) : list frame_row :=
  sort_by (fun a b => fr_depth a <=? fr_depth b) (filter (fun r => fr_token_id r = token_id /\ fr_run_id r = run_id) (frames s)).

(** [_load_lineage_frames]; and one entry of [load_lineage_paths], whose chunks of
    500 ids make no difference. *)
Definition load_lineage_frames (s : token_store) (run_id token_id : string) : path := map fr_frame (frame_rows_of s run_id token_id).

Definition load_lineage_path (s : token_store) (run_id token_id : string) : res path :=
  let entries := frame_rows_of s run_id token_id in
  reject negb (map fr_depth entries == map Z.of_nat (seq 0 (length entries))) with AuditIntegrityError "non-dense depths" ;;
  Ok (map fr_frame entries).

(** ** Ownership (data_flow/ownership.py) *)
Definition resolve_token_ownership (s : token_store) (token_id : string) : res (string * string) :=
  match tokens s !! token_id with
  | None => Err (AuditIntegrityError "Token does not exist in the tokens table")
  | Some t =>
      match rows s !! tr_row_id t with
      | None => Err (AuditIntegrityError "Token references a row which does not exist")
      | Some run =>
          reject negb (tr_run_id t == run) with AuditIntegrityError "Token claims another run than its row" ;;
          Ok (tr_row_id t, run)
      end
  end.

Definition validate_token_run_ownership (s : token_store) (r : TokenRef) : res unit :=
  o ← resolve_token_ownership s (ref_token_id r);
  reject negb (o.2 == ref_run_id r) with AuditIntegrityError "Cross-run contamination prevented" ;; Ok tt.

Definition validate_token_row_ownership (s : token_store) (token_id row_id : string) : res unit :=
  o ← resolve_token_ownership s token_id;
  reject negb (o.1 == row_id) with AuditIntegrityError "Cross-row lineage corruption prevented" ;; Ok tt.

(** ** Release groups *)
Definition find_group (s : token_store) (run_id group_id : string) : option group_record :=
  head (filter (fun r => gr_run_id r = run_id /\ gr_group_id r = group_id) (groups s)).

Definition is_release_group (s : token_store) (run_id group_id : string) : res bool :=
  match find_group s run_id group_id with
  | None => Err (AuditIntegrityError "is_release_group: group has no group_records row")
  | Some r => Ok (is_some (gr_closes r))
  end.

(** What the walks of [Lineage] read of it: they ask outward from the innermost
    frame, up to the first group that is none, and may meet an unknown group. *)
Definition releases (s : token_store) (run_id group_id : string) : bool :=
  match is_release_group s run_id group_id with Ok b => b | Err _ => false end.

Fixpoint ask_outward (s : token_store) (run_id : string) (reversed : path) : res unit :=
  match reversed with
  | [] => Ok tt
  | f :: below => b ← is_release_group s run_id (group_id f); if (b : bool) then ask_outward s run_id below else Ok tt
  end.

Definition own_frame (s : token_store) (run_id : string) (p : path) : res (option (path * LineageFrame)) :=
  _ ← ask_outward s run_id (reverse p); Ok (innermost_own_frame (releases s run_id) p).

Definition truncate (s : token_store) (run_id : string) (k : FrameKind) (g : string) (p : path) : res path :=
  match last p with
  | Some f => if is_frame k g f then truncate_at_closer_frame (releases s run_id) p k g
              else _ ← ask_outward s run_id (reverse p); truncate_at_closer_frame (releases s run_id) p k g
  | None => truncate_at_closer_frame (releases s run_id) p k g
  end.

(** [except OrchestrationInvariantError as exc: raise AuditIntegrityError]. *)
Definition durable_truncate (s : token_store) (run_id : string) (k : FrameKind) (g : string) (p : path) : res path :=
  match truncate s run_id k g p with
  | Err (OrchestrationInvariantError _) => Err (AuditIntegrityError "durable strict pop refused")
  | r => r
  end.

(** ** Insertions, with the constraints of the tables *)
Definition token_exists (s : token_store) (token_id run_id : string) : bool :=
  match tokens s !! token_id with Some t => tr_run_id t == run_id | None => false end.

Definition insert_token (t : Token) : mint unit :=
  s ← gets id;
  _ ← stop_if (is_some (tokens s !! t_token_id t) || negb (rows s !! t_row_id t == Some (t_run_id t))) (IntegrityError "tokens");
  writes (fun s => set_tokens s (<[t_token_id t := mkTokenRow (t_row_id t) (t_run_id t) (t_join_group_id t) (t_step t) (t_data_ref t)]> (tokens s))).

Definition insert_parent (r : parent_row) : mint unit :=
  s ← gets id;
  _ ← stop_if (existsb (fun x => (pr_token_id x == pr_token_id r) && ((pr_parent_id x == pr_parent_id r) || (pr_ordinal x =? pr_ordinal r))) (parents s)
               || negb (token_exists s (pr_token_id r) (pr_run_id r) && token_exists s (pr_parent_id r) (pr_run_id r)))
        (IntegrityError "token_parents");
  writes (fun s => set_parents s (parents s ++ [r])).

Definition insert_frame (r : frame_row) : mint unit :=
  s ← gets id;
  _ ← stop_if (existsb (fun x => (fr_token_id x == fr_token_id r) && (fr_run_id x == fr_run_id r) && (fr_depth x =? fr_depth r)) (frames s)
               || negb (token_exists s (fr_token_id r) (fr_run_id r)))
        (IntegrityError "token_lineage_frames");
  writes (fun s => set_frames s (frames s ++ [r])).

Definition insert_group (r : group_record) : mint unit :=
  s ← gets id;
  _ ← stop_if (existsb (fun x => (gr_run_id x == gr_run_id r) && ((gr_group_id x == gr_group_id r) || (gr_opener x == gr_opener r))) (groups s)
               || negb (token_exists s (gr_opener r) (gr_run_id r)) || (gr_member_count r <? 0))
        (IntegrityError "group_records");
  writes (fun s => set_groups s (groups s ++ [r])).

(** At most one completed outcome per token, a batch of the same run, and an
    error hash of sixteen hex digits. *)
Definition outcome_refused (s : token_store) (run_id : string) (o : TokenOutcome) : bool :=
  (to_completed o && existsb (fun x => (to_token_id x.2 == to_token_id o) && to_completed x.2) (outcomes s))
  || negb (token_exists s (to_token_id o) run_id)
  || match to_batch_id o with Some b => negb (match expansions s !! b with Some e => e.1 == run_id | None => false end) | None => false end
  || match to_error_hash o with Some h => negb (is_hex16 h) | None => false end.

Definition insert_outcome (refusal : exc) (run_id : string) (o : TokenOutcome) : mint unit :=
  s ← gets id;
  _ ← stop_if (outcome_refused s run_id o) refusal;
  writes (fun s => set_outcomes s (outcomes s ++ [(run_id, o)])).

Definition insert_lineage_frames (run_id token_id : string) (p : path) : mint (list unit) :=
  each insert_frame (imap (fun depth f => mkFrameRow token_id run_id (Z.of_nat depth) f) p).

Definition insert_child_tokens_on (run_id : string) (children : list Token) (parent_id : string) : mint unit :=
  _ ← each insert_token children;
  _ ← each insert_parent (imap (fun i c => mkParentRow (t_token_id c) parent_id run_id (Z.of_nat i)) children);
  _ ← each (fun c => insert_lineage_frames run_id (t_token_id c) (t_lineage_path c)) children;
  mret tt.

(** ** The cross-check of a supplied path *)
Definition row_union_release_witness (s : token_store) (run_id token_id : string) : bool :=
  existsb (fun e : string * work_item =>
      (k_run_id (wi_key e.2) == run_id) && (k_token_id (wi_key e.2) == token_id) && is_some (k_row_union_name (wi_key e.2)) && negb (wi_status e.2 == BLOCKED))
    (map_to_list (work s)).

Definition assert_parent_lineage (s : token_store) (r : TokenRef) (supplied : path) : res unit :=
  let mint := load_lineage_frames s (ref_run_id r) (ref_token_id r) in
  if supplied == mint then Ok tt
  else if negb (mint == []) && row_union_release_witness s (ref_run_id r) (ref_token_id r)
            && existsb (fun f => (kind f == FORK) && (pop_fork_frame mint (group_id f) == Ok supplied)) mint
  then Ok tt
  else Err (AuditIntegrityError "parent lineage divergence").

(** The path to build on: the caller's, once cross-checked, or the durable one. *)
Definition current_path (s : token_store) (r : TokenRef) (run_id : string) (supplied : option path) : res path :=
  match supplied with
  | None => Ok (load_lineage_frames s run_id (ref_token_id r))
  | Some p => _ ← assert_parent_lineage s r p; Ok p
  end.

(** ** Children that were committed *)
Definition load_children_for_parent (s : token_store) (r : TokenRef) : res (list (Token * Z)) :=
  let links := sort_by (fun a b => pr_ordinal a <=? pr_ordinal b)
                 (filter (fun l => (pr_parent_id l = ref_token_id r /\ pr_run_id l = ref_run_id r) /\ token_exists s (pr_token_id l) (pr_run_id l) = true) (parents s)) in
  mapM_res (fun l =>
    p ← load_lineage_path s (ref_run_id r) (pr_token_id l);
    match tokens s !! pr_token_id l with
    | Some t => t' ← token (mkTok (pr_token_id l) (tr_row_id t) (tr_run_id t) (tr_join_group_id t) p (tr_step t) (tr_data_ref t)); Ok (t', pr_ordinal l)
    | None => Err (AuditIntegrityError "Token does not exist in the tokens table")
    end) links.

(** The group that all children have as their innermost frame, if it is one. *)
Definition common_group (k : FrameKind) (children : list (Token * Z)) : option string :=
  match remove_dups (omap (fun c => f ← last (t_lineage_path c.1); if kind f == k then Some (group_id f) else None) children) with
  | [g] => Some g
  | _ => None
  end.

(** A child as the verb would have minted it. *)
Definition child_matches (row_id run_id : string) (step : option Z) (expected : path) (ordinal : nat) (c : Token * Z) : bool :=
  (t_row_id c.1 == row_id) && (t_run_id c.1 == run_id) && is_none (t_join_group_id c.1) && (t_step c.1 == step)
  && (c.2 =? Z.of_nat ordinal) && (t_lineage_path c.1 == expected).

(** [all(... enumerate(zip(..., strict=True)))], on lists of one length. *)
Fixpoint all_matched {A B} (matches : nat -> A -> B -> bool) (i : nat) (l : list A) (k : list B) : bool :=
  match l, k with
  | [], [] => true
  | a :: l, b :: k => matches i a b && all_matched matches (S i) l k
  | _, _ => false
  end.

Definition terminal_of (s : token_store) (r : TokenRef) : res (option TokenOutcome) :=
  one_or_none (map snd (filter (fun x => (to_token_id x.2 = ref_token_id r /\ x.1 = ref_run_id r) /\ to_completed x.2 = true) (outcomes s))).

Section verbs.
Context (generate_id : nat -> string).
Context {Payload : Type} (data_ref stored_ref : Payload -> string).
Context (parent_set_hash : list string -> string) (effect_hash : list string -> option Z -> string -> string).

Definition new_id : mint string := s ← gets id; _ ← writes (fun s => set_minted s (S (minted s))); mret (generate_id (minted s)).

Definition opener_outcome (token_id : string) (p : TerminalPath) : TokenOutcome := mkTokenOutcome token_id (Some TRANSIENT) p true None None None.

(** ** Fork *)
Definition reconcile_fork_replay (r : TokenRef) (row_id : string) (branches : list string) (step : option Z) (outcome : TokenOutcome)
  : mint (list Token * string) :=
  children ← reads (fun s => load_children_for_parent s r);
  parent_path ← reads (fun s => load_lineage_path s (ref_run_id r) (ref_token_id r));
  match common_group FORK children with
  | Some g =>
      _ ← stop_if (negb ((to_outcome outcome == Some TRANSIENT) && (to_path outcome == FORK_PARENT) && (length children =? length branches)%nat
             && all_matched (fun i c b => child_matches row_id (ref_run_id r) step (parent_path ++ [mkFrame FORK g b]) i c) 0 children branches))
           (AuditIntegrityError "fork_token: divergent fork replay");
      mret (map fst children, g)
  | None => checked (Err (AuditIntegrityError "fork_token: divergent fork replay"))
  end.

Definition fork_child (run_id row_id group_id : string) (step : option Z) (parent_frames : path) (branch : string) : mint Token :=
  child_id ← new_id;
  f ← checked (lineage_frame (mkFrame FORK group_id branch));
  checked (token (mkTok child_id row_id run_id None (parent_frames ++ [f]) step None)).

Definition fork_token (fence : res unit) (r : TokenRef) (row_id : string) (branches : list string) (authority_run item_token : string) (step : option Z)
    (supplied : option path) : mint (list Token * string) :=
  _ ← stop_if (branches == []) (ValueError "fork_token requires at least one branch");
  _ ← reads (fun s => validate_token_run_ownership s r);
  _ ← reads (fun s => validate_token_row_ownership s (ref_token_id r) row_id);
  _ ← stop_if (negb (ref_run_id r == authority_run) || negb (ref_token_id r == item_token))
        (AuditIntegrityError "fork_token: parent does not belong to the claimed work item");
  _ ← checked fence;
  existing ← reads (fun s => terminal_of s r);
  match existing with
  | Some outcome => reconcile_fork_replay r row_id branches step outcome
  | None =>
      fork_group_id ← new_id;
      parent_frames ← reads (fun s => current_path s r authority_run supplied);
      children ← each (fork_child authority_run row_id fork_group_id step parent_frames) branches;
      _ ← insert_child_tokens_on authority_run children (ref_token_id r);
      _ ← insert_group (mkGroupRecord authority_run fork_group_id FORK (ref_token_id r) (Z.of_nat (length branches)) None);
      _ ← new_id;
      _ ← insert_outcome (IntegrityError "token_outcomes") authority_run (opener_outcome (ref_token_id r) FORK_PARENT);
      mret (children, fork_group_id)
  end.

(** ** Expansion *)

(** How the opener of an expansion is disposed of: as the one token that was
    expanded, or with its batch. *)
Record disposition := mkDisposition { dp_ref : TokenRef; dp_outcome : TerminalOutcome; dp_path : TerminalPath; dp_error_hash : option string }.

#[export] Instance TokenRef_eq_dec : EqDecision TokenRef.
Proof. solve_decision. Defined.

Definition batch_tokens (s : token_store) (batch_id run_id : string) : list string :=
  map (fun m => m.1.2) (sort_by (fun a b : string * string * string * Z => a.2 <=? b.2)
    (filter (fun m : string * string * string * Z => m.1.1.1 = batch_id /\ m.1.1.2 = run_id) (members s))).

Definition disposition_ok (d : disposition) : bool :=
  ((dp_outcome d == TRANSIENT) && (dp_path d == BATCH_CONSUMED) && is_none (dp_error_hash d))
  || ((dp_outcome d == FAILURE) && (dp_path d == QUARANTINED_AT_SOURCE) && match dp_error_hash d with Some h => negb (h == "") | None => false end).

(** The checks of the arguments, with the dispositions to write: those of the
    batch's members unless the caller gave them. *)
Definition expansion_dispositions (s : token_store) (r : TokenRef) (authority_run : string) (p : TerminalPath) (batch : option string) (ds : list disposition)
  : res (list disposition) :=
  match p, batch with
  | EXPAND_PARENT, None => reject negb (length ds =? 0)%nat with ValueError "EXPAND_PARENT forbids aggregation_parent_dispositions" ;; Ok []
  | EXPAND_PARENT, Some _ => Err (ValueError "EXPAND_PARENT forbids parent_batch_id")
  | BATCH_CONSUMED, None => Err (ValueError "BATCH_CONSUMED requires parent_batch_id")
  | BATCH_CONSUMED, Some b =>
      let ds := match ds with
                | [] => map (fun t => mkDisposition (mkRef t authority_run) TRANSIENT BATCH_CONSUMED None) (batch_tokens s b (ref_run_id r))
                | _ => ds
                end in
      reject (length ds =? 0)%nat with AuditIntegrityError "parent is not a member of an existing non-empty batch" ;;
      reject negb (bool_decide (NoDup (map (fun d => ref_token_id (dp_ref d)) ds))) with AuditIntegrityError "dispositions contain duplicate tokens" ;;
      reject negb (bool_decide (ref_token_id r ∈ map (fun d => ref_token_id (dp_ref d)) ds)) with AuditIntegrityError "dispositions omit the expansion parent" ;;
      _ ← mapM_res (fun d =>
             reject negb (ref_run_id (dp_ref d) == ref_run_id r) with AuditIntegrityError "dispositions cross run identity" ;;
             reject negb (disposition_ok d) with AuditIntegrityError "disposition is not BATCH_CONSUMED or quarantined" ;;
             Ok tt) ds;
      Ok ds
  | _, _ => Err (ValueError "parent_path must be EXPAND_PARENT or BATCH_CONSUMED")
  end.

(** [record_parent_outcomes_on], for dispositions that leave no witness in
    another table. *)
Definition disposition_outcome (batch : option string) (d : disposition) : TokenOutcome :=
  mkTokenOutcome (ref_token_id (dp_ref d)) (Some (dp_outcome d)) (dp_path d) true None (if dp_path d == BATCH_CONSUMED then batch else None) (dp_error_hash d).

Definition record_parent_outcomes_on (run_id : string) (ds : list disposition) (batch : option string) : mint unit :=
  _ ← each (fun d =>
        _ ← stop_if (negb (ref_run_id (dp_ref d) == run_id)) (AuditIntegrityError "Token outcome belongs to another run");
        _ ← checked (validate_outcome_fields (disposition_outcome batch d));
        _ ← reads (fun s => validate_token_run_ownership s (dp_ref d));
        abandoned ← gets (fun s => existsb (fun x => (x.1 == ref_run_id (dp_ref d)) && (to_token_id x.2 == ref_token_id (dp_ref d)) && (to_path x.2 == ABANDONED)) (outcomes s));
        _ ← stop_if abandoned (AuditIntegrityError "an ABANDONED outcome already exists");
        new_id) ds;
  _ ← each (fun d => insert_outcome (LandscapeRecordError "database rejected audit write") run_id (disposition_outcome batch d)) ds;
  mret tt.

(** [_verify_aggregation_parent_dispositions]. *)
Definition verify_aggregation_parent_dispositions (s : token_store) (batch : string) (run_id : string) (ds : list disposition) : res unit :=
  let found := map snd (filter (fun x => (x.1 = run_id /\ to_token_id x.2 ∈ map (fun d => ref_token_id (dp_ref d)) ds) /\ to_completed x.2 = true) (outcomes s)) in
  reject negb (length found =? length ds)%nat || negb (length (remove_dups (map to_token_id found)) =? length ds)%nat
    with AuditIntegrityError "batch expansion replay lacks exact terminal parent dispositions" ;;
  _ ← mapM_res (fun d =>
         match last (filter (fun x => to_token_id x = ref_token_id (dp_ref d)) found) with
         | None => Err (KeyError "observed")
         | Some x =>
             reject negb ((to_outcome x == Some (dp_outcome d)) && (to_path x == dp_path d)
                          && (to_batch_id x == if dp_path d == BATCH_CONSUMED then Some batch else None) && (to_error_hash x == dp_error_hash d))
               with AuditIntegrityError "batch expansion replay has divergent terminal parent dispositions" ;;
             Ok tt
         end) ds;
  Ok tt.

Definition reconcile_expansion_replay (r : TokenRef) (row_id : string) (refs : list string) (step : option Z) (outcome : TokenOutcome)
    (claimed : option string) (expected_path : TerminalPath) : mint (list Token * string) :=
  children ← reads (fun s => load_children_for_parent s r);
  parent_path ← reads (fun s => load_lineage_path s (ref_run_id r) (ref_token_id r));
  let divergent := AuditIntegrityError "expand_token: divergent expansion replay" in
  match match claimed with Some g => Some g | None => common_group EXPAND children end with
  | Some g =>
      _ ← stop_if (negb ((to_outcome outcome == Some TRANSIENT) && (to_path outcome == expected_path) && (length children =? length refs)%nat
             && all_matched (fun i c ref => child_matches row_id (ref_run_id r) step (parent_path ++ [mkFrame EXPAND g (t_token_id c.1)]) i c
                                            && (t_data_ref c.1 == Some ref)) 0 children refs)) divergent;
      record ← gets (fun s => find_group s (ref_run_id r) g);
      _ ← stop_if (negb match record with
                        | Some x => (gr_opener x == ref_token_id r) && (gr_member_count x =? Z.of_nat (length children))
                        | None => false
                        end) divergent;
      mret (map fst children, g)
  | None => checked (Err divergent)
  end.

Definition expand_child (run_id row_id group_id : string) (step : option Z) (parent_frames : path) (ref : string) : mint Token :=
  child_id ← new_id;
  f ← checked (lineage_frame (mkFrame EXPAND group_id child_id));
  checked (token (mkTok child_id row_id run_id None (parent_frames ++ [f]) step (Some ref))).

(** The claim of the batch: its members are the dispositions, in order, and no
    expansion has claimed it. *)
Definition claim_batch (r : TokenRef) (authority_run : string) (batch expand_group_id : string) (ds : list disposition) : mint unit :=
  ids ← gets (fun s => batch_tokens s batch (ref_run_id r));
  _ ← stop_if (negb (ids == map (fun d => ref_token_id (dp_ref d)) ds)) (AuditIntegrityError "dispositions do not match the ordered membership of the batch");
  e ← gets (fun s => expansions s !! batch);
  match e with
  | Some (run, None) =>
      _ ← stop_if (negb (run == authority_run)) (AuditIntegrityError "batch belongs to another run");
      writes (fun s => set_expansions s (<[batch := (run, Some expand_group_id)]> (expansions s)))
  | Some (run, Some _) =>
      checked (Err (AuditIntegrityError (if run == ref_run_id r then "batch already claimed an expansion" else "batch belongs to another run")))
  | None => checked (Err (AuditIntegrityError "batch does not exist"))
  end.

Definition expand_token (fence : res unit) (r : TokenRef) (row_id : string) (payloads : list Payload) (authority_run : string) (step : option Z)
    (p : TerminalPath) (batch : option string) (dispositions : list disposition) (supplied : option path) : mint (list Token * string) :=
  _ ← stop_if (length payloads =? 0)%nat (ValueError "expand_token requires at least 1 child payload");
  ds ← reads (fun s => expansion_dispositions s r authority_run p batch dispositions);
  _ ← reads (fun s => validate_token_run_ownership s r);
  _ ← reads (fun s => validate_token_row_ownership s (ref_token_id r) row_id);
  expand_group_id ← new_id;
  let refs := map data_ref payloads in
  _ ← stop_if (negb (ref_run_id r == authority_run)) (AuditIntegrityError "expand_token: parent does not belong to the authority's run");
  _ ← checked fence;
  existing ← reads (fun s => terminal_of s r);
  match existing with
  | Some outcome =>
      match p, batch with
      | EXPAND_PARENT, _ =>
          _ ← stop_if (negb (to_path outcome == EXPAND_PARENT)) (AuditIntegrityError "expand_token: parent already has a terminal outcome");
          reconcile_expansion_replay r row_id refs step outcome None EXPAND_PARENT
      | _, Some b =>
          _ ← stop_if (negb (to_path outcome == BATCH_CONSUMED)) (AuditIntegrityError "expand_token: parent already has a terminal outcome");
          claim ← gets (fun s => expansions s !! b);
          match claim with
          | Some (run, claimed) =>
              _ ← stop_if (negb (to_batch_id outcome == Some b) || negb (run == ref_run_id r)) (AuditIntegrityError "expand_token: divergent expansion replay");
              _ ← reads (fun s => verify_aggregation_parent_dispositions s b (ref_run_id r) ds);
              reconcile_expansion_replay r row_id refs step outcome claimed BATCH_CONSUMED
          | None => checked (Err (AuditIntegrityError "expand_token: divergent expansion replay"))
          end
      | _, None => checked (Err (ValueError "BATCH_CONSUMED requires parent_batch_id"))
      end
  | None =>
      parent_frames ← reads (fun s => current_path s r authority_run supplied);
      _ ← stop_if (negb (map stored_ref payloads == refs)) (AuditIntegrityError "expand_token: payload store returned another identity");
      _ ← match p, batch with BATCH_CONSUMED, Some b => claim_batch r authority_run b expand_group_id ds | _, _ => mret tt end;
      children ← each (expand_child authority_run row_id expand_group_id step parent_frames) refs;
      _ ← insert_child_tokens_on authority_run children (ref_token_id r);
      _ ← insert_group (mkGroupRecord authority_run expand_group_id EXPAND (ref_token_id r) (Z.of_nat (length refs)) None);
      _ ← (if p == EXPAND_PARENT then _ ← new_id; insert_outcome (IntegrityError "token_outcomes") authority_run (opener_outcome (ref_token_id r) EXPAND_PARENT)
           else record_parent_outcomes_on authority_run ds batch);
      mret (children, expand_group_id)
  end.

(** [record_empty_expansion]: a group without members. *)
Definition record_empty_expansion (fence : res unit) (r : TokenRef) (authority_run : string) : mint string :=
  _ ← reads (fun s => validate_token_run_ownership s r);
  _ ← stop_if (negb (ref_run_id r == authority_run)) (AuditIntegrityError "record_empty_expansion: parent does not belong to the authority's run");
  _ ← checked fence;
  existing ← reads (fun s => one_or_none (filter (fun x => gr_run_id x = ref_run_id r /\ gr_opener x = ref_token_id r) (groups s)));
  match existing with
  | Some x =>
      _ ← stop_if (negb (gr_member_count x =? 0)) (AuditIntegrityError "divergent empty-expansion replay");
      mret (gr_group_id x)
  | None =>
      group_id ← new_id;
      _ ← insert_group (mkGroupRecord authority_run group_id EXPAND (ref_token_id r) 0 None);
      mret group_id
  end.

(** ** Coalesce *)

(** [_lock_coalesce_dependencies]: the node states of the parents. *)
Definition check_parent_states (s : token_store) (refs : list TokenRef) (state_ids : list string) (node_id : string) : res unit :=
  let found := filter (fun i => is_some (states s !! i) = true) (sort_by String.leb state_ids) in
  reject negb (length found =? length state_ids)%nat with AuditIntegrityError "membership references a missing node state" ;;
  _ ← mapM_res (fun i =>
         match states s !! i, dict_get (zip state_ids refs) i with
         | Some (t, run, n), Some r =>
             reject negb ((t == ref_token_id r) && (run == ref_run_id r)) with AuditIntegrityError "membership crosses token or run identity" ;;
             reject negb (n == node_id) with AuditIntegrityError "membership belongs to a different coalesce node" ;;
             Ok tt
         | _, _ => Err (KeyError "expected_by_state")
         end) found;
  Ok tt.

(** [_validate_and_load_coalesce_effect]. *)
Definition validate_and_load_coalesce_effect (s : token_store) (e : coalesce_effect) (ids : list string) (state_ids : option (list string)) (step : option Z)
    (hash ref : string) : res Token :=
  reject negb (map fst (ef_members e) == ids) with AuditIntegrityError "ordered parent sequence differs" ;;
  reject match state_ids with
         | Some l => existsb is_some (map snd (ef_members e)) && negb (map snd (ef_members e) == map Some l)
         | None => false
         end with AuditIntegrityError "parent/state membership differs" ;;
  reject negb (ef_step e == step) with AuditIntegrityError "step_in_pipeline differs" ;;
  reject negb ((ef_hash e == hash) && (ef_data_ref e == ref)) with AuditIntegrityError "merged payload/contract effect differs" ;;
  match tokens s !! ef_token_id e with
  | None => Err (AuditIntegrityError "result tuple no longer resolves to its merged token")
  | Some t =>
      reject negb ((tr_run_id t == ef_run_id e) && (tr_join_group_id t == Some (ef_join_group_id e)))
        with AuditIntegrityError "result tuple no longer resolves to its merged token" ;;
      reject negb ((tr_row_id t == ef_row_id e) && (tr_step t == ef_step e) && (tr_data_ref t == Some ref))
        with AuditIntegrityError "result token has divergent row, step or payload identity" ;;
      reject negb (map pr_parent_id (sort_by (fun a b => pr_ordinal a <=? pr_ordinal b)
                     (filter (fun l => pr_token_id l = ef_token_id e /\ pr_run_id l = tr_run_id t) (parents s))) == ids)
        with AuditIntegrityError "result token has divergent ordered parent links" ;;
      p ← load_lineage_path s (tr_run_id t) (ef_token_id e);
      token (mkTok (ef_token_id e) (tr_row_id t) (tr_run_id t) (tr_join_group_id t) p (tr_step t) (tr_data_ref t))
  end.

(** The paths below the closed group, which must be one. *)
Definition the_remaining_path (e : exc) (paths : list path) : res path :=
  match remove_dups paths with [p] => Ok p | _ => Err e end.

Definition supplied_paths (s : token_store) (authority_run : string) (refs : list TokenRef) (supplied : option (list (string * path))) : res (list path) :=
  match supplied with
  | None => Ok (map (fun r => load_lineage_frames s authority_run (ref_token_id r)) refs)
  | Some d =>
      _ ← mapM_res (fun r => match dict_get d (ref_token_id r) with Some p => assert_parent_lineage s r p | None => Err (KeyError "parent_lineage_paths") end) refs;
      mapM_res (fun r => match dict_get d (ref_token_id r) with Some p => Ok p | None => Err (KeyError "parent_lineage_paths") end) refs
  end.

(** The path of the merged token, and the group that is closed. *)
Definition close_fork (s : token_store) (run_id : string) (paths : list path) : res (path * string) :=
  match paths with
  | [] => Err (AuditIntegrityError "coalesce_tokens requires at least one parent token")
  | first :: _ =>
      own ← own_frame s run_id first;
      match own with
      | Some (_, f) =>
          reject negb (kind f == FORK) with AuditIntegrityError "coalesce_tokens: no innermost FORK lineage frame to close" ;;
          remaining ← mapM_res (durable_truncate s run_id FORK (group_id f)) paths;
          p ← the_remaining_path (AuditIntegrityError "coalesce_tokens: parents do not share their remaining lineage path") remaining;
          Ok (p, group_id f)
      | None => Err (AuditIntegrityError "coalesce_tokens: no innermost FORK lineage frame to close")
      end
  end.

Definition resolved_node_id (node_id : option string) (step : option Z) : string :=
  let legacy := ("legacy-step:" ++ match step with Some n => pretty n | None => "unknown" end)%string in
  match node_id with Some n => if n == "" then legacy else n | None => legacy end.

Definition insert_effect (e : coalesce_effect) : mint unit :=
  s ← gets id;
  _ ← stop_if (existsb (fun x => ((ef_run_id x == ef_run_id e) && (ef_node_id x == ef_node_id e) && (ef_row_id x == ef_row_id e)
                                   && (ef_parent_set_hash x == ef_parent_set_hash e))
                                 || (ef_token_id x == ef_token_id e) || (ef_join_group_id x == ef_join_group_id e)) (effects s))
        (IntegrityError "coalesce_effects");
  writes (fun s => set_effects s (effects s ++ [e])).

Definition check_parents (s : token_store) (refs : list TokenRef) (row_id : string) : res unit :=
  _ ← mapM_res (fun r =>
         _ ← validate_token_row_ownership s (ref_token_id r) row_id;
         _ ← validate_token_run_ownership s r;
         reject negb (from_option (fun first => ref_run_id r == ref_run_id first) true (head refs)) with AuditIntegrityError "Cross-run contamination prevented in coalesce" ;;
         Ok tt) refs;
  Ok tt.

Definition coalesce_tokens (fence : res unit) (refs : list TokenRef) (row_id : string) (payload : Payload) (authority_run : string) (node_id : option string)
    (state_ids : option (list string)) (step : option Z) (supplied : option (list (string * path))) : mint Token :=
  let ids := map ref_token_id refs in
  let node := resolved_node_id node_id step in
  _ ← stop_if (length refs =? 0)%nat (AuditIntegrityError "coalesce_tokens requires at least one parent token");
  _ ← stop_if (negb (bool_decide (NoDup ids))) (AuditIntegrityError "coalesce_tokens received duplicate parent tokens");
  _ ← stop_if match state_ids with Some l => negb (length l =? length refs)%nat | None => false end
        (AuditIntegrityError "parent_state_ids must align one-for-one with parent_refs");
  _ ← stop_if match state_ids with Some l => bool_decide ("" ∈ l) || negb (bool_decide (NoDup l)) | None => false end
        (AuditIntegrityError "parent_state_ids must be distinct non-empty identities");
  _ ← reads (fun s => check_parents s refs row_id);
  let ref := data_ref payload in
  let hash := effect_hash ids step ref in
  let set_hash := parent_set_hash (sort_by String.leb ids) in
  _ ← stop_if (negb (from_option (fun r => ref_run_id r == authority_run) true (head refs)))
        (AuditIntegrityError "coalesce_tokens: parents do not belong to the authority's run");
  _ ← checked fence;
  _ ← match state_ids with Some l => reads (fun s => check_parent_states s refs l node) | None => mret tt end;
  existing ← reads (fun s => one_or_none (filter (fun e => (ef_run_id e = authority_run /\ ef_node_id e = node) /\ ef_row_id e = row_id /\ ef_parent_set_hash e = set_hash) (effects s)));
  match existing with
  | Some e => reads (fun s => validate_and_load_coalesce_effect s e ids state_ids step hash ref)
  | None =>
      paths ← reads (fun s => supplied_paths s authority_run refs supplied);
      closed ← reads (fun s => close_fork s authority_run paths);
      _ ← stop_if (negb (stored_ref payload == ref)) (AuditIntegrityError "coalesce_tokens payload store violated its content-addressed contract");
      join_group_id ← new_id;
      token_id ← new_id;
      _ ← new_id;
      let merged := mkTok token_id row_id authority_run (Some join_group_id) closed.1 step (Some ref) in
      _ ← insert_token merged;
      _ ← insert_lineage_frames authority_run token_id closed.1;
      _ ← each insert_parent (imap (fun i r => mkParentRow token_id (ref_token_id r) authority_run (Z.of_nat i)) refs);
      _ ← insert_effect (mkEffect authority_run node row_id closed.2 set_hash hash ref step token_id join_group_id
                           (imap (fun i r => (ref_token_id r, l ← state_ids; l !! i)) refs));
      checked (token merged)
  end.

(** ** Collect *)
Definition reconcile_collect_replay (representative : TokenRef) (run_id : string) (base_path : path) (release_group_id : string) (committed : Z) (refs : list string)
  : mint (string * list string) :=
  let divergent := AuditIntegrityError "collect_tokens: divergent collect replay" in
  if committed =? 0 then
    _ ← stop_if (negb (length refs =? 0)%nat) divergent; mret (release_group_id, [])
  else
    _ ← stop_if (length refs =? 0)%nat divergent;
    children ← reads (fun s => load_children_for_parent s representative);
    _ ← stop_if (negb ((committed =? Z.of_nat (length refs)) && (length children =? length refs)%nat
           && all_matched (fun i c ref => (t_run_id c.1 == run_id) && (t_data_ref c.1 == Some ref) && (c.2 =? Z.of_nat i)
                                && (t_lineage_path c.1 == base_path ++ [mkFrame EXPAND release_group_id (t_token_id c.1)])) 0 children refs)) divergent;
    mret (release_group_id, map (fun c => t_token_id c.1) children).

(** The group's id and the ids of the released tokens. *)
Definition collect_tokens (fence : res unit) (refs : list TokenRef) (group_id : string) (outputs : list Payload) (authority_run : string) (step : option Z)
    (supplied : option (list (string * path))) : mint (string * list string) :=
  match refs with
  | [] => checked (Err (AuditIntegrityError "collect_tokens requires at least one member token"))
  | representative :: _ =>
      _ ← stop_if (negb (bool_decide (NoDup (map ref_token_id refs)))) (AuditIntegrityError "collect_tokens received duplicate member tokens");
      owner ← reads (fun s => resolve_token_ownership s (ref_token_id representative));
      _ ← reads (fun s => mapM_res (fun r =>
             _ ← validate_token_run_ownership s r;
             _ ← validate_token_row_ownership s (ref_token_id r) owner.1;
             reject negb (ref_run_id r == owner.2) with AuditIntegrityError "Cross-run contamination prevented in collect" ;;
             Ok tt) refs);
      let out_refs := map data_ref outputs in
      _ ← stop_if (negb (owner.2 == authority_run)) (AuditIntegrityError "collect_tokens: members do not belong to the authority's run");
      _ ← checked fence;
      paths ← reads (fun s => supplied_paths s authority_run refs supplied);
      base_path ← reads (fun s =>
        remaining ← mapM_res (durable_truncate s authority_run EXPAND group_id) paths;
        the_remaining_path (AuditIntegrityError "collect_tokens: members do not share their remaining lineage path") remaining);
      existing ← reads (fun s => one_or_none (filter (fun x => gr_run_id x = owner.2 /\ gr_opener x = ref_token_id representative) (groups s)));
      match existing with
      | Some x => reconcile_collect_replay representative authority_run base_path (gr_group_id x) (gr_member_count x) out_refs
      | None =>
          if (length outputs =? 0)%nat then
            release_group_id ← new_id;
            _ ← insert_group (mkGroupRecord authority_run release_group_id EXPAND (ref_token_id representative) 0 (Some group_id));
            mret (release_group_id, [])
          else
            _ ← stop_if (negb (map stored_ref outputs == out_refs)) (AuditIntegrityError "collect_tokens: payload store returned another identity");
            release_group_id ← new_id;
            children ← each (expand_child authority_run owner.1 release_group_id step base_path) out_refs;
            _ ← insert_child_tokens_on authority_run children (ref_token_id representative);
            _ ← insert_group (mkGroupRecord authority_run release_group_id EXPAND (ref_token_id representative) (Z.of_nat (length out_refs)) (Some group_id));
            mret (release_group_id, map t_token_id children)
      end
  end.
End verbs.

(** ** The path that [TokenManager.coalesce_tokens] gives the merged token *)
Definition merged_path (s : token_store) (run_id : string) (parents : list TokenInfo) : res path :=
  match parents with
  | [] => Err (OrchestrationInvariantError "coalesce_tokens requires at least one parent token")
  | first :: _ =>
      reject existsb (fun p => negb (row_id p == row_id first)) parents with OrchestrationInvariantError "coalesce_tokens requires all parents to share row_id" ;;
      own ← own_frame s run_id (lineage_path first);
      match own with
      | Some (_, f) =>
          reject negb (kind f == FORK) with OrchestrationInvariantError "coalesce_tokens: no innermost FORK frame to close" ;;
          remaining ← mapM_res (fun p => truncate s run_id FORK (group_id f) (lineage_path p)) parents;
          the_remaining_path (OrchestrationInvariantError "coalesce_tokens: parents do not share their remaining lineage path") remaining
      | None => Err (OrchestrationInvariantError "coalesce_tokens: no innermost FORK frame to close")
      end
  end.
