(* ===== verification/TokenTheory.v ===== *)
(** * TokenTheory: what the mint promises

    The tables after any history of mints: paths load, their frames name
    recorded groups, groups have the members that were counted.  Closing a group
    gives back the path that its opener had, and a verb that is driven again
    after a crash returns what it committed. *)

From S2P Require Import Prelude Enums AuditDerive Landscape Scheduler Barrier Contracts ContractFlow Lineage Tokens.
Open Scope Z_scope.

(** ** Walking back through a transaction *)
Lemma mint_bind_ok {A B} (m : mint A) (f : A -> mint B) s b s' :
  (m ≫= f) s = Ok (b, s') <-> exists a s1, m s = Ok (a, s1) /\ f a s1 = Ok (b, s').
Proof. unfold mbind, mint_bind. destruct (m s) as [[a s1]|]; split; naive_solver. Qed.

Lemma gets_ok {A} (f : token_store -> A) s a s' : gets f s = Ok (a, s') <-> a = f s /\ s' = s.
Proof. unfold gets. split; naive_solver. Qed.
Lemma reads_ok {A} (f : token_store -> res A) s a s' : reads f s = Ok (a, s') <-> f s = Ok a /\ s' = s.
Proof. unfold reads. destruct (f s); split; naive_solver. Qed.
Lemma checked_ok {A} (r : res A) s a s' : checked r s = Ok (a, s') <-> r = Ok a /\ s' = s.
Proof. unfold checked. destruct r; split; naive_solver. Qed.
Lemma writes_ok f s u s' : writes f s = Ok (u, s') <-> s' = f s.
Proof. unfold writes. destruct u. split; naive_solver. Qed.
Lemma stop_if_ok b e s u s' : stop_if b e s = Ok (u, s') <-> b = false /\ s' = s.
Proof. unfold stop_if. destruct u, b; split; naive_solver. Qed.
Lemma mint_ret_ok {A} (a : A) s b s' : mret (M:=mint) a s = Ok (b, s') <-> b = a /\ s' = s.
Proof. unfold mret, mint_ret. split; naive_solver. Qed.

Ltac mint_back := repeat match goal with
  | H : mbind (M:=mint) _ _ _ = Ok (_, _) |- _ => apply mint_bind_ok in H as (? & ? & ? & H)
  | H : gets _ _ = Ok (_, _) |- _ => apply gets_ok in H as [? ?]; subst
  | H : reads _ _ = Ok (_, _) |- _ => apply reads_ok in H as [? ?]; subst
  | H : checked _ _ = Ok (_, _) |- _ => apply checked_ok in H as [? ?]; subst
  | H : writes _ _ = Ok (_, _) |- _ => apply writes_ok in H; subst
  | H : stop_if _ _ _ = Ok (_, _) |- _ => apply stop_if_ok in H as [? ?]; subst
  | H : mret (M:=mint) _ _ = Ok (_, _) |- _ => apply mint_ret_ok in H as [? ?]; subst
  end.

Ltac res_back := repeat match goal with
  | H : mbind (M:=res) _ _ = Ok _ |- _ => apply bind_ok in H as (? & ? & H)
  | H : (if ?b then Err _ else _) = Ok _ |- _ => destruct b eqn:?; [discriminate H|]
  | H : Ok _ = Ok _ |- _ => injection H as H; subst
  | H : Err _ = Ok _ |- _ => discriminate H
  end.

(** ** What the insertions do *)
Definition row_of (t : Token) : token_row := mkTokenRow (t_row_id t) (t_run_id t) (t_join_group_id t) (t_step t) (t_data_ref t).
Definition add_tokens (m : gmap string token_row) (cs : list Token) : gmap string token_row := foldl (fun m t => <[t_token_id t := row_of t]> m) m cs.
Definition path_rows (run_id token_id : string) (p : path) : list frame_row := imap (fun d f => mkFrameRow token_id run_id (Z.of_nat d) f) p.

Lemma guarded_write (c : token_store -> bool) e f s :
  (s ← gets id; _ ← stop_if (c s) e; writes f) s = if c s then Err e else Ok (tt, f s).
Proof. unfold mbind, mint_bind, gets, stop_if, writes, id. by destruct (c s). Qed.

Lemma guarded_write_ok (c : token_store -> bool) e f s u s' :
  (s ← gets id; _ ← stop_if (c s) e; writes f) s = Ok (u, s') <-> c s = false /\ s' = f s.
Proof. rewrite guarded_write. destruct u, (c s); split; naive_solver. Qed.

Lemma insert_token_ok t s u s' :
  insert_token t s = Ok (u, s') <->
  (tokens s !! t_token_id t = None /\ rows s !! t_row_id t = Some (t_run_id t)) /\ s' = set_tokens s (<[t_token_id t := row_of t]> (tokens s)).
Proof.
  unfold insert_token. rewrite guarded_write_ok, orb_false_iff, negb_false_iff, bool_decide_eq_true.
  by destruct (tokens s !! t_token_id t); naive_solver.
Qed.

Lemma insert_tokens_ok cs s l s' :
  each insert_token cs s = Ok (l, s') ->
  NoDup (map t_token_id cs) /\ Forall (fun t => tokens s !! t_token_id t = None /\ rows s !! t_row_id t = Some (t_run_id t)) cs /\
  s' = set_tokens s (add_tokens (tokens s) cs).
Proof.
  revert s s' l. induction cs as [|t cs IH]; intros s s' l; cbn.
  - intros H. mint_back. split_and!; [constructor..|]. by destruct s.
  - intros (u & s1 & [[Hn Hr] ->]%insert_token_ok & H)%mint_bind_ok. mint_back. destruct (IH _ _ _ ltac:(eassumption)) as (Hnd & Hall & ->). cbn in *.
    assert (Hne : forall c, c ∈ cs -> t_token_id c <> t_token_id t /\ tokens s !! t_token_id c = None).
    { intros c Hc. rewrite Forall_forall in Hall. specialize (Hall c Hc) as [Hl _]. destruct (decide (t_token_id t = t_token_id c)) as [E|E].
      - rewrite E, lookup_insert_eq in Hl. done.
      - rewrite lookup_insert_ne in Hl by done. done. }
    split_and!; [|constructor; [done|]|by destruct s].
    + constructor; [|done]. intros (c & Ec & Hc)%list_elem_of_fmap. destruct (Hne c Hc). congruence.
    + apply Forall_forall. intros c Hc. split; [by apply Hne|]. rewrite Forall_forall in Hall. by apply Hall.
Qed.

Lemma insert_parents_ok ps s l s' :
  each insert_parent ps s = Ok (l, s') ->
  Forall (fun r => token_exists s (pr_token_id r) (pr_run_id r) = true /\ token_exists s (pr_parent_id r) (pr_run_id r) = true) ps /\
  s' = set_parents s (parents s ++ ps).
Proof.
  revert s s' l. induction ps as [|r ps IH]; intros s s' l; cbn.
  - intros [_ ->]%mint_ret_ok. rewrite app_nil_r. split; [constructor|by destruct s].
  - intros (u & s1 & [[_ He]%orb_false_iff ->]%guarded_write_ok & (l' & s2 & (Hall & ->)%IH & [_ ->]%mint_ret_ok)%mint_bind_ok)%mint_bind_ok.
    apply negb_false_iff, andb_true_iff in He. cbn. rewrite <- app_assoc. split; [|by destruct s]. by constructor.
Qed.

Lemma insert_frames_ok fs s l s' : each insert_frame fs s = Ok (l, s') -> s' = set_frames s (frames s ++ fs).
Proof.
  revert s s' l. induction fs as [|r fs IH]; intros s s' l; cbn.
  - intros [_ ->]%mint_ret_ok. rewrite app_nil_r. by destruct s.
  - intros (u & s1 & [_ ->]%guarded_write_ok & (l' & s2 & ->%IH & [_ ->]%mint_ret_ok)%mint_bind_ok)%mint_bind_ok.
    cbn. rewrite <- app_assoc. by destruct s.
Qed.

Lemma insert_paths_ok run cs s l s' :
  each (fun c => insert_lineage_frames run (t_token_id c) (t_lineage_path c)) cs s = Ok (l, s') ->
  s' = set_frames s (frames s ++ flat_map (fun c => path_rows run (t_token_id c) (t_lineage_path c)) cs).
Proof.
  revert s s' l. induction cs as [|c cs IH]; intros s s' l; cbn.
  - intros [_ ->]%mint_ret_ok. rewrite app_nil_r. by destruct s.
  - intros (u & s1 & ->%insert_frames_ok & (l' & s2 & ->%IH & [_ ->]%mint_ret_ok)%mint_bind_ok)%mint_bind_ok.
    cbn. rewrite <- app_assoc. by destruct s.
Qed.

Lemma insert_group_ok r s u s' :
  insert_group r s = Ok (u, s') ->
  (forall x, x ∈ groups s -> gr_run_id x = gr_run_id r -> gr_group_id x <> gr_group_id r /\ gr_opener x <> gr_opener r) /\
  token_exists s (gr_opener r) (gr_run_id r) = true /\ s' = set_groups s (groups s ++ [r]).
Proof.
  unfold insert_group. intros [[[He Ht]%orb_false_iff _]%orb_false_iff ->]%guarded_write_ok. apply negb_false_iff in Ht.
  split_and!; [|done|done]. intros x Hx Hr. pose proof (existsb_none _ _ x He Hx) as Hb. cbn in Hb. rewrite Hr, bool_decide_eq_true_2 in Hb by done.
  cbn in Hb. apply orb_false_iff in Hb as [H1%bool_decide_eq_false H2%bool_decide_eq_false]. done.
Qed.

Lemma insert_outcome_ok e run o s u s' :
  insert_outcome e run o s = Ok (u, s') ->
  (to_completed o = true -> forall x, x ∈ outcomes s -> to_token_id x.2 = to_token_id o -> to_completed x.2 = false) /\
  token_exists s (to_token_id o) run = true /\ s' = set_outcomes s (outcomes s ++ [(run, o)]).
Proof.
  unfold insert_outcome, outcome_refused. intros [[[[H0 H1]%orb_false_iff _]%orb_false_iff _]%orb_false_iff ->]%guarded_write_ok.
  split_and!; [|by apply negb_false_iff|done]. intros Hc x Hx Ht. rewrite Hc in H0. cbn in H0. pose proof (existsb_none _ _ x H0 Hx) as Hb. cbn in Hb.
  rewrite Ht, bool_decide_eq_true_2 in Hb by done. done.
Qed.

(** ** The invariant *)
Definition token_path (s : token_store) (t : string) : path := map fr_frame (filter (fun r => fr_token_id r = t) (frames s)).

Definition innermost_group (s : token_store) (t : string) : option string := group_id <$> last (token_path s t).

(** The links of the tokens that the opener of a group has in it. *)
Definition member_links (s : token_store) (x : group_record) : list parent_row :=
  filter (fun l => pr_parent_id l = gr_opener x /\ innermost_group s (pr_token_id l) = Some (gr_group_id x)) (parents s).

Definition recorded (gs : list group_record) (run : string) (f : LineageFrame) : Prop :=
  exists x, x ∈ gs /\ gr_run_id x = run /\ gr_group_id x = group_id f /\ gr_kind x = kind f.

Definition decided (s : token_store) : list string := map (fun o => to_token_id o.2) (filter (fun o => to_completed o.2 = true) (outcomes s)).

Record grounded (s : token_store) : Prop := {
  gd_paths t row : tokens s !! t = Some row -> filter (fun r => fr_token_id r = t) (frames s) = path_rows (tr_run_id row) t (token_path s t);
  gd_owners r : r ∈ frames s -> is_Some (tokens s !! fr_token_id r);
  gd_rows t row : tokens s !! t = Some row -> rows s !! tr_row_id row = Some (tr_run_id row);
  gd_groups t row f : tokens s !! t = Some row -> f ∈ token_path s t -> recorded (groups s) (tr_run_id row) f;
  gd_links l : l ∈ parents s ->
    exists c p, tokens s !! pr_token_id l = Some c /\ tokens s !! pr_parent_id l = Some p /\
                tr_run_id c = pr_run_id l /\ tr_run_id p = pr_run_id l /\ tr_row_id c = tr_row_id p;
  gd_unique i j x y : groups s !! i = Some x -> groups s !! j = Some y -> gr_run_id x = gr_run_id y ->
    gr_group_id x = gr_group_id y \/ gr_opener x = gr_opener y -> i = j;
  gd_openers x : x ∈ groups s ->
    (exists row, tokens s !! gr_opener x = Some row /\ tr_run_id row = gr_run_id x) /\
    forall f, f ∈ token_path s (gr_opener x) -> group_id f <> gr_group_id x;
  gd_members x : x ∈ groups s -> map pr_ordinal (member_links s x) = map Z.of_nat (seq 0 (length (member_links s x))) /\
                                 gr_member_count x = Z.of_nat (length (member_links s x));
  gd_decided : NoDup (decided s);
}.

Lemma add_tokens_lookup m cs t :
  NoDup (map t_token_id cs) ->
  add_tokens m cs !! t = match list_find (fun c => t_token_id c = t) cs with Some (_, c) => Some (row_of c) | None => m !! t end.
Proof.
  unfold add_tokens. revert m. induction cs as [|c cs IH]; intros m Hnd; [done|]. cbn in Hnd. apply NoDup_cons in Hnd as [Hc Hnd]. cbn.
  rewrite IH by done. case_decide as E.
  - subst t. destruct (list_find (fun c0 => t_token_id c0 = t_token_id c) cs) as [[i c']|] eqn:Ef.
    + apply list_find_Some in Ef as (Hi & E & _). exfalso. apply Hc. rewrite <- E. apply list_elem_of_fmap. exists c'. split; [done|]. by eapply list_elem_of_lookup_2.
    + by rewrite lookup_insert_eq.
  - destruct (list_find (fun c0 => t_token_id c0 = t) cs) as [[i c']|]; cbn; [done|]. by rewrite lookup_insert_ne.
Qed.

Lemma add_tokens_old m cs t : NoDup (map t_token_id cs) -> t ∉ map t_token_id cs -> add_tokens m cs !! t = m !! t.
Proof.
  intros Hnd Ht. rewrite add_tokens_lookup by done. destruct (list_find _ cs) as [[i c]|] eqn:E; [|done].
  apply list_find_Some in E as (Hi & <- & _). exfalso. apply Ht. apply list_elem_of_fmap. exists c. split; [done|]. by eapply list_elem_of_lookup_2.
Qed.

Lemma add_tokens_new m cs c : NoDup (map t_token_id cs) -> c ∈ cs -> add_tokens m cs !! t_token_id c = Some (row_of c).
Proof.
  intros Hnd Hc. rewrite add_tokens_lookup by done. destruct (list_find _ cs) as [[i c']|] eqn:E.
  - apply list_find_Some in E as (Hi & Ec & _). apply list_elem_of_lookup in Hc as (j & Hj).
    assert (i = j); [|by simplify_eq]. eapply (NoDup_lookup (map t_token_id cs)); [done|..]; rewrite list_lookup_fmap; [by rewrite Hi|rewrite Hj; cbn; by rewrite Ec].
  - apply list_find_None in E. rewrite Forall_forall in E. by destruct (E c Hc).
Qed.

Lemma path_rows_token run t p r : r ∈ path_rows run t p -> fr_token_id r = t /\ fr_frame r ∈ p.
Proof. unfold path_rows. intros (i & f & -> & Hf)%elem_of_lookup_imap. cbn. split; [done|]. by eapply list_elem_of_lookup_2. Qed.

Lemma path_rows_frames run t p : map fr_frame (path_rows run t p) = p.
Proof. unfold path_rows. rewrite fmap_imap. apply list_eq. intros i. rewrite list_lookup_imap. by destruct (p !! i). Qed.

Lemma filter_iff_elem {A} (P Q : A -> Prop) `{forall x, Decision (P x)} `{forall x, Decision (Q x)} (l : list A) :
  (forall x, x ∈ l -> P x <-> Q x) -> filter P l = filter Q l.
Proof.
  induction l as [|x l IH]; intros Hl; [done|]. rewrite !filter_cons, IH by (intros y Hy; apply Hl; by right).
  destruct (Hl x) as [H1 H2]; [by left|]. repeat case_decide; naive_solver.
Qed.

Definition rows_of_children (run : string) (cs : list Token) : list frame_row := flat_map (fun c => path_rows run (t_token_id c) (t_lineage_path c)) cs.

Lemma rows_of_children_elem run cs r : r ∈ rows_of_children run cs -> exists c, c ∈ cs /\ fr_token_id r = t_token_id c /\ fr_frame r ∈ t_lineage_path c.
Proof. unfold rows_of_children. rewrite list_elem_of_In, in_flat_map. intros (c & Hc%list_elem_of_In & Hr%list_elem_of_In). exists c. split; [done|]. by apply path_rows_token in Hr. Qed.

Lemma rows_of_child run cs c :
  NoDup (map t_token_id cs) -> c ∈ cs -> filter (fun r => fr_token_id r = t_token_id c) (rows_of_children run cs) = path_rows run (t_token_id c) (t_lineage_path c).
Proof.
  intros Hnd (i & Hi)%list_elem_of_lookup. unfold rows_of_children. rewrite <- (take_drop_middle _ _ _ Hi) in Hnd |- *. rewrite flat_map_app. cbn.
  rewrite map_app in Hnd. cbn in Hnd. apply NoDup_app in Hnd as (_ & Hd & [Hn _]%NoDup_cons).
  rewrite !filter_app. rewrite (filter_none _ (flat_map _ (take i cs))), (filter_none _ (flat_map _ (drop (S i) cs))), app_nil_r.
  - cbn. apply filter_all, Forall_forall. intros r Hr. by apply path_rows_token in Hr as [-> _].
  - intros r (c' & Hc' & Hr & _)%rows_of_children_elem E. apply Hn. rewrite <- E, Hr. by apply list_elem_of_fmap_2.
  - intros r (c' & Hc' & Hr & _)%rows_of_children_elem E. apply (Hd (t_token_id c')); [by apply list_elem_of_fmap_2|]. rewrite <- Hr, E. by left.
Qed.

(** ** One transaction

    What every minting transaction adds, and why the invariant survives it. *)
Record minted_by (s s' : token_store) (run : string) (cs : list Token) (ps : list parent_row) (gs : list group_record) : Prop := {
  mb_rows : rows s' = rows s;
  mb_tokens : tokens s' = add_tokens (tokens s) cs;
  mb_frames : frames s' = frames s ++ rows_of_children run cs;
  mb_parents : parents s' = parents s ++ ps;
  mb_groups : groups s' = groups s ++ gs;
  mb_fresh : NoDup (map t_token_id cs);
  mb_new c : c ∈ cs -> tokens s !! t_token_id c = None /\ rows s !! t_row_id c = Some (t_run_id c) /\ t_run_id c = run;
  mb_recorded c f : c ∈ cs -> f ∈ t_lineage_path c -> recorded (groups s ++ gs) run f;
  mb_links l : l ∈ ps -> pr_run_id l = run /\ exists c p, c ∈ cs /\ t_token_id c = pr_token_id l /\ tokens s !! pr_parent_id l = Some p /\
                                                         tr_run_id p = run /\ tr_row_id p = t_row_id c;
  mb_group x : x ∈ gs -> gr_run_id x = run /\ (exists row, tokens s !! gr_opener x = Some row /\ tr_run_id row = run) /\
                         forall y, y ∈ groups s -> gr_run_id y = run -> gr_group_id y <> gr_group_id x /\ gr_opener y <> gr_opener x;
  mb_one : (length gs <= 1)%nat;
  (** No new token counts as a member of an old group, and those of a new group
      are counted. *)
  mb_old l c x : l ∈ ps -> c ∈ cs -> t_token_id c = pr_token_id l -> x ∈ groups s -> gr_opener x = pr_parent_id l ->
                 group_id <$> last (t_lineage_path c) <> Some (gr_group_id x);
  mb_counted x : x ∈ gs -> map pr_ordinal ps = map Z.of_nat (seq 0 (length ps)) /\ gr_member_count x = Z.of_nat (length ps) /\
                 forall l c, l ∈ ps -> c ∈ cs -> t_token_id c = pr_token_id l ->
                   pr_parent_id l = gr_opener x /\ group_id <$> last (t_lineage_path c) = Some (gr_group_id x);
  mb_decided : NoDup (decided s');
}.

Section one_mint.
Context {s s' : token_store} {run : string} {cs : list Token} {ps : list parent_row} {gs : list group_record}.
Hypotheses (Hg : grounded s) (Hm : minted_by s s' run cs ps gs).

Lemma old_is_not_new t row : tokens s !! t = Some row -> t ∉ map t_token_id cs.
Proof. intros Ht (c & -> & Hc)%list_elem_of_fmap. apply (mb_new _ _ _ _ _ _ Hm) in Hc as [Hn _]. congruence. Qed.

Lemma old_token t row : tokens s !! t = Some row -> tokens s' !! t = Some row.
Proof. intros Ht. rewrite (mb_tokens _ _ _ _ _ _ Hm), add_tokens_old; [done|apply Hm|by eapply old_is_not_new]. Qed.

Lemma new_token c : c ∈ cs -> tokens s' !! t_token_id c = Some (row_of c).
Proof. intros Hc. rewrite (mb_tokens _ _ _ _ _ _ Hm). apply add_tokens_new; [apply Hm|done]. Qed.

Lemma token_cases t row : tokens s' !! t = Some row -> tokens s !! t = Some row \/ exists c, c ∈ cs /\ t = t_token_id c /\ row = row_of c.
Proof.
  intros Ht. destruct (decide (t ∈ map t_token_id cs)) as [(c & -> & Hc)%list_elem_of_fmap|Hn].
  - right. exists c. rewrite new_token in Ht by done. by simplify_eq.
  - left. rewrite (mb_tokens _ _ _ _ _ _ Hm), add_tokens_old in Ht; [done|apply Hm|done].
Qed.

Lemma old_rows t row : tokens s !! t = Some row -> filter (fun r => fr_token_id r = t) (frames s') = filter (fun r => fr_token_id r = t) (frames s).
Proof.
  intros Ht. rewrite (mb_frames _ _ _ _ _ _ Hm), filter_app, (filter_none _ (rows_of_children _ _)), app_nil_r; [done|].
  intros r (c & Hc & -> & _)%rows_of_children_elem E. eapply old_is_not_new; [done|]. apply list_elem_of_fmap. by exists c.
Qed.

Lemma new_rows c : c ∈ cs -> filter (fun r => fr_token_id r = t_token_id c) (frames s') = path_rows run (t_token_id c) (t_lineage_path c).
Proof.
  intros Hc. rewrite (mb_frames _ _ _ _ _ _ Hm), filter_app, (filter_none _ (frames s)); cbn.
  - apply rows_of_child; [apply Hm|done].
  - intros r Hr E. apply (gd_owners s Hg) in Hr as [row Hrow]. rewrite E in Hrow. apply (mb_new _ _ _ _ _ _ Hm) in Hc as [Hn _]. congruence.
Qed.

Lemma old_path t row : tokens s !! t = Some row -> token_path s' t = token_path s t.
Proof. intros Ht. unfold token_path. by erewrite old_rows. Qed.

Lemma new_path c : c ∈ cs -> token_path s' (t_token_id c) = t_lineage_path c.
Proof. intros Hc. unfold token_path. by rewrite new_rows, path_rows_frames. Qed.

Lemma new_members x : x ∈ groups s -> member_links s' x = member_links s x.
Proof.
  intros Hx. unfold member_links. rewrite (mb_parents _ _ _ _ _ _ Hm), filter_app, (filter_none _ ps), app_nil_r.
  - apply filter_iff_elem. intros l Hl. destruct (gd_links s Hg l Hl) as (c & p & Hc & _). unfold innermost_group. by rewrite (old_path _ _ Hc).
  - intros l Hl [Hp Hi]. destruct (mb_links _ _ _ _ _ _ Hm l Hl) as (_ & c & p & Hc & Ec & _). unfold innermost_group in Hi. rewrite <- Ec, new_path in Hi by done.
    by apply (mb_old _ _ _ _ _ _ Hm l c x Hl Hc Ec Hx).
Qed.

Lemma own_members x : x ∈ gs -> member_links s' x = ps.
Proof.
  intros Hx. unfold member_links. rewrite (mb_parents _ _ _ _ _ _ Hm), filter_app, (filter_none _ (parents s)); cbn.
  - apply filter_all, Forall_forall. intros l Hl. destruct (mb_links _ _ _ _ _ _ Hm l Hl) as (_ & c & p & Hc & Ec & _).
    destruct (mb_counted _ _ _ _ _ _ Hm x Hx) as (_ & _ & Hall). destruct (Hall l c Hl Hc Ec) as [Hp Hi]. split; [done|].
    unfold innermost_group. by rewrite <- Ec, new_path.
  - intros l Hl [Hp Hi]. destruct (gd_links s Hg l Hl) as (c & p & Hc & Hpa & Hrc & Hrp & _). unfold innermost_group in Hi. rewrite (old_path _ _ Hc) in Hi.
    destruct (last (token_path s (pr_token_id l))) as [f|] eqn:El; [|done]. cbn in Hi. injection Hi as Ef.
    assert (Hf : f ∈ token_path s (pr_token_id l)) by (apply last_Some in El as (k & ->); apply elem_of_app; right; by left).
    destruct (gd_groups s Hg _ _ f Hc Hf) as (y & Hy & Hyr & Hyg & _). destruct (mb_group _ _ _ _ _ _ Hm x Hx) as (Hxr & (orow & Ho & Hor) & Hfresh).
    rewrite <- Hp in Ho. assert (tr_run_id c = run) by (rewrite Hpa in Ho; simplify_eq; congruence).
    destruct (Hfresh y Hy) as [Hne _]; [congruence|]. congruence.
Qed.

Lemma grounded_paths t row : tokens s' !! t = Some row -> filter (fun r => fr_token_id r = t) (frames s') = path_rows (tr_run_id row) t (token_path s' t).
Proof.
  intros [Ht|(c & Hc & -> & ->)]%token_cases.
  - rewrite (old_rows _ _ Ht), (old_path _ _ Ht). by apply gd_paths.
  - rewrite new_rows, new_path by done. destruct (mb_new _ _ _ _ _ _ Hm c Hc) as (_ & _ & <-). done.
Qed.

Lemma grounded_groups t row f : tokens s' !! t = Some row -> f ∈ token_path s' t -> recorded (groups s') (tr_run_id row) f.
Proof.
  rewrite (mb_groups _ _ _ _ _ _ Hm). intros [Ht|(c & Hc & -> & ->)]%token_cases Hf.
  - rewrite (old_path _ _ Ht) in Hf. destruct (gd_groups s Hg _ _ _ Ht Hf) as (x & Hx & Hrest). exists x. split; [|done]. apply elem_of_app. by left.
  - rewrite new_path in Hf by done. cbn. destruct (mb_new _ _ _ _ _ _ Hm c Hc) as (_ & _ & ->). by apply (mb_recorded _ _ _ _ _ _ Hm c).
Qed.

Lemma grounded_links l : l ∈ parents s' ->
  exists c p, tokens s' !! pr_token_id l = Some c /\ tokens s' !! pr_parent_id l = Some p /\
              tr_run_id c = pr_run_id l /\ tr_run_id p = pr_run_id l /\ tr_row_id c = tr_row_id p.
Proof.
  rewrite (mb_parents _ _ _ _ _ _ Hm). intros [Hl|Hl]%elem_of_app.
  - destruct (gd_links s Hg l Hl) as (c & p & Hc & Hp & Hrest). exists c, p. eauto using old_token.
  - destruct (mb_links _ _ _ _ _ _ Hm l Hl) as (Hr & c & p & Hc & Ec & Hp & Hpr & Hrow). destruct (mb_new _ _ _ _ _ _ Hm c Hc) as (_ & _ & Hcr).
    exists (row_of c), p. rewrite <- Ec, new_token by done. split_and!; eauto using old_token; cbn; congruence.
Qed.

Lemma grounded_unique i j x y : groups s' !! i = Some x -> groups s' !! j = Some y -> gr_run_id x = gr_run_id y ->
  gr_group_id x = gr_group_id y \/ gr_opener x = gr_opener y -> i = j.
Proof.
  assert (Hnew : forall a b x y, groups s !! a = Some x -> gs !! b = Some y -> gr_run_id x = gr_run_id y ->
            gr_group_id x = gr_group_id y \/ gr_opener x = gr_opener y -> False).
  { intros a b u v Hu Hv Hr Hor. apply list_elem_of_lookup_2 in Hu, Hv. destruct (mb_group _ _ _ _ _ _ Hm v Hv) as (Hvr & _ & Hfresh).
    destruct (Hfresh u Hu) as [H1 H2]; [congruence|]. naive_solver. }
  rewrite (mb_groups _ _ _ _ _ _ Hm). intros [Hi|[Hi1 Hi]]%lookup_app_Some [Hj|[Hj1 Hj]]%lookup_app_Some Hr Hor.
  - by apply (gd_unique s Hg i j x y).
  - exfalso. by apply (Hnew i (j - length (groups s))%nat x y).
  - exfalso. apply (Hnew j (i - length (groups s))%nat y x); [done..|naive_solver].
  - pose proof (mb_one _ _ _ _ _ _ Hm). apply lookup_lt_Some in Hi, Hj. lia.
Qed.

Lemma grounded_openers x : x ∈ groups s' ->
  (exists row, tokens s' !! gr_opener x = Some row /\ tr_run_id row = gr_run_id x) /\ forall f, f ∈ token_path s' (gr_opener x) -> group_id f <> gr_group_id x.
Proof.
  rewrite (mb_groups _ _ _ _ _ _ Hm). intros [Hx|Hx]%elem_of_app.
  - destruct (gd_openers s Hg x Hx) as [(row & Ho & Hr) Hf]. split; [eauto using old_token|]. by rewrite (old_path _ _ Ho).
  - destruct (mb_group _ _ _ _ _ _ Hm x Hx) as (Hxr & (row & Ho & Hr) & Hfresh). split; [exists row; split; [by apply old_token|congruence]|].
    rewrite (old_path _ _ Ho). intros f Hf. destruct (gd_groups s Hg _ _ f Ho Hf) as (y & Hy & Hyr & <- & _). apply (Hfresh y Hy). congruence.
Qed.

Lemma minted_grounded : grounded s'.
Proof.
  split.
  - apply grounded_paths.
  - intros r. rewrite (mb_frames _ _ _ _ _ _ Hm). intros [[row Hr]%(gd_owners s Hg)|(c & Hc & -> & _)%rows_of_children_elem]%elem_of_app.
    + exists row. by apply old_token.
    + exists (row_of c). by apply new_token.
  - intros t row [Ht|(c & Hc & -> & ->)]%token_cases; rewrite (mb_rows _ _ _ _ _ _ Hm); [by eapply gd_rows|]. by apply (mb_new _ _ _ _ _ _ Hm).
  - apply grounded_groups.
  - apply grounded_links.
  - apply grounded_unique.
  - apply grounded_openers.
  - intros x. rewrite (mb_groups _ _ _ _ _ _ Hm). intros [Hx|Hx]%elem_of_app.
    + rewrite (new_members x Hx). by apply gd_members.
    + rewrite (own_members x Hx). destruct (mb_counted _ _ _ _ _ _ Hm x Hx) as (Ho & Hc & _). done.
  - apply Hm.
Qed.
End one_mint.

(** ** Opening a group *)
Definition links_to (run parent : string) (cs : list Token) : list parent_row :=
  imap (fun i c => mkParentRow (t_token_id c) parent run (Z.of_nat i)) cs.

Lemma links_to_elem run parent cs l : l ∈ links_to run parent cs -> pr_parent_id l = parent /\ pr_run_id l = run /\ exists c, c ∈ cs /\ t_token_id c = pr_token_id l.
Proof. unfold links_to. intros (i & c & -> & Hc)%elem_of_lookup_imap. cbn. split_and!; [done..|]. exists c. split; [by eapply list_elem_of_lookup_2|done]. Qed.

Lemma ordinals {A} (f : nat -> A -> parent_row) (l : list A) : (forall i a, pr_ordinal (f i a) = Z.of_nat i) -> map pr_ordinal (imap f l) = map Z.of_nat (seq 0 (length (imap f l))).
Proof.
  intros Hf. apply list_eq. intros i. rewrite !list_lookup_fmap, list_lookup_imap. rewrite length_imap. destruct (l !! i) as [a|] eqn:E; cbn.
  - rewrite lookup_seq_lt by (by eapply lookup_lt_Some). cbn. by rewrite Hf.
  - apply lookup_ge_None in E. by rewrite lookup_seq_ge by lia.
Qed.

Lemma insert_children_ok run cs parent s u s' :
  insert_child_tokens_on run cs parent s = Ok (u, s') ->
  NoDup (map t_token_id cs) /\ (forall c, c ∈ cs -> tokens s !! t_token_id c = None /\ rows s !! t_row_id c = Some (t_run_id c)) /\
  s' = set_frames (set_parents (set_tokens s (add_tokens (tokens s) cs)) (parents s ++ links_to run parent cs)) (frames s ++ rows_of_children run cs).
Proof.
  unfold insert_child_tokens_on.
  intros (l1 & s1 & (Hnd & Hall & ->)%insert_tokens_ok & (l2 & s2 & (_ & ->)%insert_parents_ok & (l3 & s3 & ->%insert_paths_ok & [_ ->]%mint_ret_ok)%mint_bind_ok)%mint_bind_ok)%mint_bind_ok.
  rewrite Forall_forall in Hall. done.
Qed.

Definition opened (s : token_store) (run parent : string) (cs : list Token) (x : group_record) : token_store :=
  set_groups (set_frames (set_parents (set_tokens s (add_tokens (tokens s) cs)) (parents s ++ links_to run parent cs)) (frames s ++ rows_of_children run cs)) (groups s ++ [x]).

Definition child_of (row : token_row) (k : FrameKind) (g : string) (base : path) (c : Token) : Prop :=
  t_row_id c = tr_row_id row /\ t_run_id c = tr_run_id row /\ exists key, t_lineage_path c = base ++ [mkFrame k g key].

Lemma open_group s cs parent prow k g closes base u1 s1 u2 s2 :
  grounded s -> tokens s !! parent = Some prow -> Forall (child_of prow k g base) cs -> (forall f, f ∈ base -> recorded (groups s) (tr_run_id prow) f) ->
  insert_child_tokens_on (tr_run_id prow) cs parent s = Ok (u1, s1) ->
  insert_group (mkGroupRecord (tr_run_id prow) g k parent (Z.of_nat (length cs)) closes) s1 = Ok (u2, s2) ->
  let x := mkGroupRecord (tr_run_id prow) g k parent (Z.of_nat (length cs)) closes in
  s2 = opened s (tr_run_id prow) parent cs x /\ minted_by s s2 (tr_run_id prow) cs (links_to (tr_run_id prow) parent cs) [x] /\
  (forall y, y ∈ groups s -> gr_run_id y = tr_run_id prow -> gr_group_id y <> g).
Proof.
  intros Hg Hp Hcs Hbase (Hnd & Hnew & ->)%insert_children_ok (Hfresh & Ho & ->)%insert_group_ok x. cbn in *. rewrite Forall_forall in Hcs.
  split; [done|]. split; [|intros y Hy Hr; by apply Hfresh]. split; cbn; try done.
  - intros c Hc. destruct (Hcs c Hc) as (_ & Hr & _). naive_solver.
  - intros c f Hc Hf. destruct (Hcs c Hc) as (_ & _ & key & E). rewrite E in Hf. apply elem_of_app in Hf as [Hf|Hf%list_elem_of_singleton].
    + destruct (Hbase f Hf) as (y & Hy & Hrest). exists y. split; [apply elem_of_app; by left|done].
    + subst f. exists x. split; [apply elem_of_app; right; by left|done].
  - intros l (Hpl & Hrl & c & Hc & Ec)%links_to_elem. split; [done|]. exists c, prow. rewrite Hpl. split_and!; try done. by destruct (Hcs c Hc) as (-> & _).
  - intros y ->%list_elem_of_singleton. cbn. split_and!; [done|by exists prow|]. intros y' Hy' Hr. by apply Hfresh.
  - intros l c y (Hpl & _)%links_to_elem _ _ Hy Hoy. destruct (gd_openers s Hg y Hy) as [(row & Hrow & Hrr) _]. rewrite Hoy, Hpl, Hp in Hrow. injection Hrow as <-.
    exfalso. apply (Hfresh y Hy); [by rewrite <- Hrr|]. by rewrite Hoy.
  - intros y ->%list_elem_of_singleton. cbn. split_and!.
    + by apply ordinals.
    + unfold links_to. by rewrite length_imap.
    + intros l c (Hpl & _)%links_to_elem Hc _. split; [done|]. destruct (Hcs c Hc) as (_ & _ & key & ->). by rewrite last_snoc.
  - apply (gd_decided s Hg).
Qed.

(** ** Other changes *)
Record same_lineage (s s' : token_store) : Prop := {
  sl_rows : rows s' = rows s; sl_tokens : tokens s' = tokens s; sl_parents : parents s' = parents s; sl_frames : frames s' = frames s; sl_groups : groups s' = groups s }.

Lemma minted_by_change s1 s2 s s' run cs ps gs :
  same_lineage s s1 -> same_lineage s2 s' -> NoDup (decided s') -> minted_by s1 s2 run cs ps gs -> minted_by s s' run cs ps gs.
Proof.
  intros [H1 H2 H3 H4 H5] [K1 K2 K3 K4 K5] Hd []. rewrite ?H1, ?H2, ?H3, ?H4, ?H5 in *. split; rewrite ?K1, ?K2, ?K3, ?K4, ?K5; done.
Qed.

Lemma same_lineage_minted s s' : same_lineage s s' -> NoDup (decided s') -> minted_by s s' "" [] [] [].
Proof.
  intros [H1 H2 H3 H4 H5] Hd. split; cbn; rewrite ?app_nil_r; try done; try lia; try (apply NoDup_nil_2); intros; match goal with H : _ ∈ [] |- _ => by apply not_elem_of_nil in H end.
Qed.

Lemma same_lineage_grounded s s' : grounded s -> same_lineage s s' -> NoDup (decided s') -> grounded s'.
Proof. intros Hg Hs Hd. eapply minted_grounded; [done|]. by apply same_lineage_minted. Qed.

Lemma set_minted_same s n : same_lineage s (set_minted s n).
Proof. by split. Qed.

Lemma set_minted_grounded s n : grounded s -> grounded (set_minted s n).
Proof. intros Hg. eapply same_lineage_grounded; [done|by split|apply (gd_decided s Hg)]. Qed.

Lemma outcome_grounded s e run o u s' : grounded s -> insert_outcome e run o s = Ok (u, s') -> grounded s'.
Proof.
  intros Hg (Hone & _ & ->)%insert_outcome_ok. eapply same_lineage_grounded; [done|by split|]. unfold decided. cbn [outcomes set_outcomes]. rewrite filter_app, map_app, filter_cons.
  case_decide as Ec; cbn in Ec |- *; [|rewrite app_nil_r; apply (gd_decided s Hg)].
  apply NoDup_app. split_and!; [apply (gd_decided s Hg)| |constructor; [by apply not_elem_of_nil|constructor]].
  intros t (x & -> & [Hc Hx]%list_elem_of_filter)%list_elem_of_fmap Ht%list_elem_of_singleton. rewrite (Hone Ec x Hx Ht) in Hc. done.
Qed.

(** ** Paths that are read back *)
Lemma sort_by_id {A} (leb : A -> A -> bool) l : StronglySorted (fun a b => leb a b = true) l -> sort_by leb l = l.
Proof. induction 1 as [|x l Hs IH Hx]; [done|]. cbn. rewrite IH. destruct Hx as [|y l Hy _]; [done|]. cbn. by rewrite Hy. Qed.

Lemma path_rows_sorted run t p : StronglySorted (fun a b => (fr_depth a <=? fr_depth b) = true) (path_rows run t p).
Proof.
  unfold path_rows. assert (Hgen : forall n, StronglySorted (fun a b => (fr_depth a <=? fr_depth b) = true) (imap (fun d f => mkFrameRow t run (Z.of_nat (n + d)) f) p)).
  { induction p as [|f p IH]; intros n; [constructor|]. cbn. constructor.
    - rewrite (imap_ext _ (fun d f => mkFrameRow t run (Z.of_nat (S n + d)) f)); [apply IH|]. intros i x _. cbn. f_equal. lia.
    - apply Forall_forall. intros r (i & x & -> & _)%elem_of_lookup_imap. cbn. apply Z.leb_le. lia. }
  apply (Hgen 0%nat).
Qed.

Section load.
Context (s : token_store) (Hg : grounded s).

Lemma frame_rows_of_path t row : tokens s !! t = Some row -> frame_rows_of s (tr_run_id row) t = path_rows (tr_run_id row) t (token_path s t).
Proof.
  intros Ht. unfold frame_rows_of. rewrite (filter_iff_elem _ (fun r => fr_token_id r = t)).
  - rewrite (gd_paths s Hg t row Ht). apply sort_by_id, path_rows_sorted.
  - intros r Hr. split; [by intros [? _]|]. intros E. split; [done|].
    assert (Hin : r ∈ filter (fun r => fr_token_id r = t) (frames s)) by (by apply list_elem_of_filter).
    rewrite (gd_paths s Hg t row Ht) in Hin. unfold path_rows in Hin. by apply elem_of_lookup_imap in Hin as (i & f & -> & _).
Qed.

Lemma load_frames t row : tokens s !! t = Some row -> load_lineage_frames s (tr_run_id row) t = token_path s t.
Proof. intros Ht. unfold load_lineage_frames. rewrite (frame_rows_of_path _ _ Ht). apply path_rows_frames. Qed.

Lemma load_path t row : tokens s !! t = Some row -> load_lineage_path s (tr_run_id row) t = Ok (token_path s t).
Proof.
  intros Ht. unfold load_lineage_path. rewrite (frame_rows_of_path _ _ Ht), path_rows_frames, bool_decide_eq_true_2; [done|].
  unfold path_rows. rewrite length_imap. apply list_eq. intros i. rewrite !list_lookup_fmap, list_lookup_imap.
  destruct (token_path s t !! i) as [f|] eqn:E; cbn; [by rewrite lookup_seq_lt by (by eapply lookup_lt_Some)|].
  apply lookup_ge_None in E. by rewrite lookup_seq_ge by lia.
Qed.

Lemma ownership t o : resolve_token_ownership s t = Ok o -> exists row, tokens s !! t = Some row /\ o = (tr_row_id row, tr_run_id row).
Proof.
  unfold resolve_token_ownership. destruct (tokens s !! t) as [row|]; [|done]. destruct (rows s !! tr_row_id row) as [run|]; [|done].
  case_bool_decide as E; [|done]. cbn. intros [= <-]. exists row. by rewrite E.
Qed.

Lemma run_ownership r : validate_token_run_ownership s r = Ok tt -> exists row, tokens s !! ref_token_id r = Some row /\ tr_run_id row = ref_run_id r.
Proof.
  unfold validate_token_run_ownership. intros (o & (row & Hr & ->)%ownership & H)%bind_ok. cbn in H. case_bool_decide; [|done]. eauto.
Qed.

Lemma row_ownership t row_id : validate_token_row_ownership s t row_id = Ok tt -> exists row, tokens s !! t = Some row /\ tr_row_id row = row_id.
Proof.
  unfold validate_token_row_ownership. intros (o & (row & Hr & ->)%ownership & H)%bind_ok. cbn in H. case_bool_decide; [|done]. eauto.
Qed.

Lemma pop_sub p g q : pop_fork_frame p g = Ok q -> q ⊆ p.
Proof. intros (outer & f & inner & -> & _ & _ & -> & _)%pop_fork_frame_ok. set_solver. Qed.

(** The path a caller may supply is the durable one, or it without the frame of a
    row union that released the token. *)
Lemma current_path_sub r row p supplied :
  tokens s !! ref_token_id r = Some row -> tr_run_id row = ref_run_id r -> current_path s r (ref_run_id r) supplied = Ok p -> p ⊆ token_path s (ref_token_id r).
Proof.
  intros Ht Hr. unfold current_path, assert_parent_lineage. rewrite <- Hr, (load_frames _ _ Ht). destruct supplied as [q|]; [|by intros [= <-]].
  case_bool_decide as E; [subst q; cbn; by intros [= <-]|]. destruct (_ && _) eqn:Ea; [|done]. cbn. intros [= <-].
  apply andb_true_iff in Ea as [_ (f & _ & Hf)%existsb_exists]. apply andb_true_iff in Hf as [_ Hf%bool_decide_eq_true]. by eapply pop_sub.
Qed.

Lemma sub_recorded t row p f : tokens s !! t = Some row -> p ⊆ token_path s t -> f ∈ p -> recorded (groups s) (tr_run_id row) f.
Proof. intros Ht Hp Hf. eapply gd_groups; [done..|]. by apply Hp. Qed.
End load.

(** ** Children before they are inserted *)
Section verbs.
Context (generate_id : nat -> string).
Context {Payload : Type} (data_ref stored_ref : Payload -> string).
Context (parent_set_hash : list string -> string) (effect_hash : list string -> option Z -> string -> string).
Implicit Types (step : option Z).

Lemma new_id_ok s i s' : new_id generate_id s = Ok (i, s') -> i = generate_id (minted s) /\ s' = set_minted s (S (minted s)).
Proof. unfold new_id. intros (a & s1 & [-> ->]%gets_ok & (u & s2 & ->%writes_ok & [-> ->]%mint_ret_ok)%mint_bind_ok)%mint_bind_ok. done. Qed.

Lemma token_returns t t' : token t = Ok t' -> t' = t.
Proof. unfold token. destruct (match t_step t with Some n => n <? 0 | None => false end); [done|]. congruence. Qed.

Definition forked run row g step base (b : string) (c : Token) : Prop :=
  c = mkTok (t_token_id c) row run None (base ++ [mkFrame FORK g b]) step None /\ token c = Ok c.
Definition expanded run row g step base (ref : string) (c : Token) : Prop :=
  c = mkTok (t_token_id c) row run None (base ++ [mkFrame EXPAND g (t_token_id c)]) step (Some ref).

Lemma each_ok {A B} (P : A -> B -> Prop) (f : A -> mint B) l s cs s' :
  (forall a s b s', f a s = Ok (b, s') -> P a b /\ exists n, s' = set_minted s n) ->
  each f l s = Ok (cs, s') -> Forall2 P l cs /\ exists n, s' = set_minted s n.
Proof.
  intros Hf. revert s cs s'. induction l as [|a l IH]; intros s cs s'; cbn.
  - intros [-> ->]%mint_ret_ok. split; [constructor|]. exists (minted s). by destruct s.
  - intros (b & s1 & [Hb (n & ->)]%Hf & (bs & s2 & [Hl (n' & ->)]%IH & [-> ->]%mint_ret_ok)%mint_bind_ok)%mint_bind_ok.
    split; [by constructor|]. exists n'. by destruct s.
Qed.

Lemma fork_children_ok run row g step base branches s cs s' :
  each (fork_child generate_id run row g step base) branches s = Ok (cs, s') ->
  Forall2 (forked run row g step base) branches cs /\ exists n, s' = set_minted s n.
Proof.
  apply each_ok. intros b s0 c s1. unfold fork_child.
  intros (i & s2 & [_ ->]%new_id_ok & (f & s3 & [[_ ->]%lineage_frame_ok ->]%checked_ok & [Ht ->]%checked_ok)%mint_bind_ok)%mint_bind_ok.
  pose proof (token_returns _ _ Ht) as ->. split; [done|]. eauto.
Qed.

Lemma expand_children_ok run row g step base refs s cs s' :
  each (expand_child generate_id run row g step base) refs s = Ok (cs, s') ->
  Forall2 (expanded run row g step base) refs cs /\ exists n, s' = set_minted s n.
Proof.
  apply each_ok. intros b s0 c s1. unfold expand_child.
  intros (i & s2 & [_ ->]%new_id_ok & (f & s3 & [[_ ->]%lineage_frame_ok ->]%checked_ok & [->%token_returns ->]%checked_ok)%mint_bind_ok)%mint_bind_ok. split; [done|]. eauto.
Qed.

(** ** The verbs, when they mint *)
Record minted_children (s : token_store) (r : TokenRef) (row : token_row) (k : FrameKind) (g : string) (closes : option string) (base : path) (cs : list Token)
    (s' : token_store) : Prop := {
  mc_parent : tokens s !! ref_token_id r = Some row;
  mc_base : base ⊆ token_path s (ref_token_id r);
  mc_children : Forall (child_of row k g base) cs;
  mc_minted : minted_by s s' (tr_run_id row) cs (links_to (tr_run_id row) (ref_token_id r) cs)
                [mkGroupRecord (tr_run_id row) g k (ref_token_id r) (Z.of_nat (length cs)) closes];
  mc_fresh y : y ∈ groups s -> gr_run_id y = tr_run_id row -> gr_group_id y <> g;
}.

Lemma opens s s0 r row k g closes base cs u1 s1 u2 s2 :
  grounded s -> same_lineage s s0 -> decided s0 = decided s -> tokens s !! ref_token_id r = Some row -> base ⊆ token_path s (ref_token_id r) -> Forall (child_of row k g base) cs ->
  insert_child_tokens_on (tr_run_id row) cs (ref_token_id r) s0 = Ok (u1, s1) ->
  insert_group (mkGroupRecord (tr_run_id row) g k (ref_token_id r) (Z.of_nat (length cs)) closes) s1 = Ok (u2, s2) ->
  minted_children s r row k g closes base cs s2 /\ outcomes s2 = outcomes s0 /\ work s2 = work s0 /\ effects s2 = effects s0.
Proof.
  intros Hg Hs Hd Ht Hsub Hchild Hins Hgrp.
  assert (Hg0 : grounded s0) by (eapply same_lineage_grounded; [done..|]; rewrite Hd; apply (gd_decided s Hg)).
  destruct (open_group s0 cs (ref_token_id r) row k g closes base u1 s1 u2 s2) as (E & Hm & Hfresh); try done.
  - by rewrite (sl_tokens _ _ Hs).
  - intros f Hf. rewrite (sl_groups _ _ Hs). by eapply (sub_recorded s Hg).
  - split; [|by rewrite E]. rewrite (sl_groups _ _ Hs) in Hfresh. split; try done. eapply minted_by_change; [done|by split|apply Hm|done].
Qed.

(** A later change of other tables. *)
Lemma minted_children_after s r row k g closes base cs s2 s' :
  minted_children s r row k g closes base cs s2 -> same_lineage s2 s' -> NoDup (decided s') -> minted_children s r row k g closes base cs s'.
Proof. intros [] Hs Hd. split; try done. eapply minted_by_change; [|done..]. by split. Qed.

Lemma minted_children_grounded s r row k g closes base cs s' : grounded s -> minted_children s r row k g closes base cs s' -> grounded s'.
Proof. intros Hg []. by eapply minted_grounded. Qed.

Lemma fork_mints s fence r row_id branches run item step supplied cs g s' :
  grounded s -> terminal_of s r = Ok None -> fork_token generate_id fence r row_id branches run item step supplied s = Ok ((cs, g), s') ->
  exists row base, minted_children s r row FORK g None base cs s' /\ run = tr_run_id row /\ row_id = tr_row_id row /\ ref_run_id r = run /\
    current_path s r run supplied = Ok base /\ Forall2 (forked run row_id g step base) branches cs /\
    outcomes s' = outcomes s ++ [(run, opener_outcome (ref_token_id r) FORK_PARENT)] /\ work s' = work s.
Proof.
  intros Hg Hterm. unfold fork_token. intros H.
  apply mint_bind_ok in H as (u1 & s1 & [Hb ->]%stop_if_ok & H). apply mint_bind_ok in H as ([] & s1 & [Hrun ->]%reads_ok & H).
  apply mint_bind_ok in H as ([] & s1 & [Hrow ->]%reads_ok & H). apply mint_bind_ok in H as (u4 & s1 & [Hauth ->]%stop_if_ok & H).
  apply mint_bind_ok in H as (u5 & s1 & [_ ->]%checked_ok & H). apply mint_bind_ok in H as (ex & s1 & [Hex ->]%reads_ok & H).
  rewrite Hterm in Hex. injection Hex as <-. apply orb_false_iff in Hauth as [Ha%negb_false_iff%bool_decide_eq_true _].
  destruct (run_ownership s _ Hrun) as (row & Ht & Hr). destruct (row_ownership s _ _ Hrow) as (row' & Ht' & Hr'). rewrite Ht in Ht'. injection Ht' as <-.
  apply mint_bind_ok in H as (g' & s1 & [_ ->]%new_id_ok & H). apply mint_bind_ok in H as (base & s1 & [Hbase ->]%reads_ok & H).
  apply mint_bind_ok in H as (cs' & s1 & [Hcs (n & ->)]%fork_children_ok & H). apply mint_bind_ok in H as (u6 & s2 & Hins & H).
  apply mint_bind_ok in H as (u7 & s3 & Hgrp & H). apply mint_bind_ok in H as (i & s4 & [_ ->]%new_id_ok & H).
  apply mint_bind_ok in H as (u8 & s5 & Hout & [[= <- <-] ->]%mint_ret_ok).
  assert (Hrun' : run = tr_run_id row) by congruence. clear Ha. subst run. exists row, base.
  assert (Hbase' : current_path s r (tr_run_id row) supplied = Ok base) by exact Hbase.
  assert (Hchild : Forall (child_of row FORK g base) cs).
  { apply Forall_forall. intros c Hc. apply list_elem_of_lookup in Hc as (j & Hj). destruct (Forall2_lookup_r _ _ _ _ _ Hcs Hj) as (b & _ & [-> _]).
    split_and!; [done|done|]. by exists b. }
  assert (Hlen : length branches = length cs) by (by eapply Forall2_length). rewrite Hlen in Hgrp.
  rewrite Hr in Hbase'. assert (Hsub : base ⊆ token_path s (ref_token_id r)) by (by eapply current_path_sub).
  destruct (opens s _ r row FORK g None base cs _ _ _ _ Hg (set_minted_same s n) eq_refl Ht Hsub Hchild Hins Hgrp) as (Hm & Ho & Hw & _).
  pose proof (set_minted_grounded s3 (S (minted s3)) (minted_children_grounded _ _ _ _ _ _ _ _ _ Hg Hm)) as Hg4.
  pose proof (outcome_grounded _ _ _ _ _ _ Hg4 Hout) as Hg5. apply insert_outcome_ok in Hout as (_ & _ & ->).
  split_and!; try done; try (by rewrite <- Hr in Hbase'); try (cbn; by rewrite Ho).
  eapply minted_children_after; [done|by split|apply (gd_decided _ Hg5)].
Qed.

Lemma record_outcomes_ok run ds batch s u s' :
  grounded s -> record_parent_outcomes_on generate_id run ds batch s = Ok (u, s') ->
  same_lineage s s' /\ NoDup (decided s') /\ outcomes s ⊆ outcomes s' /\ work s' = work s /\ effects s' = effects s.
Proof.
  intros Hg. unfold record_parent_outcomes_on. intros H. apply mint_bind_ok in H as (l1 & s1 & H1 & H). apply mint_bind_ok in H as (l2 & s2 & H2 & [_ ->]%mint_ret_ok).
  eapply (each_ok (fun _ _ => True)) in H1 as [_ (n & ->)].
  - pose proof (set_minted_grounded s n Hg) as Hg1. assert (Hs : forall o, o ∈ outcomes s -> o ∈ outcomes (set_minted s n)) by done.
    assert (Hsl : same_lineage s (set_minted s n)) by done. assert (Hw : work (set_minted s n) = work s /\ effects (set_minted s n) = effects s) by done.
    revert H2 Hg1 Hs Hsl Hw. generalize (set_minted s n). clear n. revert l2. induction ds as [|d ds IH]; intros l2 s3 H2 Hg3 Hs Hsl [Hw1 Hw2]; cbn in H2.
    + apply mint_ret_ok in H2 as [_ ->]. split_and!; try done. apply (gd_decided _ Hg3).
    + apply mint_bind_ok in H2 as (u' & s4 & Hi & (l3 & s5 & H2 & [_ ->]%mint_ret_ok)%mint_bind_ok).
      pose proof (outcome_grounded _ _ _ _ _ _ Hg3 Hi) as Hg4. apply insert_outcome_ok in Hi as (_ & _ & ->).
      apply (IH _ _ H2 Hg4); [|by destruct Hsl|done]. intros o Ho. cbn. apply elem_of_app. left. by apply Hs.
  - intros d s0 b s3 Hd. apply mint_bind_ok in Hd as (u1 & s4 & [_ ->]%stop_if_ok & Hd). apply mint_bind_ok in Hd as (u2 & s4 & [_ ->]%checked_ok & Hd).
    apply mint_bind_ok in Hd as (u3 & s4 & [_ ->]%reads_ok & Hd). apply mint_bind_ok in Hd as (u4 & s4 & [_ ->]%gets_ok & Hd).
    apply mint_bind_ok in Hd as (u5 & s4 & [_ ->]%stop_if_ok & [_ ->]%new_id_ok). split; [done|]. eauto.
Qed.

Lemma claim_batch_ok r run b g ds s u s' : claim_batch r run b g ds s = Ok (u, s') -> exists e, s' = set_expansions s e.
Proof.
  unfold claim_batch. intros H. apply mint_bind_ok in H as (ids & s1 & [-> ->]%gets_ok & H). apply mint_bind_ok in H as (u1 & s1 & [_ ->]%stop_if_ok & H).
  apply mint_bind_ok in H as (e & s1 & [-> ->]%gets_ok & H).
  destruct (expansions s !! b) as [[run' [g'|]]|]; try (by apply checked_ok in H as [? _]).
  apply mint_bind_ok in H as (u2 & s1 & [_ ->]%stop_if_ok & ->%writes_ok). eauto.
Qed.

Notation expand := (expand_token generate_id data_ref stored_ref).

Lemma expand_mints s fence r row_id payloads run step p batch ds supplied cs g s' :
  grounded s -> terminal_of s r = Ok None -> expand fence r row_id payloads run step p batch ds supplied s = Ok ((cs, g), s') ->
  exists row base, minted_children s r row EXPAND g None base cs s' /\ run = tr_run_id row /\ row_id = tr_row_id row /\ ref_run_id r = run /\
    current_path s r run supplied = Ok base /\ Forall2 (expanded run row_id g step base) (map data_ref payloads) cs /\
    outcomes s ⊆ outcomes s' /\ (p = EXPAND_PARENT -> (run, opener_outcome (ref_token_id r) EXPAND_PARENT) ∈ outcomes s') /\ effects s' = effects s.
Proof.
  intros Hg Hterm. unfold expand_token. intros H.
  apply mint_bind_ok in H as (u1 & s1 & [Hb ->]%stop_if_ok & H). apply mint_bind_ok in H as (ds' & s1 & [_ ->]%reads_ok & H).
  apply mint_bind_ok in H as ([] & s1 & [Hrun ->]%reads_ok & H). apply mint_bind_ok in H as ([] & s1 & [Hrow ->]%reads_ok & H).
  apply mint_bind_ok in H as (g' & s1 & [_ ->]%new_id_ok & H). apply mint_bind_ok in H as (u4 & s1 & [Ha%negb_false_iff%bool_decide_eq_true ->]%stop_if_ok & H).
  apply mint_bind_ok in H as (u5 & s1 & [_ ->]%checked_ok & H). apply mint_bind_ok in H as (ex & s1 & [Hex ->]%reads_ok & H).
  assert (Hex' : terminal_of s r = Ok ex) by exact Hex. rewrite Hterm in Hex'. injection Hex' as <-.
  destruct (run_ownership s _ Hrun) as (row & Ht & Hr). destruct (row_ownership s _ _ Hrow) as (row' & Ht' & Hr'). rewrite Ht in Ht'. injection Ht' as <-.
  apply mint_bind_ok in H as (base & s1 & [Hbase ->]%reads_ok & H). apply mint_bind_ok in H as (u6 & s1 & [_ ->]%stop_if_ok & H).
  apply mint_bind_ok in H as (u7 & s1 & Hclaim & H).
  assert (Hs1 : same_lineage s s1 /\ outcomes s1 = outcomes s /\ effects s1 = effects s).
  { destruct p; try (apply mint_ret_ok in Hclaim as [_ ->]; done). destruct batch; [|apply mint_ret_ok in Hclaim as [_ ->]; done].
    apply claim_batch_ok in Hclaim as (e & ->). done. }
  destruct Hs1 as (Hsl & Ho1 & Hf1). clear Hclaim.
  apply mint_bind_ok in H as (cs' & s2 & [Hcs (n & ->)]%expand_children_ok & H). apply mint_bind_ok in H as (u8 & s2 & Hins & H).
  apply mint_bind_ok in H as (u9 & s3 & Hgrp & H). apply mint_bind_ok in H as (u10 & s4 & Hout & [[= <- <-] <-]%mint_ret_ok).
  assert (Hrun' : run = tr_run_id row) by congruence. clear Ha. subst run. exists row, base.
  assert (Hbase' : current_path s r (tr_run_id row) supplied = Ok base) by exact Hbase.
  assert (Hchild : Forall (child_of row EXPAND g base) cs).
  { apply Forall_forall. intros c Hc. apply list_elem_of_lookup in Hc as (j & Hj). destruct (Forall2_lookup_r _ _ _ _ _ Hcs Hj) as (b & _ & Ec).
    rewrite Ec. split_and!; [done|done|]. cbn. eauto. }
  assert (Hlen : length (map data_ref payloads) = length cs) by (by eapply Forall2_length). rewrite Hlen in Hgrp. rewrite Hr in Hbase'.
  assert (Hsub : base ⊆ token_path s (ref_token_id r)) by (by eapply current_path_sub).
  destruct (opens s (set_minted s1 n) r row EXPAND g None base cs u8 s2 u9 s3) as (Hm & Ho & Hw & Hf); try done; [by destruct Hsl|by unfold decided; cbn; rewrite Ho1|].
  assert (Hg3 : grounded s3) by (by eapply minted_children_grounded). cbn in Ho, Hf. rewrite Ho1 in Ho. rewrite Hf1 in Hf.
  assert (Hend : same_lineage s3 s' /\ NoDup (decided s') /\ outcomes s3 ⊆ outcomes s' /\
                 (p = EXPAND_PARENT -> (tr_run_id row, opener_outcome (ref_token_id r) EXPAND_PARENT) ∈ outcomes s') /\ effects s' = effects s3).
  { case_bool_decide as Ep.
    - apply mint_bind_ok in Hout as (i & s5 & [_ ->]%new_id_ok & Hout). pose proof (set_minted_grounded s3 (S (minted s3)) Hg3) as Hg4.
      pose proof (outcome_grounded _ _ _ _ _ _ Hg4 Hout) as Hg5. apply insert_outcome_ok in Hout as (_ & _ & ->).
      split_and!; [by split|apply (gd_decided _ Hg5)| |intros _|done]; cbn; [set_solver|apply elem_of_app; right; by left].
    - apply record_outcomes_ok in Hout as (? & ? & ? & ? & ?); [|done]. done. }
  destruct Hend as (Hsl' & Hd & Hsub' & Hop & Hef). rewrite Ho in Hsub'. split_and!; try done; try congruence.
  by eapply minted_children_after.
Qed.

(** ** Closing a group *)
Lemma durable_truncate_truncates s run k g p q : durable_truncate s run k g p = Ok q -> truncate_at_closer_frame (releases s run) p k g = Ok q.
Proof.
  intros H. unfold durable_truncate in H. destruct (truncate s run k g p) as [q'|e] eqn:E; [|by destruct e].
  injection H as ->. unfold truncate in E. destruct (last p) as [f|]; [|done]. destruct (is_frame k g f); [done|]. by apply bind_ok in E as (_ & _ & E).
Qed.

Lemma durable_truncate_ok s run k g p q :
  durable_truncate s run k g p = Ok q ->
  exists f above, p = q ++ f :: above /\ kind f = k /\ group_id f = g /\
    (above = [] \/ releases s run g = false /\ Forall (fun h => releases s run (group_id h) = true) above).
Proof. intros H. by apply truncate_closes_own_frame, durable_truncate_truncates. Qed.

Lemma durable_truncate_sub s run k g p q : durable_truncate s run k g p = Ok q -> q ⊆ p.
Proof. intros (f & above & -> & _)%durable_truncate_ok x Hx. apply elem_of_app. by left. Qed.

Lemma remove_dups_all {A} `{EqDecision A} (l : list A) x : l <> [] -> Forall (fun y => y = x) l -> remove_dups l = [x].
Proof.
  intros Hne Hall. assert (Hin : forall q, q ∈ remove_dups l <-> q = x).
  { intros q. rewrite elem_of_remove_dups. rewrite Forall_forall in Hall. split; [apply Hall|]. intros ->. destruct l as [|y l]; [done|]. rewrite <- (Hall y); by left. }
  pose proof (NoDup_remove_dups l) as Hnd. destruct (remove_dups l) as [|a [|b k]].
  - exfalso. apply (not_elem_of_nil x). by apply Hin.
  - f_equal. apply Hin. by left.
  - apply NoDup_cons in Hnd as [Hnd _]. destruct Hnd. rewrite (proj1 (Hin a)), <- (proj1 (Hin b)); by repeat constructor.
Qed.

Lemma remaining_path_ok e ps p : the_remaining_path e ps = Ok p <-> ps <> [] /\ Forall (fun q => q = p) ps.
Proof.
  unfold the_remaining_path. split.
  - assert (Hin : forall q, q ∈ remove_dups ps <-> q ∈ ps) by (intros q; apply elem_of_remove_dups).
    destruct (remove_dups ps) as [|p' [|q l]] eqn:E; [done| |done]. intros [= <-]. split.
    + intros ->. apply (not_elem_of_nil p'), Hin. by left.
    + apply Forall_forall. intros q Hq%Hin%list_elem_of_singleton. done.
  - intros [Hne Hall]. by rewrite (remove_dups_all ps p).
Qed.

Definition current (s : token_store) (r : TokenRef) (p : path) : Prop := p ⊆ token_path s (ref_token_id r).

Lemma supplied_paths_ok s run refs supplied ps :
  grounded s -> Forall (fun r => ref_run_id r = run /\ exists row, tokens s !! ref_token_id r = Some row /\ tr_run_id row = run) refs ->
  supplied_paths s run refs supplied = Ok ps ->
  Forall2 (current s) refs ps /\ (supplied = None -> ps = map (fun r => token_path s (ref_token_id r)) refs).
Proof.
  intros Hg Hrefs. unfold supplied_paths. destruct supplied as [d|].
  - intros (l & Ha%mapM_res_ok & Hp%mapM_res_ok)%bind_ok. split; [|done]. revert l ps Ha Hp. induction Hrefs as [|r refs (Hr & row & Ht & Hrr) _ IH]; intros l ps Ha Hp.
    + inversion Hp. constructor.
    + inversion Ha as [|r0 u refs0 l0 Hau Hal]; subst. inversion Hp as [|r1 p refs1 ps1 Hpp Hpl]; subst. constructor; [|by eapply IH].
      destruct (dict_get d (ref_token_id r)) as [q|]; [|done]. injection Hpp as ->. unfold current.
      assert (Hcp : current_path s r (ref_run_id r) (Some p) = Ok p) by (cbn; destruct u; by rewrite Hau).
      eapply (current_path_sub s Hg r row); [done|congruence|done].
  - intros [= <-]. rewrite (map_ext_in _ (fun r => token_path s (ref_token_id r))).
    + split; [|done]. apply Forall2_fmap_r, Forall_Forall2_diag, Forall_true. intros r x. done.
    + intros r Hr%list_elem_of_In. rewrite Forall_forall in Hrefs. destruct (Hrefs r Hr) as (_ & row & Ht & <-). by apply load_frames.
Qed.

Lemma close_fork_ok s run ps p g :
  close_fork s run ps = Ok (p, g) ->
  exists first f above, head ps = Some first /\ first = p ++ f :: above /\ kind f = FORK /\ group_id f = g /\ releases s run g = false /\
    Forall (fun h => releases s run (group_id h) = true) above /\ Forall (fun q => durable_truncate s run FORK g q = Ok p) ps.
Proof.
  unfold close_fork. destruct ps as [|first ps]; [done|]. unfold own_frame. intros (own & (u & _ & [= <-])%bind_ok & H)%bind_ok.
  destruct (innermost_own_frame (releases s run) first) as [[below f]|] eqn:Eo; [|done]. apply own_frame_some in Eo as (above & E & Hr & Ha).
  destruct (negb (kind f == FORK)) eqn:Ek; [done|]. apply negb_false_iff, bool_decide_eq_true in Ek.
  apply bind_ok in H as (remaining & Hm%mapM_res_ok & (p' & [_ Hall]%remaining_path_ok & [= <- <-])%bind_ok).
  assert (Htr : Forall (fun q => durable_truncate s run FORK (group_id f) q = Ok p') (first :: ps)).
  { apply Forall_forall. intros q Hq. apply list_elem_of_lookup in Hq as (i & Hi). destruct (Forall2_lookup_l _ _ _ _ _ Hm Hi) as (q' & Hq' & Hd).
    rewrite Hd. f_equal. rewrite Forall_forall in Hall. apply Hall. by eapply list_elem_of_lookup_2. }
  apply Forall_cons in Htr as [H1 Hrest].
  exists first, f, above. split_and!; try done; [|by constructor]. 
  assert (Hb : truncate_at_closer_frame (releases s run) first FORK (group_id f) = Ok below).
  { apply truncate_closes_own_frame. exists f, above. split_and!; [done..|by right]. }
  apply durable_truncate_truncates in H1. congruence.
Qed.

(** [TokenManager] computes the path that the repository records. *)
Lemma merged_path_agrees s run infos p g :
  (forall i j, i ∈ infos -> j ∈ infos -> row_id i = row_id j) -> close_fork s run (map lineage_path infos) = Ok (p, g) -> merged_path s run infos = Ok p.
Proof.
  unfold close_fork, merged_path. destruct infos as [|first infos]; [done|]. intros Hrow H. cbn [map] in H.
  assert (Hr : existsb (fun i => negb (row_id i == row_id first)) (first :: infos) = false).
  { destruct (existsb _ _) eqn:E; [|done]. apply existsb_exists in E as (i & Hi%list_elem_of_In & Hn). exfalso.
    rewrite (Hrow i first Hi ltac:(by left)), bool_decide_eq_true_2 in Hn by done. done. }
  rewrite Hr. apply bind_ok in H as (own & Ho & H). apply bind_ok. exists own. split; [done|]. destruct own as [[below f]|]; [|done]. destruct (negb (kind f == FORK)); [done|].
  apply bind_ok in H as (rem & Hm & (q & Hq%remaining_path_ok & [= <- _])%bind_ok). change (lineage_path first :: map lineage_path infos) with (map lineage_path (first :: infos)) in Hm.
  apply mapM_res_ok in Hm. apply Forall2_fmap_l in Hm. apply bind_ok. exists rem. split; [|by apply remaining_path_ok].
  apply mapM_res_ok. eapply Forall2_impl; [exact Hm|]. cbn. intros i q' Hd. unfold durable_truncate in Hd.
  destruct (truncate s run FORK (group_id f) (lineage_path i)) as [x|[]] eqn:E; done.
Qed.

Notation coalesce := (coalesce_tokens generate_id data_ref stored_ref parent_set_hash effect_hash).
Notation collect := (collect_tokens generate_id data_ref stored_ref).

(** Every parent is a token of the row and the run. *)
Definition owned (s : token_store) (row_id run : string) (r : TokenRef) : Prop :=
  ref_run_id r = run /\ exists row, tokens s !! ref_token_id r = Some row /\ tr_row_id row = row_id /\ tr_run_id row = run.

Lemma owned_run s row_id run refs :
  Forall (owned s row_id run) refs -> Forall (fun r => ref_run_id r = run /\ exists row, tokens s !! ref_token_id r = Some row /\ tr_run_id row = run) refs.
Proof. intros H. eapply Forall_impl; [exact H|]. intros r (Hr & row & Ht & _ & Hrr). eauto. Qed.

Lemma check_parents_ok s refs row_id run :
  check_parents s refs row_id = Ok tt -> from_option (fun r => ref_run_id r == run) true (head refs) = true -> Forall (owned s row_id run) refs.
Proof.
  unfold check_parents. intros (l & H%mapM_res_ok & _)%bind_ok Hrun. apply Forall_forall. intros r Hr. apply list_elem_of_lookup in Hr as (i & Hi).
  destruct (Forall2_lookup_l _ _ _ _ _ H Hi) as (u & _ & Hr). apply bind_ok in Hr as ([] & (row & Ht & Hrow)%row_ownership & Hr).
  apply bind_ok in Hr as ([] & (row' & Ht' & Hrun')%run_ownership & Hr). rewrite Ht in Ht'. injection Ht' as <-.
  destruct refs as [|first refs]; [done|]. cbn in *. apply bool_decide_eq_true in Hrun. case_bool_decide as E; [|done].
  split; [congruence|]. exists row. split_and!; [done..|congruence].
Qed.

Lemma insert_effect_ok e s u s' : insert_effect e s = Ok (u, s') -> s' = set_effects s (effects s ++ [e]).
Proof. unfold insert_effect. by intros [_ ->]%guarded_write_ok. Qed.

Definition merge_links (run token_id : string) (refs : list TokenRef) : list parent_row :=
  imap (fun i r => mkParentRow token_id (ref_token_id r) run (Z.of_nat i)) refs.

Lemma merge_minted s run row_id refs ps g t s1 s2 s3 s4 u1 u2 u3 u4 e n :
  grounded s -> Forall (owned s row_id run) refs -> Forall2 (current s) refs ps -> close_fork s run ps = Ok (t_lineage_path t, g) ->
  t_row_id t = row_id -> t_run_id t = run ->
  insert_token t (set_minted s n) = Ok (u1, s1) -> insert_lineage_frames run (t_token_id t) (t_lineage_path t) s1 = Ok (u2, s2) ->
  each insert_parent (merge_links run (t_token_id t) refs) s2 = Ok (u3, s3) -> insert_effect e s3 = Ok (u4, s4) ->
  minted_by s s4 run [t] (merge_links run (t_token_id t) refs) [] /\ outcomes s4 = outcomes s.
Proof.
  intros Hg Hown Hcur Hclose Hrow Hrun [[Hn Hr] ->]%insert_token_ok ->%insert_frames_ok (_ & ->)%insert_parents_ok ->%insert_effect_ok.
  apply close_fork_ok in Hclose as (first & f & above & Hhead & _ & _ & _ & _ & _ & Htr). rewrite Forall_forall in Htr. rewrite Forall_forall in Hown.
  assert (Hsub : forall r, r ∈ refs -> t_lineage_path t ⊆ token_path s (ref_token_id r)).
  { intros r (i & Hi)%list_elem_of_lookup. destruct (Forall2_lookup_l _ _ _ _ _ Hcur Hi) as (p & Hp & Hsub).
    intros x Hx. apply Hsub. eapply durable_truncate_sub; [apply Htr; by eapply list_elem_of_lookup_2|done]. }
  assert (Hne : exists r, r ∈ refs).
  { destruct Hcur as [|r p refs ps]; [done|]. exists r. by left. }
  assert (Hlink : forall l, l ∈ merge_links run (t_token_id t) refs -> pr_run_id l = run /\ pr_token_id l = t_token_id t /\ exists r, r ∈ refs /\ pr_parent_id l = ref_token_id r).
  { unfold merge_links. intros l (i & r & -> & Hi)%elem_of_lookup_imap. cbn. split_and!; [done..|]. exists r. split; [by eapply list_elem_of_lookup_2|done]. }
  split; [|done]. split; cbn; rewrite ?app_nil_r; try done; try lia; try (by intros x Hx%not_elem_of_nil).
  - apply NoDup_singleton.
  - by intros c ->%list_elem_of_singleton.
  - intros c x ->%list_elem_of_singleton Hx. destruct Hne as (r & Hin). destruct (Hown r Hin) as (_ & row & Ht & _ & <-).
    by eapply (sub_recorded s Hg _ _ _ _ Ht (Hsub r Hin)).
  - intros l (Hlr & Hlt & r & Hin & Hlp)%Hlink. split; [done|]. destruct (Hown r Hin) as (_ & row & Ht & Hrr & Hrun'). exists t, row. rewrite Hlp.
    split_and!; try done; [by left|congruence].
  - intros l c x (_ & _ & r & Hin & Hlp)%Hlink ->%list_elem_of_singleton _ Hx Ho Hlast. destruct (last (t_lineage_path t)) as [h|] eqn:El; [|done]. cbn in Hlast.
    injection Hlast as Hh. destruct (gd_openers s Hg x Hx) as [_ Hno]. apply (Hno h); [|done]. rewrite Ho, Hlp. apply (Hsub r Hin).
    apply last_Some in El as (k & ->). apply elem_of_app. right. by left.
  - apply (gd_decided s Hg).
Qed.

Lemma coalesce_mints s fence refs row_id payload run node state_ids step supplied t s' :
  grounded s -> coalesce fence refs row_id payload run node state_ids step supplied s = Ok (t, s') -> tokens s !! t_token_id t = None ->
  exists ps g, Forall (owned s row_id run) refs /\ supplied_paths s run refs supplied = Ok ps /\ close_fork s run ps = Ok (t_lineage_path t, g) /\
    t_row_id t = row_id /\ t_run_id t = run /\ minted_by s s' run [t] (merge_links run (t_token_id t) refs) [] /\ outcomes s' = outcomes s.
Proof.
  intros Hg H Hnew. unfold coalesce_tokens in H.
  apply mint_bind_ok in H as (u1 & s1 & [_ ->]%stop_if_ok & H). apply mint_bind_ok in H as (u2 & s1 & [_ ->]%stop_if_ok & H).
  apply mint_bind_ok in H as (u3 & s1 & [_ ->]%stop_if_ok & H). apply mint_bind_ok in H as (u4 & s1 & [_ ->]%stop_if_ok & H).
  apply mint_bind_ok in H as ([] & s1 & [Hpar ->]%reads_ok & H). apply mint_bind_ok in H as (u6 & s1 & [Hrun%negb_false_iff ->]%stop_if_ok & H).
  apply mint_bind_ok in H as (u7 & s1 & [_ ->]%checked_ok & H). apply mint_bind_ok in H as (u8 & s1 & Hst & H).
  assert (s1 = s) as -> by (destruct state_ids; [by apply reads_ok in Hst as [_ ->]|by apply mint_ret_ok in Hst as [_ ->]]). clear Hst.
  pose proof (check_parents_ok s refs row_id run Hpar Hrun) as Hown.
  apply mint_bind_ok in H as (ex & s1 & [_ ->]%reads_ok & H). destruct ex as [e|].
  - exfalso. apply reads_ok in H as [H _]. unfold validate_and_load_coalesce_effect in H. res_back.
    destruct (tokens s !! ef_token_id e) as [row|] eqn:Et; [|done]. res_back. apply token_returns in H as ->. cbn in Hnew. congruence.
  - apply mint_bind_ok in H as (ps & s1 & [Hps ->]%reads_ok & H). apply mint_bind_ok in H as ([p g] & s1 & [Hclose ->]%reads_ok & H).
    apply mint_bind_ok in H as (u9 & s1 & [_ ->]%stop_if_ok & H). apply mint_bind_ok in H as (j & s1 & [-> ->]%new_id_ok & H).
    apply mint_bind_ok in H as (i & s1 & [-> ->]%new_id_ok & H). apply mint_bind_ok in H as (k & s1 & [_ ->]%new_id_ok & H).
    apply mint_bind_ok in H as (u10 & s1 & Hi1 & H). apply mint_bind_ok in H as (u11 & s2 & Hi2 & H). apply mint_bind_ok in H as (u12 & s3 & Hi3 & H).
    apply mint_bind_ok in H as (u13 & s4 & Hi4 & [->%token_returns ->]%checked_ok).
    destruct (supplied_paths_ok s run refs supplied ps Hg (owned_run _ _ _ _ Hown) Hps) as [Hcur _].
    match type of Hi1 with insert_token ?t _ = _ => set (merged := t) in * end.
    destruct (merge_minted s run row_id refs ps g merged s1 s2 s3 s4 u10 u11 u12 u13 _ (S (S (S (minted s)))) Hg Hown Hcur Hclose eq_refl eq_refl Hi1 Hi2 Hi3 Hi4) as [Hm Ho].
    exists ps, g. done.
Qed.

Definition opened_by (s : token_store) (run token_id : string) : list group_record := filter (fun x => gr_run_id x = run /\ gr_opener x = token_id) (groups s).

(** A group without members. *)
Lemma opens_empty s s0 r row k g closes u s2 :
  grounded s -> same_lineage s s0 -> decided s0 = decided s -> tokens s !! ref_token_id r = Some row ->
  insert_group (mkGroupRecord (tr_run_id row) g k (ref_token_id r) 0 closes) s0 = Ok (u, s2) ->
  minted_children s r row k g closes [] [] s2 /\ outcomes s2 = outcomes s0.
Proof.
  intros Hg Hs Hd Ht Hgrp. destruct (opens s s0 r row k g closes [] [] tt s0 u s2) as (Hm & Ho & _); try done.
  by intros x Hx%not_elem_of_nil.
Qed.

Lemma empty_mints s fence r run g s' :
  grounded s -> record_empty_expansion generate_id fence r run s = Ok (g, s') -> s' = s \/ exists row, minted_children s r row EXPAND g None [] [] s' /\ outcomes s' = outcomes s.
Proof.
  intros Hg. unfold record_empty_expansion. intros H. apply mint_bind_ok in H as ([] & s1 & [(row & Ht & Hr)%run_ownership ->]%reads_ok & H).
  apply mint_bind_ok in H as (u2 & s1 & [Ha%negb_false_iff%bool_decide_eq_true ->]%stop_if_ok & H). apply mint_bind_ok in H as (u3 & s1 & [_ ->]%checked_ok & H).
  apply mint_bind_ok in H as (ex & s1 & [_ ->]%reads_ok & H). destruct ex as [x|].
  - left. apply mint_bind_ok in H as (u4 & s1 & [_ ->]%stop_if_ok & [_ ->]%mint_ret_ok). done.
  - right. exists row. apply mint_bind_ok in H as (i & s1 & [_ ->]%new_id_ok & H). apply mint_bind_ok in H as (u4 & s1 & Hgrp & [<- ->]%mint_ret_ok).
    rewrite <- Ha, <- Hr in Hgrp. destruct (opens_empty s _ r row EXPAND g None u4 s1 Hg (set_minted_same _ _) eq_refl Ht Hgrp) as [Hm Ho]. done.
Qed.

(** Committed children come back with their recorded paths. *)
Lemma loaded_children_paths s r cs :
  load_children_for_parent s r = Ok cs -> Forall (fun c => load_lineage_frames s (ref_run_id r) (t_token_id c.1) = t_lineage_path c.1) cs.
Proof.
  unfold load_children_for_parent. intros H%mapM_res_ok. apply Forall_forall. intros c (i & Hi)%list_elem_of_lookup.
  destruct (Forall2_lookup_r _ _ _ _ _ H Hi) as (l & _ & (p & Hp & Hl)%bind_ok). unfold load_lineage_path in Hp.
  destruct (negb _); [done|]. injection Hp as <-. destruct (tokens s !! pr_token_id l) as [t|]; [|done].
  by apply bind_ok in Hl as (t' & ->%token_returns & [= <-]).
Qed.

Lemma all_matched_forall {A B} (matches : nat -> A -> B -> bool) (P : A -> Prop) l : forall k i,
  (forall i a b, matches i a b = true -> P a) -> all_matched matches i l k = true -> Forall P l /\ length l = length k.
Proof.
  induction l as [|a l IH]; intros [|b k] i HP; cbn; try done. intros [Ha Hl]%andb_true_iff.
  destruct (IH k (S i) HP Hl) as [Hall ->]. split; [|done]. constructor; [by eapply HP|done].
Qed.

(** A collect that is driven again answers with tokens that are on record with
    the remaining path and the frame of the group. *)
Lemma collect_replay_ok rep run base g n refs s rg ids s' :
  reconcile_collect_replay rep run base g n refs s = Ok ((rg, ids), s') ->
  s' = s /\ length ids = length refs /\ Forall (fun i => load_lineage_frames s (ref_run_id rep) i = base ++ [mkFrame EXPAND rg i]) ids.
Proof.
  unfold reconcile_collect_replay. intros H. destruct (n =? 0).
  - apply mint_bind_ok in H as (u & s1 & [Hn%negb_false_iff%Nat.eqb_eq ->]%stop_if_ok & [[= -> ->] ->]%mint_ret_ok).
    split_and!; [done|by destruct refs|constructor].
  - apply mint_bind_ok in H as (u & s1 & [_ ->]%stop_if_ok & (cs & s2 & [Hcs ->]%reads_ok & (u' & s3 & [Hm%negb_false_iff ->]%stop_if_ok & [[= -> ->] ->]%mint_ret_ok)%mint_bind_ok)%mint_bind_ok).
    apply andb_true_iff in Hm as [_ Hm].
    apply (all_matched_forall _ (fun c => t_lineage_path c.1 = base ++ [mkFrame EXPAND g (t_token_id c.1)])) in Hm as [Hp Hlen];
      [|by intros i c b [_ E%bool_decide_eq_true]%andb_true_iff].
    split_and!; [done|by rewrite length_map|]. apply loaded_children_paths in Hcs. apply Forall_fmap, Forall_forall. intros c Hc. cbn.
    rewrite Forall_forall in Hp. rewrite Forall_forall in Hcs. by rewrite (Hcs c Hc), (Hp c Hc).
Qed.

Lemma collect_mints s fence refs group_id outputs run step supplied rg ids s' :
  grounded s -> collect fence refs group_id outputs run step supplied s = Ok ((rg, ids), s') ->
  exists rep row ps base, head refs = Some rep /\ tokens s !! ref_token_id rep = Some row /\ run = tr_run_id row /\ Forall (owned s (tr_row_id row) run) refs /\
    supplied_paths s run refs supplied = Ok ps /\ Forall (fun p => durable_truncate s run EXPAND group_id p = Ok base) ps /\
    (opened_by s run (ref_token_id rep) = [] ->
       exists cs base', minted_children s rep row EXPAND rg (Some group_id) base' cs s' /\ ids = map t_token_id cs /\
                        Forall2 (expanded run (tr_row_id row) rg step base) (map data_ref outputs) cs /\ outcomes s' = outcomes s) /\
    (opened_by s run (ref_token_id rep) <> [] ->
       s' = s /\ length ids = length outputs /\ Forall (fun i => load_lineage_frames s run i = base ++ [mkFrame EXPAND rg i]) ids).
Proof.
  intros Hg. unfold collect_tokens. destruct refs as [|rep refs]; [by intros [? _]%checked_ok|]. intros H. pose (all := rep :: refs). change (rep :: refs) with all in H |- *.
  apply mint_bind_ok in H as (u1 & s1 & [_ ->]%stop_if_ok & H). apply mint_bind_ok in H as (o & s1 & [(row & Ht & ->)%ownership ->]%reads_ok & H).
  apply mint_bind_ok in H as (l & s1 & [Hm%mapM_res_ok ->]%reads_ok & H). apply mint_bind_ok in H as (u3 & s1 & [Ha%negb_false_iff%bool_decide_eq_true ->]%stop_if_ok & H).
  cbn in Ha. subst run. apply mint_bind_ok in H as (u4 & s1 & [_ ->]%checked_ok & H). apply mint_bind_ok in H as (ps & s1 & [Hps ->]%reads_ok & H).
  apply mint_bind_ok in H as (base & s1 & [Hbase ->]%reads_ok & H). apply mint_bind_ok in H as (ex & s1 & [Hex ->]%reads_ok & H). cbn [fst snd] in *.
  assert (Hown : Forall (owned s (tr_row_id row) (tr_run_id row)) all).
  { apply Forall_forall. intros r (i & Hi)%list_elem_of_lookup. destruct (Forall2_lookup_l _ _ _ _ _ Hm Hi) as (u & _ & Hr).
    apply bind_ok in Hr as ([] & (row1 & Ht1 & Hr1)%run_ownership & Hr). apply bind_ok in Hr as ([] & (row2 & Ht2 & Hr2)%row_ownership & Hr).
    rewrite Ht1 in Ht2. injection Ht2 as <-. case_bool_decide as E; [|done]. split; [done|]. exists row1. split_and!; [done..|congruence]. }
  apply bind_ok in Hbase as (rem & Hrem%mapM_res_ok & [Hne Hall]%remaining_path_ok).
  assert (Htr : Forall (fun p => durable_truncate s (tr_run_id row) EXPAND group_id p = Ok base) ps).
  { apply Forall_forall. intros p (i & Hi)%list_elem_of_lookup. destruct (Forall2_lookup_l _ _ _ _ _ Hrem Hi) as (q & Hq & ->). f_equal.
    rewrite Forall_forall in Hall. apply Hall. by eapply list_elem_of_lookup_2. }
  exists rep, row, ps, base. split_and!; try done.
  - intros Hop. unfold opened_by in Hop. rewrite Hop in Hex. injection Hex as <-. 
    assert (Hsub : base ⊆ token_path s (ref_token_id rep)).
    { destruct (supplied_paths_ok s _ all supplied ps Hg (owned_run _ _ _ _ Hown) Hps) as [Hcur _]. inversion Hcur as [|r p rs ps' Hc _ E1 E2]. subst.
      apply Forall_cons in Htr as [Htr _]. intros x Hx. apply Hc. by eapply durable_truncate_sub. }
    destruct (length outputs =? 0)%nat eqn:El.
    + apply Nat.eqb_eq, length_zero_iff_nil in El as ->. apply mint_bind_ok in H as (i & s1 & [_ ->]%new_id_ok & H).
      apply mint_bind_ok in H as (u5 & s1 & Hgrp & [[= <- ->] ->]%mint_ret_ok). exists [], [].
      destruct (opens_empty s _ rep row EXPAND rg (Some group_id) u5 s1 Hg (set_minted_same _ _) eq_refl Ht Hgrp) as [Hmc Ho].
      split_and!; try done.
    + apply mint_bind_ok in H as (u5 & s1 & [_ ->]%stop_if_ok & H). apply mint_bind_ok in H as (i & s1 & [_ ->]%new_id_ok & H).
      apply mint_bind_ok in H as (cs & s1 & [Hcs (n & ->)]%expand_children_ok & H). apply mint_bind_ok in H as (u6 & s1 & Hins & H).
      apply mint_bind_ok in H as (u7 & s2 & Hgrp & [[= <- ->] ->]%mint_ret_ok). exists cs, base.
      assert (Hchild : Forall (child_of row EXPAND rg base) cs).
      { apply Forall_forall. intros c (j & Hj)%list_elem_of_lookup. destruct (Forall2_lookup_r _ _ _ _ _ Hcs Hj) as (b & _ & Ec).
        rewrite Ec. split_and!; [done|done|]. cbn. eauto. }
      assert (Hlen : length (map data_ref outputs) = length cs) by (by eapply Forall2_length). rewrite Hlen in Hgrp.
      destruct (opens s _ rep row EXPAND rg (Some group_id) base cs _ _ _ _ Hg (set_minted_same s n) eq_refl Ht Hsub Hchild Hins Hgrp) as (Hmc & Ho & _). done.
  - intros Hop. destruct ex as [x|].
    { apply collect_replay_ok in H as (-> & Hl & Hp). rewrite length_map in Hl.
      assert (E : ref_run_id rep = tr_run_id row) by (by apply Forall_cons in Hown as [[? _] _]). by rewrite E in Hp. }
    unfold opened_by in Hop. destruct (filter _ (groups s)) as [|y [|z k]]; done.
Qed.
End verbs.
