(* ===== verification/TokenHistory.v ===== *)
(** * TokenHistory: the mint over whole histories

    All sequences of source rows, forks, expansions, merges and collections,
    with whatever the other components write in between, and what holds of them:
    the recorded lineage is grounded, closing a group gives back the path its
    opener had, and a fork that is driven again returns what it committed,
    unless a row union released its parent. *)

From S2P Require Import Prelude Enums AuditDerive Landscape Scheduler Barrier Contracts ContractFlow Lineage Tokens TokenTheory.
Open Scope Z_scope.

Definition empty_store : token_store := mkStore ∅ ∅ [] [] [] [] [] ∅ ∅ ∅ [] 0.

(** [insert_row_with_token_on], as far as the lineage tables go. *)
Definition with_source (s : token_store) (row_id run token_id : string) : token_store :=
  mkStore (<[row_id := run]> (rows s)) (<[token_id := mkTokenRow row_id run None None None]> (tokens s)) (parents s) (frames s) (groups s) (outcomes s)
    (effects s) (work s) (states s) (expansions s) (members s) (minted s).

Section history.
Context (generate_id : nat -> string).
Context {Payload : Type} (data_ref stored_ref : Payload -> string).
Context (parent_set_hash : list string -> string) (effect_hash : list string -> option Z -> string -> string).

Notation fork := (fork_token generate_id).
Notation expand := (expand_token generate_id data_ref stored_ref).
Notation coalesce := (coalesce_tokens generate_id data_ref stored_ref parent_set_hash effect_hash).
Notation collect := (collect_tokens generate_id data_ref stored_ref).

(** A transaction that raised left everything as it was.  Other components write
    work items, outcomes, node states and batches, but no lineage. *)
Inductive mint_step : token_store -> token_store -> Prop :=
| ms_source s row_id run t : rows s !! row_id = None -> tokens s !! t = None -> mint_step s (with_source s row_id run t)
| ms_fork s fence r row_id branches run item step supplied x s' : fork fence r row_id branches run item step supplied s = Ok (x, s') -> mint_step s s'
| ms_expand s fence r row_id payloads run step p batch ds supplied x s' :
    expand fence r row_id payloads run step p batch ds supplied s = Ok (x, s') -> mint_step s s'
| ms_empty s fence r run g s' : record_empty_expansion generate_id fence r run s = Ok (g, s') -> mint_step s s'
| ms_coalesce s fence refs row_id payload run node state_ids step supplied t s' :
    coalesce fence refs row_id payload run node state_ids step supplied s = Ok (t, s') -> mint_step s s'
| ms_collect s fence refs g outputs run step supplied x s' : collect fence refs g outputs run step supplied s = Ok (x, s') -> mint_step s s'
| ms_other s s' : same_lineage s s' -> outcomes s ⊆ outcomes s' -> NoDup (decided s') -> mint_step s s'.

Definition history : token_store -> token_store -> Prop := rtc mint_step.

(** ** What a step keeps *)
Record kept (s s' : token_store) : Prop := {
  kp_tokens t row : tokens s !! t = Some row -> tokens s' !! t = Some row /\ token_path s' t = token_path s t;
  kp_groups : groups s ⊆ groups s';
  kp_parents : parents s `prefix_of` parents s';
  kp_outcomes : outcomes s ⊆ outcomes s';
}.

Lemma kept_refl s : kept s s.
Proof. by split. Qed.

Lemma kept_trans s1 s2 s3 : kept s1 s2 -> kept s2 s3 -> kept s1 s3.
Proof.
  intros [A1 A2 A3 A4] [B1 B2 B3 B4]. split; [|by etrans..]. intros t row Ht. destruct (A1 t row Ht) as [Ht2 <-]. by apply B1.
Qed.

Lemma minted_kept s s' run cs ps gs : grounded s -> minted_by s s' run cs ps gs -> outcomes s ⊆ outcomes s' -> kept s s'.
Proof.
  intros Hg Hm Ho. split; [|rewrite (mb_groups _ _ _ _ _ _ Hm); set_solver|rewrite (mb_parents _ _ _ _ _ _ Hm); by eexists|done].
  intros t row Ht. split; [by apply (old_token Hm)|by apply (old_path Hm t row)].
Qed.

Lemma fork_replay_reads r row_id branches step o s x s' : reconcile_fork_replay r row_id branches step o s = Ok (x, s') -> s' = s.
Proof.
  unfold reconcile_fork_replay. intros H. apply mint_bind_ok in H as (cs & s1 & [_ ->]%reads_ok & H). apply mint_bind_ok in H as (p & s1 & [_ ->]%reads_ok & H).
  destruct (common_group FORK cs); [|by apply checked_ok in H as [? _]]. by apply mint_bind_ok in H as (u & s1 & [_ ->]%stop_if_ok & [_ ->]%mint_ret_ok).
Qed.

Lemma expansion_replay_reads r row_id refs step o g p s x s' : reconcile_expansion_replay r row_id refs step o g p s = Ok (x, s') -> s' = s.
Proof.
  unfold reconcile_expansion_replay. intros H. apply mint_bind_ok in H as (cs & s1 & [_ ->]%reads_ok & H). apply mint_bind_ok in H as (q & s1 & [_ ->]%reads_ok & H).
  destruct (match g with Some g => Some g | None => common_group EXPAND cs end); [|by apply checked_ok in H as [? _]].
  by apply mint_bind_ok in H as (u & s1 & [_ ->]%stop_if_ok & (y & s2 & [_ ->]%gets_ok & (u' & s3 & [_ ->]%stop_if_ok & [_ ->]%mint_ret_ok)%mint_bind_ok)%mint_bind_ok).
Qed.

(** A verb that finds its opener decided writes nothing but ids. *)
Lemma fork_decided s fence r row_id branches run item step supplied x s' :
  fork fence r row_id branches run item step supplied s = Ok (x, s') -> terminal_of s r = Ok None \/ s' = s.
Proof.
  unfold fork_token. intros H. apply mint_bind_ok in H as (u1 & s1 & [_ ->]%stop_if_ok & H). apply mint_bind_ok in H as (u2 & s1 & [_ ->]%reads_ok & H).
  apply mint_bind_ok in H as (u3 & s1 & [_ ->]%reads_ok & H). apply mint_bind_ok in H as (u4 & s1 & [_ ->]%stop_if_ok & H).
  apply mint_bind_ok in H as (u5 & s1 & [_ ->]%checked_ok & H). apply mint_bind_ok in H as (ex & s1 & [Hex ->]%reads_ok & H).
  destruct ex as [o|]; [right; by apply fork_replay_reads in H|by left].
Qed.

Lemma expand_decided s fence r row_id payloads run step p batch ds supplied x s' :
  expand fence r row_id payloads run step p batch ds supplied s = Ok (x, s') -> terminal_of s r = Ok None \/ exists n, s' = set_minted s n.
Proof.
  unfold expand_token. intros H. apply mint_bind_ok in H as (u1 & s1 & [_ ->]%stop_if_ok & H). apply mint_bind_ok in H as (u2 & s1 & [_ ->]%reads_ok & H).
  apply mint_bind_ok in H as (u3 & s1 & [_ ->]%reads_ok & H). apply mint_bind_ok in H as (u4 & s1 & [_ ->]%reads_ok & H).
  apply mint_bind_ok in H as (g & s1 & [_ ->]%new_id_ok & H). apply mint_bind_ok in H as (u5 & s1 & [_ ->]%stop_if_ok & H).
  apply mint_bind_ok in H as (u6 & s1 & [_ ->]%checked_ok & H). apply mint_bind_ok in H as (ex & s1 & [Hex ->]%reads_ok & H).
  destruct ex as [o|]; [right|by left]. exists (S (minted s)). destruct p, batch; try (by apply checked_ok in H as [? _]);
    apply mint_bind_ok in H as (u7 & s1 & [_ ->]%stop_if_ok & H); try (by apply expansion_replay_reads in H);
    apply mint_bind_ok in H as (c & s1 & [_ ->]%gets_ok & H); destruct c as [[run' claimed]|]; try (by apply checked_ok in H as [? _]);
    apply mint_bind_ok in H as (u8 & s1 & [_ ->]%stop_if_ok & H); apply mint_bind_ok in H as (u9 & s1 & [_ ->]%reads_ok & H); by apply expansion_replay_reads in H.
Qed.

Lemma coalesce_decided s fence refs row_id payload run node state_ids step supplied t s' :
  coalesce fence refs row_id payload run node state_ids step supplied s = Ok (t, s') -> tokens s !! t_token_id t = None \/ s' = s.
Proof.
  unfold coalesce_tokens. intros H. apply mint_bind_ok in H as (u1 & s1 & [_ ->]%stop_if_ok & H). apply mint_bind_ok in H as (u2 & s1 & [_ ->]%stop_if_ok & H).
  apply mint_bind_ok in H as (u3 & s1 & [_ ->]%stop_if_ok & H). apply mint_bind_ok in H as (u4 & s1 & [_ ->]%stop_if_ok & H).
  apply mint_bind_ok in H as (u5 & s1 & [_ ->]%reads_ok & H). apply mint_bind_ok in H as (u6 & s1 & [_ ->]%stop_if_ok & H).
  apply mint_bind_ok in H as (u7 & s1 & [_ ->]%checked_ok & H). apply mint_bind_ok in H as (u8 & s1 & Hst & H).
  assert (s1 = s) as -> by (destruct state_ids; [by apply reads_ok in Hst as [_ ->]|by apply mint_ret_ok in Hst as [_ ->]]).
  apply mint_bind_ok in H as (ex & s1 & [_ ->]%reads_ok & H). destruct ex as [e|]; [right; by apply reads_ok in H as [_ ->]|left].
  apply mint_bind_ok in H as (ps & s1 & [_ ->]%reads_ok & H). apply mint_bind_ok in H as (c & s1 & [_ ->]%reads_ok & H).
  apply mint_bind_ok in H as (u9 & s1 & [_ ->]%stop_if_ok & H). apply mint_bind_ok in H as (j & s1 & [-> ->]%new_id_ok & H).
  apply mint_bind_ok in H as (i & s1 & [-> ->]%new_id_ok & H). apply mint_bind_ok in H as (k & s1 & [_ ->]%new_id_ok & H).
  apply mint_bind_ok in H as (u10 & s1 & [[Hn _] ->]%insert_token_ok & H). apply mint_bind_ok in H as (u11 & s2 & _ & H). apply mint_bind_ok in H as (u12 & s3 & _ & H).
  apply mint_bind_ok in H as (u13 & s4 & _ & [->%token_returns _]%checked_ok). exact Hn.
Qed.

(** ** The invariant holds throughout *)
Lemma source_step s row_id run t : grounded s -> rows s !! row_id = None -> tokens s !! t = None -> grounded (with_source s row_id run t) /\ kept s (with_source s row_id run t).
Proof.
  intros Hg Hr Ht. pose (s1 := mkStore (<[row_id := run]> (rows s)) (tokens s) (parents s) (frames s) (groups s) (outcomes s) (effects s) (work s) (states s)
    (expansions s) (members s) (minted s)).
  assert (Hg1 : grounded s1).
  { pose proof (gd_rows s Hg) as Hrows. destruct Hg as [P1 P2 P3 P4 P5 P6 P7 P8 P9]. split; try done. intros t0 row H0. cbn.
    rewrite lookup_insert_ne; [by eapply Hrows|]. intros ->. by rewrite (Hrows t0 row H0) in Hr. }
  assert (Hm : minted_by s1 (with_source s row_id run t) run [mkTok t row_id run None [] None None] [] []).
  { split; cbn; rewrite ?app_nil_r; try done; try lia; try (by intros x Hx%not_elem_of_nil).
    - apply NoDup_singleton.
    - intros c ->%list_elem_of_singleton. cbn. by rewrite lookup_insert_eq.
    - by intros c f ->%list_elem_of_singleton ?%not_elem_of_nil.
    - by intros l c x Hx%not_elem_of_nil.
    - apply (gd_decided s Hg). }
  split; [by eapply minted_grounded|]. split; cbn; [|done..]. intros t0 row H0. split; [|by apply (old_path Hm t0 row)].
  rewrite lookup_insert_ne; [done|]. intros ->. congruence.
Qed.

Lemma children_step s r row k g closes base cs s' :
  grounded s -> minted_children s r row k g closes base cs s' -> outcomes s ⊆ outcomes s' -> grounded s' /\ kept s s'.
Proof. intros Hg Hm Ho. split; [by eapply minted_children_grounded|]. destruct Hm. by eapply minted_kept. Qed.

Lemma step_grounded s s' : grounded s -> mint_step s s' -> grounded s' /\ kept s s'.
Proof.
  intros Hg. destruct 1 as [s row_id run t Hr Ht|s fence r row_id branches run item step supplied [cs g] s' H|s fence r row_id payloads run step p batch ds supplied [cs g] s' H
    |s fence r run g s' H|s fence refs row_id payload run node state_ids step supplied t s' H|s fence refs g outputs run step supplied [rg ids] s' H|s s' Hs Ho Hd].
  - by apply source_step.
  - destruct (fork_decided _ _ _ _ _ _ _ _ _ _ _ H) as [Hn| ->]; [|split; [done|apply kept_refl]].
    destruct (fork_mints _ _ _ _ _ _ _ _ _ _ _ _ _ Hg Hn H) as (row & base & Hm & _ & _ & _ & _ & _ & Ho & _). eapply children_step; [done..|]. rewrite Ho. set_solver.
  - destruct (expand_decided _ _ _ _ _ _ _ _ _ _ _ _ _ H) as [Hn|(n & ->)]; [|split; [by apply set_minted_grounded|by split]].
    destruct (expand_mints generate_id data_ref stored_ref _ _ _ _ _ _ _ _ _ _ _ _ _ _ Hg Hn H) as (row & base & Hm & _ & _ & _ & _ & _ & Ho & _). by eapply children_step.
  - destruct (empty_mints _ _ _ _ _ _ _ Hg H) as [->|(row & Hm & Ho)]; [split; [done|apply kept_refl]|]. eapply children_step; [done..|]. by rewrite Ho.
  - destruct (coalesce_decided _ _ _ _ _ _ _ _ _ _ _ _ H) as [Hn| ->]; [|split; [done|apply kept_refl]].
    destruct (coalesce_mints generate_id data_ref stored_ref parent_set_hash effect_hash _ _ _ _ _ _ _ _ _ _ _ _ Hg H Hn) as (ps & g & _ & _ & _ & _ & _ & Hm & Ho).
    split; [by eapply minted_grounded|]. eapply minted_kept; [done..|]. by rewrite Ho.
  - destruct (collect_mints generate_id data_ref stored_ref _ _ _ _ _ _ _ _ _ _ _ Hg H) as (rep & row & ps & base & _ & _ & _ & _ & _ & _ & Hfresh & Hreplay).
    destruct (decide (opened_by s run (ref_token_id rep) = [])) as [E|E].
    + destruct (Hfresh E) as (cs & base' & Hm & _ & _ & Ho). eapply children_step; [done..|]. by rewrite Ho.
    + destruct (Hreplay E) as [-> _]. split; [done|apply kept_refl].
  - split; [by eapply same_lineage_grounded|]. destruct Hs. split; [|congruence|by rewrite sl_parents|done]. intros t row Ht. rewrite sl_tokens. split; [done|]. unfold token_path. by rewrite sl_frames.
Qed.

Lemma empty_grounded : grounded empty_store.
Proof. split; cbn; try done; try (by intros ? ?%not_elem_of_nil). apply NoDup_nil_2. Qed.

Lemma history_grounded s s' : grounded s -> history s s' -> grounded s' /\ kept s s'.
Proof.
  intros Hg H. revert Hg. induction H as [s|s1 s2 s3 H1 _ IH]; intros Hg; [split; [done|apply kept_refl]|].
  destruct (step_grounded _ _ Hg H1) as [Hg2 K1]. destruct (IH Hg2) as [Hg3 K2]. split; [done|]. by eapply kept_trans.
Qed.

(** ** Groups in a grounded store *)
Lemma find_group_unique s x : grounded s -> x ∈ groups s -> find_group s (gr_run_id x) (gr_group_id x) = Some x.
Proof.
  intros Hg Hx. unfold find_group. destruct (filter _ (groups s)) as [|y l] eqn:E.
  - assert (Hn : x ∈ filter (fun r => gr_run_id r = gr_run_id x /\ gr_group_id r = gr_group_id x) (groups s)) by (by apply list_elem_of_filter).
    rewrite E in Hn. by apply not_elem_of_nil in Hn.
  - assert (Hy : y ∈ filter (fun r => gr_run_id r = gr_run_id x /\ gr_group_id r = gr_group_id x) (groups s)) by (rewrite E; by left).
    apply list_elem_of_filter in Hy as [[Hr Hgr] Hy]. cbn. apply list_elem_of_lookup in Hx as (i & Hi). apply list_elem_of_lookup in Hy as (j & Hj).
    assert (i = j) by (eapply (gd_unique s Hg i j x y); [done..|by left]). subst j. congruence.
Qed.

Lemma group_release s x : grounded s -> x ∈ groups s -> is_release_group s (gr_run_id x) (gr_group_id x) = Ok (is_some (gr_closes x)).
Proof. intros Hg Hx. unfold is_release_group. by rewrite find_group_unique. Qed.

(** C3. The recorded lineage is grounded.  After any history the path of every
    token can be read back and each of its frames names a group on record, of
    the frame's kind; a token and its parents belong to one row of one run; a
    group has exactly as many members as its record counts, numbered in order;
    and no group is recorded twice, nor any token as the opener of two. *)
Theorem minted_lineage_is_grounded s :
  history empty_store s ->
  (forall t row, tokens s !! t = Some row ->
     exists p, load_lineage_path s (tr_run_id row) t = Ok p /\
       Forall (fun f => exists x, find_group s (tr_run_id row) (group_id f) = Some x /\ gr_kind x = kind f) p) /\
  (forall l, l ∈ parents s -> exists c p, tokens s !! pr_token_id l = Some c /\ tokens s !! pr_parent_id l = Some p /\
     tr_row_id c = tr_row_id p /\ tr_run_id c = tr_run_id p) /\
  (forall x, x ∈ groups s -> gr_member_count x = Z.of_nat (length (member_links s x)) /\
     map pr_ordinal (member_links s x) = map Z.of_nat (seq 0 (length (member_links s x)))) /\
  (forall i j x y, groups s !! i = Some x -> groups s !! j = Some y -> gr_run_id x = gr_run_id y ->
     gr_group_id x = gr_group_id y \/ gr_opener x = gr_opener y -> i = j).
Proof.
  intros [Hg _]%(history_grounded _ _ empty_grounded). split_and!.
  - intros t row Ht. exists (token_path s t). split; [by apply load_path|]. apply Forall_forall. intros f Hf.
    destruct (gd_groups s Hg t row f Ht Hf) as (x & Hx & <- & <- & Hk). exists x. split; [by apply find_group_unique|done].
  - intros l Hl. destruct (gd_links s Hg l Hl) as (c & p & Hc & Hp & H1 & H2 & H3). exists c, p. split_and!; [done..|congruence].
  - intros x Hx. by destruct (gd_members s Hg x Hx).
  - apply (gd_unique s Hg).
Qed.

(** ** Closing what was opened *)
Definition release_frames (s : token_store) (run : string) (p : path) : Prop := Forall (fun f => is_release_group s run (group_id f) = Ok true) p.

Lemma release_frames_releases s run p : release_frames s run p -> Forall (fun h => releases s run (group_id h) = true) p.
Proof. intros H. eapply Forall_impl; [exact H|]. intros f Hf. unfold releases. by rewrite Hf. Qed.

(** The path of a token that an opener minted, or of what became of it with
    nothing but release frames above. *)
Definition member_path (s : token_store) (run : string) (cs : list Token) (p : path) : Prop :=
  exists c above, c ∈ cs /\ p = t_lineage_path c ++ above /\ release_frames s run above.

Lemma opened_not_release s r row k g base cs s1 s2 :
  minted_children s r row k g None base cs s1 -> grounded s2 -> kept s1 s2 -> releases s2 (tr_run_id row) g = false.
Proof.
  intros Hm Hg K. pose proof (mb_groups _ _ _ _ _ _ (mc_minted _ _ _ _ _ _ _ _ _ Hm)) as E. pose (x := mkGroupRecord (tr_run_id row) g k (ref_token_id r) (Z.of_nat (length cs)) None).
  assert (Hx : x ∈ groups s2) by (apply (kp_groups _ _ K); rewrite E; apply elem_of_app; right; by left).
  unfold releases. pose proof (group_release s2 x Hg Hx) as Hr. cbn in Hr. by rewrite Hr.
Qed.

Lemma member_path_frames s r row k g base cs s1 s2 p :
  minted_children s r row k g None base cs s1 -> member_path s2 (tr_run_id row) cs p ->
  exists key above, p = base ++ mkFrame k g key :: above /\ Forall (fun h => releases s2 (tr_run_id row) (group_id h) = true) above.
Proof.
  intros Hm (c & above & Hc & -> & Hr). pose proof (mc_children _ _ _ _ _ _ _ _ _ Hm) as Hcs. rewrite Forall_forall in Hcs.
  destruct (Hcs c Hc) as (_ & _ & key & Ep). exists key, above. split; [by rewrite Ep, <- app_assoc|by apply release_frames_releases].
Qed.

(** C6. A coalesce undoes its fork.  Some time after a token was forked, tokens are
    merged, with the paths that the caller supplies or, if it supplies none,
    with the recorded ones; the first of these paths is that of one of the
    fork's children, or of what became of it with nothing but release groups
    above.  If the call mints the merged token (a call that is driven again
    returns the token it recorded), that token has exactly the path on which the
    fork was built, in the answer and in the database, and the token manager
    computes the same path from tokens with these paths. *)
Theorem coalesce_restores_the_forked_path s fence r row_id branches run item step supplied cs g s1 base s2 fence' refs row payload node state_ids step' supplied' p ps t s3 :
  history empty_store s -> terminal_of s r = Ok None -> fork fence r row_id branches run item step supplied s = Ok ((cs, g), s1) ->
  current_path s r run supplied = Ok base -> history s1 s2 ->
  supplied_paths s2 run refs supplied' = Ok (p :: ps) -> member_path s2 run cs p ->
  coalesce fence' refs row payload run node state_ids step' supplied' s2 = Ok (t, s3) -> tokens s2 !! t_token_id t = None ->
  t_lineage_path t = base /\ load_lineage_frames s3 run (t_token_id t) = base /\
  forall infos, map lineage_path infos = p :: ps ->
    (forall i j, i ∈ infos -> j ∈ infos -> Lineage.row_id i = Lineage.row_id j) -> merged_path s2 run infos = Ok base.
Proof.
  intros [Hg _]%(history_grounded _ _ empty_grounded) Hn Hf Hbase Hh Hsup Hnow Hc Hnew.
  destruct (fork_mints _ _ _ _ _ _ _ _ _ _ _ _ _ Hg Hn Hf) as (prow & base' & Hm & -> & _ & Hrr & Hb & _ & Ho & _). rewrite Hbase in Hb. injection Hb as <-.
  destruct (children_step _ _ _ _ _ _ _ _ _ Hg Hm) as [Hg1 _]; [rewrite Ho; set_solver|]. destruct (history_grounded _ _ Hg1 Hh) as [Hg2 K].
  pose proof (opened_not_release _ _ _ _ _ _ _ _ _ Hm Hg2 K) as Hrel.
  destruct (coalesce_mints generate_id data_ref stored_ref parent_set_hash effect_hash _ _ _ _ _ _ _ _ _ _ _ _ Hg2 Hc Hnew) as (ps' & g' & Hown & Hps & Hclose & _ & Hrun & Hmt & _).
  rewrite Hsup in Hps. injection Hps as <-.
  assert (Hp : t_lineage_path t = base).
  { pose proof Hclose as Hcl. apply close_fork_ok in Hcl as (first & f & above & [= <-] & E & _ & Hgf & Hfr & Hab & _).
    destruct (member_path_frames _ _ _ _ _ _ _ _ _ _ Hm Hnow) as (key & above' & E' & Hr').
    assert (H1 : innermost_own_frame (releases s2 (tr_run_id prow)) p = Some (base, mkFrame FORK g key)) by (apply own_frame_some; eauto).
    assert (H2 : innermost_own_frame (releases s2 (tr_run_id prow)) p = Some (t_lineage_path t, f)) by (apply own_frame_some; exists above; rewrite Hgf; done).
    congruence. }
  split; [done|]. split.
  - pose proof (minted_grounded Hg2 Hmt) as Hg3. assert (Hin : t ∈ [t]) by (by left).
    pose proof (load_frames s3 Hg3 _ _ (new_token Hmt t Hin)) as Hl. cbn in Hl. rewrite Hrun in Hl. rewrite Hl, (new_path Hg2 Hmt t Hin). done.
  - intros infos Ei Hrow. rewrite <- Ei, Hp in Hclose. by eapply merged_path_agrees.
Qed.

(** C14. A collector undoes its expansion.  Some time after a token was expanded, its
    collector closes the group over tokens with the paths that the caller
    supplies or, if it supplies none, with the recorded ones; the first of these
    is that of one of the expansion's children, or of what became of it with
    nothing but release groups above.  Whether the call mints or is driven
    again, it returns one token per output row, and every one of them is
    recorded with the path on which the expansion was built and above it one
    frame of the group that the call returns; that group is on record as a
    release group if the call opened it, the first member having opened none
    before. *)
Theorem collect_restores_the_expanded_path s fence r row_id payloads run step p batch ds supplied cs g s1 base s2 fence' refs outputs step' supplied' q qs rg ids s3 :
  history empty_store s -> terminal_of s r = Ok None -> expand fence r row_id payloads run step p batch ds supplied s = Ok ((cs, g), s1) ->
  current_path s r run supplied = Ok base -> history s1 s2 ->
  supplied_paths s2 run refs supplied' = Ok (q :: qs) -> member_path s2 run cs q ->
  collect fence' refs g outputs run step' supplied' s2 = Ok ((rg, ids), s3) ->
  length ids = length outputs /\ Forall (fun i => load_lineage_frames s3 run i = base ++ [mkFrame EXPAND rg i]) ids /\
  (forall rep, head refs = Some rep -> opened_by s2 run (ref_token_id rep) = [] -> is_release_group s3 run rg = Ok true).
Proof.
  intros [Hg _]%(history_grounded _ _ empty_grounded) Hn Hf Hbase Hh Hsup Hnow Hc.
  destruct (expand_mints generate_id data_ref stored_ref _ _ _ _ _ _ _ _ _ _ _ _ _ _ Hg Hn Hf) as (prow & base' & Hm & -> & _ & Hrr & Hb & _ & Ho & _).
  rewrite Hbase in Hb. injection Hb as <-.
  destruct (children_step _ _ _ _ _ _ _ _ _ Hg Hm Ho) as [Hg1 _]. destruct (history_grounded _ _ Hg1 Hh) as [Hg2 K].
  pose proof (opened_not_release _ _ _ _ _ _ _ _ _ Hm Hg2 K) as Hrel.
  destruct (collect_mints generate_id data_ref stored_ref _ _ _ _ _ _ _ _ _ _ _ Hg2 Hc) as (rep & row & ps & b & Hrep & Ht & Hrun & Hown & Hps & Htr & Hfresh & Hreplay).
  rewrite Hsup in Hps. injection Hps as <-. apply Forall_cons in Htr as [Htr%durable_truncate_truncates _].
  assert (Hb : b = base).
  { destruct (member_path_frames _ _ _ _ _ _ _ _ _ _ Hm Hnow) as (key & above & E & Hr).
    assert (H1 : truncate_at_closer_frame (releases s2 (tr_run_id prow)) q EXPAND g = Ok base).
    { apply truncate_closes_own_frame. exists (mkFrame EXPAND g key), above. split_and!; [done..|by right]. }
    congruence. }
  subst b. destruct (decide (opened_by s2 (tr_run_id prow) (ref_token_id rep) = [])) as [Hop|Hop].
  2: { destruct (Hreplay Hop) as (-> & Hl & Hp). split_and!; [done..|]. intros rep' Hrep'. by rewrite Hrep in Hrep'; injection Hrep' as <-. }
  destruct (Hfresh Hop) as (cs' & b' & Hm' & -> & Hcs & _).
  pose proof (minted_children_grounded _ _ _ _ _ _ _ _ _ Hg2 Hm') as Hg3. rewrite Hrun in *. pose proof (mc_minted _ _ _ _ _ _ _ _ _ Hm') as Hmt. split_and!.
  - rewrite length_map, <- (Forall2_length _ _ _ Hcs), length_map. done.
  - apply Forall_forall. intros i (c & -> & Hc')%list_elem_of_fmap. pose proof (load_frames s3 Hg3 _ _ (new_token Hmt c Hc')) as Hl. cbn in Hl.
    apply list_elem_of_lookup in Hc' as Hj. destruct Hj as (j & Hj). destruct (Forall2_lookup_r _ _ _ _ _ Hcs Hj) as (o & _ & Ec).
    assert (Er : t_run_id c = tr_run_id row) by (by rewrite Ec). rewrite Er in Hl. rewrite Hl, (new_path Hg2 Hmt c Hc'). rewrite Ec. done.
  - intros _ _ _. pose proof (mb_groups _ _ _ _ _ _ Hmt) as E.
    match type of E with _ = _ ++ [?x] => assert (Hx : x ∈ groups s3) by (rewrite E; apply elem_of_app; right; by left); exact (group_release s3 x Hg3 Hx) end.
Qed.

(** ** Driven again *)
Lemma one_terminal s r run o :
  grounded s -> (run, o) ∈ outcomes s -> to_completed o = true -> to_token_id o = ref_token_id r -> ref_run_id r = run -> terminal_of s r = Ok (Some o).
Proof.
  intros Hg Hin Hc Ht Hr. pose proof (gd_decided s Hg) as Hnd. unfold terminal_of, decided in *.
  assert (E : filter (fun x => (to_token_id x.2 = ref_token_id r /\ x.1 = ref_run_id r) /\ to_completed x.2 = true) (outcomes s) = [(run, o)]); [|by rewrite E].
  revert Hin Hnd. induction (outcomes s) as [|x l IH]; [by intros ?%not_elem_of_nil|]. rewrite !filter_cons. intros [<-|Hin]%elem_of_cons.
  - rewrite !decide_True by done. cbn. intros [Hx _]%NoDup_cons. f_equal. apply filter_none. intros y Hy [[Hy1 _] Hy2]. apply Hx. rewrite Ht, <- Hy1.
    apply list_elem_of_fmap. exists y. split; [done|]. by apply list_elem_of_filter.
  - intros Hnd. rewrite decide_False.
    + apply IH; [done|]. case_decide; [|done]. cbn in Hnd. by apply NoDup_cons in Hnd as [_ ?].
    + intros [[Hx1 _] Hx2]. rewrite decide_True in Hnd by done. cbn in Hnd. apply NoDup_cons in Hnd as [Hn _]. apply Hn. rewrite Hx1, <- Ht.
      apply list_elem_of_fmap. exists (run, o). split; [done|]. by apply list_elem_of_filter.
Qed.

(** The links to a token are those that the loader of its children reads. *)
Lemma children_links s r row :
  grounded s -> tokens s !! ref_token_id r = Some row -> ref_run_id r = tr_run_id row ->
  filter (fun l => (pr_parent_id l = ref_token_id r /\ pr_run_id l = ref_run_id r) /\ token_exists s (pr_token_id l) (pr_run_id l) = true) (parents s)
  = filter (fun l => pr_parent_id l = ref_token_id r) (parents s).
Proof.
  intros Hg Ht Hr. apply filter_iff_elem. intros l Hin. split; [by intros [[? _] _]|]. intros Hp.
  destruct (gd_links s Hg l Hin) as (c & p & Hc & Hpa & Hcr & Hpr & _). rewrite Hp, Ht in Hpa. injection Hpa as <-.
  split; [split; congruence|]. unfold token_exists. rewrite Hc. by apply bool_decide_eq_true.
Qed.

Lemma loaded_children_length s r row cs :
  grounded s -> tokens s !! ref_token_id r = Some row -> ref_run_id r = tr_run_id row -> load_children_for_parent s r = Ok cs ->
  length cs = length (filter (fun l => pr_parent_id l = ref_token_id r) (parents s)).
Proof.
  intros Hg Ht Hr. unfold load_children_for_parent. rewrite (children_links s r row Hg Ht Hr). intros H%mapM_res_ok%Forall2_length.
  rewrite <- H. apply sort_by_length.
Qed.

(** A fork that finds its opener decided and returns has compared the recorded
    children, one by one, with the recorded path of the parent. *)
Lemma fork_replay_compares s fence r row_id branches run item step supplied o x s' :
  terminal_of s r = Ok (Some o) -> fork fence r row_id branches run item step supplied s = Ok (x, s') ->
  exists children p g, load_children_for_parent s r = Ok children /\ load_lineage_path s (ref_run_id r) (ref_token_id r) = Ok p /\
    all_matched (fun i c b => child_matches row_id (ref_run_id r) step (p ++ [mkFrame FORK g b]) i c) 0 children branches = true.
Proof.
  intros Ho. unfold fork_token. intros H. apply mint_bind_ok in H as (u1 & s1 & [_ ->]%stop_if_ok & H).
  apply mint_bind_ok in H as (u2 & s1 & [_ ->]%reads_ok & H). apply mint_bind_ok in H as (u3 & s1 & [_ ->]%reads_ok & H).
  apply mint_bind_ok in H as (u4 & s1 & [_ ->]%stop_if_ok & H). apply mint_bind_ok in H as (u5 & s1 & [_ ->]%checked_ok & H).
  apply mint_bind_ok in H as (ex & s1 & [Hex ->]%reads_ok & H). rewrite Ho in Hex. injection Hex as <-. unfold reconcile_fork_replay in H.
  apply mint_bind_ok in H as (cs & s1 & [Hcs ->]%reads_ok & H). apply mint_bind_ok in H as (p & s1 & [Hp ->]%reads_ok & H).
  destruct (common_group FORK cs) as [g|]; [|by apply checked_ok in H as [? _]].
  apply mint_bind_ok in H as (u6 & s1 & [[_ Hm]%negb_false_iff%andb_true_iff ->]%stop_if_ok & _). by exists cs, p, g.
Qed.

Lemma load_children s r run cs :
  grounded s -> ref_run_id r = run -> filter (fun l => pr_parent_id l = ref_token_id r) (parents s) = links_to run (ref_token_id r) cs ->
  Forall (fun c => tokens s !! t_token_id c = Some (row_of c) /\ token_path s (t_token_id c) = t_lineage_path c /\ t_run_id c = run /\ token c = Ok c) cs ->
  load_children_for_parent s r = Ok (imap (fun i c => (c, Z.of_nat i)) cs).
Proof.
  intros Hg <- Hl Hcs. unfold load_children_for_parent. rewrite (filter_iff_elem _ (fun l => pr_parent_id l = ref_token_id r)), Hl.
  - rewrite sort_by_id.
    + apply mapM_res_ok. unfold links_to. apply Forall2_same_length_lookup. rewrite !length_imap. split; [done|]. intros i x y Hx Hy. rewrite list_lookup_imap in Hx. rewrite list_lookup_imap in Hy.
      destruct (cs !! i) as [c|] eqn:E; [|done]. cbn in Hx, Hy. injection Hx as <-. injection Hy as <-. rewrite Forall_forall in Hcs.
      destruct (Hcs c) as (Ht & Hp & Hrun & Htok); [by eapply list_elem_of_lookup_2|]. cbn. rewrite Ht. rewrite <- Hrun. change (t_run_id c) with (tr_run_id (row_of c)).
      rewrite (load_path s Hg _ _ Ht). cbn. rewrite Hp. destruct c. cbn in *. by rewrite Htok.
    + unfold links_to. assert (Hgen : forall n, StronglySorted (fun a b => (pr_ordinal a <=? pr_ordinal b) = true)
                                 (imap (fun i c => mkParentRow (t_token_id c) (ref_token_id r) (ref_run_id r) (Z.of_nat (n + i))) cs)); [|apply (Hgen 0%nat)].
      clear. induction cs as [|c cs IH]; intros n; [constructor|]. cbn. constructor.
      * rewrite (imap_ext _ (fun i c => mkParentRow (t_token_id c) (ref_token_id r) (ref_run_id r) (Z.of_nat (S n + i)))); [apply IH|]. intros i x _. cbn. f_equal. lia.
      * apply Forall_forall. intros l (i & x & -> & _)%elem_of_lookup_imap. cbn. apply Z.leb_le. lia.
  - intros l Hin. split; [by intros [[? _] _]|]. intros Hp. destruct (gd_links s Hg l Hin) as (c & p & Hc & Hpa & Hcr & Hpr & _). split; [split; [done|]|].
    + assert (Hl' : l ∈ links_to (ref_run_id r) (ref_token_id r) cs) by (rewrite <- Hl; by apply list_elem_of_filter). by apply links_to_elem in Hl' as (_ & -> & _).
    + unfold token_exists. rewrite Hc. by apply bool_decide_eq_true.
Qed.

Lemma forked_match row_id run step base g branches cs i :
  Forall2 (forked run row_id g step base) branches cs ->
  all_matched (fun i c b => child_matches row_id run step (base ++ [mkFrame FORK g b]) i c) i (imap (fun j c => (c, Z.of_nat (i + j))) cs) branches = true.
Proof.
  intros H. revert i. induction H as [|b c branches cs [E _] _ IH]; intros i; [done|]. cbn. apply andb_true_iff. split.
  - unfold child_matches. cbn. rewrite E. cbn. rewrite !bool_decide_eq_true_2 by done. cbn. apply andb_true_iff. split; [apply Z.eqb_eq; lia|done].
  - rewrite (imap_ext _ (fun j c => (c, Z.of_nat (S i + j)))); [apply IH|]. intros j x _. cbn. do 2 f_equal. lia.
Qed.

Lemma forked_group row_id run step base g branches cs :
  branches <> [] -> Forall2 (forked run row_id g step base) branches cs -> common_group FORK (imap (fun i c => (c, Z.of_nat i)) cs) = Some g.
Proof.
  intros Hne H. unfold common_group. rewrite (remove_dups_all _ g); [done|..].
  - destruct H as [|b c branches cs [E _] _]; [done|]. cbn. rewrite E. cbn. by rewrite last_snoc.
  - apply Forall_forall. intros y ([c i] & Hin & Hy)%list_elem_of_omap. apply elem_of_lookup_imap in Hin as (j & c' & [= -> ->] & Hj).
    destruct (Forall2_lookup_r _ _ _ _ _ H Hj) as (b & _ & [E _]). cbn in Hy. rewrite E in Hy. cbn in Hy. rewrite last_snoc in Hy. cbn in Hy. by injection Hy as <-.
Qed.

Lemma fork_checks s fence r row_id branches run item step supplied x s' :
  fork fence r row_id branches run item step supplied s = Ok (x, s') -> branches <> [] /\ ref_run_id r = run /\ ref_token_id r = item.
Proof.
  unfold fork_token. intros H. apply mint_bind_ok in H as (u1 & s1 & [Hb%bool_decide_eq_false ->]%stop_if_ok & H).
  apply mint_bind_ok in H as (u2 & s1 & [_ ->]%reads_ok & H). apply mint_bind_ok in H as (u3 & s1 & [_ ->]%reads_ok & H).
  apply mint_bind_ok in H as (u4 & s1 & [[H1%negb_false_iff%bool_decide_eq_true H2%negb_false_iff%bool_decide_eq_true]%orb_false_iff ->]%stop_if_ok & H). done.
Qed.

Lemma owner_resolves s t row : grounded s -> tokens s !! t = Some row -> resolve_token_ownership s t = Ok (tr_row_id row, tr_run_id row).
Proof. intros Hg Ht. unfold resolve_token_ownership. rewrite Ht, (gd_rows s Hg t row Ht). by rewrite bool_decide_eq_true_2. Qed.

(** What is on record of a fork, at any later time. *)
Record forked_before (s s2 : token_store) (r : TokenRef) (row : token_row) (g : string) (base : path) (cs : list Token) : Prop := {
  fb_grounded : grounded s2;
  fb_parent : tokens s2 !! ref_token_id r = Some row;
  fb_path : token_path s2 (ref_token_id r) = load_lineage_frames s (tr_run_id row) (ref_token_id r);
  fb_links : links_to (tr_run_id row) (ref_token_id r) cs `sublist_of` filter (fun l => pr_parent_id l = ref_token_id r) (parents s2);
  fb_children : Forall (fun c => tokens s2 !! t_token_id c = Some (row_of c) /\ token_path s2 (t_token_id c) = t_lineage_path c) cs;
  fb_decided : ref_run_id r = tr_run_id row -> terminal_of s2 r = Ok (Some (opener_outcome (ref_token_id r) FORK_PARENT));
}.

Lemma fork_stays s fence r row_id branches run item step supplied cs g s1 s2 :
  history empty_store s -> terminal_of s r = Ok None -> fork fence r row_id branches run item step supplied s = Ok ((cs, g), s1) -> history s1 s2 ->
  exists row base, forked_before s s2 r row g base cs /\ branches <> [] /\ ref_run_id r = run /\ ref_token_id r = item /\
    run = tr_run_id row /\ row_id = tr_row_id row /\ current_path s r run supplied = Ok base /\ Forall2 (forked run row_id g step base) branches cs.
Proof.
  intros [Hg _]%(history_grounded _ _ empty_grounded) Hn Hf Hh. destruct (fork_checks _ _ _ _ _ _ _ _ _ _ _ Hf) as (Hne & Hrun & Hitem).
  destruct (fork_mints _ _ _ _ _ _ _ _ _ _ _ _ _ Hg Hn Hf) as (row & base & Hm & Er & Erow & _ & Hb & Hcs & Ho & _).
  destruct (children_step _ _ _ _ _ _ _ _ _ Hg Hm) as [Hg1 K1]; [rewrite Ho; set_solver|]. destruct (history_grounded _ _ Hg1 Hh) as [Hg2 K2].
  pose proof (mc_parent _ _ _ _ _ _ _ _ _ Hm) as Ht. pose proof (mc_minted _ _ _ _ _ _ _ _ _ Hm) as Hmt.
  destruct (kp_tokens _ _ (kept_trans _ _ _ K1 K2) _ _ Ht) as [Ht2 Hp2].
  exists row, base. split_and!; try done. split; try done.
  - by rewrite Hp2, (load_frames s Hg _ _ Ht).
  - destruct (kp_parents _ _ K2) as [rest ->]. rewrite (mb_parents _ _ _ _ _ _ Hmt), !filter_app. apply sublist_inserts_r, sublist_inserts_l.
    rewrite filter_all; [done|]. apply Forall_forall. by intros l (? & _)%links_to_elem.
  - apply Forall_forall. intros c Hc. destruct (kp_tokens _ _ K2 _ _ (new_token Hmt c Hc)) as [Hc1 Hc2]. by rewrite (new_path Hg Hmt c Hc) in Hc2.
  - intros Hr. apply (one_terminal s2 r (tr_run_id row)); try done. apply (kp_outcomes _ _ K2). rewrite Ho, <- Er. apply elem_of_app. right. by left.
Qed.

(** The children of a fork, read back when they are all that the parent has. *)
Lemma forked_children_load s s2 r row_id branches run step g base cs row :
  forked_before s s2 r row g base cs -> ref_run_id r = run -> run = tr_run_id row -> Forall2 (forked run row_id g step base) branches cs ->
  filter (fun l => pr_parent_id l = ref_token_id r) (parents s2) = links_to run (ref_token_id r) cs ->
  load_children_for_parent s2 r = Ok (imap (fun i c => (c, Z.of_nat i)) cs).
Proof.
  intros Hb Hr -> Hcs Hlinks. pose proof (fb_children _ _ _ _ _ _ _ Hb) as Hch. rewrite Forall_forall in Hch.
  apply (load_children s2 r (tr_run_id row)); [apply Hb|done|done|]. apply Forall_forall. intros c Hc. destruct (Hch c Hc) as [Hc1 Hc2].
  apply list_elem_of_lookup in Hc as (j & Hj). destruct (Forall2_lookup_r _ _ _ _ _ Hcs Hj) as (b & _ & [E Htok]). split_and!; try done. by rewrite E.
Qed.

Lemma sublist_full {A} (l k : list A) : l `sublist_of` k -> (length k <= length l)%nat -> l = k.
Proof.
  induction 1 as [|x l k _ IH|x l k Hs _]; intros Hlen; [done| |].
  - f_equal. apply IH. cbn in Hlen. lia.
  - apply sublist_length in Hs. cbn in Hlen. lia.
Qed.

#[export] Instance parent_row_eq_dec : EqDecision parent_row.
Proof. solve_decision. Defined.

(** Children beside those of the fork are a divergence. *)
Lemma fork_replay_counts s s2 fence r row_id branches run item step supplied g base cs row x s' :
  forked_before s s2 r row g base cs -> ref_run_id r = run -> run = tr_run_id row -> Forall2 (forked run row_id g step base) branches cs ->
  fork fence r row_id branches run item step supplied s2 = Ok (x, s') ->
  filter (fun l => pr_parent_id l = ref_token_id r) (parents s2) = links_to run (ref_token_id r) cs.
Proof.
  intros Hb Hr Er Hcs H. destruct (fork_replay_compares _ _ _ _ _ _ _ _ _ _ _ _ (fb_decided _ _ _ _ _ _ _ Hb ltac:(congruence)) H) as (ch & p & g' & Hl & _ & Hm).
  destruct (all_matched_forall _ (fun _ => True) _ _ _ ltac:(done) Hm) as [_ Hlen].
  rewrite (loaded_children_length _ _ _ _ (fb_grounded _ _ _ _ _ _ _ Hb) (fb_parent _ _ _ _ _ _ _ Hb) ltac:(congruence) Hl) in Hlen.
  symmetry. pose proof (fb_links _ _ _ _ _ _ _ Hb) as Hsub. rewrite <- Er in Hsub. apply sublist_full; [done|]. apply Forall2_length in Hcs.
  unfold links_to. rewrite length_imap. lia.
Qed.

(** C15. A fork that is driven again after a crash returns what it committed.  If a
    fork was built on its parent's recorded path, then at any later time the
    same call, whatever path the caller supplies now, does one of two things.
    As long as the parent's recorded children are those of the fork and no
    others, it returns the same children and the same group and writes nothing.
    If the parent has other recorded children (it was also merged, say), it is
    refused. *)
Theorem fork_replay_is_exact s fence r row_id branches run item step supplied cs g s1 s2 supplied' :
  history empty_store s -> terminal_of s r = Ok None -> fork fence r row_id branches run item step supplied s = Ok ((cs, g), s1) ->
  current_path s r run supplied = Ok (load_lineage_frames s run (ref_token_id r)) -> history s1 s2 ->
  let again := fork (Ok tt) r row_id branches run item step supplied' s2 in
  if decide (filter (fun l => pr_parent_id l = ref_token_id r) (parents s2) = links_to run (ref_token_id r) cs)
  then again = Ok ((cs, g), s2) else exists e, again = Err e.
Proof.
  intros H0 Hn Hf Hcur Hh again.
  destruct (fork_stays _ _ _ _ _ _ _ _ _ _ _ _ _ H0 Hn Hf Hh) as (row & base & Hb & Hne & Hrun & Hitem & Er & Erow & Hbase & Hcs). rewrite Hcur in Hbase. injection Hbase as Ebase.
  case_decide as Hlinks.
  2: { destruct again as [[x s']|e] eqn:E; [|by exists e]. destruct Hlinks. by eapply fork_replay_counts. }
  subst again. pose proof (fb_grounded _ _ _ _ _ _ _ Hb) as Hg2. pose proof (fb_parent _ _ _ _ _ _ _ Hb) as Ht2. pose proof (fb_path _ _ _ _ _ _ _ Hb) as Hp2. rewrite <- Er, Ebase in Hp2.
  pose proof (fb_decided _ _ _ _ _ _ _ Hb ltac:(congruence)) as Hterm.
  pose proof (forked_children_load _ _ _ _ _ _ _ _ _ _ _ Hb Hrun Er Hcs Hlinks) as Hload. rewrite Er in Hrun. subst run row_id.
  unfold fork_token. apply mint_bind_ok. exists tt, s2. split; [apply stop_if_ok; by rewrite bool_decide_eq_false|].
  apply mint_bind_ok. exists tt, s2. split. { apply reads_ok. unfold validate_token_run_ownership. rewrite (owner_resolves _ _ _ Hg2 Ht2). cbn. by rewrite Hrun, bool_decide_eq_true_2. }
  apply mint_bind_ok. exists tt, s2. split. { apply reads_ok. unfold validate_token_row_ownership. rewrite (owner_resolves _ _ _ Hg2 Ht2). cbn. by rewrite bool_decide_eq_true_2. }
  apply mint_bind_ok. exists tt, s2. split. { apply stop_if_ok. by rewrite Hrun, Hitem, !bool_decide_eq_true_2. }
  apply mint_bind_ok. exists tt, s2. split; [by apply checked_ok|]. apply mint_bind_ok. eexists _, s2. split; [by apply reads_ok|].
  unfold reconcile_fork_replay. apply mint_bind_ok. eexists _, s2. split; [by apply reads_ok|]. apply mint_bind_ok. eexists _, s2.
  split; [apply reads_ok; rewrite Hrun; split; [by apply load_path|done]|]. rewrite (forked_group _ _ _ _ _ _ _ Hne Hcs). apply mint_bind_ok. exists tt, s2. split.
  - apply stop_if_ok. split; [|done]. apply negb_false_iff. rewrite !bool_decide_eq_true_2 by done. cbn [andb]. apply andb_true_iff. split.
    + apply Nat.eqb_eq. rewrite length_imap. symmetry. by eapply Forall2_length.
    + rewrite Hp2, Hrun. apply (forked_match _ _ _ _ _ _ _ 0 Hcs).
  - apply mint_ret_ok. split; [|done]. f_equal. apply list_eq. intros i. rewrite list_lookup_fmap, list_lookup_imap. by destruct (cs !! i).
Qed.

(** C40. The replay of a fork compares the children with the parent's recorded path,
    not with the path the fork was built on.  A fork is accepted on a path other
    than the recorded one only if a row union released the parent and the path
    is the recorded one without a FORK frame; and once such a fork has been
    committed, the same call is refused at every later time, whatever path the
    caller supplies, so that it can never be driven again after a crash. *)
Theorem released_parent_replay_refused s fence r row_id branches run item step p cs g s1 :
  history empty_store s -> terminal_of s r = Ok None -> fork fence r row_id branches run item step (Some p) s = Ok ((cs, g), s1) ->
  p <> load_lineage_frames s run (ref_token_id r) ->
  row_union_release_witness s run (ref_token_id r) = true /\
  (exists f, f ∈ load_lineage_frames s run (ref_token_id r) /\ kind f = FORK /\ pop_fork_frame (load_lineage_frames s run (ref_token_id r)) (group_id f) = Ok p) /\
  forall s2 fence' supplied', history s1 s2 -> exists e, fork fence' r row_id branches run item step supplied' s2 = Err e.
Proof.
  intros H0 Hn Hf Hp. destruct (fork_stays _ _ _ _ _ _ _ _ _ _ _ _ s1 H0 Hn Hf (rtc_refl _ _)) as (row0 & base0 & _ & _ & Hrun & _ & _ & _ & Hcur & _).
  assert (Hrel : row_union_release_witness s run (ref_token_id r) = true /\
    exists f, f ∈ load_lineage_frames s run (ref_token_id r) /\ kind f = FORK /\ pop_fork_frame (load_lineage_frames s run (ref_token_id r)) (group_id f) = Ok p).
  { cbn in Hcur. apply bind_ok in Hcur as (u & Ha & _). unfold assert_parent_lineage in Ha. rewrite Hrun in Ha.
    rewrite bool_decide_eq_false_2 in Ha by done. destruct (_ && existsb _ _) eqn:Ew; [|done]. apply andb_true_iff in Ew as [[_ Hw]%andb_true_iff (f & Hin%list_elem_of_In & Hx)%existsb_exists].
    apply andb_true_iff in Hx as [Hk%bool_decide_eq_true Hpop%bool_decide_eq_true]. eauto. }
  destruct Hrel as [Hw Hpop]. split; [done|]. split; [done|]. intros s2 fence' supplied' Hh.
  destruct (fork fence' r row_id branches run item step supplied' s2) as [[x s']|e] eqn:E; [exfalso|by exists e].
  destruct (fork_stays _ _ _ _ _ _ _ _ _ _ _ _ _ H0 Hn Hf Hh) as (row & base & Hb & Hne & _ & _ & Er & _ & Hbase & Hcs).
  assert (base = p) as ->. { cbn in Hbase. by apply bind_ok in Hbase as (u & _ & [= <-]). }
  destruct (fork_replay_compares _ _ _ _ _ _ _ _ _ _ _ _ (fb_decided _ _ _ _ _ _ _ Hb ltac:(congruence)) E) as (ch & q & g' & Hl & Hq & Hm).
  rewrite (forked_children_load _ _ _ _ _ _ _ _ _ _ _ Hb Hrun Er Hcs) in Hl by (by eapply fork_replay_counts). injection Hl as <-.
  rewrite Hrun, Er, (load_path s2 (fb_grounded _ _ _ _ _ _ _ Hb) _ _ (fb_parent _ _ _ _ _ _ _ Hb)) in Hq. injection Hq as <-.
  rewrite (fb_path _ _ _ _ _ _ _ Hb), <- Er in Hm. destruct Hcs as [|b c branches cs [Ec _] _]; [done|]. cbn in Hm.
  apply andb_true_iff in Hm as [[_ Hm%bool_decide_eq_true]%andb_true_iff _]. rewrite Ec in Hm. cbn in Hm. by apply app_inj_tail in Hm as [? _].
Qed.
End history.

(** ** Histories *)
Module TokenExample.
Definition ids (n : nat) : string := ("id" ++ pretty.pretty n)%string.
Definition no_hash (l : list string) : string := String.concat "," l.
Definition no_effect_hash (l : list string) (step : option Z) (ref : string) : string := (no_hash l ++ ref)%string.
Notation past := (history ids (@id string) (@id string) no_hash no_effect_hash).

Definition state_of {A} (r : res (A * token_store)) : token_store := match r with Ok (_, s) => s | Err _ => empty_store end.

Lemma ran {A} (r : res (A * token_store)) : is_ok r = true -> exists x, r = Ok (x, state_of r).
Proof. destruct r as [[x s]|]; [eauto|done]. Qed.

Definition source : token_store := with_source empty_store "row" "run" "t".
Lemma source_past : past empty_store source.
Proof. apply rtc_once. by constructor. Qed.

Definition ref (t : string) : TokenRef := mkRef t "run".
Notation fork_t := (fork_token ids (Ok tt) (ref "t") "row" ["a"; "b"] "run" "t" None None).
Definition forked : token_store := state_of (fork_t source).
Lemma forked_past : past empty_store forked.
Proof.
  destruct (ran (fork_t source)) as [x E]; [vm_compute; reflexivity|]. eapply rtc_r; [exact source_past|]. exact (ms_fork _ _ _ _ _ _ _ _ _ _ _ _ _ _ _ _ E).
Qed.

(** The row union [u] released the first branch: its work item left BLOCKED. *)
Definition released_item : work_item :=
  mkItem (mkWorkKey "run" "id1" "row" None 0 0 None None "" None None (Some "u") None) (RowJson "") READY None None no_bundle 0 None None 0 None None 0 0.
Definition with_work (s : token_store) (w : gmap string work_item) : token_store :=
  mkStore (rows s) (tokens s) (parents s) (frames s) (groups s) (outcomes s) (effects s) w (states s) (expansions s) (members s) (minted s).

Lemma with_work_past s w : past empty_store s -> past empty_store (with_work s w).
Proof.
  intros H. pose proof (history_grounded _ _ _ _ _ _ _ empty_grounded H) as [Hg _]. eapply rtc_r; [exact H|].
  apply ms_other; [by split|reflexivity|apply (gd_decided s Hg)].
Qed.

Definition released : token_store := with_work forked {["w" := released_item]}.
Lemma released_past : past empty_store released.
Proof. exact (with_work_past _ _ forked_past). Qed.

Notation fork_released := (fork_token ids (Ok tt) (ref "id1") "row" ["x"; "y"] "run" "id1" None (Some [])).

Notation merge := (coalesce_tokens ids (@id string) (@id string) no_hash no_effect_hash (Ok tt) [ref "id1"; ref "id2"] "row" "payload" "run" (Some "join") None None
  (Some [("id1", [mkFrame FORK "id0" "a"]); ("id2", [mkFrame FORK "id0" "b"])])).
Notation expand_t := (expand_token ids (@id string) (@id string) (Ok tt) (ref "t") "row" ["p"; "q"] "run" None EXPAND_PARENT None [] None).
Definition expanded_store : token_store := state_of (expand_t source).
Notation collect_t := (collect_tokens ids (@id string) (@id string) (Ok tt) [ref "id1"; ref "id2"] "id0" ["out"] "run" None
  (Some [("id1", [mkFrame EXPAND "id0" "id1"]); ("id2", [mkFrame EXPAND "id0" "id2"])])).

Definition branch (i b : string) : Token := mkTok i "row" "run" None [mkFrame FORK "id0" b] None None.
Definition row_token (i p : string) : Token := mkTok i "row" "run" None [mkFrame EXPAND "id0" i] None (Some p).
Definition merged_token : Token := mkTok "id5" "row" "run" (Some "id4") [] None (Some "payload").

Lemma fork_t_runs : fork_t source = Ok (([branch "id1" "a"; branch "id2" "b"], "id0"), forked).
Proof. vm_compute. reflexivity. Qed.
Lemma fork_released_runs :
  fork_released released = Ok (([mkTok "id5" "row" "run" None [mkFrame FORK "id4" "x"] None None; mkTok "id6" "row" "run" None [mkFrame FORK "id4" "y"] None None], "id4"),
                               state_of (fork_released released)).
Proof. vm_compute. reflexivity. Qed.
Lemma merge_runs : merge forked = Ok (merged_token, state_of (merge forked)).
Proof. vm_compute. reflexivity. Qed.
Lemma expand_t_runs : expand_t source = Ok (([row_token "id1" "p"; row_token "id2" "q"], "id0"), expanded_store).
Proof. vm_compute. reflexivity. Qed.
Lemma collect_t_runs : collect_t expanded_store = Ok (("id4", ["id5"]), state_of (collect_t expanded_store)).
Proof. vm_compute. reflexivity. Qed.

(** A member as it was minted. *)
Lemma member_minted s cs c : c ∈ cs -> member_path s "run" cs (t_lineage_path c).
Proof. intros Hc. exists c, []. rewrite app_nil_r. split_and!; [done|done|constructor]. Qed.
End TokenExample.

Lemma minted_lineage_is_grounded_witness : exists p, load_lineage_path TokenExample.forked "run" "id1" = Ok p.
Proof.
  destruct (minted_lineage_is_grounded _ _ _ _ _ TokenExample.forked TokenExample.forked_past) as (H & _).
  destruct (H "id1" (mkTokenRow "row" "run" None None None)) as (p & Hp & _); [vm_compute; reflexivity|]. exists p. exact Hp.
Defined.

Lemma coalesce_restores_the_forked_path_witness : t_lineage_path TokenExample.merged_token = [].
Proof.
  refine (proj1 (coalesce_restores_the_forked_path _ _ _ _ _ TokenExample.source _ _ _ _ _ _ _ _ _ _ TokenExample.forked [] TokenExample.forked
    (Ok tt) [TokenExample.ref "id1"; TokenExample.ref "id2"] _ _ _ _ _ _ _ _ _ _ TokenExample.source_past _ TokenExample.fork_t_runs _ (rtc_refl _ _) _
    (TokenExample.member_minted _ _ (TokenExample.branch "id1" "a") _) TokenExample.merge_runs _));
    [vm_compute; reflexivity|vm_compute; reflexivity|vm_compute; reflexivity|left|vm_compute; reflexivity].
Defined.

Lemma collect_restores_the_expanded_path_witness : is_release_group (TokenExample.state_of (TokenExample.collect_t TokenExample.expanded_store)) "run" "id4" = Ok true.
Proof.
  refine (proj2 (proj2 (collect_restores_the_expanded_path _ _ _ TokenExample.no_hash TokenExample.no_effect_hash TokenExample.source _ _ _ _ _ _ _ _ _ _ _ _ TokenExample.expanded_store []
    TokenExample.expanded_store (Ok tt) [TokenExample.ref "id1"; TokenExample.ref "id2"] _ _ _ _ _ _ _ _ TokenExample.source_past _ TokenExample.expand_t_runs _ (rtc_refl _ _) _
    (TokenExample.member_minted _ _ (TokenExample.row_token "id1" "p") _) TokenExample.collect_t_runs)) _ eq_refl _);
    [vm_compute; reflexivity|vm_compute; reflexivity|vm_compute; reflexivity|left|vm_compute; reflexivity].
Defined.

Lemma fork_replay_is_exact_witness :
  TokenExample.fork_t TokenExample.forked = Ok (([TokenExample.branch "id1" "a"; TokenExample.branch "id2" "b"], "id0"), TokenExample.forked).
Proof.
  pose proof (fork_replay_is_exact _ _ _ TokenExample.no_hash TokenExample.no_effect_hash TokenExample.source _ _ _ _ _ _ _ _ _ _ TokenExample.forked TokenExample.forked None
    TokenExample.source_past ltac:(vm_compute; reflexivity) TokenExample.fork_t_runs ltac:(vm_compute; reflexivity) (rtc_refl _ _)) as H.
  cbv zeta in H. rewrite decide_True in H by (vm_compute; reflexivity). exact H.
Defined.

(** The first branch of a fork, released by a row union and forked again. *)
Lemma released_parent_replay_refused_witness :
  row_union_release_witness TokenExample.released "run" "id1" = true /\
  exists e, TokenExample.fork_released (TokenExample.state_of (TokenExample.fork_released TokenExample.released)) = Err e.
Proof.
  destruct (released_parent_replay_refused TokenExample.ids (@id string) (@id string) TokenExample.no_hash TokenExample.no_effect_hash TokenExample.released
              (Ok tt) (TokenExample.ref "id1") "row" ["x"; "y"] "run" "id1" None [] _ _ _ TokenExample.released_past ltac:(vm_compute; reflexivity)
              TokenExample.fork_released_runs ltac:(vm_compute; discriminate)) as (Hw & _ & Hr).
  split; [exact Hw|]. exact (Hr _ (Ok tt) (Some []) (rtc_refl _ _)).
Defined.
